(** * Dependency analyzer of the AION extension: a shallow embedding

    This development embeds [src/dependencyManager.ts] (class
    [DependencyManager]) together with the declarations of
    [projectScanner.ts] it uses ([FileType], [FileInfo],
    [ProjectStructure]) and states the behaviour of the extractor, the
    path resolver, the cache, the graph builder and the cycle detector.

    Conventions of the embedding:
    - a JavaScript string is a [string]; every [ascii] stands for one
      UTF-16 code unit in the range 0..255;
    - a JavaScript [Map] is an association list kept in insertion order
      ([jsmap]), the dependency cache (never iterated) is a [gmap], the
      [Set] of visited nodes is a [gset];
    - effects (reading a file, probing the disk, logging an error,
      updating the cache) are threaded through a state monad [M]; the
      calls of the asynchronous methods follow one another, as they do in
      the source, where every call is awaited before the next is made;
    - regular expressions are values of an abstract syntax [regex] run by
      a backtracking matcher with the priorities of ECMAScript;
    - the built-ins of the host are embedded with the code: [path] in
      its POSIX flavour, [JSON.parse] as a reader of the JSON grammar. *)

From Stdlib Require Import ZArith Ascii String List Bool Lia DecimalString DecimalNat.
From stdpp Require Import gmap strings list.

Local Open Scope string_scope.
Local Open Scope list_scope.

(** ** Strings *)

Module JS.

(** [s.startsWith(p)] *)
Definition startsWith (s p : string) : bool := String.prefix p s.

(** [s.includes(p)] *)
Fixpoint includes (s p : string) : bool :=
  String.prefix p s ||
  match s with
  | EmptyString => false
  | String _ s' => includes s' p
  end.

(** [s.endsWith(p)] *)
Definition endsWith (s p : string) : bool :=
  let n := String.length s in
  let m := String.length p in
  (m <=? n)%nat && String.eqb (String.substring (n - m) m s) p.

(** [s.split('\n')]: never empty, the empty string gives one empty line. *)
Fixpoint split_lines (s : string) : list string :=
  match s with
  | EmptyString => [EmptyString]
  | String c s' =>
      if Ascii.eqb c "010"%char then EmptyString :: split_lines s'
      else match split_lines s' with
           | l :: ls => String c l :: ls
           | [] => [String c EmptyString]
           end
  end.

(** [xs.includes(x)] on an array of strings. *)
Definition array_includes (xs : list string) (x : string) : bool :=
  existsb (String.eqb x) xs.

(** [xs.indexOf(x)]: [None] stands for [-1]. *)
Fixpoint indexOf (xs : list string) (x : string) : option nat :=
  match xs with
  | [] => None
  | y :: ys => if String.eqb y x then Some 0%nat
               else option_map S (indexOf ys x)
  end.

(** [xs.slice(i)] *)
Definition slice_from {A} (i : nat) (xs : list A) : list A := skipn i xs.

(** Decimal rendering of an array index, as in [String(i)]. *)
Definition string_of_nat (n : nat) : string :=
  NilEmpty.string_of_uint (Nat.to_uint n).

End JS.

(** ** Regular expressions

    The fragment of ECMAScript regular expressions the source uses:
    characters, character classes, concatenation, alternation, greedy
    repetition and capturing groups.  [run] is the backtracking matcher
    in continuation-passing style: alternatives are tried left to right
    and a repetition first tries one more iteration. *)

Module Regex.

Inductive regex : Type :=
| Empty
| Char (c : ascii)
| Class (p : ascii -> bool)
| Seq (r1 r2 : regex)
| Alt (r1 r2 : regex)
| Star (r : regex)
| Group (n : nat) (r : regex).

(** [r+] and [r?] (both greedy). *)
Definition Plus (r : regex) : regex := Seq r (Star r).
Definition Opt (r : regex) : regex := Alt r Empty.

Fixpoint lit (s : string) : regex :=
  match s with
  | EmptyString => Empty
  | String c EmptyString => Char c
  | String c s' => Seq (Char c) (lit s')
  end.

Definition captures := list (nat * string).
Definition result := option (string * captures).
Definition cont := string -> captures -> result.

(** The text consumed between the input [s] and its suffix [s']. *)
Definition consumed (s s' : string) : string :=
  String.substring 0 (String.length s - String.length s') s.

(** The loop of a greedy repetition: [step] runs one iteration of the
    body.  An iteration that consumes nothing is refused, so that
    [fuel], the length of the input, is never exhausted; when no further
    iteration leads to a match the repetition stops where it is. *)
Fixpoint star_loop (step : string -> captures -> cont -> result) (k : cont)
  (fuel : nat) (s : string) (caps : captures) {struct fuel} : result :=
  match fuel with
  | O => k s caps
  | S fuel' =>
      match step s caps
              (fun s' caps' =>
                 if (String.length s' <? String.length s)%nat
                 then star_loop step k fuel' s' caps' else None) with
      | Some x => Some x
      | None => k s caps
      end
  end.

Fixpoint run (r : regex) (s : string) (caps : captures) (k : cont) {struct r} : result :=
  match r with
  | Empty => k s caps
  | Char c =>
      match s with
      | String c' s' => if Ascii.eqb c c' then k s' caps else None
      | EmptyString => None
      end
  | Class p =>
      match s with
      | String c' s' => if p c' then k s' caps else None
      | EmptyString => None
      end
  | Seq r1 r2 => run r1 s caps (fun s' caps' => run r2 s' caps' k)
  | Alt r1 r2 =>
      match run r1 s caps k with
      | Some x => Some x
      | None => run r2 s caps k
      end
  | Star r' => star_loop (run r') k (String.length s) s caps
  | Group n r' =>
      run r' s caps (fun s' caps' => k s' ((n, consumed s s') :: caps'))
  end.

(** One element of the array returned by [matchAll]: [m0] is
    [match[0]], [mcaps] holds the captured groups. *)
Record Match : Type := mkMatch { m0 : string; mcaps : captures }.

(** [match[n]] for a group that took part in the match. *)
Fixpoint lookup_cap (n : nat) (caps : captures) : string :=
  match caps with
  | [] => EmptyString
  | (i, v) :: caps' => if Nat.eqb i n then v else lookup_cap n caps'
  end.

Definition group (m : Match) (n : nat) : string := lookup_cap n (mcaps m).

(** A match attempt that starts exactly at the head of [s]. *)
Definition exec_at (r : regex) (s : string) : option Match :=
  match run r s [] (fun s' caps => Some (s', caps)) with
  | Some (s', caps) => Some (mkMatch (consumed s s') caps)
  | None => None
  end.

(** [matchAll] with the [g] flag: the leftmost match, then the search
    resumes where it ended (one position further after an empty
    match).  [skip] counts the characters of [s] that belong to the
    match just reported. *)
Fixpoint matchAll_from (r : regex) (skip : nat) (s : string) {struct s} : list Match :=
  match skip with
  | S skip' =>
      match s with
      | String _ s' => matchAll_from r skip' s'
      | EmptyString => []
      end
  | O =>
      match exec_at r s with
      | Some m =>
          m :: match s with
               | String _ s' => matchAll_from r (Nat.pred (String.length (m0 m))) s'
               | EmptyString => []
               end
      | None =>
          match s with
          | String _ s' => matchAll_from r 0 s'
          | EmptyString => []
          end
      end
  end.

Definition matchAll (r : regex) (s : string) : list Match := matchAll_from r 0 s.

(** Character classes. *)
Fixpoint one_of (cs : string) (c : ascii) : bool :=
  match cs with
  | EmptyString => false
  | String c' cs' => Ascii.eqb c' c || one_of cs' c
  end.

Definition none_of (cs : string) (c : ascii) : bool := negb (one_of cs c).

(** [\s] on code units below 256: TAB, LF, VT, FF, CR, space, NBSP. *)
Definition is_space (c : ascii) : bool :=
  let n := nat_of_ascii c in
  ((9 <=? n) && (n <=? 13) || (n =? 32) || (n =? 160))%nat.

(** [\w] is [A-Za-z0-9_]. *)
Definition is_word (c : ascii) : bool :=
  let n := nat_of_ascii c in
  ((65 <=? n) && (n <=? 90) || (97 <=? n) && (n <=? 122)
   || (48 <=? n) && (n <=? 57) || (n =? 95))%nat.

(** [[\w$]] *)
Definition is_word_or_dollar (c : ascii) : bool :=
  is_word c || Ascii.eqb c "$"%char.

End Regex.


(** ** The patterns of the extractor

    Each definition is the abstract syntax of the regular expression
    literal quoted above it.  In these quotations [Q] stands for the
    class of the two quote characters (single and double), written
    with both characters between brackets in the source, and [^Q] for
    its complement. *)

Module Patterns.
Import Regex.

(** Concatenation of a sequence of sub-patterns. *)
Fixpoint cat (rs : list regex) : regex :=
  match rs with
  | [] => Empty
  | [r] => r
  | r :: rs' => Seq r (cat rs')
  end.

Definition dquote : ascii := "034"%char.
Definition squote : ascii := "039"%char.

(** [\s] and [[\w$]+] *)
Definition ws : regex := Class is_space.
Definition ident : regex := Plus (Class is_word_or_dollar).

(** [Q] and [[^Q]+] *)
Definition quote : regex := Class (fun c => Ascii.eqb c squote || Ascii.eqb c dquote).
Definition unquoted : regex :=
  Plus (Class (fun c => negb (Ascii.eqb c squote || Ascii.eqb c dquote))).

(** [\{[^}]*\}] *)
Definition braces : regex := cat [Char "{"; Star (Class (none_of "}")); Char "}"].

(** [(?:\{[^}]*\}|\*|[\w$]+)(?:\s+as\s+[\w$]+)?] *)
Definition binding : regex :=
  cat [Alt braces (Alt (Char "*") ident);
       Opt (cat [Plus ws; lit "as"; Plus ws; ident])].

(** [/import\s+(?:B)?(?:\s*,\s*B)?(?:\s*,\s*B)?(?:\s+from)?\s+Q([^Q]+)Q/g]
    where [B] is [binding]. *)
Definition importPattern : regex :=
  cat [lit "import"; Plus ws;
       Opt binding;
       Opt (cat [Star ws; Char ","; Star ws; binding]);
       Opt (cat [Star ws; Char ","; Star ws; binding]);
       Opt (cat [Plus ws; lit "from"]);
       Plus ws; quote; Group 1 unquoted; quote].

(** [/(?:const|let|var)\s+(?:[\w$]+|\{[^}]*\})\s*=\s*require\(\s*Q([^Q]+)Q\s*\)/g] *)
Definition requirePattern : regex :=
  cat [Alt (lit "const") (Alt (lit "let") (lit "var")); Plus ws;
       Alt ident braces; Star ws; Char "="; Star ws;
       lit "require("; Star ws; quote; Group 1 unquoted; quote; Star ws; Char ")"].

(** [/import\(\s*Q([^Q]+)Q\s*\)/g] *)
Definition dynamicImportPattern : regex :=
  cat [lit "import("; Star ws; quote; Group 1 unquoted; quote; Star ws; Char ")"].

(** [/\/\/\/\s*<reference\s+path\s*=\s*Q([^Q]+)Q\s*\/>/g] *)
Definition referencePattern : regex :=
  cat [lit "///"; Star ws; lit "<reference"; Plus ws; lit "path"; Star ws;
       Char "="; Star ws; quote; Group 1 unquoted; quote; Star ws; lit "/>"].

(** [/<TAG[^>]*ATTR=Q([^Q]+)Q[^>]*>/g] for
    [<script src>], [<link href>] and [<img src>]. *)
Definition tagPattern (tag attr : string) : regex :=
  cat [Char "<"; lit tag; Star (Class (none_of ">")); lit attr; Char "=";
       quote; Group 1 unquoted; quote; Star (Class (none_of ">")); Char ">"].

Definition scriptPattern : regex := tagPattern "script" "src".
Definition linkPattern : regex := tagPattern "link" "href".
Definition imgPattern : regex := tagPattern "img" "src".

(** [/@import\s+(?:url\()?Q([^Q]+)Q(?:\))?/g] *)
Definition cssImportPattern : regex :=
  cat [lit "@import"; Plus ws; Opt (lit "url("); quote; Group 1 unquoted; quote;
       Opt (Char ")")].

(** [/url\(Q?(U)Q?\)/g] where [U] is one or more characters other
    than a quote character and the closing parenthesis. *)
Definition cssUrlPattern : regex :=
  cat [lit "url("; Opt quote;
       Group 1 (Plus (Class (fun c => negb (Ascii.eqb c dquote || Ascii.eqb c squote
                                            || Ascii.eqb c ")"))));
       Opt quote; Char ")"].

(** [/!\[(ALT)\]\((DEST)\)/g] where [ALT] is [[^\]]*] and [DEST] is
    [[^)]+]. *)
Definition mdImagePattern : regex :=
  cat [lit "!["; Group 1 (Star (Class (none_of "]"))); lit "](";
       Group 2 (Plus (Class (none_of ")"))); Char ")"].

(** [/\[(TEXT)\]\((DEST)\)/g] where [TEXT] is [[^\]]+] and [DEST] is
    [[^)]+]. *)
Definition mdLinkPattern : regex :=
  cat [Char "["; Group 1 (Plus (Class (none_of "]"))); lit "](";
       Group 2 (Plus (Class (none_of ")"))); Char ")"].

End Patterns.

(** ** Node's [path] module (POSIX flavour) *)

Module Path.

Definition slash : ascii := "/"%char.
Definition dot : ascii := "."%char.

(** Splitting at every [/]; the pieces between two slashes may be empty. *)
Fixpoint segments (s : string) : list string :=
  match s with
  | EmptyString => [EmptyString]
  | String c s' =>
      if Ascii.eqb c slash then EmptyString :: segments s'
      else match segments s' with
           | seg :: segs => String c seg :: segs
           | [] => [String c EmptyString]
           end
  end.

(** One step of [normalizeString]: [acc] holds the segments kept so far,
    innermost first. *)
Definition push_segment (allowAboveRoot : bool) (acc : list string) (seg : string)
  : list string :=
  if String.eqb seg "" || String.eqb seg "." then acc
  else if String.eqb seg ".." then
    match acc with
    | top :: acc' =>
        if String.eqb top ".." then seg :: acc else acc'
    | [] => if allowAboveRoot then [seg] else []
    end
  else seg :: acc.

(** [normalizeString(path, allowAboveRoot, '/', isPosixPathSeparator)]:
    empty and [.] segments vanish, [..] removes the segment before it. *)
Definition normalizeString (p : string) (allowAboveRoot : bool) : string :=
  String.concat "/" (rev (fold_left (push_segment allowAboveRoot) (segments p) [])).

Definition isAbsolute (p : string) : bool := JS.startsWith p "/".

(** [path.normalize] *)
Definition normalize (p : string) : string :=
  if String.eqb p "" then "."
  else
    let abs := isAbsolute p in
    let trailing := JS.endsWith p "/" in
    let q := normalizeString p (negb abs) in
    if String.eqb q "" then
      (if abs then "/" else if trailing then "./" else ".")
    else
      let q' := if trailing then q +:+ "/" else q in
      if abs then "/" +:+ q' else q'.

(** [path.join(a, b)] *)
Definition join (a b : string) : string :=
  if String.eqb a "" then (if String.eqb b "" then "." else normalize b)
  else if String.eqb b "" then normalize a
  else normalize (a +:+ "/" +:+ b).

(** [path.resolve(a, b)], [cwd] being [process.cwd()]: the arguments are
    taken from the right until an absolute one is met. *)
Definition resolve (cwd a b : string) : string :=
  let step (acc : string * bool) (p : string) : string * bool :=
    let '(resolvedPath, resolvedAbsolute) := acc in
    if resolvedAbsolute then acc
    else if String.eqb p "" then acc
    else (p +:+ "/" +:+ resolvedPath, isAbsolute p) in
  let '(resolvedPath, resolvedAbsolute) := fold_left step [b; a; cwd] ("", false) in
  let q := normalizeString resolvedPath (negb resolvedAbsolute) in
  if resolvedAbsolute then "/" +:+ q
  else if String.eqb q "" then "." else q.

(** The backwards scan of [path.dirname]: [r] is the path without its
    first character, reversed.  The result is what remains before the
    slash that ends the directory part. *)
Fixpoint dirname_scan (r : list ascii) (matchedSlash : bool) : option (list ascii) :=
  match r with
  | [] => None
  | c :: r' =>
      if Ascii.eqb c slash then
        (if matchedSlash then dirname_scan r' true else Some r')
      else dirname_scan r' false
  end.

(** [path.dirname] *)
Definition dirname (p : string) : string :=
  match p with
  | EmptyString => "."
  | String c0 t =>
      let hasRoot := Ascii.eqb c0 slash in
      match dirname_scan (rev (list_ascii_of_string t)) true with
      | None => if hasRoot then "/" else "."
      | Some r' =>
          match r' with
          | [] => if hasRoot then "//" else String c0 EmptyString
          | _ => String c0 (string_of_list_ascii (rev r'))
          end
      end
  end.

(** The state of the backwards scan of [path.extname]; positions are
    counted from the start of the path, [None] stands for [-1]. *)
Record ext_state : Type := mkExt {
  startDot : option nat;
  startPart : nat;
  endPos : option nat;
  matchedSlash : bool;
  preDotState : Z;
  stopped : bool
}.

Definition ext_step (st : ext_state) (ic : nat * ascii) : ext_state :=
  let '(i, code) := ic in
  if stopped st then st
  else if Ascii.eqb code slash then
    (if matchedSlash st then st
     else mkExt (startDot st) (S i) (endPos st) (matchedSlash st) (preDotState st) true)
  else
    let st1 :=
      match endPos st with
      | None => mkExt (startDot st) (startPart st) (Some (S i)) false (preDotState st) false
      | Some _ => st
      end in
    if Ascii.eqb code dot then
      match startDot st1 with
      | None => mkExt (Some i) (startPart st1) (endPos st1) (matchedSlash st1)
                      (preDotState st1) false
      | Some _ =>
          if Z.eqb (preDotState st1) 1 then st1
          else mkExt (startDot st1) (startPart st1) (endPos st1) (matchedSlash st1) 1 false
      end
    else
      match startDot st1 with
      | Some _ => mkExt (startDot st1) (startPart st1) (endPos st1) (matchedSlash st1)
                        (-1) false
      | None => st1
      end.

(** The characters of [p] with their positions, last one first. *)
Definition indexed_rev (p : string) : list (nat * ascii) :=
  rev (combine (seq 0 (String.length p)) (list_ascii_of_string p)).

(** [path.extname] *)
Definition extname (p : string) : string :=
  let st := fold_left ext_step (indexed_rev p) (mkExt None 0 None true 0 false) in
  match startDot st, endPos st with
  | Some sd, Some e =>
      if Z.eqb (preDotState st) 0 then ""
      else if Z.eqb (preDotState st) 1 && Nat.eqb sd (e - 1) && Nat.eqb sd (startPart st + 1)
      then ""
      else String.substring sd (e - sd) p
  | _, _ => ""
  end.

End Path.

(** ** JSON values and [JSON.parse]

    [JSON.parse] is a built-in of the host; [read] is a recursive
    descent reader of the JSON grammar (ECMA-404) over a text of code
    units below 256.  An escape [\uXXXX] of such a text can denote a
    code unit above that range, which no [ascii] stands for: the reader
    is told what to put in its place, [wide], and gives up at such an
    escape when it is told nothing. *)

Module Json.

#[local] Set Warnings "-register-all".

Inductive JSON : Type :=
| JNull
| JBool (b : bool)
| JNumber (raw : string)
| JString (s : string)
| JArray (xs : list JSON)
| JObject (props : list (string * JSON)).

Definition is_digit (c : ascii) : bool :=
  let n := nat_of_ascii c in ((48 <=? n) && (n <=? 57))%nat.

Definition is_json_ws (c : ascii) : bool :=
  let n := nat_of_ascii c in ((n =? 32) || (n =? 9) || (n =? 10) || (n =? 13))%nat.

Fixpoint skip_ws (s : string) : string :=
  match s with
  | String c s' => if is_json_ws c then skip_ws s' else s
  | EmptyString => s
  end.

Definition hex_value (c : ascii) : option nat :=
  let n := nat_of_ascii c in
  if ((48 <=? n) && (n <=? 57))%nat then Some (n - 48)%nat
  else if ((97 <=? n) && (n <=? 102))%nat then Some (n - 87)%nat
  else if ((65 <=? n) && (n <=? 70))%nat then Some (n - 55)%nat
  else None.

Section Reader.

(** What the reader puts in the place of a code unit above 255, if
    anything. *)
Variable wide : option ascii.

(** The code unit denoted by the four hexadecimal digits of a unicode
    escape; four characters that are not all hexadecimal digits denote
    none. *)
Definition unicode_escape (a b c d : ascii) : option ascii :=
  match hex_value a, hex_value b, hex_value c, hex_value d with
  | Some w, Some x, Some y, Some z =>
      if ((w =? 0) && (x =? 0))%nat then Some (ascii_of_nat (16 * y + z)) else wide
  | _, _, _, _ => None
  end.

(** The characters of a string literal after its opening quote, up to
    the closing quote; the result is the string and the rest of the
    input. *)
Fixpoint parse_string_body (s : string) : option (string * string) :=
  match s with
  | EmptyString => None
  | String c s' =>
      if Ascii.eqb c "034"%char then Some (EmptyString, s')
      else if Ascii.eqb c "\"%char then
        match s' with
        | String e s'' =>
            let simple (x : ascii) :=
              match parse_string_body s'' with
              | Some (str, rest) => Some (String x str, rest)
              | None => None
              end in
            if Ascii.eqb e "034"%char then simple "034"%char
            else if Ascii.eqb e "\"%char then simple "\"%char
            else if Ascii.eqb e "/"%char then simple "/"%char
            else if Ascii.eqb e "b"%char then simple "008"%char
            else if Ascii.eqb e "f"%char then simple "012"%char
            else if Ascii.eqb e "n"%char then simple "010"%char
            else if Ascii.eqb e "r"%char then simple "013"%char
            else if Ascii.eqb e "t"%char then simple "009"%char
            else if Ascii.eqb e "u"%char then
              match s'' with
              | String h1 (String h2 (String h3 (String h4 s4))) =>
                  match unicode_escape h1 h2 h3 h4, parse_string_body s4 with
                  | Some x, Some (str, rest) => Some (String x str, rest)
                  | _, _ => None
                  end
              | _ => None
              end
            else None
        | EmptyString => None
        end
      else if (nat_of_ascii c <? 32)%nat then None
      else match parse_string_body s' with
           | Some (str, rest) => Some (String c str, rest)
           | None => None
           end
  end.

(** The longest prefix of digits. *)
Fixpoint take_digits (s : string) : string * string :=
  match s with
  | String c s' =>
      if is_digit c then let '(ds, rest) := take_digits s' in (String c ds, rest)
      else (EmptyString, s)
  | EmptyString => (EmptyString, s)
  end.

(** [s] without its first character, when this is [c]. *)
Definition strip_char (c : ascii) (s : string) : option string :=
  match s with
  | String c' s' => if Ascii.eqb c c' then Some s' else None
  | EmptyString => None
  end.

(** The optional minus sign of a number. *)
Definition parse_sign (s : string) : string * string :=
  match strip_char "-" s with
  | Some s' => ("-", s')
  | None => ("", s)
  end.

(** The integer part of a number: digits, without leading zero. *)
Definition valid_int (int : string) : bool :=
  match int with
  | EmptyString => false
  | String c rest => negb (Ascii.eqb c "0" && negb (String.eqb rest ""))
  end.

(** The optional fraction: a point and at least one digit. *)
Definition parse_fraction (s : string) : option (string * string) :=
  match strip_char "." s with
  | Some s' =>
      let '(ds, rest) := take_digits s' in
      if String.eqb ds "" then None else Some ("." +:+ ds, rest)
  | None => Some ("", s)
  end.

(** The optional exponent: the letter e, an optional sign and at least
    one digit. *)
Definition parse_exponent (s : string) : option (string * string) :=
  match s with
  | String e s' =>
      if Ascii.eqb e "e" || Ascii.eqb e "E" then
        let '(esign, s4) :=
          match s' with
          | String c t =>
              if Ascii.eqb c "+" || Ascii.eqb c "-" then (String c "", t) else ("", s')
          | EmptyString => ("", s')
          end in
        let '(ds, rest) := take_digits s4 in
        if String.eqb ds "" then None else Some (String e esign +:+ ds, rest)
      else Some ("", s)
  | EmptyString => Some ("", s)
  end.

(** A number: an optional minus sign, an integer part, an optional
    fraction and an optional exponent; the result keeps its text. *)
Definition parse_number (s : string) : option (string * string) :=
  let '(sign, s1) := parse_sign s in
  let '(int, s2) := take_digits s1 in
  if valid_int int then
    match parse_fraction s2 with
    | Some (f, s3) =>
        match parse_exponent s3 with
        | Some (e, rest) => Some (sign +:+ int +:+ f +:+ e, rest)
        | None => None
        end
    | None => None
    end
  else None.

(** The mantissa of a number: its digits and decimal point. *)
Fixpoint take_digits_or_dot (s : string) : string * string :=
  match s with
  | String c s' =>
      if is_digit c || Ascii.eqb c "."%char
      then let '(ds, rest) := take_digits_or_dot s' in (String c ds, rest)
      else (EmptyString, s)
  | EmptyString => (EmptyString, s)
  end.

(** The decimal value of a string of digits. *)
Fixpoint decimal_value (acc : N) (s : string) : N :=
  match s with
  | EmptyString => acc
  | String c s' => decimal_value (10 * acc + N.of_nat (nat_of_ascii c - 48)) s'
  end.

Fixpoint all_digits (s : string) : bool :=
  match s with
  | EmptyString => true
  | String c s' => is_digit c && all_digits s'
  end.

(** An array index: a canonical decimal numeral below [2^32 - 1].
    Properties with such keys are enumerated first, in numeric order. *)
Definition array_index (k : string) : option N :=
  match k with
  | EmptyString => None
  | String "0"%char EmptyString => Some 0%N
  | String "0"%char _ => None
  | _ =>
      if all_digits k && (String.length k <=? 10)%nat
         && (decimal_value 0 k <? 4294967295)%N
      then Some (decimal_value 0 k) else None
  end.

(** The properties of an object are kept in enumeration order: the
    array indices first, in numeric order, then the other keys in the
    order of their creation.  [comes_before k k'] tells whether the new
    key [k] is enumerated before the existing key [k']. *)
Definition comes_before (k k' : string) : bool :=
  match array_index k, array_index k' with
  | Some i, Some i' => (i <? i')%N
  | Some _, None => true
  | None, _ => false
  end.

Definition obj_has (props : list (string * JSON)) (k : string) : bool :=
  existsb (fun kv => String.eqb (fst kv) k) props.

Fixpoint obj_replace (props : list (string * JSON)) (k : string) (v : JSON)
  : list (string * JSON) :=
  match props with
  | [] => []
  | (k', v') :: props' =>
      if String.eqb k' k then (k', v) :: props' else (k', v') :: obj_replace props' k v
  end.

Fixpoint obj_insert (props : list (string * JSON)) (k : string) (v : JSON)
  : list (string * JSON) :=
  match props with
  | [] => [(k, v)]
  | (k', v') :: props' =>
      if comes_before k k' then (k, v) :: (k', v') :: props'
      else (k', v') :: obj_insert props' k v
  end.

(** [CreateDataProperty(obj, k, v)]: an existing key keeps its place and
    takes the new value, a new key is created. *)
Definition obj_set (props : list (string * JSON)) (k : string) (v : JSON)
  : list (string * JSON) :=
  if obj_has props k then obj_replace props k v else obj_insert props k v.

(** [s] without the prefix [p], when it starts with it. *)
Fixpoint strip_prefix (p s : string) : option string :=
  match p with
  | EmptyString => Some s
  | String a p' =>
      match s with
      | String b s' => if Ascii.eqb a b then strip_prefix p' s' else None
      | EmptyString => None
      end
  end.

(** The three literal names. *)
Definition parse_literal (s : string) : option (JSON * string) :=
  match strip_prefix "true" s with
  | Some rest => Some (JBool true, rest)
  | None =>
      match strip_prefix "false" s with
      | Some rest => Some (JBool false, rest)
      | None =>
          match strip_prefix "null" s with
          | Some rest => Some (JNull, rest)
          | None => None
          end
      end
  end.

Fixpoint parse_value (fuel : nat) (s : string) {struct fuel} : option (JSON * string) :=
  match fuel with
  | O => None
  | S fuel' =>
      match skip_ws s with
      | EmptyString => None
      | String c s' =>
          if Ascii.eqb c "{"%char then
            match strip_char "}" (skip_ws s') with
            | Some rest => Some (JObject [], skip_ws rest)
            | None => parse_members fuel' s' []
            end
          else if Ascii.eqb c "["%char then
            match strip_char "]" (skip_ws s') with
            | Some rest => Some (JArray [], skip_ws rest)
            | None => parse_elements fuel' s' []
            end
          else if Ascii.eqb c "034"%char then
            match parse_string_body s' with
            | Some (str, rest) => Some (JString str, skip_ws rest)
            | None => None
            end
          else
            match parse_literal (String c s') with
            | Some (v, rest) => Some (v, skip_ws rest)
            | None =>
                match parse_number (String c s') with
                | Some (raw, rest) => Some (JNumber raw, skip_ws rest)
                | None => None
                end
            end
      end
  end
with parse_members (fuel : nat) (s : string) (acc : list (string * JSON)) {struct fuel}
  : option (JSON * string) :=
  match fuel with
  | O => None
  | S fuel' =>
      match skip_ws s with
      | String c s1 =>
          if Ascii.eqb c "034"%char then
            match parse_string_body s1 with
            | Some (key, rest) =>
                match strip_char ":" (skip_ws rest) with
                | Some rest' =>
                    match parse_value fuel' rest' with
                    | Some (v, rest2) =>
                        match strip_char "," rest2 with
                        | Some rest3 => parse_members fuel' rest3 (obj_set acc key v)
                        | None =>
                            match strip_char "}" rest2 with
                            | Some rest3 =>
                                Some (JObject (obj_set acc key v), skip_ws rest3)
                            | None => None
                            end
                        end
                    | None => None
                    end
                | None => None
                end
            | None => None
            end
          else None
      | EmptyString => None
      end
  end
with parse_elements (fuel : nat) (s : string) (acc : list JSON) {struct fuel}
  : option (JSON * string) :=
  match fuel with
  | O => None
  | S fuel' =>
      match parse_value fuel' s with
      | Some (v, rest) =>
          match strip_char "," rest with
          | Some rest' => parse_elements fuel' rest' (acc ++ [v])
          | None =>
              match strip_char "]" rest with
              | Some rest' => Some (JArray (acc ++ [v]), skip_ws rest')
              | None => None
              end
          end
      | None => None
      end
  end.

(** A text that is one JSON value, and nothing else. *)
Definition read (text : string) : option JSON :=
  match parse_value (2 * String.length text + 2) text with
  | Some (v, EmptyString) => Some v
  | _ => None
  end.

End Reader.

(** The value of [JSON.parse(text)] for a text that is valid JSON and in
    which no escape denotes a code unit above 255. *)
Definition parse (text : string) : option JSON := read None text.

(** What stands for a code unit above 255 in a value that holds one. *)
Definition substitute : ascii := "?"%char.

(** [JSON.parse(text)]: the value; or, for a valid text in which an
    escape denotes a code unit above 255, the value with [substitute]
    in the place of every such unit; or a [SyntaxError]. *)
Inductive outcome : Type :=
| Value (v : JSON)
| Wide (v : JSON)
| SyntaxError.

Definition JSON_parse (text : string) : outcome :=
  match parse text with
  | Some v => Value v
  | None =>
      match read (Some substitute) text with
      | Some v => Wide v
      | None => SyntaxError
      end
  end.

(** [ToBoolean] *)
Definition truthy (v : JSON) : bool :=
  match v with
  | JNull => false
  | JBool b => b
  | JNumber raw =>
      negb (forallb (fun c => negb (is_digit c) || Ascii.eqb c "0"%char)
                    (list_ascii_of_string
                       (fst (take_digits_or_dot (match raw with
                                                 | String "-"%char r => r
                                                 | _ => raw
                                                 end)))))
  | JString s => negb (String.eqb s "")
  | JArray _ => true
  | JObject _ => true
  end.

(** [v[k]] for a key [k] that is neither an array index nor the name of
    a built-in property: [None] when a [TypeError] is thrown (the value
    is [null]), [Some None] for [undefined]. *)
Definition get_prop (v : JSON) (k : string) : option (option JSON) :=
  match v with
  | JNull => None
  | JObject props =>
      Some (option_map snd (find (fun kv => String.eqb (fst kv) k) props))
  | _ => Some None
  end.

(** The pairs of a list with their positions rendered in decimal. *)
Fixpoint indexed {A} (i : nat) (xs : list A) : list (string * A) :=
  match xs with
  | [] => []
  | x :: xs' => (JS.string_of_nat i, x) :: indexed (S i) xs'
  end.

(** [Object.entries(v)]: [None] when a [TypeError] is thrown. *)
Definition Object_entries (v : JSON) : option (list (string * JSON)) :=
  match v with
  | JNull => None
  | JBool _ => Some []
  | JNumber _ => Some []
  | JString s =>
      Some (indexed 0 (map (fun c => JString (String c EmptyString))
                           (list_ascii_of_string s)))
  | JArray xs => Some (indexed 0 xs)
  | JObject props => Some props
  end.

End Json.

(** ** Data model *)

(** [enum FileType] of [projectScanner.ts]. *)
Module FileType.
Inductive t : Type :=
| JavaScript | TypeScript | HTML | CSS | JSON | Markdown | Image | Unknown.

Definition eqb (a b : t) : bool :=
  match a, b with
  | JavaScript, JavaScript | TypeScript, TypeScript | HTML, HTML | CSS, CSS
  | JSON, JSON | Markdown, Markdown | Image, Image | Unknown, Unknown => true
  | _, _ => false
  end.
End FileType.

(** [interface FileInfo] of [projectScanner.ts]; [size] is a number of
    bytes, [lastModified] a time stamp, [content] is optional. *)
Module FileInfo.
Record t : Type := mk {
  path : string;
  relativePath : string;
  name : string;
  extension : string;
  type : FileType.t;
  size : Z;
  lastModified : Z;
  content : option string
}.
End FileInfo.

(** [interface ProjectStructure]; the field [rootDirectories], which the
    dependency manager never reads, is left out. *)
Module ProjectStructure.
Record t : Type := mk {
  workspaceRoot : string;
  rootFiles : list FileInfo.t;
  allFiles : list FileInfo.t
}.
End ProjectStructure.

(** [enum DependencyType]; [Import] and [Export] are reserved words here,
    hence the suffix. *)
Module DependencyType.
Inductive t : Type :=
| Import_ | Export_ | Reference | Usage | StyleImport | HtmlLink | Unknown.
End DependencyType.

(** [interface Dependency] *)
Module Dependency.
Record t : Type := mk {
  source : string;
  target : string;
  type : DependencyType.t;
  lineNumbers : option (list nat);
  isExternal : bool
}.
End Dependency.

(** A [Map] with string keys: the entries in insertion order, every key
    at most once.  [jsmap_set] keeps the place of a key that is already
    there. *)
Definition jsmap (V : Type) : Type := list (string * V).

Fixpoint jsmap_get {V} (m : jsmap V) (k : string) : option V :=
  match m with
  | [] => None
  | (k', v) :: m' => if String.eqb k' k then Some v else jsmap_get m' k
  end.

Definition jsmap_has {V} (m : jsmap V) (k : string) : bool :=
  match jsmap_get m k with Some _ => true | None => false end.

Fixpoint jsmap_set {V} (m : jsmap V) (k : string) (v : V) : jsmap V :=
  match m with
  | [] => [(k, v)]
  | (k', v') :: m' =>
      if String.eqb k' k then (k', v) :: m' else (k', v') :: jsmap_set m' k v
  end.

Definition jsmap_keys {V} (m : jsmap V) : list string := map fst m.

(** [m.get(k)?.set(k2, v)]: the inner map stored under [k], when there
    is one, is updated in place. *)
Fixpoint jsmap_update_inner {V} (m : jsmap (jsmap V)) (k k2 : string) (v : V)
  : jsmap (jsmap V) :=
  match m with
  | [] => []
  | (k', inner) :: m' =>
      if String.eqb k' k then (k', jsmap_set inner k2 v) :: m'
      else (k', inner) :: jsmap_update_inner m' k k2 v
  end.

(** [interface DependencyGraph] *)
Module DependencyGraph.
Record t : Type := mk {
  nodes : jsmap FileInfo.t;
  edges : jsmap (jsmap Dependency.t)
}.
End DependencyGraph.

(** ** Effects

    What the manager reads from its surroundings: the workspace root
    fixed by the constructor, the working directory of the process, and
    the disk as seen by [readFile] ([None]: the read is rejected) and
    [fs.existsSync]. *)
Record Env : Type := mkEnv {
  workspaceRoot : option string;
  cwd : string;
  disk_read : string -> option string;
  disk_exists : string -> bool
}.

(** What a run does to its surroundings, in order. *)
Inductive Event : Type :=
| EvReadFile (p : string)
| EvExistsSync (p : string)
| EvConsoleError (msg : string)
| EvProgress (processed total : nat).

(** The mutable part: the field [dependencyCache] and the trace of
    the events so far. *)
Record State : Type := mkState {
  dependencyCache : gmap string (list Dependency.t);
  events : list Event
}.

Definition M (A : Type) : Type := Env -> State -> A * State.

Definition ret {A} (a : A) : M A := fun _ st => (a, st).

Definition bind {A B} (c : M A) (k : A -> M B) : M B :=
  fun env st => let '(a, st') := c env st in k a env st'.

Notation "x <- c ;; k" := (bind c (fun x => k))
  (at level 100, c at next level, right associativity).
Notation "c ;;; k" := (bind c (fun _ => k))
  (at level 100, right associativity).

Definition ask : M Env := fun env st => (env, st).

Definition emit (e : Event) : M unit :=
  fun _ st => (tt, mkState (dependencyCache st) (events st ++ [e])).

(** [this.dependencyCache.has(p)] followed by [get(p)] *)
Definition cache_get (p : string) : M (option (list Dependency.t)) :=
  fun _ st => (dependencyCache st !! p, st).

(** [this.dependencyCache.set(p, deps)] *)
Definition cache_set (p : string) (deps : list Dependency.t) : M unit :=
  fun _ st => (tt, mkState (<[p := deps]> (dependencyCache st)) (events st)).

(** [await readFile(p, 'utf-8')]: [None] when the promise is rejected. *)
Definition readFile (p : string) : M (option string) :=
  env <- ask ;; emit (EvReadFile p) ;;; ret (disk_read env p).

(** [fs.existsSync(p)] *)
Definition existsSync (p : string) : M bool :=
  env <- ask ;; emit (EvExistsSync p) ;;; ret (disk_exists env p).

(** [console.error(msg, error)] *)
Definition console_error (msg : string) : M unit := emit (EvConsoleError msg).

(** A [for ... of] loop whose body pushes onto the array [deps]. *)
Fixpoint for_each {A} (xs : list A) (body : A -> list Dependency.t -> M (list Dependency.t))
  (deps : list Dependency.t) : M (list Dependency.t) :=
  match xs with
  | [] => ret deps
  | x :: xs' => deps' <- body x deps ;; for_each xs' body deps'
  end.

(** ** The methods of [DependencyManager] *)

(** The field [externalPackagePatterns]. *)
Definition externalPackagePatterns : list string :=
  ["node_modules"; "https://cdn"; "http://cdn"; "https://unpkg.com"; "https://jsdelivr.com"].

(** The loop of [isExternalDependency] over the patterns: [true] when
    one of them returns. *)
Fixpoint matches_external_pattern (patterns : list string) (importPath : string) : bool :=
  match patterns with
  | [] => false
  | pattern :: patterns' =>
      if JS.includes importPath pattern then true
      else matches_external_pattern patterns' importPath
  end.

Definition isExternalDependency (importPath : string) : bool :=
  if matches_external_pattern externalPackagePatterns importPath then true
  else if JS.startsWith importPath "." || JS.startsWith importPath "/" then false
  else true.

Definition shouldProcessExternalDependency (path : string) : bool := false.

Definition binaryExtensions : list string :=
  [".pdf"; ".zip"; ".gz"; ".tar";
   ".exe"; ".dll"; ".so"; ".dylib";
   ".jpg"; ".jpeg"; ".png"; ".gif"; ".svg"; ".ico";
   ".mp3"; ".mp4"; ".wav"; ".avi"; ".mkv";
   ".doc"; ".docx"; ".xls"; ".xlsx"; ".ppt"; ".pptx"].

Definition isBinaryFile (file : FileInfo.t) : bool :=
  if FileType.eqb (FileInfo.type file) FileType.Image then true
  else JS.array_includes binaryExtensions (FileInfo.extension file).

(** The loop of [findLineNumbers], [i] being the index of the first
    line of [lines]. *)
Fixpoint line_numbers_from (i : nat) (lines : list string) (pattern : string) : list nat :=
  match lines with
  | [] => []
  | l :: lines' =>
      if JS.includes l pattern then i :: line_numbers_from (S i) lines' pattern
      else line_numbers_from (S i) lines' pattern
  end.

Definition findLineNumbers (content pattern : string) : list nat :=
  line_numbers_from 0 (JS.split_lines content) pattern.

(** The extensions tried by [resolveImportPath], in order. *)
Definition extensions : list string :=
  [".js"; ".jsx"; ".ts"; ".tsx"; ".json"; ".css"; ".scss"; ".html"; ".md"].

(** A loop of [resolveImportPath] over candidate paths: it returns from
    the method with the first one that exists. *)
Fixpoint first_existing (candidates : list string) : M (option string) :=
  match candidates with
  | [] => ret None
  | p :: candidates' =>
      found <- existsSync p ;;
      if found then ret (Some p) else first_existing candidates'
  end.

(** [if (this.workspaceRoot)]: the root is defined and not empty. *)
Definition truthy_root (root : option string) : option string :=
  match root with
  | Some r => if String.eqb r "" then None else Some r
  | None => None
  end.

Definition resolveImportPath (sourcePath importPath : string) : M string :=
  env <- ask ;;
  if JS.startsWith importPath "/" || JS.startsWith importPath "http" then
    match JS.startsWith importPath "/", truthy_root (workspaceRoot env) with
    | true, Some root => ret (Path.join root importPath)
    | _, _ => ret importPath
    end
  else
    let sourceDir := Path.dirname sourcePath in
    let resolvedPath := Path.resolve (cwd env) sourceDir importPath in
    if String.eqb (Path.extname resolvedPath) "" then
      withExt <- first_existing (map (fun ext => resolvedPath +:+ ext) extensions) ;;
      match withExt with
      | Some pathWithExt => ret pathWithExt
      | None =>
          index <- first_existing
                     (map (fun ext => Path.join resolvedPath ("index" +:+ ext)) extensions) ;;
          match index with
          | Some indexPath => ret indexPath
          | None => ret resolvedPath
          end
      end
    else ret resolvedPath.

(** The body shared by the loops that resolve a reference and push a
    dependency of kind [ty]; [external] is the value of [isExternal]. *)
Definition push_resolved (filePath content : string) (ty : DependencyType.t)
  (ref : string) (m : Regex.Match) (external : bool) (deps : list Dependency.t)
  : M (list Dependency.t) :=
  targetPath <- resolveImportPath filePath ref ;;
  ret (deps ++ [Dependency.mk filePath targetPath ty
                  (Some (findLineNumbers content (Regex.m0 m))) external]).

(** The body of the loop over the import, require and dynamic import
    matches. *)
Definition js_import_body (filePath content : string) (m : Regex.Match)
  (deps : list Dependency.t) : M (list Dependency.t) :=
  let importPath := Regex.group m 1 in
  let isExternal := isExternalDependency importPath in
  if isExternal && negb (shouldProcessExternalDependency importPath)
  then ret deps
  else push_resolved filePath content DependencyType.Import_ importPath m isExternal deps.

(** The body of the loop over the triple slash directives. *)
Definition js_reference_body (filePath content : string) (m : Regex.Match)
  (deps : list Dependency.t) : M (list Dependency.t) :=
  let referencePath := Regex.group m 1 in
  push_resolved filePath content DependencyType.Reference referencePath m false deps.

Definition extractJavaScriptDependencies (filePath content : string)
  (dependencies : list Dependency.t) : M (list Dependency.t) :=
  let importMatches := Regex.matchAll Patterns.importPattern content in
  let requireMatches := Regex.matchAll Patterns.requirePattern content in
  let dynamicImportMatches := Regex.matchAll Patterns.dynamicImportPattern content in
  let referenceMatches := Regex.matchAll Patterns.referencePattern content in
  deps1 <- for_each (importMatches ++ requireMatches ++ dynamicImportMatches)
             (js_import_body filePath content) dependencies ;;
  for_each referenceMatches (js_reference_body filePath content) deps1.

(** The body of the three loops of [extractHTMLDependencies]. *)
Definition html_body (filePath content : string) (m : Regex.Match)
  (deps : list Dependency.t) : M (list Dependency.t) :=
  let src := Regex.group m 1 in
  if JS.startsWith src "data:"
     || (JS.startsWith src "http" && negb (shouldProcessExternalDependency src))
  then ret deps
  else push_resolved filePath content DependencyType.HtmlLink src m
         (isExternalDependency src) deps.

Definition extractHTMLDependencies (filePath content : string)
  (dependencies : list Dependency.t) : M (list Dependency.t) :=
  let scriptMatches := Regex.matchAll Patterns.scriptPattern content in
  let linkMatches := Regex.matchAll Patterns.linkPattern content in
  let imgMatches := Regex.matchAll Patterns.imgPattern content in
  deps1 <- for_each scriptMatches (html_body filePath content) dependencies ;;
  deps2 <- for_each linkMatches (html_body filePath content) deps1 ;;
  for_each imgMatches (html_body filePath content) deps2.

(** The body of the loop over the [@import] statements. *)
Definition css_import_body (filePath content : string) (m : Regex.Match)
  (deps : list Dependency.t) : M (list Dependency.t) :=
  let importPath := Regex.group m 1 in
  if (JS.startsWith importPath "http" && negb (shouldProcessExternalDependency importPath))
     || JS.startsWith importPath "data:"
  then ret deps
  else push_resolved filePath content DependencyType.StyleImport importPath m
         (isExternalDependency importPath) deps.

(** The body of the loop over the [url(...)] references. *)
Definition css_url_body (filePath content : string) (m : Regex.Match)
  (deps : list Dependency.t) : M (list Dependency.t) :=
  let urlPath := Regex.group m 1 in
  if JS.startsWith urlPath "http" || JS.startsWith urlPath "data:"
     || JS.startsWith urlPath "#"
  then ret deps
  else push_resolved filePath content DependencyType.StyleImport urlPath m
         (isExternalDependency urlPath) deps.

Definition extractCSSDependencies (filePath content : string)
  (dependencies : list Dependency.t) : M (list Dependency.t) :=
  let importMatches := Regex.matchAll Patterns.cssImportPattern content in
  let urlMatches := Regex.matchAll Patterns.cssUrlPattern content in
  deps1 <- for_each importMatches (css_import_body filePath content) dependencies ;;
  for_each urlMatches (css_url_body filePath content) deps1.

Definition dependencySections : list string :=
  ["dependencies"; "devDependencies"; "peerDependencies"; "optionalDependencies"].

(** The loop over the sections inside the [try] block of
    [extractJSONDependencies]: the array after the pushes, and whether
    an exception left the block. *)
Fixpoint json_sections (filePath : string) (packageJson : Json.JSON)
  (sections : list string) (deps : list Dependency.t) : list Dependency.t * bool :=
  match sections with
  | [] => (deps, false)
  | section :: sections' =>
      match Json.get_prop packageJson section with
      | None => (deps, true)
      | Some None => json_sections filePath packageJson sections' deps
      | Some (Some v) =>
          if Json.truthy v then
            match Json.Object_entries v with
            | None => (deps, true)
            | Some entries =>
                json_sections filePath packageJson sections'
                  (deps ++ map (fun '(pkg, version) =>
                                  Dependency.mk filePath ("node_modules/" +:+ pkg)
                                    DependencyType.Import_ None true) entries)
            end
          else json_sections filePath packageJson sections' deps
      end
  end.

(** A value that holds a code unit above 255 is read as far as the
    embedding holds it: every test of the loop (the name of a section,
    whether its value is truthy, the indices of an array or of a string)
    comes out as on the value itself, and so does the name of a package
    unless that name holds such a unit. *)
Definition extractJSONDependencies (filePath content : string)
  (dependencies : list Dependency.t) : M (list Dependency.t) :=
  if negb (JS.endsWith filePath "package.json") then ret dependencies
  else
    let '(deps, thrown) :=
      match Json.JSON_parse content with
      | Json.SyntaxError => (dependencies, true)
      | Json.Value packageJson | Json.Wide packageJson =>
          json_sections filePath packageJson dependencySections dependencies
      end in
    if thrown then
      console_error ("Error parsing JSON in " +:+ filePath +:+ ":") ;;; ret deps
    else ret deps.

(** The body of the loop over the image references. *)
Definition md_image_body (filePath content : string) (m : Regex.Match)
  (deps : list Dependency.t) : M (list Dependency.t) :=
  let imagePath := Regex.group m 2 in
  if JS.startsWith imagePath "http" then ret deps
  else push_resolved filePath content DependencyType.Reference imagePath m false deps.

(** The body of the loop over the links. *)
Definition md_link_body (filePath content : string) (m : Regex.Match)
  (deps : list Dependency.t) : M (list Dependency.t) :=
  let linkPath := Regex.group m 2 in
  if JS.startsWith linkPath "http" || JS.startsWith linkPath "#"
     || JS.includes linkPath "@"
  then ret deps
  else push_resolved filePath content DependencyType.Reference linkPath m false deps.

Definition extractMarkdownDependencies (filePath content : string)
  (dependencies : list Dependency.t) : M (list Dependency.t) :=
  let imageMatches := Regex.matchAll Patterns.mdImagePattern content in
  let linkMatches := Regex.matchAll Patterns.mdLinkPattern content in
  deps1 <- for_each imageMatches (md_image_body filePath content) dependencies ;;
  for_each linkMatches (md_link_body filePath content) deps1.

(** [if (file.content)]: the content is present and not empty. *)
Definition loaded_content (file : FileInfo.t) : option string :=
  match FileInfo.content file with
  | Some c => if String.eqb c "" then None else Some c
  | None => None
  end.

(** The [switch] of [analyzeDependencies] on the type of the file. *)
Definition extract_by_type (file : FileInfo.t) (content : string)
  (dependencies : list Dependency.t) : M (list Dependency.t) :=
  match FileInfo.type file with
  | FileType.JavaScript | FileType.TypeScript =>
      extractJavaScriptDependencies (FileInfo.path file) content dependencies
  | FileType.HTML => extractHTMLDependencies (FileInfo.path file) content dependencies
  | FileType.CSS => extractCSSDependencies (FileInfo.path file) content dependencies
  | FileType.JSON => extractJSONDependencies (FileInfo.path file) content dependencies
  | FileType.Markdown => extractMarkdownDependencies (FileInfo.path file) content dependencies
  | _ => ret dependencies
  end.

Definition analyzeDependencies (file : FileInfo.t) : M (list Dependency.t) :=
  cached <- cache_get (FileInfo.path file) ;;
  match cached with
  | Some deps => ret deps
  | None =>
      let dependencies : list Dependency.t := [] in
      if (FileInfo.size file >? 1024 * 1024)%Z || isBinaryFile file then
        cache_set (FileInfo.path file) dependencies ;;; ret dependencies
      else
        loaded <- match loaded_content file with
                  | Some c => ret (Some c)
                  | None => readFile (FileInfo.path file)
                  end ;;
        match loaded with
        | None =>
            console_error ("Error reading file " +:+ FileInfo.path file +:+ ":") ;;;
            cache_set (FileInfo.path file) dependencies ;;;
            ret dependencies
        | Some content =>
            deps <- extract_by_type file content dependencies ;;
            cache_set (FileInfo.path file) deps ;;;
            ret deps
        end
  end.

(** The first loop of [buildDependencyGraph]: a node and an empty edge
    map for every file. *)
Definition add_node (graph : DependencyGraph.t) (file : FileInfo.t) : DependencyGraph.t :=
  DependencyGraph.mk
    (jsmap_set (DependencyGraph.nodes graph) (FileInfo.path file) file)
    (jsmap_set (DependencyGraph.edges graph) (FileInfo.path file) []).

(** The inner loop: an edge for every dependency whose target is a node. *)
Definition add_edge (file : FileInfo.t) (graph : DependencyGraph.t) (dep : Dependency.t)
  : DependencyGraph.t :=
  if jsmap_has (DependencyGraph.nodes graph) (Dependency.target dep) then
    DependencyGraph.mk (DependencyGraph.nodes graph)
      (jsmap_update_inner (DependencyGraph.edges graph) (FileInfo.path file)
         (Dependency.target dep) dep)
  else graph.

(** The second loop; [progressCallback] tells whether the caller passed
    a callback, whose calls are recorded as events. *)
Fixpoint process_files (files : list FileInfo.t) (totalFiles processedFiles : nat)
  (progressCallback : bool) (graph : DependencyGraph.t) : M DependencyGraph.t :=
  match files with
  | [] => ret graph
  | file :: files' =>
      dependencies <- analyzeDependencies file ;;
      let graph' := fold_left (add_edge file) dependencies graph in
      (if progressCallback then emit (EvProgress (S processedFiles) totalFiles)
       else ret tt) ;;;
      process_files files' totalFiles (S processedFiles) progressCallback graph'
  end.

Definition buildDependencyGraph (projectStructure : ProjectStructure.t)
  (progressCallback : bool) : M DependencyGraph.t :=
  let files := ProjectStructure.allFiles projectStructure in
  let graph := fold_left add_node files (DependencyGraph.mk [] []) in
  process_files files (length files) 0 progressCallback graph.

(** ** Cycle detection *)

(** The callback of [cycles.some(...)]: the rotation test of
    [dfsForCycles], with both loops over the indices of
    [recordedCycle]. *)
Definition same_up_to_rotation (recordedCycle cycle : list string) : bool :=
  if negb (length recordedCycle =? length cycle)%nat then false
  else
    existsb (fun i =>
      forallb (fun j =>
        match recordedCycle !! j, cycle !! ((i + j) mod length cycle)%nat with
        | Some a, Some b => String.eqb a b
        | _, _ => false
        end) (seq 0 (length recordedCycle)))
      (seq 0 (length recordedCycle)).

(** The state shared by the calls of one search: the set [visited] and
    the array [cycles], both passed by reference. *)
Definition dfs_state : Type := gset string * list (list string).

(** The loop of [dfsForCycles] over the targets of the current node;
    [visit] is the recursive call on one target, which may run out of
    fuel. *)
Fixpoint visit_targets (visit : string -> dfs_state -> option dfs_state)
  (targets : list (string * Dependency.t)) (st : dfs_state) : option dfs_state :=
  match targets with
  | [] => Some st
  | (target, _) :: targets' =>
      match visit target st with
      | Some st' => visit_targets visit targets' st'
      | None => None
      end
  end.

(** The body of [dfsForCycles], [recurse] standing for the method
    itself.  [path] is copied at each call, [visited] and [cycles] are
    shared. *)
Definition dfs_body
  (recurse : string -> gset string -> list string -> list (list string) -> option dfs_state)
  (current : string) (graph : DependencyGraph.t)
  (visited : gset string) (path : list string) (cycles : list (list string))
  : option dfs_state :=
  if bool_decide (current ∈ visited) then Some (visited, cycles)
  else
    match JS.indexOf path current with
    | Some cycleIndex =>
        let cycle := JS.slice_from cycleIndex path ++ [current] in
        let isCycleRecorded :=
          existsb (fun recordedCycle => same_up_to_rotation recordedCycle cycle) cycles in
        if negb isCycleRecorded then Some (visited, cycles ++ [cycle])
        else Some (visited, cycles)
    | None =>
        let path' := path ++ [current] in
        let after :=
          match jsmap_get (DependencyGraph.edges graph) current with
          | Some dependencies =>
              visit_targets (fun target st => recurse target (fst st) path' (snd st))
                dependencies (visited, cycles)
          | None => Some (visited, cycles)
          end in
        match after with
        | Some (visited', cycles') => Some (visited' ∪ {[current]}, cycles')
        | None => None
        end
    end.

(** [dfsForCycles]; [fuel] bounds the depth of the recursion and [None]
    means it ran out. *)
Fixpoint dfsForCycles (fuel : nat) (current : string) (graph : DependencyGraph.t)
  (visited : gset string) (path : list string) (cycles : list (list string))
  {struct fuel} : option dfs_state :=
  match fuel with
  | O => None
  | S fuel' =>
      dfs_body (fun target => dfsForCycles fuel' target graph)
        current graph visited path cycles
  end.

(** The depth the recursion can reach: every node on the path but the
    last has an edge map. *)
Definition dfs_fuel (graph : DependencyGraph.t) : nat :=
  length (DependencyGraph.edges graph) + 2.

(** The loop of [findCircularDependencies] over the keys of [nodes]:
    a fresh [visited] and a fresh [path] for every start node. *)
Fixpoint search_from (starts : list string) (graph : DependencyGraph.t)
  (circularDependencies : list (list string)) : option (list (list string)) :=
  match starts with
  | [] => Some circularDependencies
  | startNode :: starts' =>
      match dfsForCycles (dfs_fuel graph) startNode graph ∅ [] circularDependencies with
      | Some (_, cycles) => search_from starts' graph cycles
      | None => None
      end
  end.

Definition findCircularDependencies (dependencyGraph : DependencyGraph.t)
  : option (list (list string)) :=
  search_from (jsmap_keys (DependencyGraph.nodes dependencyGraph)) dependencyGraph [].

(** ** Statements of the specification and scenarios *)

(** The resolution of a relative reference as the specification words
    it: the reference is resolved against the directory of the source
    file; without extension, the first existing candidate among the path
    followed by each extension, then among the index files inside the
    path, and the resolved path itself when there is none. *)
Definition resolve_relative_spec (env : Env) (sourcePath reference : string) : string :=
  let resolved := Path.resolve (cwd env) (Path.dirname sourcePath) reference in
  if String.eqb (Path.extname resolved) "" then
    match find (fun ext => disk_exists env (resolved +:+ ext)) extensions with
    | Some ext => resolved +:+ ext
    | None =>
        match find (fun ext => disk_exists env (Path.join resolved ("index" +:+ ext)))
                   extensions with
        | Some ext => Path.join resolved ("index" +:+ ext)
        | None => resolved
        end
    end
  else resolved.

(** The candidates a search for the first existing one looks at: all of
    them up to the first that exists. *)
Fixpoint tried (exist : string -> bool) (candidates : list string) : list string :=
  match candidates with
  | [] => []
  | p :: candidates' => if exist p then [p] else p :: tried exist candidates'
  end.

(** The paths probed on the disk while a relative reference is
    resolved, in order: the candidates with an extension, then, when
    none exists, the index files. *)
Definition probed_spec (env : Env) (sourcePath reference : string) : list string :=
  let resolved := Path.resolve (cwd env) (Path.dirname sourcePath) reference in
  if String.eqb (Path.extname resolved) "" then
    let withExt := map (fun ext => resolved +:+ ext) extensions in
    let index := map (fun ext => Path.join resolved ("index" +:+ ext)) extensions in
    tried (disk_exists env) withExt
    ++ (if existsb (disk_exists env) withExt then [] else tried (disk_exists env) index)
  else [].

(** The packages a manifest lists in one section. *)
Definition listed_packages (packageJson : Json.JSON) (section : string) : list string :=
  match Json.get_prop packageJson section with
  | Some (Some v) =>
      if Json.truthy v then
        match Json.Object_entries v with
        | Some entries => map fst entries
        | None => []
        end
      else []
  | _ => []
  end.

(** The edge of a manifest to one of its packages. *)
Definition package_dependency (filePath pkg : string) : Dependency.t :=
  Dependency.mk filePath ("node_modules/" +:+ pkg) DependencyType.Import_ None true.

(** One edge per package listed in each of the four sections. *)
Definition manifest_dependencies (filePath : string) (packageJson : Json.JSON)
  : list Dependency.t :=
  flat_map (fun section => map (package_dependency filePath)
                             (listed_packages packageJson section))
           dependencySections.

(** A cycle is a closed walk, its first node repeated at the end; the
    loop it describes is the walk without the closing node. *)
Definition loop_of (cycle : list string) : list string := removelast cycle.

Definition rotate_left (k : nat) (l : list string) : list string :=
  skipn k l ++ firstn k l.

(** Two cycles describe the same loop when one loop is a rotation of
    the other. *)
Definition same_loop (c1 c2 : list string) : bool :=
  existsb (fun k => bool_decide (rotate_left k (loop_of c1) = loop_of c2))
          (seq 0 (length (loop_of c1))).

(** The file of a node that plays no role in a scenario. *)
Definition plain_file (p : string) (ty : FileType.t) (size : Z) (content : option string)
  : FileInfo.t :=
  FileInfo.mk p p p (Path.extname p) ty size 0 content.

Definition plain_edge (s t : string) : Dependency.t :=
  Dependency.mk s t DependencyType.Import_ (Some [0%nat]) false.

(** Three files that import each other in a circle. *)
Definition triangle : DependencyGraph.t :=
  DependencyGraph.mk
    [("A", plain_file "A" FileType.TypeScript 10 None);
     ("B", plain_file "B" FileType.TypeScript 10 None);
     ("C", plain_file "C" FileType.TypeScript 10 None)]
    [("A", [("B", plain_edge "A" "B")]);
     ("B", [("C", plain_edge "B" "C")]);
     ("C", [("A", plain_edge "C" "A")])].

(** A disk that holds the files listed, each with its content. *)
Definition disk_of (files : list (string * string)) (root : option string) : Env :=
  mkEnv root "/"
    (fun p => jsmap_get files p)
    (fun p => jsmap_has files p).

Definition fresh : State := mkState ∅ [].

(** Single quotes stand for double quotes in the texts of the
    scenarios. *)
Definition dq (s : string) : string :=
  string_of_list_ascii
    (map (fun c => if Ascii.eqb c Patterns.squote then Patterns.dquote else c)
       (list_ascii_of_string s)).

Definition lodash_manifest : string := dq "{'dependencies': {'lodash': '^4.0.0'}}".

Definition small_disk : Env :=
  disk_of [("/p/a.ts", "import x from './b'"); ("/p/b.ts", "export const x = 1")]
          (Some "/p").


(** The content [analyzeDependencies] works on: the content carried by
    the descriptor, or else what the disk returns; and the reads this
    costs. *)
Definition content_of (file : FileInfo.t) (env : Env) : option string :=
  match loaded_content file with
  | Some c => Some c
  | None => disk_read env (FileInfo.path file)
  end.

Definition load_events (file : FileInfo.t) : list Event :=
  match loaded_content file with
  | Some _ => []
  | None => [EvReadFile (FileInfo.path file)]
  end.

(** The test that makes [analyzeDependencies] skip a file. *)
Definition skipped (file : FileInfo.t) : bool :=
  (FileInfo.size file >? 1024 * 1024)%Z || isBinaryFile file.

(** The state after a series of calls of [analyzeDependencies], each on
    its own descriptor and with the disk as it is at that time. *)
Fixpoint after_calls (calls : list (FileInfo.t * Env)) (st : State) : State :=
  match calls with
  | [] => st
  | (file, env) :: calls' => after_calls calls' (snd (analyzeDependencies file env st))
  end.

(** A project of two files, the first importing the second, and a
    project of one file that imports nothing. *)
Definition file_a : FileInfo.t :=
  plain_file "/p/a.ts" FileType.TypeScript 19 (Some "import x from './b'").

Definition file_b : FileInfo.t :=
  plain_file "/p/b.ts" FileType.TypeScript 18 (Some "export const x = 1").

Definition two_files : ProjectStructure.t := ProjectStructure.mk "/p" [] [file_a; file_b].

Definition one_file : ProjectStructure.t := ProjectStructure.mk "/p" [] [file_b].

(** Three files on a disk that import each other in a circle. *)
Definition circle_disk : Env :=
  disk_of [("/p/a.ts", "import b from './b'");
           ("/p/b.ts", "import c from './c'");
           ("/p/c.ts", "import a from './a'")]
          (Some "/p").

Definition circle_project : ProjectStructure.t :=
  ProjectStructure.mk "/p" []
    [plain_file "/p/a.ts" FileType.TypeScript 19 None;
     plain_file "/p/b.ts" FileType.TypeScript 19 None;
     plain_file "/p/c.ts" FileType.TypeScript 19 None].

(** The disk of the resolution scenario: it holds /p/a.ts and /p/b.ts
    and nothing else; the workspace root and the working directory are
    left open. *)
Definition fallback_disk (root : option string) (cwd : string) : Env :=
  mkEnv root cwd
    (fun p => jsmap_get [("/p/a.ts", "import b from './b'"); ("/p/b.ts", "")] p)
    (fun p => JS.array_includes ["/p/a.ts"; "/p/b.ts"] p).

(** Every character of [s] satisfies [p]. *)
Fixpoint all_chars (p : ascii -> bool) (s : string) : bool :=
  match s with
  | EmptyString => true
  | String c s' => p c && all_chars p s'
  end.

(** [s] is empty or starts with a character that does not satisfy [p]:
    a repetition of the class [p] stops in front of [s]. *)
Definition stops (p : ascii -> bool) (s : string) : Prop :=
  match s with
  | EmptyString => True
  | String c _ => p c = false
  end.

(** No match of [r] starts inside the prefix [pre] of [pre +:+ s]. *)
Fixpoint no_match_within (r : Regex.regex) (pre s : string) : Prop :=
  match pre with
  | EmptyString => True
  | String c pre' =>
      Regex.exec_at r (String c (pre' +:+ s)) = None /\ no_match_within r pre' s
  end.

(** The search of [matchAll] for [r] in [pre +:+ s], with [skip]
    characters of the match reported last still to pass, comes to [s]
    with none of them left: no match that starts in [pre] reaches into
    [s], so that [s] is searched as if it stood alone. *)
Fixpoint resumes_at (r : Regex.regex) (skip : nat) (pre s : string) : bool :=
  match pre with
  | EmptyString => Nat.eqb skip 0
  | String c pre' =>
      match skip with
      | S skip' => resumes_at r skip' pre' s
      | O =>
          match Regex.exec_at r (String c pre' +:+ s) with
          | Some m => resumes_at r (Nat.pred (String.length (Regex.m0 m))) pre' s
          | None => resumes_at r 0 pre' s
          end
      end
  end.

(** The text of a markdown image reference and of the link it
    contains. *)
Definition link_text (alt dest : string) : string :=
  "[" +:+ alt +:+ "](" +:+ dest +:+ ")".

Definition image_text (alt dest : string) : string := "!" +:+ link_text alt dest.

(** What both markdown patterns capture on such a reference. *)
Definition md_captures (alt dest : string) : Regex.captures :=
  [(2%nat, dest); (1%nat, alt)].

(** The dependency pushed for a markdown match [text] that refers to
    [target]. *)
Definition md_dependency (filePath content text target : string) : Dependency.t :=
  Dependency.mk filePath target DependencyType.Reference
    (Some (findLineNumbers content text)) false.

(** A JSON value in which no object has two properties with the same
    key. *)
Fixpoint well_formed (v : Json.JSON) : Prop :=
  match v with
  | Json.JArray xs =>
      (fix all (l : list Json.JSON) : Prop :=
         match l with
         | [] => True
         | x :: l' => well_formed x /\ all l'
         end) xs
  | Json.JObject props =>
      List.NoDup (map fst props)
      /\ (fix all (l : list (string * Json.JSON)) : Prop :=
            match l with
            | [] => True
            | (_, x) :: l' => well_formed x /\ all l'
            end) props
  | _ => True
  end.
(** ** Notions used in the proofs *)

Ltac unfold_monad :=
  unfold bind, ret, ask, emit, cache_get, cache_set, readFile, existsSync,
    console_error in *; simpl in *.

(** A computation that leaves the cache as it found it. *)
Definition keeps_cache {A} (c : M A) : Prop :=
  forall env st, dependencyCache (snd (c env st)) = dependencyCache st.

(** A computation whose value does not depend on the state. *)
Definition state_independent {A} (c : M A) : Prop :=
  forall env st st', fst (c env st) = fst (c env st').

(** What holds of every edge while the graph is built over the nodes
    [N] in the state [st]: source and target are nodes, the edge is
    stored under its target, and it belongs to the list cached for its
    source. *)
Definition edges_ok (N : jsmap FileInfo.t) (g : DependencyGraph.t) (st : State) : Prop :=
  forall src inner,
    In (src, inner) (DependencyGraph.edges g) ->
    jsmap_has N src = true
    /\ forall tgt dep,
        In (tgt, dep) inner ->
        jsmap_has N tgt = true
        /\ Dependency.target dep = tgt
        /\ exists deps, dependencyCache st !! src = Some deps /\ In dep deps.

(** ** The rest of [projectScanner.ts] and of the host

    The functions of the scanner that do not touch the editor:
    [determineFileType], [determineFileTypeFromPath], [shouldExcludeFile],
    [collectAllFiles] and the test applied by [filterFiles]; and the
    built-ins they and the remaining methods of the manager call. *)

Module Text.

(** [String.prototype.toLowerCase] on one code unit below 256: the
    letters A to Z and the capital letters of Latin-1 (192 to 222, the
    multiplication sign 215 apart) move up by 32. *)
Definition lower_char (c : ascii) : ascii :=
  let n := nat_of_ascii c in
  if ((65 <=? n) && (n <=? 90) || (192 <=? n) && (n <=? 222) && negb (n =? 215))%nat
  then ascii_of_nat (n + 32) else c.

Fixpoint toLowerCase (s : string) : string :=
  match s with
  | EmptyString => EmptyString
  | String c s' => String (lower_char c) (toLowerCase s')
  end.

(** [s.slice(n)] *)
Fixpoint drop (n : nat) (s : string) : string :=
  match n, s with
  | O, _ => s
  | S n', String _ s' => drop n' s'
  | S _, EmptyString => EmptyString
  end.

(** [s.replace(p, r)] with a string pattern: the first occurrence of [p]
    is replaced, a string without [p] is returned as it is. *)
Fixpoint replace_first (s p r : string) : string :=
  if String.prefix p s then r +:+ drop (String.length p) s
  else match s with
       | EmptyString => EmptyString
       | String c s' => String c (replace_first s' p r)
       end.

(** [s.slice(0, -1)] *)
Definition drop_last (s : string) : string :=
  String.substring 0 (String.length s - 1) s.

End Text.

Module PathMore.

(** The backwards scan of [path.basename]: [r] is the path reversed;
    the slashes at the end are skipped, then the characters are kept up
    to the slash before them. *)
Fixpoint basename_scan (r : list ascii) (matchedSlash : bool) (acc : list ascii)
  : list ascii :=
  match r with
  | [] => acc
  | c :: r' =>
      if Ascii.eqb c Path.slash then
        (if matchedSlash then basename_scan r' true acc else acc)
      else basename_scan r' false (c :: acc)
  end.

(** [path.basename(p)] *)
Definition basename (p : string) : string :=
  string_of_list_ascii (basename_scan (rev (list_ascii_of_string p)) true []).

(** The first loop of [path.relative]: [f] and [t] are the two resolved
    paths without their leading slash; the result is the index where
    they part (or where the shorter one ends) and [lastCommonSep], [-1]
    at the start. *)
Fixpoint common_scan (f t : list ascii) (i : nat) (lastCommonSep : Z) : nat * Z :=
  match f, t with
  | a :: f', b :: t' =>
      if Ascii.eqb a b then
        common_scan f' t' (S i) (if Ascii.eqb a Path.slash then Z.of_nat i else lastCommonSep)
      else (i, lastCommonSep)
  | _, _ => (i, lastCommonSep)
  end.

(** The second loop: one [..] for every segment of [from] after the
    common part; [rest] holds the characters of [from] from the index
    [fromStart + lastCommonSep + 1] on. *)
Fixpoint ups (rest : list ascii) (out : string) : string :=
  let up := if String.eqb out "" then ".." else "/.." in
  match rest with
  | [] => out +:+ up
  | c :: rest' =>
      if Ascii.eqb c Path.slash then ups rest' (out +:+ up) else ups rest' out
  end.

(** [path.relative(from, to)], [cwd] being [process.cwd()]. *)
Definition relative (cwd from to : string) : string :=
  if String.eqb from to then ""
  else
    let from := Path.resolve cwd "" from in
    let to := Path.resolve cwd "" to in
    if String.eqb from to then ""
    else
      let f := list_ascii_of_string (Text.drop 1 from) in
      let t := list_ascii_of_string (Text.drop 1 to) in
      let fromLen := length f in
      let toLen := length t in
      let len := Nat.min fromLen toLen in
      let '(i, lastCommonSep) := common_scan f t 0 (-1)%Z in
      let is_slash (l : list ascii) (k : nat) : bool :=
        match nth_error l k with
        | Some c => Ascii.eqb c Path.slash
        | None => false
        end in
      let tail (lastCommonSep : Z) : string :=
        ups (skipn (Z.to_nat (lastCommonSep + 1)) f) ""
        +:+ Text.drop (Z.to_nat (1 + lastCommonSep)) to in
      if (i =? len)%nat then
        if (len <? toLen)%nat then
          if is_slash t i then Text.drop (1 + i + 1) to
          else if (i =? 0)%nat then Text.drop (1 + i) to
          else tail lastCommonSep
        else if (len <? fromLen)%nat then
          if is_slash f i then tail (Z.of_nat i)
          else if (i =? 0)%nat then tail 0%Z
          else tail lastCommonSep
        else tail lastCommonSep
      else tail lastCommonSep.

End PathMore.

(** [interface DirectoryInfo] *)
Module DirectoryInfo.
#[warnings="-register-all"] Inductive t : Type :=
| mk (path relativePath name : string) (files : list FileInfo.t) (directories : list t).
End DirectoryInfo.

(** [interface FilterCriteria]: every field is optional. *)
Module FilterCriteria.
Record t : Type := mk {
  extensions : option (list string);
  excludePatterns : option (list string);
  maxSize : option Z;
  modifiedSince : option Z
}.
End FilterCriteria.

Module Scanner.

(** The field [excludedFiles], in the order of its construction. *)
Definition excludedFiles : list string := ["package-lock.json"; "yarn.lock"; "*.log"].

(** The [switch] of [determineFileType]. *)
Definition determineFileType (extension : string) : FileType.t :=
  if String.eqb extension ".js" || String.eqb extension ".jsx"
     || String.eqb extension ".mjs" then FileType.JavaScript
  else if String.eqb extension ".ts" || String.eqb extension ".tsx" then FileType.TypeScript
  else if String.eqb extension ".html" || String.eqb extension ".htm"
          || String.eqb extension ".xhtml" then FileType.HTML
  else if String.eqb extension ".css" || String.eqb extension ".scss"
          || String.eqb extension ".less" then FileType.CSS
  else if String.eqb extension ".json" then FileType.JSON
  else if String.eqb extension ".md" || String.eqb extension ".markdown"
  then FileType.Markdown
  else if String.eqb extension ".png" || String.eqb extension ".jpg"
          || String.eqb extension ".jpeg" || String.eqb extension ".gif"
          || String.eqb extension ".svg" then FileType.Image
  else FileType.Unknown.

(** The exported function [determineFileTypeFromPath], with its own copy
    of the [switch]. *)
Definition determineFileTypeFromPath (filePath : string) : FileType.t :=
  let ext := Text.toLowerCase (Path.extname filePath) in
  if String.eqb ext ".js" || String.eqb ext ".jsx" || String.eqb ext ".mjs"
  then FileType.JavaScript
  else if String.eqb ext ".ts" || String.eqb ext ".tsx" then FileType.TypeScript
  else if String.eqb ext ".html" || String.eqb ext ".htm" || String.eqb ext ".xhtml"
  then FileType.HTML
  else if String.eqb ext ".css" || String.eqb ext ".scss" || String.eqb ext ".less"
  then FileType.CSS
  else if String.eqb ext ".json" then FileType.JSON
  else if String.eqb ext ".md" || String.eqb ext ".markdown" then FileType.Markdown
  else if String.eqb ext ".png" || String.eqb ext ".jpg" || String.eqb ext ".jpeg"
          || String.eqb ext ".gif" || String.eqb ext ".svg" then FileType.Image
  else FileType.Unknown.

(** The loop of [shouldExcludeFile] over the patterns. *)
Fixpoint matches_excluded (patterns : list string) (fileName : string) : bool :=
  match patterns with
  | [] => false
  | pattern :: patterns' =>
      if JS.includes pattern "*" then
        let ext := Text.replace_first pattern "*" "" in
        if JS.endsWith fileName ext then true else matches_excluded patterns' fileName
      else if String.eqb pattern fileName then true
      else matches_excluded patterns' fileName
  end.

Definition shouldExcludeFile (fileName : string) : bool :=
  matches_excluded excludedFiles fileName.

(** [collectAllFiles]: the array [allFiles] after the pushes. *)
Fixpoint collectAllFiles (dirInfo : DirectoryInfo.t) (allFiles : list FileInfo.t)
  : list FileInfo.t :=
  match dirInfo with
  | DirectoryInfo.mk _ _ _ files directories =>
      fold_left (fun allFiles subDir => collectAllFiles subDir allFiles)
        directories (allFiles ++ files)
  end.

(** The loop of the filter of [filterFiles] over [excludePatterns]:
    [true] when a pattern excludes the file. *)
Fixpoint matches_exclude_pattern (patterns : list string) (relativePath : string) : bool :=
  match patterns with
  | [] => false
  | pattern :: patterns' =>
      if JS.endsWith pattern "*" then
        let prefix := Text.drop_last pattern in
        if JS.startsWith relativePath prefix then true
        else matches_exclude_pattern patterns' relativePath
      else if String.eqb pattern relativePath then true
      else matches_exclude_pattern patterns' relativePath
  end.

(** The callback of [structure.allFiles.filter(...)] in [filterFiles]. *)
Definition filter_accepts (criteria : FilterCriteria.t) (file : FileInfo.t) : bool :=
  if match FilterCriteria.extensions criteria with
     | Some ((_ :: _) as extensions) =>
         negb (JS.array_includes extensions (FileInfo.extension file))
     | _ => false
     end
  then false
  else if match FilterCriteria.maxSize criteria with
          | Some maxSize => (FileInfo.size file >? maxSize)%Z
          | None => false
          end
  then false
  else if match FilterCriteria.modifiedSince criteria with
          | Some modifiedSince => (FileInfo.lastModified file <? modifiedSince)%Z
          | None => false
          end
  then false
  else if match FilterCriteria.excludePatterns criteria with
          | Some patterns => matches_exclude_pattern patterns (FileInfo.relativePath file)
          | None => false
          end
  then false
  else true.

(** What [filterFiles] returns once the workspace is scanned into
    [structure]. *)
Definition filterFiles_of (structure : ProjectStructure.t) (criteria : FilterCriteria.t)
  : list string :=
  map FileInfo.path (List.filter (filter_accepts criteria) (ProjectStructure.allFiles structure)).

End Scanner.

(** ** The remaining methods of [DependencyManager] *)

(** What [fs.stat] tells of a file. *)
Record Stats : Type := mkStats { stat_size : Z; stat_mtime : Z }.

(** The disk as seen by [fs.stat]: [None] when the promise is rejected,
    as it is for a path that does not exist. *)
Definition StatFn : Type := string -> option Stats.

(** [path.isAbsolute(filePath) ? filePath : path.join(this.workspaceRoot!,
    filePath)]: [path.join] throws on an undefined root, hence [None]. *)
Definition absolute_path (env : Env) (filePath : string) : option string :=
  if Path.isAbsolute filePath then Some filePath
  else match workspaceRoot env with
       | Some root => Some (Path.join root filePath)
       | None => None
       end.

(** The descriptor built by [getFileDependencies] and
    [generateDependencySummary]; [typeArgument] is what each of them
    hands to [determineFileTypeFromPath]. *)
Definition describe (env : Env) (absolutePath typeArgument : string) (fileStats : Stats)
  : FileInfo.t :=
  FileInfo.mk absolutePath
    (match truthy_root (workspaceRoot env) with
     | Some root => PathMore.relative (cwd env) root absolutePath
     | None => absolutePath
     end)
    (PathMore.basename absolutePath)
    (Text.toLowerCase (Path.extname absolutePath))
    (Scanner.determineFileTypeFromPath typeArgument)
    (stat_size fileStats) (stat_mtime fileStats) None.

(** The inner loop of [getFileDependencies]: a dependency is added
    unless one with the same source and target is there. *)
Definition add_unique (allDependencies : list Dependency.t) (recursiveDep : Dependency.t)
  : list Dependency.t :=
  if existsb (fun d => String.eqb (Dependency.source d) (Dependency.source recursiveDep)
                       && String.eqb (Dependency.target d) (Dependency.target recursiveDep))
       allDependencies
  then allDependencies
  else allDependencies ++ [recursiveDep].

(** The loop of [getFileDependencies] over the direct dependencies;
    [recurse] is the recursive call on one target, [None] when it is
    rejected, which rejects the whole call. *)
Fixpoint recursive_loop (recurse : string -> M (option (list Dependency.t)))
  (directDependencies : list Dependency.t)
  (allDependencies : list Dependency.t) (processedPaths : gset string)
  : M (option (list Dependency.t)) :=
  match directDependencies with
  | [] => ret (Some allDependencies)
  | dep :: rest =>
      if bool_decide (Dependency.target dep ∈ processedPaths) || Dependency.isExternal dep
      then recursive_loop recurse rest allDependencies processedPaths
      else
        let processedPaths := processedPaths ∪ {[Dependency.target dep]} in
        r <- recurse (Dependency.target dep) ;;
        match r with
        | None => ret None
        | Some recursiveDeps =>
            recursive_loop recurse rest
              (fold_left add_unique recursiveDeps allDependencies) processedPaths
        end
  end.

(** [getFileDependencies] with [maxDepth] a natural number [depth]; the
    result is [None] when the promise is rejected. *)
Fixpoint getFileDependencies_depth (stat : StatFn) (depth : nat) (filePath : string)
  (recursive : bool) {struct depth} : M (option (list Dependency.t)) :=
  env <- ask ;;
  match absolute_path env filePath with
  | None => ret None
  | Some absolutePath =>
      match stat absolutePath with
      | None => ret None
      | Some fileStats =>
          let fileInfo := describe env absolutePath filePath fileStats in
          directDependencies <- analyzeDependencies fileInfo ;;
          match depth with
          | O => ret (Some directDependencies)
          | S depth' =>
              if negb recursive then ret (Some directDependencies)
              else
                recursive_loop
                  (fun target => getFileDependencies_depth stat depth' target true)
                  directDependencies directDependencies {[absolutePath]}
          end
      end
  end.

(** [getFileDependencies(filePath, recursive, maxDepth)] for an integer
    [maxDepth]: the test [maxDepth <= 0] holds at depth 0. *)
Definition getFileDependencies (stat : StatFn) (filePath : string) (recursive : bool)
  (maxDepth : Z) : M (option (list Dependency.t)) :=
  getFileDependencies_depth stat (Z.to_nat maxDepth) filePath recursive.

(** The loop of [getFileReverseDependencies] over the catalog. *)
Fixpoint dependents_loop (absolutePath : string) (files : list FileInfo.t)
  (dependents : list string) : M (list string) :=
  match files with
  | [] => ret dependents
  | file :: files' =>
      dependencies <- analyzeDependencies file ;;
      dependents_loop absolutePath files'
        (if existsb (fun dep => String.eqb (Dependency.target dep) absolutePath) dependencies
         then dependents ++ [FileInfo.path file] else dependents)
  end.

Definition getFileReverseDependencies (filePath : string)
  (projectStructure : ProjectStructure.t) : M (option (list string)) :=
  env <- ask ;;
  match absolute_path env filePath with
  | None => ret None
  | Some absolutePath =>
      dependents <- dependents_loop absolutePath
                      (ProjectStructure.allFiles projectStructure) [] ;;
      ret (Some dependents)
  end.

(** The first statements of [generateDependencySummary], up to the call
    of [analyzeDependencies]: the dependencies the summary is made of.
    The descriptor takes its type from the extension alone. *)
Definition summary_dependencies (stat : StatFn) (filePath : string)
  : M (option (list Dependency.t)) :=
  env <- ask ;;
  match absolute_path env filePath with
  | None => ret None
  | Some absolutePath =>
      match stat absolutePath with
      | None => ret None
      | Some fileStats =>
          let extension := Text.toLowerCase (Path.extname absolutePath) in
          let fileInfo := describe env absolutePath extension fileStats in
          dependencies <- analyzeDependencies fileInfo ;;
          ret (Some dependencies)
      end
  end.

(** ** Notions used to state the further properties *)

(** The strings of [l], each once, in the order of their first
    occurrence. *)
Fixpoint first_occurrences (l : list string) : list string :=
  match l with
  | [] => []
  | x :: l' => x :: List.filter (fun y => negb (String.eqb x y)) (first_occurrences l')
  end.

(** The last element of [l] that satisfies [p]. *)
Definition find_last {A} (p : A -> bool) (l : list A) : option A := find p (rev l).

(** The list the cache holds for a path, empty when there is none. *)
Definition cached (st : State) (p : string) : list Dependency.t :=
  default [] (dependencyCache st !! p).

(** The calls of the progress callback for a catalog of [n] files. *)
Definition progress_events (progressCallback : bool) (n : nat) : list Event :=
  if progressCallback then map (fun i => EvProgress i n) (seq 1 n) else [].

(** The second loop of [buildDependencyGraph] when the dependencies of
    every file are given by [lookup]. *)
Definition graph_with (lookup : string -> list Dependency.t) (files : list FileInfo.t)
  (graph : DependencyGraph.t) : DependencyGraph.t :=
  fold_left (fun g file => fold_left (add_edge file) (lookup (FileInfo.path file)) g)
    files graph.

(** What the inner loop of [buildDependencyGraph] does to the edge map
    of the file it handles: the dependencies whose target is a node of
    [N] are stored under their target, one after the other. *)
Definition set_targets (N : jsmap FileInfo.t) (ds : list Dependency.t)
  (inner : jsmap Dependency.t) : jsmap Dependency.t :=
  fold_left (fun m d => jsmap_set m (Dependency.target d) d)
    (List.filter (fun d => jsmap_has N (Dependency.target d)) ds) inner.

(** Every list of the cache is stored under the source of its
    dependencies. *)
Definition cache_sources_ok (st : State) : Prop :=
  forall p deps d,
    dependencyCache st !! p = Some deps -> In d deps -> Dependency.source d = p.

(** The edge map of a file whose dependencies are [deps], over the
    nodes [N]: under a node, the last dependency with that target. *)
Definition edge_map_of (N : jsmap FileInfo.t) (deps : list Dependency.t)
  (inner : jsmap Dependency.t) : Prop :=
  forall tgt,
    jsmap_get inner tgt
    = if jsmap_has N tgt
      then find_last (fun d => String.eqb (Dependency.target d) tgt) deps
      else None.

(** An edge map that holds nothing but such dependencies. *)
Definition edge_map_within (N : jsmap FileInfo.t) (deps : list Dependency.t)
  (inner : jsmap Dependency.t) : Prop :=
  forall tgt d,
    jsmap_get inner tgt = Some d ->
    jsmap_has N tgt = true
    /\ find_last (fun d => String.eqb (Dependency.target d) tgt) deps = Some d.

(** What a dependency found in a file of type [ty] at [filePath] looks
    like. *)
Definition found_in (ty : FileType.t) (filePath : string) (d : Dependency.t) : Prop :=
  Dependency.source d = filePath
  /\ match ty with
     | FileType.JavaScript | FileType.TypeScript =>
         (Dependency.type d = DependencyType.Import_
          \/ Dependency.type d = DependencyType.Reference)
         /\ Dependency.isExternal d = false
         /\ is_Some (Dependency.lineNumbers d)
     | FileType.HTML =>
         Dependency.type d = DependencyType.HtmlLink
         /\ is_Some (Dependency.lineNumbers d)
     | FileType.CSS =>
         Dependency.type d = DependencyType.StyleImport
         /\ is_Some (Dependency.lineNumbers d)
     | FileType.JSON =>
         Dependency.type d = DependencyType.Import_
         /\ Dependency.isExternal d = true
         /\ Dependency.lineNumbers d = None
         /\ JS.startsWith (Dependency.target d) "node_modules/" = true
     | FileType.Markdown =>
         Dependency.type d = DependencyType.Reference
         /\ Dependency.isExternal d = false
         /\ is_Some (Dependency.lineNumbers d)
     | FileType.Image | FileType.Unknown => False
     end.

(** [b] is one of the targets stored in the edge map of [a]. *)
Definition has_edge (graph : DependencyGraph.t) (a b : string) : Prop :=
  exists inner,
    jsmap_get (DependencyGraph.edges graph) a = Some inner /\ jsmap_has inner b = true.

(** Each node of [l] has an edge to the next one. *)
Fixpoint walk (graph : DependencyGraph.t) (l : list string) : Prop :=
  match l with
  | [] => True
  | a :: l' =>
      match l' with
      | [] => True
      | b :: _ => has_edge graph a b
      end /\ walk graph l'
  end.

(** A cycle of the graph as [dfsForCycles] writes it: a walk that comes
    back to its first node and does not pass twice through a node
    otherwise. *)
Definition simple_cycle (graph : DependencyGraph.t) (c : list string) : Prop :=
  exists x body, c = x :: body ++ [x] /\ List.NoDup (x :: body) /\ walk graph c.

Inductive reaches (graph : DependencyGraph.t) : string -> string -> Prop :=
| reaches_refl (a : string) : reaches graph a a
| reaches_step (a b c : string) :
    has_edge graph a b -> reaches graph b c -> reaches graph a c.

(** Some walk leaves [a] and comes back to it. *)
Definition on_cycle (graph : DependencyGraph.t) (a : string) : Prop :=
  exists x, reaches graph a x /\ has_edge graph x a.

(** What a call of [dfsForCycles] on [current] establishes, [visited],
    [path] and [cycles] being its arguments and [r] its result: the
    cycles recorded are cycles of the graph, nothing is forgotten, no
    node of the path is marked, the current node is marked or on the
    path, the targets of a node marked by the call are marked or on the
    path, and an edge from such a node (or from the current one, when it
    closes the path) back to the first node of the path has a cycle
    recorded that starts there. *)
Definition dfs_post (graph : DependencyGraph.t) (visited : gset string)
  (path : list string) (current : string) (cycles : list (list string))
  (r : dfs_state) : Prop :=
  Forall (simple_cycle graph) (snd r)
  /\ visited ⊆ fst r
  /\ incl cycles (snd r)
  /\ (forall x, In x path -> x ∈ fst r -> x ∈ visited)
  /\ (current ∈ fst r \/ In current path)
  /\ (forall x y, x ∈ fst r -> x ∉ visited -> has_edge graph x y ->
                  y ∈ fst r \/ In y path)
  /\ (forall x, x ∈ fst r -> x ∉ visited -> has_edge graph x (hd current path) ->
                exists c, In c (snd r) /\ hd_error c = Some (hd current path))
  /\ (current ∉ visited -> JS.indexOf path current = Some 0%nat ->
      exists c, In c (snd r) /\ hd_error c = Some current).

(** A character that is neither a dot nor a slash. *)
Definition plain_char (c : ascii) : bool :=
  negb (Ascii.eqb c Path.dot) && negb (Ascii.eqb c Path.slash).

(** The state of the scan of [path.extname] after the characters [l],
    the first of which has the position [k]: the scan runs from the
    last character to the first. *)
Definition ext_scan (k : nat) (l : list ascii) : Path.ext_state :=
  fold_right (fun ic st => Path.ext_step st ic)
    (Path.mkExt None 0 None true 0 false) (combine (seq k (length l)) l).

(** What the scan of [path.extname] knows after the characters [l]
    from the position [k] on: once the dot is found, the text from the
    dot to the end of the name is a dot followed by plain characters;
    before, the text up to the end of the name is made of plain
    characters. *)
Definition ext_inv (k : nat) (l : list ascii) (st : Path.ext_state) : Prop :=
  (forall sd e, Path.startDot st = Some sd -> Path.endPos st = Some e ->
     (k <= sd)%nat
     /\ exists w, forallb plain_char w = true
                  /\ firstn (e - sd) (skipn (sd - k) l) = Path.dot :: w)
  /\ (Path.stopped st = false -> Path.startDot st = None ->
      forall e, Path.endPos st = Some e ->
                (k <= e)%nat /\ forallb plain_char (firstn (e - k) l) = true)
  /\ (Path.matchedSlash st = true -> Path.endPos st = None)
  /\ (Path.endPos st = None -> Path.startDot st = None).

(** What the inner loop of [getFileDependencies] compares. *)
Definition edge_key (d : Dependency.t) : string * string :=
  (Dependency.source d, Dependency.target d).

(** [fs.stat] on a disk that holds the files listed. *)
Definition stat_of (files : list (string * string)) : StatFn :=
  fun p => option_map (fun c => mkStats (Z.of_nat (String.length c)) 0) (jsmap_get files p).

(** A disk with one script that imports a file that is not there. *)
Definition dangling_files : list (string * string) :=
  [("/p/a.ts", "import x from './missing'")].

Definition dangling_disk : Env := disk_of dangling_files (Some "/p").

(** The two files of [small_disk]. *)
Definition small_files : list (string * string) :=
  [("/p/a.ts", "import x from './b'"); ("/p/b.ts", "export const x = 1")].

(** The three files of [circle_disk]. *)
Definition circle_files : list (string * string) :=
  [("/p/a.ts", "import b from './b'");
   ("/p/b.ts", "import c from './c'");
   ("/p/c.ts", "import a from './a'")].

(** A list of numbers in which every element is smaller than those
    after it. *)
Fixpoint ascending (l : list nat) : Prop :=
  match l with
  | [] => True
  | a :: l' => (forall b, In b l' -> (a < b)%nat) /\ ascending l'
  end.

(** The line feed, at which [findLineNumbers] splits. *)
Definition line_feed : ascii := "010"%char.

(** The paths read from the disk in a trace, in order. *)
Fixpoint reads (evs : list Event) : list string :=
  match evs with
  | [] => []
  | EvReadFile p :: evs' => p :: reads evs'
  | _ :: evs' => reads evs'
  end.

(** The calls of the progress callback in a trace, in order. *)
Fixpoint progress_calls (evs : list Event) : list (nat * nat) :=
  match evs with
  | [] => []
  | EvProgress processed total :: evs' => (processed, total) :: progress_calls evs'
  | _ :: evs' => progress_calls evs'
  end.

(** The errors logged in a trace, in order. *)
Fixpoint logged (evs : list Event) : list string :=
  match evs with
  | [] => []
  | EvConsoleError msg :: evs' => msg :: logged evs'
  | _ :: evs' => logged evs'
  end.

(** A probe of the disk. *)
Definition probe (e : Event) : Prop :=
  match e with
  | EvExistsSync _ => True
  | _ => False
  end.

(** A computation that only appends events that satisfy [P] to the
    trace. *)
Definition emits_only (P : Event -> Prop) {A} (c : M A) : Prop :=
  forall env st,
    exists evs, events (snd (c env st)) = events st ++ evs /\ Forall P evs.

(** The files of a directory tree: those of the directory, then those
    of its sub-directories, one sub-directory after the other. *)
Fixpoint tree_files (d : DirectoryInfo.t) : list FileInfo.t :=
  match d with
  | DirectoryInfo.mk _ _ _ files directories => files ++ flat_map tree_files directories
  end.

(** An exclude pattern of [filterFiles] applies to a relative path: a
    pattern that ends with a star by its prefix, another one as a
    whole. *)
Definition excluded_by (pattern relativePath : string) : bool :=
  if JS.endsWith pattern "*" then JS.startsWith relativePath (Text.drop_last pattern)
  else String.eqb pattern relativePath.

(** The names of the properties [Object.entries] lists for a value that
    is not an object: the indices of an array or of a string. *)
Definition index_names (n : nat) : list string := map JS.string_of_nat (seq 0 n).

(** ** The loops of the extractors, as a table *)

(** One loop of an extractor: its pattern, the group that holds the
    reference, the kind of dependency it pushes, the references it
    passes over, and the value of [isExternal] it records. *)
Record Loop : Type := mkLoop {
  loop_pattern : Regex.regex;
  loop_group : nat;
  loop_type : DependencyType.t;
  loop_skips : string -> bool;
  loop_external : string -> bool }.

(** The loops [analyzeDependencies] runs for a file of a type, in the
    order of the source. *)
Definition loops (ty : FileType.t) : list Loop :=
  match ty with
  | FileType.JavaScript | FileType.TypeScript =>
      [mkLoop Patterns.importPattern 1 DependencyType.Import_
         isExternalDependency (fun _ => false);
       mkLoop Patterns.requirePattern 1 DependencyType.Import_
         isExternalDependency (fun _ => false);
       mkLoop Patterns.dynamicImportPattern 1 DependencyType.Import_
         isExternalDependency (fun _ => false);
       mkLoop Patterns.referencePattern 1 DependencyType.Reference
         (fun _ => false) (fun _ => false)]
  | FileType.HTML =>
      let skips src := JS.startsWith src "data:" || JS.startsWith src "http" in
      [mkLoop Patterns.scriptPattern 1 DependencyType.HtmlLink skips isExternalDependency;
       mkLoop Patterns.linkPattern 1 DependencyType.HtmlLink skips isExternalDependency;
       mkLoop Patterns.imgPattern 1 DependencyType.HtmlLink skips isExternalDependency]
  | FileType.CSS =>
      [mkLoop Patterns.cssImportPattern 1 DependencyType.StyleImport
         (fun p => JS.startsWith p "http" || JS.startsWith p "data:")
         isExternalDependency;
       mkLoop Patterns.cssUrlPattern 1 DependencyType.StyleImport
         (fun p => JS.startsWith p "http" || JS.startsWith p "data:"
                   || JS.startsWith p "#")
         isExternalDependency]
  | FileType.Markdown =>
      [mkLoop Patterns.mdImagePattern 2 DependencyType.Reference
         (fun p => JS.startsWith p "http") (fun _ => false);
       mkLoop Patterns.mdLinkPattern 2 DependencyType.Reference
         (fun p => JS.startsWith p "http" || JS.startsWith p "#" || JS.includes p "@")
         (fun _ => false)]
  | _ => []
  end.

(** The dependency a loop pushes for a match. *)
Definition dependency_of (filePath content : string) (env : Env) (l : Loop)
  (m : Regex.Match) : Dependency.t :=
  let ref := Regex.group m (loop_group l) in
  Dependency.mk filePath (fst (resolveImportPath filePath ref env fresh)) (loop_type l)
    (Some (findLineNumbers content (Regex.m0 m))) (loop_external l ref).

(** What a loop pushes: one dependency for each match of its pattern
    whose reference it does not pass over, in the order of the
    matches. *)
Definition loop_dependencies (filePath content : string) (env : Env) (l : Loop)
  : list Dependency.t :=
  map (dependency_of filePath content env l)
    (List.filter (fun m => negb (loop_skips l (Regex.group m (loop_group l))))
       (Regex.matchAll (loop_pattern l) content)).

Definition extracted (ty : FileType.t) (filePath content : string) (env : Env)
  : list Dependency.t :=
  flat_map (loop_dependencies filePath content env) (loops ty).

(** What the body of a loop adds for one match. *)
Definition pushed (filePath content : string) (l : Loop) (env : Env) (m : Regex.Match)
  : list Dependency.t :=
  if negb (loop_skips l (Regex.group m (loop_group l)))
  then [dependency_of filePath content env l m] else [].

(** ** Facts about the monad *)

Lemma keeps_cache_ret {A} (a : A) : keeps_cache (ret a).
Proof. intros env st. reflexivity. Qed.

Lemma keeps_cache_bind {A B} (c : M A) (k : A -> M B) :
  keeps_cache c -> (forall a, keeps_cache (k a)) -> keeps_cache (bind c k).
Proof.
  intros Hc Hk env st. unfold bind.
  specialize (Hc env st). destruct (c env st) as [a st1]. simpl in Hc.
  rewrite Hk. exact Hc.
Qed.

Lemma keeps_cache_emit (e : Event) : keeps_cache (emit e).
Proof. intros env st. reflexivity. Qed.

Lemma keeps_cache_existsSync (p : string) : keeps_cache (existsSync p).
Proof. intros env st. reflexivity. Qed.

Lemma keeps_cache_readFile (p : string) : keeps_cache (readFile p).
Proof. intros env st. reflexivity. Qed.

Lemma keeps_cache_first_existing (candidates : list string) :
  keeps_cache (first_existing candidates).
Proof.
  induction candidates as [|p ps IH]; simpl.
  - apply keeps_cache_ret.
  - apply keeps_cache_bind; [apply keeps_cache_existsSync|].
    intros []; [apply keeps_cache_ret | exact IH].
Qed.

Lemma keeps_cache_resolveImportPath (sourcePath importPath : string) :
  keeps_cache (resolveImportPath sourcePath importPath).
Proof.
  unfold resolveImportPath. intros env st. unfold bind at 1, ask at 1.
  destruct (JS.startsWith importPath "/" || JS.startsWith importPath "http").
  - destruct (JS.startsWith importPath "/"), (truthy_root (workspaceRoot env)); reflexivity.
  - destruct (String.eqb _ ""); [|reflexivity].
    apply keeps_cache_bind; [apply keeps_cache_first_existing|].
    intros [p|]; [apply keeps_cache_ret|].
    apply keeps_cache_bind; [apply keeps_cache_first_existing|].
    intros [p|]; apply keeps_cache_ret.
Qed.

Lemma keeps_cache_push_resolved fp content ty ref m ext deps :
  keeps_cache (push_resolved fp content ty ref m ext deps).
Proof.
  unfold push_resolved. apply keeps_cache_bind; [apply keeps_cache_resolveImportPath|].
  intros t. apply keeps_cache_ret.
Qed.

Lemma keeps_cache_for_each {A} (xs : list A) body :
  (forall x deps, keeps_cache (body x deps)) ->
  forall deps, keeps_cache (for_each xs body deps).
Proof.
  intros Hbody. induction xs as [|x xs IH]; intros deps; simpl.
  - apply keeps_cache_ret.
  - apply keeps_cache_bind; [apply Hbody | exact IH].
Qed.

Create HintDb keeps discriminated.
#[local] Hint Resolve keeps_cache_ret keeps_cache_emit keeps_cache_existsSync
  keeps_cache_readFile keeps_cache_first_existing keeps_cache_resolveImportPath
  keeps_cache_push_resolved : keeps.

Ltac keeps_body :=
  intros; cbv beta delta [js_import_body js_reference_body html_body css_import_body
                            css_url_body md_image_body md_link_body] zeta;
  match goal with
  | |- keeps_cache (if ?b then _ else _) => destruct b; auto with keeps
  | |- _ => auto with keeps
  end.

Lemma keeps_cache_extractJavaScriptDependencies fp content deps :
  keeps_cache (extractJavaScriptDependencies fp content deps).
Proof.
  unfold extractJavaScriptDependencies.
  apply keeps_cache_bind; [|intros deps1]; apply keeps_cache_for_each; keeps_body.
Qed.

Lemma keeps_cache_extractHTMLDependencies fp content deps :
  keeps_cache (extractHTMLDependencies fp content deps).
Proof.
  unfold extractHTMLDependencies.
  apply keeps_cache_bind; [|intros deps1; apply keeps_cache_bind; [|intros deps2]];
    apply keeps_cache_for_each; keeps_body.
Qed.

Lemma keeps_cache_extractCSSDependencies fp content deps :
  keeps_cache (extractCSSDependencies fp content deps).
Proof.
  unfold extractCSSDependencies.
  apply keeps_cache_bind; [|intros deps1]; apply keeps_cache_for_each; keeps_body.
Qed.

Lemma keeps_cache_extractJSONDependencies fp content deps :
  keeps_cache (extractJSONDependencies fp content deps).
Proof.
  unfold extractJSONDependencies.
  destruct (negb _); [apply keeps_cache_ret|].
  destruct (match Json.JSON_parse content with Json.SyntaxError => _ | _ => _ end)
    as [deps' thrown].
  destruct thrown; [|apply keeps_cache_ret].
  apply keeps_cache_bind; [apply keeps_cache_emit | intros; apply keeps_cache_ret].
Qed.

Lemma keeps_cache_extractMarkdownDependencies fp content deps :
  keeps_cache (extractMarkdownDependencies fp content deps).
Proof.
  unfold extractMarkdownDependencies.
  apply keeps_cache_bind; [|intros deps1]; apply keeps_cache_for_each; keeps_body.
Qed.

Lemma keeps_cache_extract_by_type file content deps :
  keeps_cache (extract_by_type file content deps).
Proof.
  unfold extract_by_type. destruct (FileInfo.type file);
    auto using keeps_cache_extractJavaScriptDependencies, keeps_cache_extractHTMLDependencies,
      keeps_cache_extractCSSDependencies, keeps_cache_extractJSONDependencies,
      keeps_cache_extractMarkdownDependencies, keeps_cache_ret.
Qed.

(** ** The cache *)

Lemma analyzeDependencies_hit file env st deps :
  dependencyCache st !! FileInfo.path file = Some deps ->
  analyzeDependencies file env st = (deps, st).
Proof.
  intros Hhit. unfold analyzeDependencies, bind, cache_get. rewrite Hhit. reflexivity.
Qed.

Lemma analyzeDependencies_miss file env st :
  dependencyCache st !! FileInfo.path file = None ->
  exists deps evs,
    analyzeDependencies file env st
    = (deps, mkState (<[FileInfo.path file := deps]> (dependencyCache st)) evs).
Proof.
  intros Hmiss. unfold analyzeDependencies, bind at 1, cache_get. rewrite Hmiss.
  destruct (_ || _).
  - eexists _, _. reflexivity.
  - assert (Hext : forall content st1,
               dependencyCache st1 = dependencyCache st ->
               exists deps evs,
                 (deps <- extract_by_type file content [] ;;
                  cache_set (FileInfo.path file) deps ;;; ret deps) env st1
                 = (deps, mkState (<[FileInfo.path file := deps]> (dependencyCache st)) evs)).
    { intros content st1 Hst1. unfold bind at 1.
      pose proof (keeps_cache_extract_by_type file content [] env st1) as Hk.
      destruct (extract_by_type file content [] env st1) as [deps st2]. simpl in Hk.
      unfold_monad. eexists _, _. rewrite Hk, Hst1. reflexivity. }
    destruct (loaded_content file) as [c|].
    + unfold bind at 1, ret at 1. apply Hext. reflexivity.
    + unfold bind at 1, readFile, bind at 1, ask, bind at 1, emit, ret at 1.
      destruct (disk_read env (FileInfo.path file)) as [c|].
      * apply Hext. reflexivity.
      * unfold_monad. eexists _, _. reflexivity.
Qed.

(** After a call the cache holds the list returned for the path, and
    what it held for the other paths. *)
Lemma analyzeDependencies_cache file env st :
  let '(deps, st') := analyzeDependencies file env st in
  dependencyCache st' !! FileInfo.path file = Some deps
  /\ (forall p l, dependencyCache st !! p = Some l -> dependencyCache st' !! p = Some l).
Proof.
  destruct (dependencyCache st !! FileInfo.path file) as [deps|] eqn:Hc.
  - rewrite (analyzeDependencies_hit _ _ _ _ Hc). auto.
  - destruct (analyzeDependencies_miss file env st Hc) as (deps & evs & ->). simpl.
    split; [apply lookup_insert_eq|].
    intros p l Hp. rewrite lookup_insert_ne; [exact Hp|]. congruence.
Qed.

Lemma after_calls_cache calls st p l :
  dependencyCache st !! p = Some l ->
  dependencyCache (after_calls calls st) !! p = Some l.
Proof.
  revert st. induction calls as [|[file env] calls IH]; intros st Hp; simpl; [exact Hp|].
  apply IH. pose proof (analyzeDependencies_cache file env st) as H.
  destruct (analyzeDependencies file env st) as [deps st']. simpl. apply H. exact Hp.
Qed.

(** C4. [analyzeDependencies] is idempotent per path: whatever the state
    and the disk at the first call, the call stores its result, empty or
    not, under the path of the file; and a later call for the same path,
    after any series of other calls, even with another descriptor and
    another disk, returns that very list and leaves the cache and the
    trace untouched (no read, no probe, no pattern matched, no second
    store). *)
Theorem analyzeDependencies_idempotent :
  forall (file file' : FileInfo.t) (env env' : Env) (st : State)
         (between : list (FileInfo.t * Env)),
    FileInfo.path file' = FileInfo.path file ->
    let '(deps, st1) := analyzeDependencies file env st in
    let st2 := after_calls between st1 in
    dependencyCache st1 !! FileInfo.path file = Some deps
    /\ analyzeDependencies file' env' st2 = (deps, st2).
Proof.
  intros file file' env env' st between Hpath.
  pose proof (analyzeDependencies_cache file env st) as H.
  destruct (analyzeDependencies file env st) as [deps st1].
  destruct H as [Hc _]. split; [exact Hc|].
  apply analyzeDependencies_hit. rewrite Hpath. apply after_calls_cache. exact Hc.
Qed.

Lemma analyzeDependencies_idempotent_witness :
  let file := plain_file "/p/a.ts" FileType.TypeScript 19 None in
  let file' := plain_file "/p/a.ts" FileType.TypeScript 0 (Some "import y from './c'") in
  let later := disk_of [("/p/a.ts", "import y from './c'"); ("/p/c.ts", "")] (Some "/p") in
  let between := [(plain_file "/p/c.ts" FileType.TypeScript 0 None, later)] in
  let '(deps, st1) := analyzeDependencies file small_disk fresh in
  let st2 := after_calls between st1 in
  deps = [Dependency.mk "/p/a.ts" "/p/b.ts" DependencyType.Import_ (Some [0%nat]) false]
  /\ dependencyCache st1 !! "/p/a.ts" = Some deps
  /\ analyzeDependencies file' later st2 = (deps, st2).
Proof.
  intros file file' later between.
  pose proof (analyzeDependencies_idempotent file file' small_disk later fresh between
                eq_refl) as H.
  destruct (analyzeDependencies file small_disk fresh) as [deps st1] eqn:E.
  split; [|exact H].
  apply (f_equal fst) in E. simpl in E. rewrite <- E. vm_compute. reflexivity.
Defined.

(** ** Skipped files and absorbed failures *)

Lemma isBinaryFile_spec file :
  isBinaryFile file = true <->
  FileInfo.type file = FileType.Image \/ In (FileInfo.extension file) binaryExtensions.
Proof.
  unfold isBinaryFile, JS.array_includes. split.
  - destruct (FileType.eqb _ _) eqn:E.
    + intros _. left. destruct (FileInfo.type file); simpl in E; congruence.
    + intros H. right. apply existsb_exists in H as (x & Hin & Hx).
      apply String.eqb_eq in Hx. subst x. exact Hin.
  - intros [H|H].
    + rewrite H. reflexivity.
    + destruct (FileType.eqb _ _); [reflexivity|].
      apply existsb_exists. exists (FileInfo.extension file).
      split; [exact H | apply String.eqb_refl].
Qed.

Lemma analyzeDependencies_loaded file env st :
  dependencyCache st !! FileInfo.path file = None ->
  skipped file = false ->
  analyzeDependencies file env st
  = match content_of file env with
    | None =>
        ([], mkState (<[FileInfo.path file := []]> (dependencyCache st))
               (events st ++ load_events file
                ++ [EvConsoleError ("Error reading file " +:+ FileInfo.path file +:+ ":")]))
    | Some content =>
        let '(deps, st2) :=
          extract_by_type file content []
            env (mkState (dependencyCache st) (events st ++ load_events file)) in
        (deps, mkState (<[FileInfo.path file := deps]> (dependencyCache st2)) (events st2))
    end.
Proof.
  intros Hmiss Hskip. unfold skipped in Hskip.
  unfold analyzeDependencies, bind at 1, cache_get. rewrite Hmiss, Hskip.
  unfold content_of, load_events.
  destruct (loaded_content file) as [c|].
  - unfold bind at 1, ret at 1. rewrite app_nil_r. destruct st as [cache evs]. simpl.
    unfold bind at 1. destruct (extract_by_type file c [] env _) as [deps st2].
    reflexivity.
  - unfold bind at 1, readFile, bind at 1, ask, bind at 1, emit, ret at 1.
    destruct (disk_read env (FileInfo.path file)) as [c|].
    + unfold bind at 1. simpl. destruct (extract_by_type file c [] env _) as [deps st2].
      reflexivity.
    + unfold_monad. rewrite <- app_assoc. reflexivity.
Qed.

(** C3 (amended). For a descriptor whose size exceeds 1 MiB, whose type
    is image or whose extension is a binary one, [analyzeDependencies]
    adds no event to the trace (no content read, no probe of the disk, no
    error logged) and returns the empty list when the cache has nothing
    for the path, and the cached list otherwise. *)
Theorem analyzeDependencies_skips :
  forall (file : FileInfo.t) (env : Env) (st : State),
    (FileInfo.size file > 1024 * 1024)%Z
    \/ FileInfo.type file = FileType.Image
    \/ In (FileInfo.extension file) binaryExtensions ->
    let '(deps, st') := analyzeDependencies file env st in
    events st' = events st
    /\ deps = match dependencyCache st !! FileInfo.path file with
              | Some cached => cached
              | None => []
              end.
Proof.
  intros file env st Hskip.
  destruct (dependencyCache st !! FileInfo.path file) as [cached|] eqn:Hc.
  - rewrite (analyzeDependencies_hit _ _ _ _ Hc). auto.
  - unfold analyzeDependencies, bind at 1, cache_get. rewrite Hc.
    assert (Hs : (FileInfo.size file >? 1024 * 1024)%Z || isBinaryFile file = true).
    { apply orb_true_iff. destruct Hskip as [H|H].
      - left. apply Z.gtb_gt. exact H.
      - right. apply isBinaryFile_spec. exact H. }
    rewrite Hs. unfold_monad. auto.
Qed.

Lemma analyzeDependencies_skips_witness :
  let file := plain_file "/p/logo.png" FileType.Image 2097152 None in
  let '(deps, st') := analyzeDependencies file small_disk fresh in
  events st' = [] /\ deps = [].
Proof.
  intros file.
  apply (analyzeDependencies_skips file small_disk fresh).
  left. reflexivity.
Defined.

(** C3, as stated, fails: a descriptor of 2 MiB whose path was analysed
    before, when the file was small, gets the cached, non-empty list. *)
Lemma analyzeDependencies_skips_counterexample :
  let small := plain_file "/p/a.ts" FileType.TypeScript 19 None in
  let grown := plain_file "/p/a.ts" FileType.TypeScript 2097152 None in
  let st1 := snd (analyzeDependencies small small_disk fresh) in
  (FileInfo.size grown > 1024 * 1024)%Z
  /\ fst (analyzeDependencies grown small_disk st1)
     = [Dependency.mk "/p/a.ts" "/p/b.ts" DependencyType.Import_ (Some [0%nat]) false]
  /\ fst (analyzeDependencies grown small_disk st1) <> [].
Proof.
  split; [reflexivity|]. split; [vm_compute; reflexivity|].
  vm_compute. discriminate.
Qed.

(** C8. A failure on one file is absorbed: when the content cannot be
    read, and when [JSON.parse] throws a [SyntaxError] on the content of
    a [package.json], [analyzeDependencies] logs the error, returns the
    empty list and stores it in the cache; and the loop of the graph
    builder goes on with the files that follow, from the state the
    failing file left. *)
Theorem failures_are_absorbed :
  (forall (file : FileInfo.t) (env : Env) (st : State),
      dependencyCache st !! FileInfo.path file = None ->
      skipped file = false ->
      content_of file env = None ->
      analyzeDependencies file env st
      = ([], mkState (<[FileInfo.path file := []]> (dependencyCache st))
               (events st ++ [EvReadFile (FileInfo.path file);
                              EvConsoleError ("Error reading file "
                                              +:+ FileInfo.path file +:+ ":")])))
  /\ (forall (file : FileInfo.t) (env : Env) (st : State) (content : string),
         dependencyCache st !! FileInfo.path file = None ->
         skipped file = false ->
         content_of file env = Some content ->
         FileInfo.type file = FileType.JSON ->
         JS.endsWith (FileInfo.path file) "package.json" = true ->
         Json.JSON_parse content = Json.SyntaxError ->
         analyzeDependencies file env st
         = ([], mkState (<[FileInfo.path file := []]> (dependencyCache st))
                  (events st ++ load_events file
                   ++ [EvConsoleError ("Error parsing JSON in "
                                       +:+ FileInfo.path file +:+ ":")])))
  /\ (forall (file : FileInfo.t) (files : list FileInfo.t) (total n : nat) (callback : bool)
             (graph : DependencyGraph.t) (env : Env) (st : State),
         fst (analyzeDependencies file env st) = [] ->
         process_files (file :: files) total n callback graph env st
         = process_files files total (S n) callback graph env
             (let st1 := snd (analyzeDependencies file env st) in
              if callback
              then mkState (dependencyCache st1) (events st1 ++ [EvProgress (S n) total])
              else st1)).
Proof.
  split; [|split].
  - intros file env st Hmiss Hskip Hcontent.
    rewrite (analyzeDependencies_loaded _ _ _ Hmiss Hskip), Hcontent.
    unfold content_of, load_events in *.
    destruct (loaded_content file); [discriminate|]. reflexivity.
  - intros file env st content Hmiss Hskip Hcontent Hty Hname Hparse.
    rewrite (analyzeDependencies_loaded _ _ _ Hmiss Hskip), Hcontent.
    unfold extract_by_type. rewrite Hty. unfold extractJSONDependencies.
    rewrite Hname, Hparse. simpl. unfold_monad. rewrite <- app_assoc. reflexivity.
  - intros file files total n callback graph env st Hempty.
    simpl. unfold bind at 1.
    destruct (analyzeDependencies file env st) as [deps st1]. simpl in Hempty. subst deps.
    destruct callback; reflexivity.
Qed.

Lemma failures_are_absorbed_witness :
  let missing := plain_file "/p/gone.ts" FileType.TypeScript 10 None in
  let broken := plain_file "/p/package.json" FileType.JSON 10 (Some "{ not json") in
  let escaped :=
    dq "{'description': 'done \u2713', 'dependencies': {'lodash': '^4.0.0'}}" in
  analyzeDependencies missing small_disk fresh
  = ([], mkState {["/p/gone.ts" := []]}
           [EvReadFile "/p/gone.ts"; EvConsoleError "Error reading file /p/gone.ts:"])
  /\ analyzeDependencies broken small_disk fresh
     = ([], mkState {["/p/package.json" := []]}
              [EvConsoleError "Error parsing JSON in /p/package.json:"])
  /\ process_files [missing; broken] 2 0 false (DependencyGraph.mk [] []) small_disk fresh
     = process_files [broken] 2 1 false (DependencyGraph.mk [] []) small_disk
         (snd (analyzeDependencies missing small_disk fresh))
  /\ Json.JSON_parse escaped <> Json.SyntaxError
  /\ analyzeDependencies (plain_file "/p/package.json" FileType.JSON 70 (Some escaped))
       small_disk fresh
     = ([package_dependency "/p/package.json" "lodash"],
        mkState {["/p/package.json" := [package_dependency "/p/package.json" "lodash"]]} []).
Proof.
  intros missing broken escaped.
  destruct failures_are_absorbed as (Hread & Hparse & Hloop).
  split; [|split; [|split; [|split]]].
  - apply (Hread missing small_disk fresh); reflexivity.
  - apply (Hparse broken small_disk fresh "{ not json"); reflexivity.
  - apply (Hloop missing [broken] 2%nat 0%nat false). reflexivity.
  - vm_compute. discriminate.
  - vm_compute. reflexivity.
Defined.

(** ** External references *)

Lemma matches_external_pattern_spec patterns ref :
  matches_external_pattern patterns ref = true <->
  exists marker, In marker patterns /\ JS.includes ref marker = true.
Proof.
  induction patterns as [|p ps IH]; simpl.
  - split; [discriminate | intros (m & [] & _)].
  - destruct (JS.includes ref p) eqn:E.
    + split; [|reflexivity]. intros _. exists p. auto.
    + rewrite IH. split.
      * intros (m & Hin & Hm). exists m. auto.
      * intros (m & [<-|Hin] & Hm); [congruence|]. exists m. auto.
Qed.

Lemma for_each_Forall {A} (P : Dependency.t -> Prop) (xs : list A) body :
  (forall x deps env st, Forall P deps -> Forall P (fst (body x deps env st))) ->
  forall deps env st, Forall P deps -> Forall P (fst (for_each xs body deps env st)).
Proof.
  intros Hbody. induction xs as [|x xs IH]; intros deps env st Hdeps; simpl.
  - exact Hdeps.
  - unfold bind. specialize (Hbody x deps env st Hdeps).
    destruct (body x deps env st) as [deps' st']. apply IH. exact Hbody.
Qed.

Lemma push_resolved_value fp content ty ref m ext deps env st :
  fst (push_resolved fp content ty ref m ext deps env st)
  = deps ++ [Dependency.mk fp (fst (resolveImportPath fp ref env st)) ty
               (Some (findLineNumbers content (Regex.m0 m))) ext].
Proof.
  unfold push_resolved, bind.
  destruct (resolveImportPath fp ref env st) as [t st']. reflexivity.
Qed.

(** C7. A reference is external exactly when it contains one of the
    configured markers or starts with neither a dot nor a slash;
    [shouldProcessExternalDependency] is false on every input; and in
    a script the loop over the imports skips an external reference
    before resolving it: the array and the state (hence the trace of
    disk probes) are unchanged, so that no dependency of a script is
    ever marked external. *)
Theorem external_policy :
  (forall ref : string,
      isExternalDependency ref = true <->
      (exists marker, In marker externalPackagePatterns /\ JS.includes ref marker = true)
      \/ (JS.startsWith ref "." = false /\ JS.startsWith ref "/" = false))
  /\ (forall p : string, shouldProcessExternalDependency p = false)
  /\ (forall (filePath content : string) (m : Regex.Match) (deps : list Dependency.t)
             (env : Env) (st : State),
         isExternalDependency (Regex.group m 1) = true ->
         js_import_body filePath content m deps env st = (deps, st))
  /\ (forall (filePath content : string) (env : Env) (st : State) (d : Dependency.t),
         In d (fst (extractJavaScriptDependencies filePath content [] env st)) ->
         Dependency.isExternal d = false).
Proof.
  split; [|split; [|split]].
  - intros ref. unfold isExternalDependency.
    rewrite <- matches_external_pattern_spec.
    destruct (matches_external_pattern externalPackagePatterns ref).
    + split; auto.
    + destruct (JS.startsWith ref "."), (JS.startsWith ref "/"); simpl;
        split; auto; intros [H|[H1 H2]]; congruence.
  - reflexivity.
  - intros filePath content m deps env st Hext.
    unfold js_import_body. rewrite Hext. reflexivity.
  - intros filePath content env st d Hd.
    assert (H : Forall (fun d => Dependency.isExternal d = false)
                  (fst (extractJavaScriptDependencies filePath content [] env st))).
    { unfold extractJavaScriptDependencies, bind.
      match goal with
      | |- context [for_each ?xs ?b ?d0 env st] =>
          pose proof (for_each_Forall (fun d => Dependency.isExternal d = false) xs b) as H1;
          destruct (for_each xs b d0 env st) as [deps1 st1] eqn:E1
      end.
      apply for_each_Forall.
      - intros x deps env' st' Hdeps. unfold js_reference_body.
        rewrite push_resolved_value. apply Forall_app. split; [exact Hdeps|].
        constructor; [reflexivity | constructor].
      - replace deps1 with (fst (for_each
            (Regex.matchAll Patterns.importPattern content
             ++ Regex.matchAll Patterns.requirePattern content
             ++ Regex.matchAll Patterns.dynamicImportPattern content)
            (js_import_body filePath content) [] env st)) by (rewrite E1; reflexivity).
        apply H1; [|constructor].
        intros x deps env' st' Hdeps. unfold js_import_body.
        destruct (isExternalDependency (Regex.group x 1)) eqn:Hx; simpl.
        + exact Hdeps.
        + rewrite push_resolved_value. apply Forall_app. split; [exact Hdeps|].
          constructor; [reflexivity | constructor]. }
    rewrite Forall_forall in H. apply H. apply list_elem_of_In. exact Hd.
Qed.

Lemma external_policy_witness :
  let content := "import y from 'lodash'" in
  let m := Regex.mkMatch content [(1%nat, "lodash")] in
  Regex.matchAll Patterns.importPattern content = [m]
  /\ js_import_body "/p/a.ts" content m [] small_disk fresh = ([], fresh)
  /\ fst (extractJavaScriptDependencies "/p/a.ts" content [] small_disk fresh) = [].
Proof.
  intros content m.
  destruct external_policy as (_ & _ & Hskip & _).
  split; [vm_compute; reflexivity|]. split.
  - apply (Hskip "/p/a.ts" content m [] small_disk fresh). reflexivity.
  - vm_compute. reflexivity.
Defined.

(** ** Path resolution *)

Lemma first_existing_value candidates env st :
  fst (first_existing candidates env st) = find (disk_exists env) candidates.
Proof.
  revert st. induction candidates as [|p ps IH]; intros st; simpl; [reflexivity|].
  unfold bind at 1, existsSync, bind at 1, ask, bind at 1, emit, ret at 1.
  destruct (disk_exists env p); [reflexivity | apply IH].
Qed.

Lemma find_map_candidates (f : string -> string) (p : string -> bool) (l : list string) :
  find p (map f l) = option_map f (find (fun x => p (f x)) l).
Proof.
  induction l as [|x l IH]; simpl; [reflexivity|].
  destruct (p (f x)); [reflexivity | exact IH].
Qed.

Lemma first_existing_state candidates env st :
  snd (first_existing candidates env st)
  = mkState (dependencyCache st)
      (events st ++ map EvExistsSync (tried (disk_exists env) candidates)).
Proof.
  revert st. induction candidates as [|p ps IH]; intros st; simpl.
  - rewrite app_nil_r. destruct st; reflexivity.
  - unfold bind at 1, existsSync, bind at 1, ask, bind at 1, emit, ret at 1.
    destruct (disk_exists env p); simpl; [reflexivity|].
    rewrite IH. simpl. rewrite <- app_assoc. reflexivity.
Qed.

Lemma find_existsb (p : string -> bool) (l : list string) :
  existsb p l = match find p l with Some _ => true | None => false end.
Proof.
  induction l as [|x l IH]; simpl; [reflexivity|]. destruct (p x); [reflexivity | exact IH].
Qed.

Lemma resolveImportPath_relative_run env st src ref :
  JS.startsWith ref "/" = false ->
  JS.startsWith ref "http" = false ->
  resolveImportPath src ref env st
  = (resolve_relative_spec env src ref,
     mkState (dependencyCache st)
       (events st ++ map EvExistsSync (probed_spec env src ref))).
Proof.
  intros Hslash Hhttp. unfold resolveImportPath, resolve_relative_spec, probed_spec.
  unfold bind at 1, ask. rewrite Hslash, Hhttp.
  change (false || false) with false. cbv iota zeta.
  destruct (String.eqb (Path.extname _) "").
  2:{ unfold ret. simpl. rewrite app_nil_r. destruct st; reflexivity. }
  unfold bind at 1.
  match goal with
  | |- context [first_existing ?c env st] =>
      pose proof (first_existing_value c env st) as H1;
      pose proof (first_existing_state c env st) as S1;
      destruct (first_existing c env st) as [r1 st1]
  end.
  cbn [fst snd] in H1, S1. rewrite find_existsb.
  rewrite find_map_candidates in H1. rewrite find_map_candidates. subst r1 st1.
  destruct (find _ extensions) as [ext|].
  { cbn [option_map]. unfold ret. rewrite app_nil_r. reflexivity. }
  cbn [option_map].
  unfold bind at 1.
  match goal with
  | |- context [first_existing ?c env ?s1] =>
      pose proof (first_existing_value c env s1) as H2;
      pose proof (first_existing_state c env s1) as S2;
      destruct (first_existing c env s1) as [r2 st2]
  end.
  cbn [fst snd dependencyCache events] in H2, S2.
  rewrite find_map_candidates in H2. subst r2 st2.
  rewrite <- app_assoc, map_app.
  destruct (find _ extensions) as [ext|]; reflexivity.
Qed.

(** C5 (amended). On a relative reference that does not start with
    http [resolveImportPath] resolves against the directory of the
    source file; without extension it probes the resolved path followed
    by .js .jsx .ts .tsx .json .css .scss .html .md, in this order, and
    returns the first that exists, else it probes the index files inside
    the resolved path for the same extensions and returns the first that
    exists, else it returns the resolved path unchanged.  In particular,
    on the disk that holds /p/a.ts and /p/b.ts, the reference ./b from
    /p/a.ts gives /p/b.ts; and so it does on every disk where /p/b.ts
    exists and the candidates tried before it, /p/b.js and /p/b.jsx, do
    not. *)
Theorem resolveImportPath_relative :
  (forall (env : Env) (st : State) (sourcePath reference : string),
      JS.startsWith reference "/" = false ->
      JS.startsWith reference "http" = false ->
      resolveImportPath sourcePath reference env st
      = (resolve_relative_spec env sourcePath reference,
         mkState (dependencyCache st)
           (events st ++ map EvExistsSync (probed_spec env sourcePath reference))))
  /\ (forall (root : option string) (cwd : string) (st : State),
         disk_exists (fallback_disk root cwd) "/p/b.ts" = true
         /\ disk_exists (fallback_disk root cwd) "/p/b" = false
         /\ fst (resolveImportPath "/p/a.ts" "./b" (fallback_disk root cwd) st) = "/p/b.ts")
  /\ (forall (env : Env) (st : State),
         disk_exists env "/p/b.ts" = true ->
         disk_exists env "/p/b.js" = false ->
         disk_exists env "/p/b.jsx" = false ->
         fst (resolveImportPath "/p/a.ts" "./b" env st) = "/p/b.ts").
Proof.
  assert (Hdisk : forall (env : Env) (st : State),
             disk_exists env "/p/b.ts" = true ->
             disk_exists env "/p/b.js" = false ->
             disk_exists env "/p/b.jsx" = false ->
             fst (resolveImportPath "/p/a.ts" "./b" env st) = "/p/b.ts").
  { intros env st Hts Hjs Hjsx.
    rewrite resolveImportPath_relative_run by reflexivity. cbn [fst].
    unfold resolve_relative_spec.
    replace (Path.resolve (cwd env) (Path.dirname "/p/a.ts") "./b") with "/p/b"
      by (vm_compute; reflexivity).
    replace (Path.extname "/p/b") with "" by (vm_compute; reflexivity).
    unfold extensions. cbv [find].
    change ("/p/b" +:+ ".js") with "/p/b.js".
    change ("/p/b" +:+ ".jsx") with "/p/b.jsx".
    change ("/p/b" +:+ ".ts") with "/p/b.ts".
    rewrite Hjs, Hjsx, Hts. reflexivity. }
  split; [|split].
  - intros. apply resolveImportPath_relative_run; assumption.
  - intros root cwd st. split; [reflexivity|]. split; [reflexivity|].
    apply Hdisk; reflexivity.
  - exact Hdisk.
Qed.

Lemma resolveImportPath_relative_witness :
  resolveImportPath "/p/a.ts" "./b" small_disk fresh
  = ("/p/b.ts",
     mkState ∅ [EvExistsSync "/p/b.js"; EvExistsSync "/p/b.jsx"; EvExistsSync "/p/b.ts"])
  /\ fst (resolveImportPath "/p/a.ts" "./b" small_disk fresh) = "/p/b.ts".
Proof.
  destruct resolveImportPath_relative as (Hgen & _ & Hb).
  split.
  - rewrite (Hgen small_disk fresh "/p/a.ts" "./b") by reflexivity.
    vm_compute. reflexivity.
  - apply (Hb small_disk fresh); reflexivity.
Defined.

(** C5, as stated, fails: a relative reference that starts with http is
    taken for an address and returned as it is, whatever the disk
    holds; a triple slash directive hands such a reference to the
    resolver. *)
Lemma resolveImportPath_relative_counterexample :
  let directive := dq "/// <reference path='httpTypes.d.ts' />" in
  let disk := disk_of [("/p/a.ts", directive); ("/p/httpTypes.d.ts", "");
                       ("/p/httpClient.ts", "")] (Some "/p") in
  JS.startsWith "httpTypes.d.ts" "/" = false
  /\ resolve_relative_spec disk "/p/a.ts" "httpTypes.d.ts" = "/p/httpTypes.d.ts"
  /\ resolveImportPath "/p/a.ts" "httpTypes.d.ts" disk fresh = ("httpTypes.d.ts", fresh)
  /\ fst (resolveImportPath "/p/a.ts" "httpTypes.d.ts" disk fresh)
     <> resolve_relative_spec disk "/p/a.ts" "httpTypes.d.ts"
  /\ resolve_relative_spec disk "/p/a.ts" "httpClient" = "/p/httpClient.ts"
  /\ resolveImportPath "/p/a.ts" "httpClient" disk fresh = ("httpClient", fresh)
  /\ fst (analyzeDependencies (plain_file "/p/a.ts" FileType.TypeScript 40 None) disk fresh)
     = [Dependency.mk "/p/a.ts" "httpTypes.d.ts" DependencyType.Reference (Some [0%nat])
          false].
Proof.
  cbv zeta. repeat split; try (vm_compute; reflexivity).
  vm_compute. discriminate.
Qed.

(** ** The JSON reader *)

Lemma well_formed_array xs :
  well_formed (Json.JArray xs) <-> Forall well_formed xs.
Proof.
  cbn [well_formed]. induction xs as [|x xs IH].
  - split; [constructor | trivial].
  - rewrite Forall_cons_iff, <- IH. reflexivity.
Qed.

Lemma well_formed_object props :
  well_formed (Json.JObject props)
  <-> List.NoDup (map fst props) /\ Forall (fun kv => well_formed (snd kv)) props.
Proof.
  cbn [well_formed]. apply and_iff_compat_l.
  induction props as [|[k x] props IH].
  - split; [constructor | trivial].
  - rewrite Forall_cons_iff, <- IH. reflexivity.
Qed.

Lemma obj_has_In props k : Json.obj_has props k = true <-> In k (map fst props).
Proof.
  unfold Json.obj_has. induction props as [|[k' v'] props IH]; simpl.
  - split; [discriminate | tauto].
  - destruct (String.eqb k' k) eqn:E; simpl.
    + apply String.eqb_eq in E. split; auto.
    + apply String.eqb_neq in E. rewrite IH. split; [auto | intros [H|H]; congruence].
Qed.

Lemma obj_replace_keys props k v : map fst (Json.obj_replace props k v) = map fst props.
Proof.
  induction props as [|[k' v'] props IH]; simpl; [reflexivity|].
  destruct (String.eqb k' k); simpl; [reflexivity | rewrite IH; reflexivity].
Qed.

Lemma obj_replace_In props k v kv :
  In kv (Json.obj_replace props k v) -> In kv props \/ snd kv = v.
Proof.
  induction props as [|[k' v'] props IH]; simpl; [tauto|].
  destruct (String.eqb k' k); simpl.
  - intros [<-|H]; auto.
  - intros [<-|H]; [auto|]. destruct (IH H); auto.
Qed.

Lemma obj_insert_In props k v kv :
  In kv (Json.obj_insert props k v) <-> kv = (k, v) \/ In kv props.
Proof.
  induction props as [|[k' v'] props IH]; simpl.
  - split; intros [H|H]; auto.
  - destruct (Json.comes_before k k'); simpl.
    + split; intros [H|H]; auto.
    + rewrite IH. split; intros [H|[H|H]]; auto.
Qed.

Lemma obj_insert_NoDup props k v :
  List.NoDup (map fst props) -> ~ In k (map fst props) ->
  List.NoDup (map fst (Json.obj_insert props k v)).
Proof.
  induction props as [|[k' v'] props IH]; simpl; intros Hnd Hk.
  - constructor; [tauto | constructor].
  - destruct (Json.comes_before k k'); simpl.
    + constructor; [exact Hk | exact Hnd].
    + inversion Hnd as [|? ? Hk' Hnd']; subst.
      constructor.
      * intros Hin. apply in_map_iff in Hin as ([k1 v1] & Hfst & Hin). simpl in Hfst. subst k1.
        apply obj_insert_In in Hin as [[= -> ->]|Hin]; [tauto|].
        apply Hk'. apply in_map_iff. exists (k', v1). auto.
      * apply IH; [exact Hnd' | tauto].
Qed.

Lemma obj_set_well_formed props k v :
  List.NoDup (map fst props) ->
  Forall (fun kv => well_formed (snd kv)) props ->
  well_formed v ->
  List.NoDup (map fst (Json.obj_set props k v))
  /\ Forall (fun kv => well_formed (snd kv)) (Json.obj_set props k v).
Proof.
  intros Hnd Hall Hv. unfold Json.obj_set.
  destruct (Json.obj_has props k) eqn:Hhas.
  - rewrite obj_replace_keys. split; [exact Hnd|].
    apply Forall_forall. intros kv Hin. apply list_elem_of_In in Hin.
    apply obj_replace_In in Hin as [Hin| ->]; [|exact Hv].
    rewrite Forall_forall in Hall. apply Hall. apply list_elem_of_In. exact Hin.
  - split.
    + apply obj_insert_NoDup; [exact Hnd|]. rewrite <- obj_has_In, Hhas. discriminate.
    + apply Forall_forall. intros kv Hin. apply list_elem_of_In in Hin.
      apply obj_insert_In in Hin as [->|Hin]; [exact Hv|].
      rewrite Forall_forall in Hall. apply Hall. apply list_elem_of_In. exact Hin.
Qed.

Lemma parse_literal_well_formed s v rest :
  Json.parse_literal s = Some (v, rest) -> well_formed v.
Proof.
  unfold Json.parse_literal.
  destruct (Json.strip_prefix "true" s); [intros [= <- _]; exact I|].
  destruct (Json.strip_prefix "false" s); [intros [= <- _]; exact I|].
  destruct (Json.strip_prefix "null" s); [intros [= <- _]; exact I | discriminate].
Qed.

Section ReaderWellFormed.

Variable wide : option ascii.

(** What the reader returns is well formed, whatever the fuel. *)
Lemma parse_well_formed fuel :
  (forall s v rest, Json.parse_value wide fuel s = Some (v, rest) -> well_formed v)
  /\ (forall s acc v rest,
         List.NoDup (map fst acc) -> Forall (fun kv => well_formed (snd kv)) acc ->
         Json.parse_members wide fuel s acc = Some (v, rest) -> well_formed v)
  /\ (forall s acc v rest,
         Forall well_formed acc ->
         Json.parse_elements wide fuel s acc = Some (v, rest) -> well_formed v).
Proof.
  induction fuel as [|fuel (IHv & IHm & IHe)].
  - repeat split; intros; discriminate.
  - split; [|split].
    + intros s v rest. cbn [Json.parse_value].
      destruct (Json.skip_ws s) as [|c s']; [discriminate|].
      destruct (Ascii.eqb c "{").
      { destruct (Json.strip_char "}" _).
        - intros [= <- _]. apply well_formed_object. split; constructor.
        - apply IHm; constructor. }
      destruct (Ascii.eqb c "[").
      { destruct (Json.strip_char "]" _).
        - intros [= <- _]. apply well_formed_array. constructor.
        - apply IHe; constructor. }
      destruct (Ascii.eqb c "034").
      { destruct (Json.parse_string_body wide s') as [[str r]|]; [|discriminate].
        intros [= <- _]. exact I. }
      destruct (Json.parse_literal (String c s')) as [[v0 r]|] eqn:El.
      { intros [= <- _]. eapply parse_literal_well_formed. exact El. }
      destruct (Json.parse_number (String c s')) as [[raw r]|]; [|discriminate].
      intros [= <- _]. exact I.
    + intros s acc v rest Hnd Hall. cbn [Json.parse_members].
      destruct (Json.skip_ws s) as [|c s1]; [discriminate|].
      destruct (Ascii.eqb c "034"); [|discriminate].
      destruct (Json.parse_string_body wide s1) as [[key r]|]; [|discriminate].
      destruct (Json.strip_char ":" _) as [r1|]; [|discriminate].
      destruct (Json.parse_value wide fuel r1) as [[v1 r2]|] eqn:Ev; [|discriminate].
      apply IHv in Ev.
      destruct (obj_set_well_formed acc key v1 Hnd Hall Ev) as [Hnd' Hall'].
      destruct (Json.strip_char "," r2) as [r3|]; [apply IHm; assumption|].
      destruct (Json.strip_char "}" r2) as [r3|]; [|discriminate].
      intros [= <- _]. apply well_formed_object. auto.
    + intros s acc v rest Hall. cbn [Json.parse_elements].
      destruct (Json.parse_value wide fuel s) as [[v1 r]|] eqn:Ev; [|discriminate].
      apply IHv in Ev.
      assert (Hall' : Forall well_formed (acc ++ [v1])).
      { apply Forall_app. split; [exact Hall | constructor; [exact Ev | constructor]]. }
      destruct (Json.strip_char "," r) as [r3|]; [apply IHe; assumption|].
      destruct (Json.strip_char "]" r) as [r3|]; [|discriminate].
      intros [= <- _]. apply well_formed_array. exact Hall'.
Qed.

End ReaderWellFormed.

Lemma string_of_nat_inj n m : JS.string_of_nat n = JS.string_of_nat m -> n = m.
Proof.
  unfold JS.string_of_nat. intros H.
  apply Unsigned.to_uint_inj.
  apply (f_equal NilEmpty.uint_of_string) in H. rewrite !NilEmpty.usu in H.
  congruence.
Qed.

Lemma indexed_keys {A} (xs : list A) i :
  map fst (Json.indexed i xs) = map JS.string_of_nat (seq i (length xs)).
Proof.
  revert i. induction xs as [|x xs IH]; intros i; simpl; [reflexivity|].
  rewrite IH. reflexivity.
Qed.

Lemma indexed_keys_NoDup {A} (xs : list A) i : List.NoDup (map fst (Json.indexed i xs)).
Proof.
  rewrite indexed_keys. generalize (List.seq_NoDup (length xs) i).
  generalize (seq i (length xs)) as l.
  induction l as [|n l IH]; intros Hnd; simpl; [constructor|].
  inversion Hnd as [|? ? Hn Hl]; subst. constructor; [|auto].
  intros Hin. apply in_map_iff in Hin as (m & Hm & Hin).
  apply string_of_nat_inj in Hm. subst m. tauto.
Qed.

Lemma get_prop_well_formed v k x :
  well_formed v -> Json.get_prop v k = Some (Some x) -> well_formed x.
Proof.
  intros Hwf. destruct v; simpl; try discriminate.
  intros [= H]. apply well_formed_object in Hwf as [_ Hall].
  destruct (find _ props) as [[k' x']|] eqn:Hfind; [|discriminate].
  injection H as <-. apply find_some in Hfind as [Hin _].
  rewrite Forall_forall in Hall. apply (Hall (k', x')). apply list_elem_of_In. exact Hin.
Qed.

(** In a manifest that was parsed no section lists a package twice. *)
Lemma listed_packages_NoDup content packageJson section :
  Json.parse content = Some packageJson ->
  List.NoDup (listed_packages packageJson section).
Proof.
  unfold Json.parse, Json.read. intros Hparse.
  destruct (Json.parse_value _ _ content) as [[v rest]|] eqn:Hv; [|discriminate].
  destruct rest; [|discriminate]. injection Hparse as ->.
  apply (proj1 (parse_well_formed _ _)) in Hv.
  unfold listed_packages.
  destruct (Json.get_prop packageJson section) as [[x|]|] eqn:Hget; try constructor.
  destruct (Json.truthy x); [|constructor].
  apply (get_prop_well_formed _ _ _ Hv) in Hget.
  destruct x; simpl; try constructor.
  - apply indexed_keys_NoDup.
  - apply indexed_keys_NoDup.
  - apply well_formed_object in Hget as [Hnd _]. exact Hnd.
Qed.

(** *** The fuel of the reader

    Every call of the reader consumes input, so the fuel [read] starts
    with, twice the length of the text and two, is never used up: more
    fuel gives the same result, and a result found with any fuel is the
    result of [read], whatever is put in the place of a code unit above
    255. *)

Section ReaderFuel.

Variable wide : option ascii.

Lemma skip_ws_length s : String.length (Json.skip_ws s) <= String.length s.
Proof.
  induction s as [|c s IH]; simpl; [lia|].
  destruct (Json.is_json_ws c); simpl; lia.
Qed.

Lemma strip_char_length c s rest :
  Json.strip_char c s = Some rest -> String.length s = S (String.length rest).
Proof.
  destruct s as [|c' s]; simpl; [discriminate|].
  destruct (Ascii.eqb c c'); [|discriminate]. intros [= ->]. reflexivity.
Qed.

Lemma strip_prefix_length p s rest :
  Json.strip_prefix p s = Some rest ->
  String.length s = String.length p + String.length rest.
Proof.
  revert s. induction p as [|a p IH]; intros s; simpl.
  - intros [= ->]. reflexivity.
  - destruct s as [|b s]; [discriminate|]. destruct (Ascii.eqb a b); [|discriminate].
    intros H. apply IH in H. simpl. lia.
Qed.

Lemma parse_literal_length s v rest :
  Json.parse_literal s = Some (v, rest) -> String.length rest < String.length s.
Proof.
  unfold Json.parse_literal.
  destruct (Json.strip_prefix "true" s) eqn:E1;
    [intros [= _ <-]; apply strip_prefix_length in E1; simpl in E1; lia|].
  destruct (Json.strip_prefix "false" s) eqn:E2;
    [intros [= _ <-]; apply strip_prefix_length in E2; simpl in E2; lia|].
  destruct (Json.strip_prefix "null" s) eqn:E3;
    [intros [= _ <-]; apply strip_prefix_length in E3; simpl in E3; lia | discriminate].
Qed.

Lemma parse_string_body_length n :
  forall s str rest,
    String.length s <= n ->
    Json.parse_string_body wide s = Some (str, rest) -> String.length rest < String.length s.
Proof.
  induction n as [|n IH]; intros s str rest Hn.
  - destruct s; [discriminate | simpl in Hn; lia].
  - destruct s as [|c s1]; [discriminate|]. cbn [Json.parse_string_body].
    simpl in Hn.
    assert (Hsimple : forall (x : ascii) (t : string),
               String.length t <= n ->
               match Json.parse_string_body wide t with
               | Some (str0, rest0) => Some (String x str0, rest0)
               | None => None
               end = Some (str, rest) ->
               String.length rest < String.length t).
    { intros x t Ht. destruct (Json.parse_string_body wide t) as [[str0 rest0]|] eqn:E;
        [|discriminate].
      intros [= _ <-]. eapply IH; eauto. }
    destruct (Ascii.eqb c "034"); [intros [= _ <-]; simpl; lia|].
    destruct (Ascii.eqb c "\").
    { destruct s1 as [|e s2]; [discriminate|]. simpl in Hn.
      repeat match goal with
             | |- (if ?b then _ else _) = _ -> _ =>
                 destruct b; [intros H; apply Hsimple in H; [simpl; lia | lia]|]
             end.
      destruct (Ascii.eqb e "u"); [|discriminate].
      destruct s2 as [|h1 [|h2 [|h3 [|h4 s4]]]]; try discriminate.
      destruct (Json.unicode_escape wide h1 h2 h3 h4); [|discriminate].
      destruct (Json.parse_string_body wide s4) as [[str0 rest0]|] eqn:E; [|discriminate].
      intros [= _ <-]. apply IH in E; [simpl; lia | simpl in Hn; lia]. }
    destruct (_ <? _)%nat; [discriminate|].
    intros H. apply Hsimple in H; [simpl; lia | lia].
Qed.

Lemma take_digits_length s :
  String.length s
  = String.length (fst (Json.take_digits s)) + String.length (snd (Json.take_digits s)).
Proof.
  induction s as [|c s IH]; simpl; [reflexivity|].
  destruct (Json.is_digit c); [|reflexivity].
  destruct (Json.take_digits s) as [ds rest]. simpl in *. lia.
Qed.

Lemma parse_number_length s raw rest :
  Json.parse_number s = Some (raw, rest) -> String.length rest < String.length s.
Proof.
  unfold Json.parse_number.
  assert (Hsign : String.length (snd (Json.parse_sign s)) <= String.length s).
  { unfold Json.parse_sign. destruct (Json.strip_char "-" s) eqn:E; simpl; [|lia].
    apply strip_char_length in E. lia. }
  destruct (Json.parse_sign s) as [sign s1]. simpl in Hsign.
  pose proof (take_digits_length s1) as Hint.
  destruct (Json.take_digits s1) as [int s2]. simpl in Hint.
  destruct (Json.valid_int int) eqn:Hvalid; [|discriminate].
  assert (Hne : 0 < String.length int) by (destruct int; [discriminate | simpl; lia]).
  destruct (Json.parse_fraction s2) as [[f s3]|] eqn:Hf; [|discriminate].
  assert (H3 : String.length s3 <= String.length s2).
  { unfold Json.parse_fraction in Hf. destruct (Json.strip_char "." s2) as [t|] eqn:E.
    - apply strip_char_length in E. pose proof (take_digits_length t) as Ht.
      destruct (Json.take_digits t) as [ds r]. simpl in Ht.
      destruct (String.eqb ds ""); [discriminate|]. injection Hf as _ <-. lia.
    - injection Hf as _ <-. lia. }
  destruct (Json.parse_exponent s3) as [[e r]|] eqn:He; [|discriminate].
  intros [= _ <-].
  assert (H4 : String.length r <= String.length s3).
  { unfold Json.parse_exponent in He. destruct s3 as [|c t]; [injection He as _ <-; lia|].
    destruct (_ || _); [|injection He as _ <-; lia].
    assert (Hs4 : forall esign s4,
               (let '(ds, rest0) := Json.take_digits s4 in
                if String.eqb ds "" then None else Some (String c esign +:+ ds, rest0))
               = Some (e, r) -> String.length r <= String.length s4).
    { intros esign s4. pose proof (take_digits_length s4) as Ht.
      destruct (Json.take_digits s4) as [ds r0]. simpl in Ht.
      destruct (String.eqb ds ""); [discriminate|]. intros [= _ <-]. lia. }
    destruct t as [|c1 t1]; [apply Hs4 in He; simpl in *; lia|].
    destruct (_ || _); apply Hs4 in He; simpl in *; lia. }
  lia.
Qed.

Lemma parse_consumes fuel :
  (forall s v rest, Json.parse_value wide fuel s = Some (v, rest) ->
                    String.length rest < String.length s)
  /\ (forall s acc v rest, Json.parse_members wide fuel s acc = Some (v, rest) ->
                           String.length rest < String.length s)
  /\ (forall s acc v rest, Json.parse_elements wide fuel s acc = Some (v, rest) ->
                           String.length rest < String.length s).
Proof.
  induction fuel as [|fuel (IHv & IHm & IHe)].
  - repeat split; intros; discriminate.
  - split; [|split].
    + intros s v rest. cbn [Json.parse_value].
      pose proof (skip_ws_length s) as Hs.
      destruct (Json.skip_ws s) as [|c s']; [discriminate|]. simpl in Hs.
      destruct (Ascii.eqb c "{").
      { destruct (Json.strip_char "}" _) as [r|] eqn:E.
        - intros [= _ <-]. apply strip_char_length in E.
          pose proof (skip_ws_length s'). pose proof (skip_ws_length r). lia.
        - intros H. apply IHm in H. lia. }
      destruct (Ascii.eqb c "[").
      { destruct (Json.strip_char "]" _) as [r|] eqn:E.
        - intros [= _ <-]. apply strip_char_length in E.
          pose proof (skip_ws_length s'). pose proof (skip_ws_length r). lia.
        - intros H. apply IHe in H. lia. }
      destruct (Ascii.eqb c "034").
      { destruct (Json.parse_string_body wide s') as [[str r]|] eqn:E; [|discriminate].
        intros [= _ <-]. apply (parse_string_body_length _ _ _ _ (le_n _)) in E.
        pose proof (skip_ws_length r). lia. }
      destruct (Json.parse_literal (String c s')) as [[v0 r]|] eqn:El.
      { intros [= _ <-]. apply parse_literal_length in El.
        pose proof (skip_ws_length r). simpl in El. lia. }
      destruct (Json.parse_number (String c s')) as [[raw r]|] eqn:En; [|discriminate].
      intros [= _ <-]. apply parse_number_length in En.
      pose proof (skip_ws_length r). simpl in En. lia.
    + intros s acc v rest. cbn [Json.parse_members].
      pose proof (skip_ws_length s) as Hs.
      destruct (Json.skip_ws s) as [|c s1]; [discriminate|]. simpl in Hs.
      destruct (Ascii.eqb c "034"); [|discriminate].
      destruct (Json.parse_string_body wide s1) as [[key r]|] eqn:E; [|discriminate].
      apply (parse_string_body_length _ _ _ _ (le_n _)) in E.
      pose proof (skip_ws_length r) as Hr.
      destruct (Json.strip_char ":" _) as [r1|] eqn:Ec; [|discriminate].
      apply strip_char_length in Ec.
      destruct (Json.parse_value wide fuel r1) as [[v1 r2]|] eqn:Ev; [|discriminate].
      apply IHv in Ev.
      destruct (Json.strip_char "," r2) as [r3|] eqn:E2.
      { apply strip_char_length in E2. intros H. apply IHm in H. lia. }
      destruct (Json.strip_char "}" r2) as [r3|] eqn:E3; [|discriminate].
      apply strip_char_length in E3. intros [= _ <-].
      pose proof (skip_ws_length r3). lia.
    + intros s acc v rest. cbn [Json.parse_elements].
      destruct (Json.parse_value wide fuel s) as [[v1 r]|] eqn:Ev; [|discriminate].
      apply IHv in Ev.
      destruct (Json.strip_char "," r) as [r3|] eqn:E2.
      { apply strip_char_length in E2. intros H. apply IHe in H. lia. }
      destruct (Json.strip_char "]" r) as [r3|] eqn:E3; [|discriminate].
      apply strip_char_length in E3. intros [= _ <-].
      pose proof (skip_ws_length r3). lia.
Qed.

Lemma parse_fuel_stable fuel :
  (forall s fuel',
      2 * String.length s + 2 <= fuel -> fuel <= fuel' ->
      Json.parse_value wide fuel s = Json.parse_value wide fuel' s)
  /\ (forall s acc fuel',
         2 * String.length s + 3 <= fuel -> fuel <= fuel' ->
         Json.parse_members wide fuel s acc = Json.parse_members wide fuel' s acc)
  /\ (forall s acc fuel',
         2 * String.length s + 3 <= fuel -> fuel <= fuel' ->
         Json.parse_elements wide fuel s acc = Json.parse_elements wide fuel' s acc).
Proof.
  induction fuel as [|fuel (IHv & IHm & IHe)].
  - repeat split; intros; lia.
  - split; [|split].
    + intros s [|fuel'] Hbound Hle; [lia|]. cbn [Json.parse_value].
      pose proof (skip_ws_length s) as Hs.
      destruct (Json.skip_ws s) as [|c s']; [reflexivity|]. simpl in Hs.
      destruct (Ascii.eqb c "{").
      { destruct (Json.strip_char "}" _); [reflexivity|]. apply IHm; lia. }
      destruct (Ascii.eqb c "[").
      { destruct (Json.strip_char "]" _); [reflexivity|]. apply IHe; lia. }
      reflexivity.
    + intros s acc [|fuel'] Hbound Hle; [lia|]. cbn [Json.parse_members].
      pose proof (skip_ws_length s) as Hs.
      destruct (Json.skip_ws s) as [|c s1]; [reflexivity|]. simpl in Hs.
      destruct (Ascii.eqb c "034"); [|reflexivity].
      destruct (Json.parse_string_body wide s1) as [[key r]|] eqn:E; [|reflexivity].
      apply (parse_string_body_length _ _ _ _ (le_n _)) in E.
      pose proof (skip_ws_length r) as Hr.
      destruct (Json.strip_char ":" _) as [r1|] eqn:Ec; [|reflexivity].
      apply strip_char_length in Ec.
      rewrite (IHv r1 fuel') by lia.
      destruct (Json.parse_value wide fuel' r1) as [[v1 r2]|] eqn:Ev; [|reflexivity].
      apply (proj1 (parse_consumes fuel')) in Ev.
      destruct (Json.strip_char "," r2) as [r3|] eqn:E2; [|reflexivity].
      apply strip_char_length in E2. apply IHm; lia.
    + intros s acc [|fuel'] Hbound Hle; [lia|]. cbn [Json.parse_elements].
      rewrite (IHv s fuel') by lia.
      destruct (Json.parse_value wide fuel' s) as [[v1 r]|] eqn:Ev; [|reflexivity].
      apply (proj1 (parse_consumes fuel')) in Ev.
      destruct (Json.strip_char "," r) as [r3|] eqn:E2; [|reflexivity].
      apply strip_char_length in E2. apply IHe; lia.
Qed.

Lemma parse_fuel_mono fuel :
  (forall s r, Json.parse_value wide fuel s = Some r -> Json.parse_value wide (S fuel) s = Some r)
  /\ (forall s acc r, Json.parse_members wide fuel s acc = Some r ->
                      Json.parse_members wide (S fuel) s acc = Some r)
  /\ (forall s acc r, Json.parse_elements wide fuel s acc = Some r ->
                      Json.parse_elements wide (S fuel) s acc = Some r).
Proof.
  induction fuel as [|fuel (IHv & IHm & IHe)].
  - repeat split; intros; discriminate.
  - split; [|split].
    + intros s r. cbn [Json.parse_value].
      destruct (Json.skip_ws s) as [|c s']; [discriminate|].
      destruct (Ascii.eqb c "{").
      { destruct (Json.strip_char "}" _); [auto | apply IHm]. }
      destruct (Ascii.eqb c "[").
      { destruct (Json.strip_char "]" _); [auto | apply IHe]. }
      auto.
    + intros s acc r.
      change (Json.parse_members wide (S (S fuel)) s acc)
        with (match Json.skip_ws s with
              | String c s1 =>
                  if Ascii.eqb c "034" then
                    match Json.parse_string_body wide s1 with
                    | Some (key, rest) =>
                        match Json.strip_char ":" (Json.skip_ws rest) with
                        | Some rest' =>
                            match Json.parse_value wide (S fuel) rest' with
                            | Some (v, rest2) =>
                                match Json.strip_char "," rest2 with
                                | Some rest3 =>
                                    Json.parse_members wide (S fuel) rest3 (Json.obj_set acc key v)
                                | None =>
                                    match Json.strip_char "}" rest2 with
                                    | Some rest3 =>
                                        Some (Json.JObject (Json.obj_set acc key v),
                                              Json.skip_ws rest3)
                                    | None => None
                                    end
                                end
                            | None => None
                            end
                        | None => None
                        end
                    | None => None
                    end
                  else None
              | EmptyString => None
              end).
      cbn [Json.parse_members].
      destruct (Json.skip_ws s) as [|c s1]; [discriminate|].
      destruct (Ascii.eqb c "034"); [|discriminate].
      destruct (Json.parse_string_body wide s1) as [[key rest]|]; [|discriminate].
      destruct (Json.strip_char ":" _) as [r1|]; [|discriminate].
      destruct (Json.parse_value wide fuel r1) as [[v1 r2]|] eqn:Ev; [|discriminate].
      rewrite (IHv _ _ Ev).
      destruct (Json.strip_char "," r2); [apply IHm | auto].
    + intros s acc r.
      change (Json.parse_elements wide (S (S fuel)) s acc)
        with (match Json.parse_value wide (S fuel) s with
              | Some (v, rest) =>
                  match Json.strip_char "," rest with
                  | Some rest' => Json.parse_elements wide (S fuel) rest' (acc ++ [v])
                  | None =>
                      match Json.strip_char "]" rest with
                      | Some rest' => Some (Json.JArray (acc ++ [v]), Json.skip_ws rest')
                      | None => None
                      end
                  end
              | None => None
              end).
      cbn [Json.parse_elements].
      destruct (Json.parse_value wide fuel s) as [[v1 r1]|] eqn:Ev; [|discriminate].
      rewrite (IHv _ _ Ev).
      destruct (Json.strip_char "," r1); [apply IHe | auto].
Qed.

Lemma parse_value_more_fuel fuel fuel' s r :
  fuel <= fuel' -> Json.parse_value wide fuel s = Some r -> Json.parse_value wide fuel' s = Some r.
Proof.
  induction 1 as [|m _ IH]; [auto|].
  intros H. apply (proj1 (parse_fuel_mono m)). auto.
Qed.

(** The result of [read] does not depend on its fuel: any larger fuel
    gives the same result, and a complete reading found with any fuel is
    the result of [read]. *)
Lemma parse_enough_fuel text fuel :
  2 * String.length text + 2 <= fuel ->
  Json.parse_value wide fuel text = Json.parse_value wide (2 * String.length text + 2) text.
Proof.
  intros H. symmetry. apply (proj1 (parse_fuel_stable _)); lia.
Qed.

Lemma parse_any_fuel text fuel v :
  Json.parse_value wide fuel text = Some (v, EmptyString) -> Json.read wide text = Some v.
Proof.
  intros H. unfold Json.read.
  rewrite <- (parse_enough_fuel text (Nat.max fuel (2 * String.length text + 2))) by lia.
  rewrite (parse_value_more_fuel fuel _ text _ (Nat.le_max_l _ _) H). reflexivity.
Qed.

End ReaderFuel.

(** *** What is put in the place of a code unit above 255

    A reading that meets no such unit is the reading whatever is put in
    their place; and whether a text can be read at all does not depend
    on what is put there. *)

Lemma unicode_escape_exact wide a b c d x :
  Json.unicode_escape None a b c d = Some x -> Json.unicode_escape wide a b c d = Some x.
Proof.
  unfold Json.unicode_escape.
  destruct (Json.hex_value a), (Json.hex_value b), (Json.hex_value c), (Json.hex_value d);
    try discriminate.
  destruct (_ && _)%nat; [auto | discriminate].
Qed.

Lemma unicode_escape_any wide sub a b c d x :
  Json.unicode_escape wide a b c d = Some x ->
  exists y, Json.unicode_escape (Some sub) a b c d = Some y.
Proof.
  unfold Json.unicode_escape.
  destruct (Json.hex_value a), (Json.hex_value b), (Json.hex_value c), (Json.hex_value d);
    try discriminate.
  destruct (_ && _)%nat; eauto.
Qed.

Lemma parse_string_body_exact wide n :
  forall s r,
    String.length s <= n ->
    Json.parse_string_body None s = Some r -> Json.parse_string_body wide s = Some r.
Proof.
  induction n as [|n IH]; intros s r Hn.
  - destruct s; [discriminate | simpl in Hn; lia].
  - destruct s as [|c s1]; [discriminate|]. cbn [Json.parse_string_body].
    simpl in Hn.
    assert (Hsimple : forall (x : ascii) (t : string),
               String.length t <= n ->
               match Json.parse_string_body None t with
               | Some (str0, rest0) => Some (String x str0, rest0)
               | None => None
               end = Some r ->
               match Json.parse_string_body wide t with
               | Some (str0, rest0) => Some (String x str0, rest0)
               | None => None
               end = Some r).
    { intros x t Ht. destruct (Json.parse_string_body None t) as [[str0 rest0]|] eqn:E;
        [|discriminate].
      rewrite (IH _ _ Ht E). auto. }
    destruct (Ascii.eqb c "034"); [auto|].
    destruct (Ascii.eqb c "\").
    { destruct s1 as [|e s2]; [discriminate|]. simpl in Hn.
      repeat match goal with
             | |- (if ?b then _ else _) = _ -> _ =>
                 destruct b; [apply Hsimple; lia|]
             end.
      destruct (Ascii.eqb e "u"); [|discriminate].
      destruct s2 as [|h1 [|h2 [|h3 [|h4 s4]]]]; try discriminate.
      destruct (Json.unicode_escape None h1 h2 h3 h4) as [x|] eqn:Eu; [|discriminate].
      rewrite (unicode_escape_exact wide _ _ _ _ _ Eu).
      destruct (Json.parse_string_body None s4) as [[str0 rest0]|] eqn:E; [|discriminate].
      rewrite (IH s4 _ ltac:(simpl in Hn; lia) E). auto. }
    destruct (_ <? _)%nat; [discriminate|].
    apply Hsimple. lia.
Qed.

Lemma parse_string_body_any wide sub n :
  forall s str rest,
    String.length s <= n ->
    Json.parse_string_body wide s = Some (str, rest) ->
    exists str', Json.parse_string_body (Some sub) s = Some (str', rest).
Proof.
  induction n as [|n IH]; intros s str rest Hn.
  - destruct s; [discriminate | simpl in Hn; lia].
  - destruct s as [|c s1]; [discriminate|]. cbn [Json.parse_string_body].
    simpl in Hn.
    assert (Hsimple : forall (x : ascii) (t : string),
               String.length t <= n ->
               match Json.parse_string_body wide t with
               | Some (str0, rest0) => Some (String x str0, rest0)
               | None => None
               end = Some (str, rest) ->
               exists str',
                 match Json.parse_string_body (Some sub) t with
                 | Some (str0, rest0) => Some (String x str0, rest0)
                 | None => None
                 end = Some (str', rest)).
    { intros x t Ht. destruct (Json.parse_string_body wide t) as [[str0 rest0]|] eqn:E;
        [|discriminate].
      intros [= _ <-]. destruct (IH _ _ _ Ht E) as [str' ->]. eauto. }
    destruct (Ascii.eqb c "034"); [intros [= _ <-]; eauto|].
    destruct (Ascii.eqb c "\").
    { destruct s1 as [|e s2]; [discriminate|]. simpl in Hn.
      repeat match goal with
             | |- (if ?b then _ else _) = _ -> _ =>
                 destruct b; [apply Hsimple; lia|]
             end.
      destruct (Ascii.eqb e "u"); [|discriminate].
      destruct s2 as [|h1 [|h2 [|h3 [|h4 s4]]]]; try discriminate.
      destruct (Json.unicode_escape wide h1 h2 h3 h4) as [x|] eqn:Eu; [|discriminate].
      destruct (unicode_escape_any wide sub _ _ _ _ _ Eu) as [y ->].
      destruct (Json.parse_string_body wide s4) as [[str0 rest0]|] eqn:E; [|discriminate].
      intros [= _ <-].
      destruct (IH s4 _ _ ltac:(simpl in Hn; lia) E) as [str' ->]. eauto. }
    destruct (_ <? _)%nat; [discriminate|].
    apply Hsimple. lia.
Qed.

Lemma parse_exact wide fuel :
  (forall s r, Json.parse_value None fuel s = Some r -> Json.parse_value wide fuel s = Some r)
  /\ (forall s acc r, Json.parse_members None fuel s acc = Some r ->
                      Json.parse_members wide fuel s acc = Some r)
  /\ (forall s acc r, Json.parse_elements None fuel s acc = Some r ->
                      Json.parse_elements wide fuel s acc = Some r).
Proof.
  induction fuel as [|fuel (IHv & IHm & IHe)].
  - repeat split; intros; discriminate.
  - split; [|split].
    + intros s r. cbn [Json.parse_value].
      destruct (Json.skip_ws s) as [|c s']; [discriminate|].
      destruct (Ascii.eqb c "{").
      { destruct (Json.strip_char "}" _); [auto | apply IHm]. }
      destruct (Ascii.eqb c "[").
      { destruct (Json.strip_char "]" _); [auto | apply IHe]. }
      destruct (Ascii.eqb c "034"); [|auto].
      destruct (Json.parse_string_body None s') as [[str r0]|] eqn:E; [|discriminate].
      rewrite (parse_string_body_exact wide _ _ _ (le_n _) E). auto.
    + intros s acc r. cbn [Json.parse_members].
      destruct (Json.skip_ws s) as [|c s1]; [discriminate|].
      destruct (Ascii.eqb c "034"); [|discriminate].
      destruct (Json.parse_string_body None s1) as [[key r0]|] eqn:E; [|discriminate].
      rewrite (parse_string_body_exact wide _ _ _ (le_n _) E).
      destruct (Json.strip_char ":" _) as [r1|]; [|discriminate].
      destruct (Json.parse_value None fuel r1) as [[v1 r2]|] eqn:Ev; [|discriminate].
      rewrite (IHv _ _ Ev).
      destruct (Json.strip_char "," r2); [apply IHm | auto].
    + intros s acc r. cbn [Json.parse_elements].
      destruct (Json.parse_value None fuel s) as [[v1 r1]|] eqn:Ev; [|discriminate].
      rewrite (IHv _ _ Ev).
      destruct (Json.strip_char "," r1); [apply IHe | auto].
Qed.

Lemma parse_any wide sub fuel :
  (forall s v rest,
      Json.parse_value wide fuel s = Some (v, rest) ->
      exists v', Json.parse_value (Some sub) fuel s = Some (v', rest))
  /\ (forall s acc acc' v rest,
         Json.parse_members wide fuel s acc = Some (v, rest) ->
         exists v', Json.parse_members (Some sub) fuel s acc' = Some (v', rest))
  /\ (forall s acc acc' v rest,
         Json.parse_elements wide fuel s acc = Some (v, rest) ->
         exists v', Json.parse_elements (Some sub) fuel s acc' = Some (v', rest)).
Proof.
  induction fuel as [|fuel (IHv & IHm & IHe)].
  - repeat split; intros; discriminate.
  - split; [|split].
    + intros s v rest. cbn [Json.parse_value].
      destruct (Json.skip_ws s) as [|c s']; [discriminate|].
      destruct (Ascii.eqb c "{").
      { destruct (Json.strip_char "}" _); [intros [= _ <-]; eauto | apply IHm]. }
      destruct (Ascii.eqb c "[").
      { destruct (Json.strip_char "]" _); [intros [= _ <-]; eauto | apply IHe]. }
      destruct (Ascii.eqb c "034"); [|eauto].
      destruct (Json.parse_string_body wide s') as [[str r0]|] eqn:E; [|discriminate].
      destruct (parse_string_body_any wide sub _ _ _ _ (le_n _) E) as [str' ->].
      intros [= _ <-]. eauto.
    + intros s acc acc' v rest. cbn [Json.parse_members].
      destruct (Json.skip_ws s) as [|c s1]; [discriminate|].
      destruct (Ascii.eqb c "034"); [|discriminate].
      destruct (Json.parse_string_body wide s1) as [[key r0]|] eqn:E; [|discriminate].
      destruct (parse_string_body_any wide sub _ _ _ _ (le_n _) E) as [key' ->].
      destruct (Json.strip_char ":" _) as [r1|]; [|discriminate].
      destruct (Json.parse_value wide fuel r1) as [[v1 r2]|] eqn:Ev; [|discriminate].
      destruct (IHv _ _ _ Ev) as [v1' ->].
      destruct (Json.strip_char "," r2); [apply IHm|].
      destruct (Json.strip_char "}" r2); [|discriminate].
      intros [= _ <-]. eauto.
    + intros s acc acc' v rest. cbn [Json.parse_elements].
      destruct (Json.parse_value wide fuel s) as [[v1 r1]|] eqn:Ev; [|discriminate].
      destruct (IHv _ _ _ Ev) as [v1' ->].
      destruct (Json.strip_char "," r1); [apply IHe|].
      destruct (Json.strip_char "]" r1); [|discriminate].
      intros [= _ <-]. eauto.
Qed.

(** A value read without meeting a code unit above 255 is the value read
    whatever is put in the place of such units. *)
Lemma read_exact wide text v : Json.parse text = Some v -> Json.read wide text = Some v.
Proof.
  unfold Json.parse, Json.read.
  destruct (Json.parse_value None _ text) as [[v0 rest]|] eqn:E; [|discriminate].
  rewrite (proj1 (parse_exact wide _) _ _ E). auto.
Qed.

(** [JSON_parse] reports a [SyntaxError] exactly on a text that the
    reader cannot read to its end as one value, with whatever fuel and
    whatever is put in the place of the code units above 255. *)
Lemma JSON_parse_SyntaxError text :
  Json.JSON_parse text = Json.SyntaxError
  <-> forall wide fuel v, Json.parse_value wide fuel text <> Some (v, EmptyString).
Proof.
  unfold Json.JSON_parse. split.
  - intros H wide fuel v Hv.
    destruct (Json.parse text); [discriminate|].
    apply parse_any_fuel in Hv. unfold Json.read in Hv.
    destruct (Json.parse_value wide _ text) as [[v0 rest]|] eqn:E; [|discriminate].
    destruct rest; [|discriminate].
    destruct (proj1 (parse_any wide Json.substitute _) _ _ _ E) as [v' E'].
    unfold Json.read in H. rewrite E' in H. discriminate.
  - intros H. unfold Json.parse, Json.read.
    destruct (Json.parse_value None _ text) as [[v0 [|c rest]]|] eqn:E1;
      [exfalso; exact (H _ _ _ E1)| |];
      (destruct (Json.parse_value (Some Json.substitute) _ text) as [[v1 [|c' rest']]|] eqn:E2;
       [exfalso; exact (H _ _ _ E2) | reflexivity | reflexivity]).
Qed.

(** ** Package manifests *)

Lemma JSON_parse_value content packageJson :
  Json.parse content = Some packageJson ->
  Json.JSON_parse content = Json.Value packageJson.
Proof.
  intros H. unfold Json.JSON_parse. rewrite H. reflexivity.
Qed.

Lemma json_sections_spec filePath packageJson sections deps :
  packageJson <> Json.JNull ->
  json_sections filePath packageJson sections deps
  = (deps ++ flat_map (fun section => map (package_dependency filePath)
                                        (listed_packages packageJson section)) sections,
     false).
Proof.
  intros Hnull. revert deps.
  induction sections as [|section sections IH]; intros deps; simpl.
  - rewrite app_nil_r. reflexivity.
  - unfold listed_packages at 1.
    destruct (Json.get_prop packageJson section) as [[v|]|] eqn:Hget.
    + destruct (Json.truthy v) eqn:Htruthy.
      * destruct (Json.Object_entries v) as [entries|] eqn:Hentries.
        -- rewrite IH, <- app_assoc. do 3 f_equal.
           rewrite map_map. apply map_ext. intros [pkg version]. reflexivity.
        -- destruct v; simpl in Htruthy, Hentries; discriminate.
      * rewrite IH. reflexivity.
    + rewrite IH. reflexivity.
    + destruct packageJson; simpl in Hget; congruence.
Qed.

(** C6. For a path that ends in package.json, [extractJSONDependencies]
    parses the content and pushes, for each of the sections dependencies,
    devDependencies, peerDependencies and optionalDependencies in turn,
    one dependency per package listed there, with target
    node_modules/<package>, kind import and external; nothing is logged,
    and no section of a parsed manifest lists a package twice.  For the
    manifest with the single section dependencies listing lodash, and
    for every manifest that lists lodash under dependencies and nothing
    else in the four sections, this is one dependency, with target
    node_modules/lodash. *)
Theorem extractJSONDependencies_manifest :
  (forall (filePath content : string) (packageJson : Json.JSON)
          (deps : list Dependency.t) (env : Env) (st : State),
      JS.endsWith filePath "package.json" = true ->
      Json.parse content = Some packageJson ->
      packageJson <> Json.JNull ->
      extractJSONDependencies filePath content deps env st
      = (deps ++ manifest_dependencies filePath packageJson, st))
  /\ (forall (content : string) (packageJson : Json.JSON) (section : string),
         Json.parse content = Some packageJson ->
         List.NoDup (listed_packages packageJson section))
  /\ (forall (filePath : string) (env : Env) (st : State),
         JS.endsWith filePath "package.json" = true ->
         extractJSONDependencies filePath lodash_manifest [] env st
         = ([Dependency.mk filePath "node_modules/lodash" DependencyType.Import_ None true],
            st))
  /\ (forall (filePath content : string) (packageJson : Json.JSON)
             (env : Env) (st : State),
         JS.endsWith filePath "package.json" = true ->
         Json.parse content = Some packageJson ->
         packageJson <> Json.JNull ->
         map (listed_packages packageJson) dependencySections = [["lodash"]; []; []; []] ->
         extractJSONDependencies filePath content [] env st
         = ([Dependency.mk filePath "node_modules/lodash" DependencyType.Import_ None true],
            st)).
Proof.
  assert (Hgen : forall filePath content packageJson deps env st,
             JS.endsWith filePath "package.json" = true ->
             Json.parse content = Some packageJson ->
             packageJson <> Json.JNull ->
             extractJSONDependencies filePath content deps env st
             = (deps ++ manifest_dependencies filePath packageJson, st)).
  { intros filePath content packageJson deps env st Hname Hparse Hnull.
    unfold extractJSONDependencies.
    rewrite Hname, (JSON_parse_value _ _ Hparse). cbn [negb].
    rewrite (json_sections_spec _ _ _ _ Hnull). reflexivity. }
  split; [exact Hgen|]. split; [exact listed_packages_NoDup|]. split.
  - intros filePath env st Hname.
    rewrite (Hgen filePath lodash_manifest
               (Json.JObject [("dependencies",
                               Json.JObject [("lodash", Json.JString "^4.0.0")])])
               [] env st Hname); [reflexivity | vm_compute; reflexivity | discriminate].
  - intros filePath content packageJson env st Hname Hparse Hnull Hlisted.
    rewrite (Hgen filePath content packageJson [] env st Hname Hparse Hnull).
    unfold manifest_dependencies. rewrite flat_map_concat_map, <- map_map, Hlisted.
    reflexivity.
Qed.

Lemma extractJSONDependencies_manifest_witness :
  let manifest := dq "{'dependencies': {'b': '1', '7': '2'}, 'devDependencies': {'b': '3'}}" in
  extractJSONDependencies "/p/package.json" manifest [] small_disk fresh
  = ([package_dependency "/p/package.json" "7";
      package_dependency "/p/package.json" "b";
      package_dependency "/p/package.json" "b"], fresh)
  /\ extractJSONDependencies "/p/package.json" lodash_manifest [] small_disk fresh
     = ([package_dependency "/p/package.json" "lodash"], fresh).
Proof.
  intros manifest.
  destruct extractJSONDependencies_manifest as (Hgen & _ & Hlodash & _).
  split.
  - rewrite (Hgen "/p/package.json" manifest
               (Json.JObject
                  [("dependencies",
                    Json.JObject [("7", Json.JString "2"); ("b", Json.JString "1")]);
                   ("devDependencies", Json.JObject [("b", Json.JString "3")])])
               [] small_disk fresh); [reflexivity | reflexivity | vm_compute; reflexivity
                                      | discriminate].
  - apply (Hlodash "/p/package.json" small_disk fresh). reflexivity.
Defined.

(** ** Maps in insertion order *)

Lemma jsmap_get_In {V} (m : jsmap V) k v : jsmap_get m k = Some v -> In (k, v) m.
Proof.
  induction m as [|[k' v'] m IH]; simpl; [discriminate|].
  destruct (String.eqb k' k) eqn:E.
  - apply String.eqb_eq in E. intros [= ->]. left. congruence.
  - intros H. right. auto.
Qed.

Lemma jsmap_has_In {V} (m : jsmap V) k : jsmap_has m k = true <-> In k (jsmap_keys m).
Proof.
  unfold jsmap_has. induction m as [|[k' v'] m IH]; simpl.
  - split; [discriminate | tauto].
  - destruct (String.eqb k' k) eqn:E.
    + apply String.eqb_eq in E. split; auto.
    + apply String.eqb_neq in E. rewrite IH. split; [auto | intros [H|H]; congruence].
Qed.

Lemma jsmap_set_In {V} (m : jsmap V) k0 v0 k v :
  In (k, v) (jsmap_set m k0 v0) -> (k = k0 /\ v = v0) \/ In (k, v) m.
Proof.
  induction m as [|[k' v'] m IH]; simpl.
  - intros [[= <- <-]|[]]. auto.
  - destruct (String.eqb k' k0) eqn:E; simpl.
    + apply String.eqb_eq in E. intros [[= <- <-]|H]; auto.
    + intros [H|H]; [auto|]. destruct (IH H); auto.
Qed.

Lemma jsmap_has_set {V} (m : jsmap V) k0 v0 k :
  jsmap_has (jsmap_set m k0 v0) k = String.eqb k0 k || jsmap_has m k.
Proof.
  unfold jsmap_has. induction m as [|[k' v'] m IH]; simpl.
  - destruct (String.eqb k0 k); reflexivity.
  - destruct (String.eqb k' k0) eqn:E; simpl.
    + apply String.eqb_eq in E. subst k'.
      destruct (String.eqb k0 k); reflexivity.
    + destruct (String.eqb k' k) eqn:E'; [|exact IH].
      destruct (String.eqb k0 k); reflexivity.
Qed.

Lemma jsmap_get_set {V} (m : jsmap V) k0 v0 k :
  jsmap_get (jsmap_set m k0 v0) k
  = if String.eqb k0 k then Some v0 else jsmap_get m k.
Proof.
  induction m as [|[k' v'] m IH]; simpl.
  - reflexivity.
  - destruct (String.eqb k' k0) eqn:E; simpl.
    + apply String.eqb_eq in E. subst k'. destruct (String.eqb k0 k); reflexivity.
    + destruct (String.eqb k' k) eqn:E'; [|exact IH].
      apply String.eqb_eq in E'. subst k'. rewrite String.eqb_sym, E. reflexivity.
Qed.

Lemma jsmap_update_inner_In {V} (m : jsmap (jsmap V)) k k2 v src inner :
  In (src, inner) (jsmap_update_inner m k k2 v) ->
  In (src, inner) m
  \/ (src = k /\ exists inner0, In (k, inner0) m /\ inner = jsmap_set inner0 k2 v).
Proof.
  induction m as [|[k' i'] m IH]; simpl; [tauto|].
  destruct (String.eqb k' k) eqn:E; simpl.
  - apply String.eqb_eq in E. subst k'. intros [[= <- <-]|H]; [|auto].
    right. split; [reflexivity|]. exists i'. auto.
  - intros [H|H]; [auto|]. destruct (IH H) as [H'|(-> & inner0 & Hin & ->)]; [auto|].
    right. split; [reflexivity|]. exists inner0. auto.
Qed.

Lemma jsmap_get_update_inner {V} (m : jsmap (jsmap V)) k k2 v src :
  jsmap_get (jsmap_update_inner m k k2 v) src
  = if String.eqb k src then option_map (fun inner => jsmap_set inner k2 v) (jsmap_get m src)
    else jsmap_get m src.
Proof.
  induction m as [|[k' i'] m IH]; simpl.
  - destruct (String.eqb k src); reflexivity.
  - destruct (String.eqb k' k) eqn:E; simpl.
    + apply String.eqb_eq in E. subst k'. destruct (String.eqb k src); reflexivity.
    + destruct (String.eqb k' src) eqn:E'; [|exact IH].
      apply String.eqb_eq in E'. subst k'. rewrite String.eqb_sym, E. reflexivity.
Qed.

(** ** The graph builder *)

Lemma add_node_fold files g :
  let g' := fold_left add_node files g in
  (forall k, jsmap_has (DependencyGraph.nodes g') k = true ->
             jsmap_has (DependencyGraph.nodes g) k = true
             \/ In k (map FileInfo.path files))
  /\ (forall file, In file files ->
                   jsmap_has (DependencyGraph.nodes g') (FileInfo.path file) = true)
  /\ (forall k, jsmap_has (DependencyGraph.nodes g) k = true ->
                jsmap_has (DependencyGraph.nodes g') k = true)
  /\ ((forall src inner, In (src, inner) (DependencyGraph.edges g) ->
                         inner = [] /\ jsmap_has (DependencyGraph.nodes g) src = true) ->
      forall src inner, In (src, inner) (DependencyGraph.edges g') ->
                        inner = [] /\ jsmap_has (DependencyGraph.nodes g') src = true)
  /\ (forall file, In file files ->
                   jsmap_has (DependencyGraph.edges g') (FileInfo.path file) = true)
  /\ (forall k, jsmap_has (DependencyGraph.edges g) k = true ->
                jsmap_has (DependencyGraph.edges g') k = true).
Proof.
  revert g. induction files as [|file files IH]; intros g; simpl.
  - split; [auto|]. split; [intros f []|]. split; [auto|]. split; [auto|].
    split; [intros f [] | auto].
  - destruct (IH (add_node g file)) as (H1 & H2 & H3 & H4 & H5 & H6). simpl in *.
    split; [|split; [|split; [|split; [|split]]]].
    + intros k Hk. destruct (H1 k Hk) as [H|H]; [|auto].
      rewrite jsmap_has_set in H. apply orb_true_iff in H as [H|H]; [|auto].
      apply String.eqb_eq in H. auto.
    + intros f [<-|Hf]; [|auto]. apply H3. rewrite jsmap_has_set, String.eqb_refl.
      reflexivity.
    + intros k Hk. apply H3. rewrite jsmap_has_set, Hk. apply orb_true_r.
    + intros Hg. apply H4. intros src inner Hin.
      rewrite jsmap_has_set.
      apply jsmap_set_In in Hin as [[-> ->]|Hin].
      * rewrite String.eqb_refl. auto.
      * destruct (Hg _ _ Hin) as [-> ->]. rewrite orb_true_r. auto.
    + intros f [<-|Hf]; [|auto]. apply H6. rewrite jsmap_has_set, String.eqb_refl.
      reflexivity.
    + intros k Hk. apply H6. rewrite jsmap_has_set, Hk. apply orb_true_r.
Qed.

Lemma add_edge_fold N file deps st ds g :
  dependencyCache st !! FileInfo.path file = Some deps ->
  (forall d, In d ds -> In d deps) ->
  DependencyGraph.nodes g = N ->
  edges_ok N g st ->
  let g' := fold_left (add_edge file) ds g in
  DependencyGraph.nodes g' = N /\ edges_ok N g' st
  /\ (forall k, jsmap_has (DependencyGraph.edges g') k
                = jsmap_has (DependencyGraph.edges g) k).
Proof.
  intros Hcache. revert g. induction ds as [|d ds IH]; intros g Hds Hnodes Hok; simpl.
  - auto.
  - assert (Hstep : DependencyGraph.nodes (add_edge file g d) = N
                    /\ edges_ok N (add_edge file g d) st
                    /\ forall k, jsmap_has (DependencyGraph.edges (add_edge file g d)) k
                                 = jsmap_has (DependencyGraph.edges g) k).
    { unfold add_edge. destruct (jsmap_has _ _) eqn:Hhas; [|auto]. simpl.
      split; [exact Hnodes|]. split.
      - intros src inner Hin.
        apply jsmap_update_inner_In in Hin as [Hin|(-> & inner0 & Hin & ->)].
        + apply Hok. exact Hin.
        + destruct (Hok _ _ Hin) as [Hsrc Hinner]. split; [exact Hsrc|].
          intros tgt dep Hdep. apply jsmap_set_In in Hdep as [[-> ->]|Hdep].
          * rewrite <- Hnodes. split; [exact Hhas|]. split; [reflexivity|].
            exists deps. split; [exact Hcache|]. apply Hds. left. reflexivity.
          * apply Hinner. exact Hdep.
      - intros k. unfold jsmap_has. rewrite jsmap_get_update_inner.
        destruct (String.eqb (FileInfo.path file) k); [|reflexivity].
        destruct (jsmap_get (DependencyGraph.edges g) k); reflexivity. }
    destruct Hstep as (Hn1 & Hok1 & Hk1).
    destruct (IH (add_edge file g d)) as (Hn2 & Hok2 & Hk2); auto.
    { intros d' Hd'. apply Hds. right. exact Hd'. }
    split; [exact Hn2|]. split; [exact Hok2|].
    intros k. simpl in Hk2. rewrite Hk2. apply Hk1.
Qed.

Lemma edges_ok_mono N g st st' :
  (forall p l, dependencyCache st !! p = Some l -> dependencyCache st' !! p = Some l) ->
  edges_ok N g st -> edges_ok N g st'.
Proof.
  intros Hmono Hok src inner Hin. destruct (Hok _ _ Hin) as [Hsrc Hinner].
  split; [exact Hsrc|]. intros tgt dep Hdep.
  destruct (Hinner _ _ Hdep) as (H1 & H2 & deps & Hc & Hd).
  split; [exact H1|]. split; [exact H2|]. exists deps. auto.
Qed.

Lemma process_files_inv N files total n callback g env st :
  DependencyGraph.nodes g = N ->
  edges_ok N g st ->
  let '(g', st') := process_files files total n callback g env st in
  DependencyGraph.nodes g' = N
  /\ edges_ok N g' st'
  /\ (forall p l, dependencyCache st !! p = Some l -> dependencyCache st' !! p = Some l)
  /\ (forall file, In file files -> is_Some (dependencyCache st' !! FileInfo.path file))
  /\ (forall k, jsmap_has (DependencyGraph.edges g') k
                = jsmap_has (DependencyGraph.edges g) k).
Proof.
  revert n g st. induction files as [|file files IH]; intros n g st Hnodes Hok; simpl.
  - split; [auto|]. split; [auto|]. split; [auto|]. split; [intros file [] | auto].
  - unfold bind at 1.
    pose proof (analyzeDependencies_cache file env st) as Hc.
    destruct (analyzeDependencies file env st) as [deps st1]. destruct Hc as [Hc Hmono].
    unfold bind at 1.
    set (st2 := snd ((if callback then emit (EvProgress (S n) total) else ret tt) env st1)).
    assert (Hst2 : dependencyCache st2 = dependencyCache st1)
      by (subst st2; destruct callback; reflexivity).
    replace ((if callback then emit (EvProgress (S n) total) else ret tt) env st1)
      with (tt, st2) by (subst st2; destruct callback; reflexivity).
    destruct (add_edge_fold N file deps st1 deps g Hc) as (Hn1 & Hok1 & Hk1); auto.
    { apply (edges_ok_mono N g st st1); assumption. }
    specialize (IH (S n) (fold_left (add_edge file) deps g) st2 Hn1).
    destruct (process_files files total (S n) callback _ env st2) as [g' st'].
    destruct IH as (Hn' & Hok' & Hmono' & Hall' & Hk').
    { apply (edges_ok_mono N _ st1 st2); [|exact Hok1]. rewrite Hst2. auto. }
    split; [exact Hn'|]. split; [exact Hok'|]. split; [|split].
    + intros p l Hp. apply Hmono'. rewrite Hst2. apply Hmono. exact Hp.
    + intros f [<-|Hf]; [|auto]. exists deps. apply Hmono'. rewrite Hst2. exact Hc.
    + intros k. rewrite Hk'. apply Hk1.
Qed.

(** The graph returned by [buildDependencyGraph], with the final state. *)
Lemma buildDependencyGraph_inv ps callback env st :
  let '(g, st') := buildDependencyGraph ps callback env st in
  edges_ok (DependencyGraph.nodes g) g st'
  /\ (forall k, jsmap_has (DependencyGraph.nodes g) k = true ->
                In k (map FileInfo.path (ProjectStructure.allFiles ps)))
  /\ (forall file, In file (ProjectStructure.allFiles ps) ->
        jsmap_has (DependencyGraph.nodes g) (FileInfo.path file) = true
        /\ jsmap_has (DependencyGraph.edges g) (FileInfo.path file) = true
        /\ is_Some (dependencyCache st' !! FileInfo.path file)).
Proof.
  unfold buildDependencyGraph.
  set (files := ProjectStructure.allFiles ps).
  set (g0 := fold_left add_node files (DependencyGraph.mk [] [])).
  destruct (add_node_fold files (DependencyGraph.mk [] [])) as (H1 & H2 & _ & H4 & H5 & _).
  fold g0 in H1, H2, H4, H5.
  assert (Hok0 : edges_ok (DependencyGraph.nodes g0) g0 st).
  { intros src inner Hin. destruct (H4 (fun _ _ (H : In _ []) => match H with end) _ _ Hin)
      as [-> Hsrc].
    split; [exact Hsrc|]. intros tgt dep []. }
  pose proof (process_files_inv (DependencyGraph.nodes g0) files (length files) 0 callback
                g0 env st eq_refl Hok0) as H.
  destruct (process_files files (length files) 0 callback g0 env st) as [g st'].
  destruct H as (Hn & Hok & _ & Hall & Hk).
  rewrite Hn. split; [exact Hok|]. split.
  - intros k Hk0. destruct (H1 k Hk0) as [H|H]; [discriminate H | exact H].
  - intros file Hf. split; [auto|]. split; [rewrite Hk; auto | auto].
Qed.

(** C2. In the graph returned by [buildDependencyGraph] every entry of
    [edges] is stored under the path of a file of the catalog, which is a
    key of [nodes], and every edge in it is stored under its target,
    which is a key of [nodes] too: a dependency becomes an edge only
    when its target is a node. *)
Theorem buildDependencyGraph_edges_in_nodes :
  forall (ps : ProjectStructure.t) (callback : bool) (env : Env) (st : State)
         (src : string) (inner : jsmap Dependency.t),
    let g := fst (buildDependencyGraph ps callback env st) in
    In (src, inner) (DependencyGraph.edges g) ->
    In src (map FileInfo.path (ProjectStructure.allFiles ps))
    /\ jsmap_has (DependencyGraph.nodes g) src = true
    /\ forall (tgt : string) (dep : Dependency.t),
        In (tgt, dep) inner ->
        jsmap_has (DependencyGraph.nodes g) tgt = true /\ Dependency.target dep = tgt.
Proof.
  intros ps callback env st src inner g Hin. subst g.
  pose proof (buildDependencyGraph_inv ps callback env st) as H.
  destruct (buildDependencyGraph ps callback env st) as [g st']. simpl in *.
  destruct H as (Hok & Hkeys & _).
  destruct (Hok _ _ Hin) as [Hsrc Hinner].
  split; [apply Hkeys; exact Hsrc|]. split; [exact Hsrc|].
  intros tgt dep Hdep. destruct (Hinner _ _ Hdep) as (H1 & H2 & _). auto.
Qed.

Lemma buildDependencyGraph_edges_in_nodes_witness :
  let g := fst (buildDependencyGraph two_files false small_disk fresh) in
  let edge := Dependency.mk "/p/a.ts" "/p/b.ts" DependencyType.Import_ (Some [0%nat]) false in
  DependencyGraph.edges g = [("/p/a.ts", [("/p/b.ts", edge)]); ("/p/b.ts", [])]
  /\ In "/p/a.ts" ["/p/a.ts"; "/p/b.ts"]
  /\ jsmap_has (DependencyGraph.nodes g) "/p/a.ts" = true
  /\ forall tgt dep, In (tgt, dep) [("/p/b.ts", edge)] ->
                     jsmap_has (DependencyGraph.nodes g) tgt = true
                     /\ Dependency.target dep = tgt.
Proof.
  intros g edge.
  assert (E : DependencyGraph.edges g = [("/p/a.ts", [("/p/b.ts", edge)]); ("/p/b.ts", [])])
    by (vm_compute; reflexivity).
  split; [exact E|].
  apply (buildDependencyGraph_edges_in_nodes two_files false small_disk fresh
           "/p/a.ts" [("/p/b.ts", edge)]).
  fold g. rewrite E. left. reflexivity.
Defined.

(** C9 (amended). In the graph returned by [buildDependencyGraph] every
    file of the catalog has an entry in [edges]; when none of the
    dependencies extracted for the file (the list the cache holds for its
    path, which a further call returns) has a node as target, that entry
    is the empty map. *)
Theorem buildDependencyGraph_edge_entries :
  forall (ps : ProjectStructure.t) (callback : bool) (env : Env) (st : State)
         (file : FileInfo.t),
    In file (ProjectStructure.allFiles ps) ->
    let '(g, st') := buildDependencyGraph ps callback env st in
    exists (inner : jsmap Dependency.t) (deps : list Dependency.t),
      jsmap_get (DependencyGraph.edges g) (FileInfo.path file) = Some inner
      /\ analyzeDependencies file env st' = (deps, st')
      /\ ((forall d, In d deps ->
                     jsmap_has (DependencyGraph.nodes g) (Dependency.target d) = false) ->
          inner = []).
Proof.
  intros ps callback env st file Hfile.
  pose proof (buildDependencyGraph_inv ps callback env st) as H.
  destruct (buildDependencyGraph ps callback env st) as [g st'].
  destruct H as (Hok & _ & Hall).
  destruct (Hall file Hfile) as (_ & Hedges & [deps Hdeps]).
  unfold jsmap_has in Hedges.
  destruct (jsmap_get (DependencyGraph.edges g) (FileInfo.path file)) as [inner|] eqn:Hget;
    [|discriminate].
  exists inner, deps. split; [reflexivity|].
  split; [apply analyzeDependencies_hit; exact Hdeps|].
  intros Hnone. destruct inner as [|[tgt dep] inner]; [reflexivity|]. exfalso.
  apply jsmap_get_In in Hget. destruct (Hok _ _ Hget) as [_ Hinner].
  destruct (Hinner tgt dep) as (Hn & Ht & deps' & Hc & Hd); [left; reflexivity|].
  rewrite Hdeps in Hc. injection Hc as <-.
  specialize (Hnone dep Hd). rewrite Ht, Hn in Hnone. discriminate.
Qed.

Lemma buildDependencyGraph_edge_entries_witness :
  let '(g, st') := buildDependencyGraph two_files false small_disk fresh in
  exists inner deps,
    jsmap_get (DependencyGraph.edges g) "/p/b.ts" = Some inner
    /\ analyzeDependencies file_b small_disk st' = (deps, st')
    /\ ((forall d, In d deps ->
                   jsmap_has (DependencyGraph.nodes g) (Dependency.target d) = false) ->
        inner = []).
Proof.
  apply (buildDependencyGraph_edge_entries two_files false small_disk fresh file_b).
  right. left. reflexivity.
Defined.

(** C9, as stated, fails: a file that imports nothing still has an entry
    in [edges], the empty map. *)
Lemma buildDependencyGraph_edge_entries_counterexample :
  let g := fst (buildDependencyGraph one_file false small_disk fresh) in
  fst (analyzeDependencies file_b small_disk fresh) = []
  /\ jsmap_has (DependencyGraph.edges g) (FileInfo.path file_b) = true
  /\ DependencyGraph.edges g = [("/p/b.ts", [])].
Proof.
  vm_compute. auto.
Qed.

(** ** The cycle detector *)

Lemma indexOf_None xs x : JS.indexOf xs x = None -> ~ In x xs.
Proof.
  induction xs as [|y ys IH]; simpl; [tauto|].
  destruct (String.eqb y x) eqn:E; [discriminate|].
  apply String.eqb_neq in E.
  destruct (JS.indexOf ys x); [discriminate|].
  intros _ [H|H]; [congruence | apply IH; auto].
Qed.

(** The recursion of [dfsForCycles] is bounded: the nodes of the path
    are distinct and, but for the last, have an edge map, so fuel beyond
    the number of edge maps is never used up. *)
Lemma dfsForCycles_enough_fuel (graph : DependencyGraph.t) :
  forall fuel current visited path cycles,
    List.NoDup path ->
    (forall x, In x path -> jsmap_has (DependencyGraph.edges graph) x = true) ->
    length (DependencyGraph.edges graph) + 2 <= fuel + length path ->
    is_Some (dfsForCycles fuel current graph visited path cycles).
Proof.
  induction fuel as [|fuel IH]; intros current visited path cycles Hnd Hkeys Hfuel.
  - exfalso.
    assert (Hlen : length path <= length (jsmap_keys (DependencyGraph.edges graph))).
    { apply List.NoDup_incl_length; [exact Hnd|]. intros x Hx. apply jsmap_has_In. auto. }
    unfold jsmap_keys in Hlen. rewrite length_map in Hlen. simpl in Hfuel. lia.
  - cbn [dfsForCycles]. unfold dfs_body.
    destruct (bool_decide (current ∈ visited)); [eexists; reflexivity|].
    destruct (JS.indexOf path current) as [i|] eqn:Hidx.
    { destruct (negb _); eexists; reflexivity. }
    apply indexOf_None in Hidx.
    destruct (jsmap_get (DependencyGraph.edges graph) current) as [deps|] eqn:Hget;
      [|eexists; reflexivity].
    assert (Hpath : forall target v c,
               is_Some (dfsForCycles fuel target graph v (path ++ [current]) c)).
    { intros target v c. apply IH.
      - apply List.NoDup_app; [exact Hnd | |].
        + constructor; [intros [] | constructor].
        + intros x Hx [<-|[]]. auto.
      - intros x Hx. apply in_app_iff in Hx as [Hx|[<-|[]]]; [auto|].
        unfold jsmap_has. rewrite Hget. reflexivity.
      - rewrite length_app. simpl. lia. }
    cbv zeta.
    match goal with
    | |- is_Some (match visit_targets ?f deps ?st with _ => _ end) =>
        assert (Hloop : is_Some (visit_targets f deps st))
    end.
    { clear Hget. generalize (visited, cycles). intros st. revert st.
      induction deps as [|[target dep] deps IHd]; intros st; cbn [visit_targets].
      - eexists; reflexivity.
      - destruct (Hpath target (fst st) (snd st)) as [st' Hst']. rewrite Hst'.
        apply IHd. }
    destruct Hloop as [[v c] ->]. eexists; reflexivity.
Qed.

Lemma visit_targets_mono (visit1 visit2 : string -> dfs_state -> option dfs_state) :
  (forall target st r, visit1 target st = Some r -> visit2 target st = Some r) ->
  forall targets st r,
    visit_targets visit1 targets st = Some r -> visit_targets visit2 targets st = Some r.
Proof.
  intros Hvisit. induction targets as [|[target dep] targets IH]; intros st r;
    cbn [visit_targets]; [auto|].
  destruct (visit1 target st) as [st'|] eqn:E; [|discriminate].
  rewrite (Hvisit _ _ _ E). apply IH.
Qed.

(** A search that ends with some fuel ends with the same result when it
    is given more. *)
Lemma dfsForCycles_more_fuel (graph : DependencyGraph.t) :
  forall fuel fuel' current visited path cycles r,
    fuel <= fuel' ->
    dfsForCycles fuel current graph visited path cycles = Some r ->
    dfsForCycles fuel' current graph visited path cycles = Some r.
Proof.
  induction fuel as [|fuel IH]; intros fuel' current visited path cycles r Hle;
    [discriminate|].
  destruct fuel' as [|fuel']; [lia|]. cbn [dfsForCycles]. unfold dfs_body.
  destruct (bool_decide (current ∈ visited)); [auto|].
  destruct (JS.indexOf path current); [auto|].
  destruct (jsmap_get (DependencyGraph.edges graph) current) as [deps|]; [|auto].
  cbv zeta.
  destruct (visit_targets _ deps (visited, cycles)) as [st|] eqn:E; [|discriminate].
  erewrite visit_targets_mono; [| |exact E]; [auto|].
  intros target st0 r0. apply IH. lia.
Qed.

(** [findCircularDependencies] always returns: the fuel it gives to each
    search is enough. *)
Lemma findCircularDependencies_total (graph : DependencyGraph.t) :
  is_Some (findCircularDependencies graph).
Proof.
  unfold findCircularDependencies.
  generalize (jsmap_keys (DependencyGraph.nodes graph)) as starts.
  generalize (@nil (list string)) as cycles.
  intros cycles starts. revert cycles.
  induction starts as [|s starts IH]; intros cycles; simpl.
  - eexists; reflexivity.
  - destruct (dfsForCycles_enough_fuel graph (dfs_fuel graph) s ∅ [] cycles)
      as [[v c] ->].
    + apply List.NoDup_nil.
    + intros x [].
    + unfold dfs_fuel. simpl. lia.
    + apply IH.
Qed.

(** The fuel [findCircularDependencies] gives to each search is enough:
    more fuel gives the same result. *)
Lemma dfsForCycles_fuel (graph : DependencyGraph.t) fuel startNode cycles :
  dfs_fuel graph <= fuel ->
  dfsForCycles fuel startNode graph ∅ [] cycles
  = dfsForCycles (dfs_fuel graph) startNode graph ∅ [] cycles.
Proof.
  intros Hle.
  destruct (dfsForCycles_enough_fuel graph (dfs_fuel graph) startNode ∅ [] cycles)
    as [r Hr].
  - apply List.NoDup_nil.
  - intros x [].
  - unfold dfs_fuel. simpl. lia.
  - rewrite Hr. eapply dfsForCycles_more_fuel; eauto.
Qed.

(** C1 (the code departs from it). On the graph with the edges A to B,
    B to C and C to A, [findCircularDependencies] returns three cycles,
    one per start node; they describe the same loop, each being a
    rotation of the others, but the rotation test of [dfsForCycles],
    which compares the closed walks with their repeated end node, tells
    them apart.  The graph built from three files that import each other
    in a circle gives three cycles in the same way. *)
Theorem findCircularDependencies_reports_rotations :
  findCircularDependencies triangle
  = Some [["A"; "B"; "C"; "A"]; ["B"; "C"; "A"; "B"]; ["C"; "A"; "B"; "C"]]
  /\ same_loop ["A"; "B"; "C"; "A"] ["B"; "C"; "A"; "B"] = true
  /\ same_loop ["A"; "B"; "C"; "A"] ["C"; "A"; "B"; "C"] = true
  /\ same_up_to_rotation ["A"; "B"; "C"; "A"] ["B"; "C"; "A"; "B"] = false
  /\ same_up_to_rotation ["A"; "B"; "C"; "A"] ["C"; "A"; "B"; "C"] = false
  /\ findCircularDependencies (fst (buildDependencyGraph circle_project false circle_disk fresh))
     = Some [["/p/a.ts"; "/p/b.ts"; "/p/c.ts"; "/p/a.ts"];
             ["/p/b.ts"; "/p/c.ts"; "/p/a.ts"; "/p/b.ts"];
             ["/p/c.ts"; "/p/a.ts"; "/p/b.ts"; "/p/c.ts"]].
Proof.
  repeat split; vm_compute; reflexivity.
Qed.

(** The rotation test does filter a cycle found twice with the same
    start: a self loop is reported once, and so is the loop of two
    files when the search starts from one of them only. *)
Example same_up_to_rotation_identical :
  same_up_to_rotation ["A"; "B"; "A"] ["A"; "B"; "A"] = true
  /\ same_up_to_rotation ["A"; "B"; "A"] ["B"; "A"; "B"] = false.
Proof.
  split; reflexivity.
Qed.

(** ** The fuel of a repetition *)

Section StarLoop.

Variable step : string -> Regex.captures -> Regex.cont -> Regex.result.

(** The body only looks at the values of its continuation, and every
    match it returns comes from its continuation. *)
Hypothesis step_ext :
  forall s caps (k1 k2 : Regex.cont),
    (forall s' caps', k1 s' caps' = k2 s' caps') -> step s caps k1 = step s caps k2.

Hypothesis step_cont :
  forall s caps (k : Regex.cont) x,
    step s caps k = Some x -> exists s' caps', k s' caps' = Some x.

Lemma star_loop_ext (k1 k2 : Regex.cont) :
  (forall s' caps', k1 s' caps' = k2 s' caps') ->
  forall fuel s caps,
    Regex.star_loop step k1 fuel s caps = Regex.star_loop step k2 fuel s caps.
Proof.
  intros Hk. induction fuel as [|fuel IH]; intros s caps; cbn [Regex.star_loop].
  - apply Hk.
  - rewrite Hk.
    rewrite (step_ext s caps _
               (fun s' caps' =>
                  if (String.length s' <? String.length s)%nat
                  then Regex.star_loop step k2 fuel s' caps' else None)).
    + reflexivity.
    + intros s' caps'. destruct (_ <? _)%nat; [apply IH | reflexivity].
Qed.

Lemma star_loop_cont (k : Regex.cont) :
  forall fuel s caps x,
    Regex.star_loop step k fuel s caps = Some x -> exists s' caps', k s' caps' = Some x.
Proof.
  induction fuel as [|fuel IH]; intros s caps x; cbn [Regex.star_loop].
  - intros H. eauto.
  - destruct (step s caps _) as [y|] eqn:Hstep.
    + intros [= ->]. apply step_cont in Hstep as (s' & caps' & Hs').
      destruct (_ <? _)%nat; [eapply IH; exact Hs' | discriminate].
    + intros H. eauto.
Qed.

(** Fuel beyond the length of the input changes nothing. *)
Lemma star_loop_fuel (k : Regex.cont) :
  forall fuel s caps,
    String.length s <= fuel ->
    Regex.star_loop step k fuel s caps
    = Regex.star_loop step k (String.length s) s caps.
Proof.
  induction fuel as [fuel IH] using lt_wf_ind. intros s caps Hlen.
  destruct fuel as [|fuel].
  - replace (String.length s) with 0 by lia. reflexivity.
  - destruct (String.length s) as [|m] eqn:Hs; cbn [Regex.star_loop].
    + destruct (step s caps _) as [y|] eqn:Hstep; [|reflexivity].
      apply step_cont in Hstep as (s' & caps' & Hs').
      rewrite Hs in Hs'. destruct (_ <? 0)%nat eqn:E; [|discriminate].
      apply Nat.ltb_lt in E. lia.
    + rewrite (step_ext s caps _
                 (fun s' caps' =>
                    if (String.length s' <? String.length s)%nat
                    then Regex.star_loop step k m s' caps' else None)).
      * rewrite Hs. reflexivity.
      * intros s' caps'. rewrite Hs. destruct (_ <? _)%nat eqn:E; [|reflexivity].
        apply Nat.ltb_lt in E.
        rewrite (IH fuel) by lia. rewrite (IH m) by lia. reflexivity.
Qed.

End StarLoop.

Lemma run_ext r :
  forall s caps (k1 k2 : Regex.cont),
    (forall s' caps', k1 s' caps' = k2 s' caps') ->
    Regex.run r s caps k1 = Regex.run r s caps k2.
Proof.
  induction r as [|c|p|r1 IH1 r2 IH2|r1 IH1 r2 IH2|r IH|n r IH];
    intros s caps k1 k2 Hk; cbn [Regex.run].
  - apply Hk.
  - destruct s as [|c' s]; [reflexivity|]. destruct (Ascii.eqb c c'); [apply Hk | reflexivity].
  - destruct s as [|c' s]; [reflexivity|]. destruct (p c'); [apply Hk | reflexivity].
  - apply IH1. intros s' caps'. apply IH2. exact Hk.
  - rewrite (IH1 s caps k1 k2 Hk), (IH2 s caps k1 k2 Hk). reflexivity.
  - apply star_loop_ext; assumption.
  - apply IH. intros s' caps'. apply Hk.
Qed.

Lemma run_cont r :
  forall s caps (k : Regex.cont) x,
    Regex.run r s caps k = Some x -> exists s' caps', k s' caps' = Some x.
Proof.
  induction r as [|c|p|r1 IH1 r2 IH2|r1 IH1 r2 IH2|r IH|n r IH];
    intros s caps k x; cbn [Regex.run].
  - eauto.
  - destruct s as [|c' s]; [discriminate|]. destruct (Ascii.eqb c c'); [eauto | discriminate].
  - destruct s as [|c' s]; [discriminate|]. destruct (p c'); [eauto | discriminate].
  - intros H. apply IH1 in H as (s1 & caps1 & H). apply IH2 in H. exact H.
  - destruct (Regex.run r1 s caps k) as [y|] eqn:H1.
    + intros [= ->]. eapply IH1. exact H1.
    + apply IH2.
  - apply star_loop_cont. exact IH.
  - intros H. apply IH in H as (s1 & caps1 & H). eauto.
Qed.

(** The fuel [run] gives to a repetition, the length of the input, is
    enough: more fuel gives the same result. *)
Lemma run_star_fuel r s caps (k : Regex.cont) fuel :
  String.length s <= fuel ->
  Regex.star_loop (Regex.run r) k fuel s caps = Regex.run (Regex.Star r) s caps k.
Proof.
  intros Hlen. cbn [Regex.run].
  apply star_loop_fuel; [apply run_ext | apply run_cont | exact Hlen].
Qed.

(** ** Strings and the matcher *)

Lemma append_cons c a b : String c a +:+ b = String c (a +:+ b).
Proof. reflexivity. Qed.

Lemma append_nil b : "" +:+ b = b.
Proof. reflexivity. Qed.

Lemma append_assoc a b c : (a +:+ b) +:+ c = a +:+ (b +:+ c).
Proof.
  induction a as [|x a IH]; [reflexivity|].
  rewrite !append_cons, IH. reflexivity.
Qed.

Lemma length_append a b : String.length (a +:+ b) = String.length a + String.length b.
Proof.
  induction a as [|x a IH]; [reflexivity|].
  rewrite append_cons. simpl. rewrite IH. reflexivity.
Qed.

Lemma substring_append a b : String.substring 0 (String.length a) (a +:+ b) = a.
Proof.
  induction a as [|x a IH].
  - destruct b; reflexivity.
  - rewrite append_cons. simpl. rewrite IH. reflexivity.
Qed.

Lemma consumed_append a b : Regex.consumed (a +:+ b) b = a.
Proof.
  unfold Regex.consumed. rewrite length_append.
  replace (String.length a + String.length b - String.length b) with (String.length a)
    by lia.
  apply substring_append.
Qed.

Lemma includes_char_false s c :
  JS.includes s (String c "") = false ->
  all_chars (Regex.none_of (String c "")) s = true.
Proof.
  induction s as [|x s IH]; simpl; [reflexivity|].
  intros H. apply orb_false_iff in H as [Hx Hs].
  rewrite (IH Hs), andb_true_r.
  unfold Regex.none_of. simpl. rewrite orb_false_r.
  destruct (ascii_dec c x) as [->|Hne].
  - destruct s; discriminate Hx.
  - apply negb_true_iff. apply Ascii.eqb_neq. exact Hne.
Qed.

Lemma star_loop_class_greedy (step : string -> Regex.captures -> Regex.cont -> Regex.result)
  (p : ascii -> bool) (k : Regex.cont) (a rest : string) caps x :
  (forall (s : string) (caps' : Regex.captures) (k' : Regex.cont),
      step s caps' k' = match s with
                        | String c s' => if p c then k' s' caps' else None
                        | EmptyString => None
                        end) ->
  all_chars p a = true ->
  stops p rest ->
  k rest caps = Some x ->
  forall fuel,
    String.length (a +:+ rest) <= fuel ->
    Regex.star_loop step k fuel (a +:+ rest) caps = Some x.
Proof.
  intros Hstep Hall Hstop Hk. induction a as [|c a IH]; intros fuel Hfuel.
  - rewrite append_nil. destruct fuel as [|fuel]; cbn [Regex.star_loop]; [exact Hk|].
    rewrite Hstep. destruct rest as [|c rest]; [exact Hk|].
    simpl in Hstop. rewrite Hstop. exact Hk.
  - simpl in Hall. apply andb_true_iff in Hall as [Hc Ha].
    rewrite append_cons in *. simpl in Hfuel.
    destruct fuel as [|fuel]; [lia|]. cbn [Regex.star_loop]. rewrite Hstep, Hc.
    assert (Hlt : (String.length (a +:+ rest)
                   <? String.length (String c (a +:+ rest)))%nat = true)
      by (apply Nat.ltb_lt; simpl; lia).
    rewrite Hlt, (IH Ha fuel) by lia. reflexivity.
Qed.

Lemma run_star_class p (k : Regex.cont) a rest caps x :
  all_chars p a = true ->
  stops p rest ->
  k rest caps = Some x ->
  Regex.run (Regex.Star (Regex.Class p)) (a +:+ rest) caps k = Some x.
Proof.
  intros. cbn [Regex.run]. apply star_loop_class_greedy with (p := p); auto.
Qed.

Lemma run_plus_class p (k : Regex.cont) a rest caps x :
  a <> "" ->
  all_chars p a = true ->
  stops p rest ->
  k rest caps = Some x ->
  Regex.run (Regex.Plus (Regex.Class p)) (a +:+ rest) caps k = Some x.
Proof.
  intros Hne Hall Hstop Hk. destruct a as [|c a]; [congruence|].
  simpl in Hall. apply andb_true_iff in Hall as [Hc Ha].
  unfold Regex.Plus. rewrite append_cons.
  change (Regex.run (Regex.Seq ?r1 ?r2) ?s ?c0 ?k0)
    with (Regex.run r1 s c0 (fun s' caps' => Regex.run r2 s' caps' k0)).
  change (Regex.run (Regex.Class p) (String c ?s) ?c0 ?k0)
    with (if p c then k0 s c0 else None).
  rewrite Hc. apply run_star_class; auto.
Qed.

(** The tail shared by both markdown patterns, run after the opening
    bracket: text, closing bracket, parenthesised destination. *)
Lemma run_link_tail (text_class : Regex.regex) (k : Regex.cont) alt dest post caps :
  (forall k' x, k' ("](" +:+ dest +:+ ")" +:+ post) caps = Some x ->
                Regex.run text_class (alt +:+ "](" +:+ dest +:+ ")" +:+ post) caps k'
                = Some x) ->
  dest <> "" ->
  JS.includes dest ")" = false ->
  forall x,
    k post ((2%nat, dest) :: (1%nat, alt) :: caps) = Some x ->
    Regex.run
      (Patterns.cat [Regex.Group 1 text_class; Regex.lit "](";
                     Regex.Group 2 (Regex.Plus (Regex.Class (Regex.none_of ")")));
                     Regex.Char ")"])
      (alt +:+ "](" +:+ dest +:+ ")" +:+ post) caps k = Some x.
Proof.
  intros Htext Hne Hdest x Hk.
  cbn [Patterns.cat Regex.lit].
  change (Regex.run (Regex.Seq ?r1 ?r2) ?s ?c0 ?k0)
    with (Regex.run r1 s c0 (fun s' caps' => Regex.run r2 s' caps' k0)).
  change (Regex.run (Regex.Group 1 text_class) ?s ?c0 ?k0)
    with (Regex.run text_class s c0
            (fun s' caps' => k0 s' ((1%nat, Regex.consumed s s') :: caps'))).
  apply Htext.
  rewrite consumed_append.
  change ("](" +:+ dest +:+ ")" +:+ post)
    with (String "]" (String "(" (dest +:+ ")" +:+ post))).
  cbn [Regex.run Ascii.eqb Bool.eqb]. 
  apply run_plus_class; [exact Hne | apply includes_char_false; exact Hdest | reflexivity |].
  rewrite consumed_append.
  change (")" +:+ post) with (String ")" post).
  cbn [Regex.run Ascii.eqb Bool.eqb]. exact Hk.
Qed.

(** ** The markdown patterns on an image reference *)

Lemma image_text_append alt dest post :
  image_text alt dest +:+ post
  = String "!" (String "[" (alt +:+ "](" +:+ dest +:+ ")" +:+ post)).
Proof.
  unfold image_text, link_text. rewrite !append_assoc. reflexivity.
Qed.

Lemma link_text_append alt dest post :
  link_text alt dest +:+ post = String "[" (alt +:+ "](" +:+ dest +:+ ")" +:+ post).
Proof.
  unfold link_text. rewrite !append_assoc. reflexivity.
Qed.

Lemma exec_at_image alt dest post :
  JS.includes alt "]" = false ->
  dest <> "" ->
  JS.includes dest ")" = false ->
  Regex.exec_at Patterns.mdImagePattern (image_text alt dest +:+ post)
  = Some (Regex.mkMatch (image_text alt dest) (md_captures alt dest)).
Proof.
  intros Halt Hne Hdest. unfold Regex.exec_at.
  assert (Hrun : Regex.run Patterns.mdImagePattern (image_text alt dest +:+ post) []
                   (fun s' caps => Some (s', caps))
                 = Some (post, md_captures alt dest)).
  { rewrite image_text_append. unfold Patterns.mdImagePattern.
    change (Patterns.cat (Regex.lit "![" :: ?tail))
      with (Regex.Seq (Regex.Seq (Regex.Char "!") (Regex.Char "[")) (Patterns.cat tail)).
    cbn [Regex.run Ascii.eqb Bool.eqb].
    apply run_link_tail; [|exact Hne | exact Hdest | reflexivity].
    intros k' x Hk'. apply run_star_class;
      [apply includes_char_false; exact Halt | reflexivity | exact Hk']. }
  rewrite Hrun, consumed_append. reflexivity.
Qed.

Lemma exec_at_link alt dest post :
  alt <> "" ->
  JS.includes alt "]" = false ->
  dest <> "" ->
  JS.includes dest ")" = false ->
  Regex.exec_at Patterns.mdLinkPattern (link_text alt dest +:+ post)
  = Some (Regex.mkMatch (link_text alt dest) (md_captures alt dest)).
Proof.
  intros Hane Halt Hne Hdest. unfold Regex.exec_at.
  assert (Hrun : Regex.run Patterns.mdLinkPattern (link_text alt dest +:+ post) []
                   (fun s' caps => Some (s', caps))
                 = Some (post, md_captures alt dest)).
  { rewrite link_text_append. unfold Patterns.mdLinkPattern.
    change (Patterns.cat (Regex.Char "[" :: ?tail))
      with (Regex.Seq (Regex.Char "[") (Patterns.cat tail)).
    cbn [Regex.run Ascii.eqb Bool.eqb].
    apply run_link_tail; [|exact Hne | exact Hdest | reflexivity].
    intros k' x Hk'. apply run_plus_class;
      [exact Hane | apply includes_char_false; exact Halt | reflexivity | exact Hk']. }
  rewrite Hrun, consumed_append. reflexivity.
Qed.

Lemma exec_at_link_head c s :
  Ascii.eqb "[" c = false -> Regex.exec_at Patterns.mdLinkPattern (String c s) = None.
Proof.
  intros Hc. unfold Regex.exec_at, Patterns.mdLinkPattern.
  change (Patterns.cat (Regex.Char "[" :: ?tail))
    with (Regex.Seq (Regex.Char "[") (Patterns.cat tail)).
  cbn [Regex.run]. rewrite Hc. reflexivity.
Qed.

Lemma exec_at_image_head c s :
  stops (fun x => Ascii.eqb "[" x) s \/ Ascii.eqb "!" c = false ->
  Regex.exec_at Patterns.mdImagePattern (String c s) = None.
Proof.
  intros H. unfold Regex.exec_at, Patterns.mdImagePattern.
  change (Patterns.cat (Regex.lit "![" :: ?tail))
    with (Regex.Seq (Regex.Seq (Regex.Char "!") (Regex.Char "[")) (Patterns.cat tail)).
  cbn [Regex.run].
  destruct (Ascii.eqb "!" c); [|reflexivity].
  destruct H as [H|H]; [|discriminate].
  destruct s as [|c' s]; [reflexivity|]. cbn [stops] in H. rewrite H. reflexivity.
Qed.

Lemma none_of_bracket c : Regex.none_of "[" c = true -> Ascii.eqb "[" c = false.
Proof.
  unfold Regex.none_of. simpl. rewrite orb_false_r. apply negb_true_iff.
Qed.

Lemma no_match_within_link pre s :
  all_chars (Regex.none_of "[") pre = true ->
  no_match_within Patterns.mdLinkPattern pre s.
Proof.
  induction pre as [|c pre IH]; simpl; [auto|].
  intros H. apply andb_true_iff in H as [Hc Hpre].
  split; [|auto]. apply exec_at_link_head, none_of_bracket, Hc.
Qed.

Lemma no_match_within_image pre s :
  all_chars (Regex.none_of "[") pre = true ->
  stops (fun x => Ascii.eqb "[" x) s ->
  no_match_within Patterns.mdImagePattern pre s.
Proof.
  intros Hpre Hs. induction pre as [|c pre IH]; cbn [no_match_within]; [auto|].
  cbn [all_chars] in Hpre. apply andb_true_iff in Hpre as [Hc Hpre].
  split; [|auto]. apply exec_at_image_head. left.
  destruct pre as [|c' pre]; [exact Hs|].
  cbn [all_chars] in Hpre. apply andb_true_iff in Hpre as [Hc' _].
  rewrite append_cons. cbn [stops]. apply none_of_bracket, Hc'.
Qed.

Lemma matchAll_from_no_match r pre s :
  no_match_within r pre s ->
  Regex.matchAll_from r 0 (pre +:+ s) = Regex.matchAll_from r 0 s.
Proof.
  induction pre as [|c pre IH]; [reflexivity|].
  intros [Hc Hpre]. rewrite append_cons. cbn [Regex.matchAll_from].
  rewrite Hc. auto.
Qed.

Lemma matchAll_from_first r s m :
  Regex.exec_at r s = Some m -> exists ms, Regex.matchAll_from r 0 s = m :: ms.
Proof.
  intros H. destruct s; cbn [Regex.matchAll_from]; rewrite H; eexists; reflexivity.
Qed.

(** In a text where no opening bracket precedes it, an image reference
    is the first match of the image pattern, and the link it contains is
    the first match of the link pattern. *)
Lemma markdown_first_matches pre alt dest post :
  JS.includes pre "[" = false ->
  alt <> "" ->
  JS.includes alt "]" = false ->
  dest <> "" ->
  JS.includes dest ")" = false ->
  let content := pre +:+ image_text alt dest +:+ post in
  (exists ms, Regex.matchAll Patterns.mdImagePattern content
              = Regex.mkMatch (image_text alt dest) (md_captures alt dest) :: ms)
  /\ (exists ms, Regex.matchAll Patterns.mdLinkPattern content
                 = Regex.mkMatch (link_text alt dest) (md_captures alt dest) :: ms).
Proof.
  intros Hpre Hane Halt Hne Hdest content. apply includes_char_false in Hpre.
  unfold Regex.matchAll. split.
  - subst content. rewrite matchAll_from_no_match.
    + apply matchAll_from_first, exec_at_image; assumption.
    + apply no_match_within_image; [exact Hpre|]. rewrite image_text_append. reflexivity.
  - replace content with ((pre +:+ "!") +:+ link_text alt dest +:+ post)
      by (subst content; unfold image_text; rewrite !append_assoc; reflexivity).
    rewrite matchAll_from_no_match.
    + apply matchAll_from_first, exec_at_link; assumption.
    + apply no_match_within_link.
      clear -Hpre. induction pre as [|c pre IH]; [reflexivity|].
      simpl in Hpre. apply andb_true_iff in Hpre as [Hc Hpre].
      rewrite append_cons. simpl. rewrite Hc. auto.
Qed.

(** ** What the loops push *)

Lemma for_each_extends {A} (xs : list A) body :
  (forall x deps env st, exists l, fst (body x deps env st) = deps ++ l) ->
  forall deps env st, exists l, fst (for_each xs body deps env st) = deps ++ l.
Proof.
  intros Hbody. induction xs as [|x xs IH]; intros deps env st; simpl.
  - exists []. unfold ret. simpl. rewrite app_nil_r. reflexivity.
  - unfold bind. destruct (Hbody x deps env st) as [l1 H1].
    destruct (body x deps env st) as [deps1 st1]. simpl in H1. subst deps1.
    destruct (IH (deps ++ l1) env st1) as [l2 H2]. exists (l1 ++ l2).
    rewrite H2, app_assoc. reflexivity.
Qed.

Lemma md_image_body_extends fp content m deps env st :
  exists l, fst (md_image_body fp content m deps env st) = deps ++ l.
Proof.
  unfold md_image_body. destruct (JS.startsWith _ _).
  - exists []. unfold ret. simpl. rewrite app_nil_r. reflexivity.
  - rewrite push_resolved_value. eexists. reflexivity.
Qed.

Lemma md_link_body_extends fp content m deps env st :
  exists l, fst (md_link_body fp content m deps env st) = deps ++ l.
Proof.
  unfold md_link_body. destruct (_ || _).
  - exists []. unfold ret. simpl. rewrite app_nil_r. reflexivity.
  - rewrite push_resolved_value. eexists. reflexivity.
Qed.

Lemma state_independent_ret {A} (a : A) : state_independent (ret a).
Proof. intros env st st'. reflexivity. Qed.

Lemma state_independent_bind {A B} (c : M A) (k : A -> M B) :
  state_independent c -> (forall a, state_independent (k a)) ->
  state_independent (bind c k).
Proof.
  intros Hc Hk env st st'. unfold bind. specialize (Hc env st st').
  destruct (c env st) as [a st1], (c env st') as [a' st1']. simpl in Hc. subst a'.
  apply Hk.
Qed.

Lemma state_independent_first_existing candidates :
  state_independent (first_existing candidates).
Proof.
  intros env st st'. rewrite !first_existing_value. reflexivity.
Qed.

Lemma resolveImportPath_state_independent sourcePath importPath :
  state_independent (resolveImportPath sourcePath importPath).
Proof.
  unfold resolveImportPath. apply state_independent_bind.
  - intros env st st'. reflexivity.
  - intros env0.
    destruct (JS.startsWith importPath "/" || JS.startsWith importPath "http").
    + destruct (JS.startsWith importPath "/"), (truthy_root (workspaceRoot env0));
        apply state_independent_ret.
    + destruct (String.eqb _ ""); [|apply state_independent_ret].
      apply state_independent_bind; [apply state_independent_first_existing|].
      intros [p|]; [apply state_independent_ret|].
      apply state_independent_bind; [apply state_independent_first_existing|].
      intros [p|]; apply state_independent_ret.
Qed.
(** ** An image reference in a markdown text *)

Lemma resumes_at_matchAll r pre s :
  forall skip,
    resumes_at r skip pre s = true ->
    exists before,
      Regex.matchAll_from r skip (pre +:+ s) = before ++ Regex.matchAll_from r 0 s.
Proof.
  induction pre as [|c pre IH]; intros skip H.
  - cbn [resumes_at] in H. apply Nat.eqb_eq in H. subst skip. exists []. reflexivity.
  - cbn [resumes_at] in H. rewrite append_cons in *. destruct skip as [|skip].
    + cbn [Regex.matchAll_from].
      destruct (Regex.exec_at r (String c (pre +:+ s))) as [m|].
      * destruct (IH _ H) as [before Hb]. exists (m :: before). rewrite Hb. reflexivity.
      * apply IH. exact H.
    + cbn [Regex.matchAll_from]. apply IH. exact H.
Qed.

Lemma no_match_within_resumes r pre s :
  no_match_within r pre s -> resumes_at r 0 pre s = true.
Proof.
  induction pre as [|c pre IH]; [reflexivity|].
  intros [Hc Hpre]. cbn [resumes_at]. rewrite append_cons, Hc. auto.
Qed.

(** A loop that runs over a match whose body pushes [d]. *)
Lemma for_each_middle {A} (xs ys : list A) (m : A) body (d : Dependency.t) (env : Env) :
  (forall x deps env0 st, exists l, fst (body x deps env0 st) = deps ++ l) ->
  (forall deps st, fst (body m deps env st) = deps ++ [d]) ->
  forall deps st,
    exists l l', fst (for_each (xs ++ m :: ys) body deps env st) = deps ++ l ++ d :: l'.
Proof.
  intros Hext Hm. induction xs as [|x xs IH]; intros deps st.
  - cbn [app for_each]. unfold bind. specialize (Hm deps st).
    destruct (body m deps env st) as [deps1 st1]. cbn [fst] in Hm. subst deps1.
    destruct (for_each_extends ys body Hext (deps ++ [d]) env st1) as [l' Hl'].
    exists [], l'. rewrite Hl', <- app_assoc. reflexivity.
  - cbn [app for_each]. unfold bind. destruct (Hext x deps env st) as [l1 H1].
    destruct (body x deps env st) as [deps1 st1]. cbn [fst] in H1. subst deps1.
    destruct (IH (deps ++ l1) st1) as (l & l' & H).
    exists (l1 ++ l), l'. rewrite H, <- !app_assoc. reflexivity.
Qed.

(** C10 (amended). In a markdown text, take an image reference with a
    non-empty path (free of closing parentheses) that does not start
    with http or with a hash and contains no at sign, and a link that
    ends where the reference ends: an opening bracket, a non-empty text
    free of closing brackets, and the same path.  The link that starts
    at the bracket of the reference is one, when the alt text is not
    empty; a bracket opened earlier gives another, as the outer one of
    an image that is itself the text of a link.  When the search for the
    image pattern comes to the reference and the search for the link
    pattern to the bracket of the link, neither being carried beyond by
    a match that began before, the reference is a match of the image
    pattern and the link a match of the link pattern, and
    [extractMarkdownDependencies] pushes two dependencies for this one
    occurrence, with the same source, the same resolved target, kind
    reference, not external.  No match carries a search beyond a
    reference that no opening bracket precedes. *)
Theorem markdown_image_pushed_twice :
  (forall (filePath pre alt pre' text dest post : string) (env : Env) (st : State),
      pre +:+ image_text alt dest = pre' +:+ link_text text dest ->
      resumes_at Patterns.mdImagePattern 0 pre (image_text alt dest +:+ post) = true ->
      resumes_at Patterns.mdLinkPattern 0 pre' (link_text text dest +:+ post) = true ->
      JS.includes alt "]" = false ->
      text <> "" ->
      JS.includes text "]" = false ->
      dest <> "" ->
      JS.includes dest ")" = false ->
      JS.startsWith dest "http" = false ->
      JS.startsWith dest "#" = false ->
      JS.includes dest "@" = false ->
      let content := pre +:+ image_text alt dest +:+ post in
      let target := fst (resolveImportPath filePath dest env st) in
      (exists before after,
          Regex.matchAll Patterns.mdImagePattern content
          = before ++ Regex.mkMatch (image_text alt dest) (md_captures alt dest) :: after)
      /\ (exists before after,
             Regex.matchAll Patterns.mdLinkPattern content
             = before ++ Regex.mkMatch (link_text text dest) (md_captures text dest) :: after)
      /\ exists l0 l1 l2,
          fst (extractMarkdownDependencies filePath content [] env st)
          = l0 ++ md_dependency filePath content (image_text alt dest) target :: l1
            ++ md_dependency filePath content (link_text text dest) target :: l2)
  /\ (forall (pre alt dest : string),
         pre +:+ image_text alt dest = (pre +:+ "!") +:+ link_text alt dest)
  /\ (forall (pre alt dest post : string),
         JS.includes pre "[" = false ->
         resumes_at Patterns.mdImagePattern 0 pre (image_text alt dest +:+ post) = true
         /\ resumes_at Patterns.mdLinkPattern 0 (pre +:+ "!") (link_text alt dest +:+ post)
            = true).
Proof.
  split; [|split].
  - intros filePath pre alt pre' text dest post env st Hsame Himg Hlink Halt Htne Htext
           Hne Hdest Hhttp Hhash Hat content target.
    apply resumes_at_matchAll in Himg as [before1 Himg].
    apply resumes_at_matchAll in Hlink as [before2 Hlink].
    destruct (matchAll_from_first _ _ _ (exec_at_image alt dest post Halt Hne Hdest))
      as [after1 Ha1].
    destruct (matchAll_from_first _ _ _ (exec_at_link text dest post Htne Htext Hne Hdest))
      as [after2 Ha2].
    rewrite Ha1 in Himg. rewrite Ha2 in Hlink.
    replace (pre' +:+ link_text text dest +:+ post) with content in Hlink
      by (subst content; rewrite <- !append_assoc, Hsame; reflexivity).
    fold content in Himg. unfold Regex.matchAll.
    split; [exists before1, after1; exact Himg|].
    split; [exists before2, after2; exact Hlink|].
    unfold extractMarkdownDependencies. unfold Regex.matchAll. rewrite Himg, Hlink.
    unfold bind at 1.
    destruct (for_each_middle before1 after1
                (Regex.mkMatch (image_text alt dest) (md_captures alt dest))
                (md_image_body filePath content)
                (md_dependency filePath content (image_text alt dest) target) env
                (md_image_body_extends filePath content)) with (deps := @nil Dependency.t)
                                                                (st := st)
      as (l0 & l1 & H1).
    { intros deps st0. unfold md_image_body.
      change (Regex.group _ 2) with dest. rewrite Hhttp.
      rewrite push_resolved_value.
      rewrite (resolveImportPath_state_independent filePath dest env st0 st).
      reflexivity. }
    destruct (for_each _ (md_image_body filePath content) [] env st) as [deps1 st1].
    cbn [fst] in H1. subst deps1.
    destruct (for_each_middle before2 after2
                (Regex.mkMatch (link_text text dest) (md_captures text dest))
                (md_link_body filePath content)
                (md_dependency filePath content (link_text text dest) target) env
                (md_link_body_extends filePath content)) with
      (deps := [] ++ l0 ++ md_dependency filePath content (image_text alt dest) target :: l1)
      (st := st1)
      as (l1' & l2 & H2).
    { intros deps st0. unfold md_link_body.
      change (Regex.group _ 2) with dest. rewrite Hhttp, Hhash, Hat.
      cbn [orb]. rewrite push_resolved_value.
      rewrite (resolveImportPath_state_independent filePath dest env st0 st).
      reflexivity. }
    exists l0, (l1 ++ l1'), l2. rewrite H2. cbn [app]. rewrite <- !app_assoc. reflexivity.
  - intros pre alt dest. unfold image_text. rewrite !append_assoc. reflexivity.
  - intros pre alt dest post Hpre. apply includes_char_false in Hpre. split.
    + apply no_match_within_resumes, no_match_within_image; [exact Hpre|].
      rewrite image_text_append. reflexivity.
    + apply no_match_within_resumes, no_match_within_link.
      clear -Hpre. induction pre as [|c pre IH]; [reflexivity|].
      simpl in Hpre. apply andb_true_iff in Hpre as [Hc Hpre].
      rewrite append_cons. simpl. rewrite Hc. auto.
Qed.

Lemma markdown_image_pushed_twice_witness :
  let pre := "[docs](docs.md) and ![a](a.png), then " in
  let content := pre +:+ image_text "logo" "img/logo.png" +:+ "." in
  let target := fst (resolveImportPath "/p/r.md" "img/logo.png" small_disk fresh) in
  let badge := "[" +:+ image_text "Build" "badge.svg" +:+ "](https://ci)" in
  let badge_target := fst (resolveImportPath "/p/r.md" "badge.svg" small_disk fresh) in
  content = "[docs](docs.md) and ![a](a.png), then ![logo](img/logo.png)."
  /\ target = "/p/img/logo.png"
  /\ (exists l0 l1 l2,
         fst (extractMarkdownDependencies "/p/r.md" content [] small_disk fresh)
         = l0 ++ md_dependency "/p/r.md" content (image_text "logo" "img/logo.png") target :: l1
           ++ md_dependency "/p/r.md" content (link_text "logo" "img/logo.png") target :: l2)
  /\ map Dependency.target
       (fst (extractMarkdownDependencies "/p/r.md" content [] small_disk fresh))
     = ["/p/a.png"; "/p/img/logo.png"; "/p/docs.md"; "/p/a.png"; "/p/img/logo.png"]
  /\ badge = "[![Build](badge.svg)](https://ci)"
  /\ (exists l0 l1 l2,
         fst (extractMarkdownDependencies "/p/r.md" badge [] small_disk fresh)
         = l0 ++ md_dependency "/p/r.md" badge (image_text "Build" "badge.svg") badge_target
                 :: l1
           ++ md_dependency "/p/r.md" badge (link_text "![Build" "badge.svg") badge_target
              :: l2)
  /\ map Dependency.target
       (fst (extractMarkdownDependencies "/p/r.md" badge [] small_disk fresh))
     = ["/p/badge.svg"; "/p/badge.svg"].
Proof.
  intros pre content target badge badge_target.
  destruct markdown_image_pushed_twice as (Hgen & Hown & _).
  split; [vm_compute; reflexivity|]. split; [vm_compute; reflexivity|].
  split; [|split; [vm_compute; reflexivity|]].
  { assert (H1 : resumes_at Patterns.mdImagePattern 0 pre
                   (image_text "logo" "img/logo.png" +:+ ".") = true)
      by (vm_compute; reflexivity).
    assert (H2 : resumes_at Patterns.mdLinkPattern 0 (pre +:+ "!")
                   (link_text "logo" "img/logo.png" +:+ ".") = true)
      by (vm_compute; reflexivity).
    assert (H3 : JS.includes "logo" "]" = false) by reflexivity.
    assert (H4 : "logo" <> "") by discriminate.
    assert (H5 : "img/logo.png" <> "") by discriminate.
    assert (H6 : JS.includes "img/logo.png" ")" = false) by reflexivity.
    assert (H7 : JS.startsWith "img/logo.png" "http" = false) by reflexivity.
    assert (H8 : JS.startsWith "img/logo.png" "#" = false) by reflexivity.
    assert (H9 : JS.includes "img/logo.png" "@" = false) by reflexivity.
    exact (proj2 (proj2 (Hgen "/p/r.md" pre "logo" (pre +:+ "!") "logo" "img/logo.png" "."
                           small_disk fresh (Hown pre "logo" "img/logo.png")
                           H1 H2 H3 H4 H3 H5 H6 H7 H8 H9))). }
  split; [vm_compute; reflexivity|]. split; [|vm_compute; reflexivity].
  assert (H0 : "[" +:+ image_text "Build" "badge.svg" = "" +:+ link_text "![Build" "badge.svg")
    by reflexivity.
  assert (H1 : resumes_at Patterns.mdImagePattern 0 "["
                 (image_text "Build" "badge.svg" +:+ "](https://ci)") = true)
    by (vm_compute; reflexivity).
  assert (H2 : resumes_at Patterns.mdLinkPattern 0 ""
                 (link_text "![Build" "badge.svg" +:+ "](https://ci)") = true)
    by reflexivity.
  assert (H3 : JS.includes "Build" "]" = false) by reflexivity.
  assert (H4 : "![Build" <> "") by discriminate.
  assert (H4' : JS.includes "![Build" "]" = false) by reflexivity.
  assert (H5 : "badge.svg" <> "") by discriminate.
  assert (H6 : JS.includes "badge.svg" ")" = false) by reflexivity.
  assert (H7 : JS.startsWith "badge.svg" "http" = false) by reflexivity.
  assert (H8 : JS.startsWith "badge.svg" "#" = false) by reflexivity.
  assert (H9 : JS.includes "badge.svg" "@" = false) by reflexivity.
  exact (proj2 (proj2 (Hgen "/p/r.md" "[" "Build" "" "![Build" "badge.svg" "](https://ci)"
                         small_disk fresh H0 H1 H2 H3 H4 H4' H5 H6 H7 H8 H9))).
Defined.

(** C10, as stated, fails: the loop over the links skips a path that
    contains an at sign or starts with a hash, so such an image yields
    one dependency; a link opened earlier in the text can swallow the
    image reference, so that the two dependencies differ in their
    target; and so can an image reference opened earlier, which leaves
    the one it swallows with the dependency of its link alone. *)
Lemma markdown_image_pushed_twice_counterexample :
  fst (extractMarkdownDependencies "/p/r.md" "![logo](logo@2x.png)" [] small_disk fresh)
  = [md_dependency "/p/r.md" "![logo](logo@2x.png)" "![logo](logo@2x.png)"
       "/p/logo@2x.png"]
  /\ fst (extractMarkdownDependencies "/p/r.md" "![top](#top)" [] small_disk fresh)
     = [md_dependency "/p/r.md" "![top](#top)" "![top](#top)" "/p/#top"]
  /\ fst (extractMarkdownDependencies "/p/r.md" "[a](b ![c](d)" [] small_disk fresh)
     = [md_dependency "/p/r.md" "[a](b ![c](d)" "![c](d)" "/p/d";
        md_dependency "/p/r.md" "[a](b ![c](d)" "[a](b ![c](d)" "/p/b ![c](d"]
  /\ fst (extractMarkdownDependencies "/p/r.md" "![](y ![c](d)" [] small_disk fresh)
     = [md_dependency "/p/r.md" "![](y ![c](d)" "![](y ![c](d)" "/p/y ![c](d";
        md_dependency "/p/r.md" "![](y ![c](d)" "[c](d)" "/p/d"].
Proof.
  repeat split; vm_compute; reflexivity.
Qed.

(** ** Scenarios of the specification *)

(** A script with [import x from './util'] next to [util.ts]: one
    dependency, an import, internal, to [util.ts]. *)
Example scenario_import_util :
  fst (analyzeDependencies
         (plain_file "/p/main.ts" FileType.TypeScript 22 (Some "import x from './util'"))
         (disk_of [("/p/main.ts", "import x from './util'"); ("/p/util.ts", "")] (Some "/p"))
         fresh)
  = [Dependency.mk "/p/main.ts" "/p/util.ts" DependencyType.Import_ (Some [0%nat]) false].
Proof.
  vm_compute. reflexivity.
Qed.

(** A markdown file with a link to an http address: no dependency. *)
Example scenario_markdown_http_link :
  fst (extractMarkdownDependencies "/p/r.md" "[text](http://example.com)" []
         small_disk fresh) = [].
Proof.
  vm_compute. reflexivity.
Qed.

(** A page with a script, a style sheet and two images, one of them
    inline. *)
Example scenario_html :
  map Dependency.target
    (fst (extractHTMLDependencies "/p/index.html"
            (dq "<script src='app.js'></script><link rel='stylesheet' href='css/site.css'><img src='data:image/png;base64,AA'><img alt='x' src='http://cdn.example/x.png'><img src='/logo.png'>")
            [] small_disk fresh))
  = ["/p/app.js"; "/p/css/site.css"; "/p/logo.png"].
Proof.
  vm_compute. reflexivity.
Qed.

(** A style sheet with an import and two urls, one of them a fragment. *)
Example scenario_css :
  map Dependency.target
    (fst (extractCSSDependencies "/p/css/site.css"
            (dq "@import url('base.css'); a { background: url(../img/bg.png) } b { fill: url(#grad) }")
            [] small_disk fresh))
  = ["/p/css/base.css"; "/p/css/base.css"; "/p/img/bg.png"].
Proof.
  vm_compute. reflexivity.
Qed.

(** ** The graph as a function of the cache *)

Lemma find_app {A} (p : A -> bool) (l1 l2 : list A) :
  find p (l1 ++ l2) = match find p l1 with Some x => Some x | None => find p l2 end.
Proof. induction l1 as [|x l1 IH]; simpl; [reflexivity|]. destruct (p x); auto. Qed.

Lemma find_last_cons {A} (p : A -> bool) (x : A) (l : list A) :
  find_last p (x :: l)
  = match find_last p l with Some y => Some y | None => if p x then Some x else None end.
Proof. unfold find_last. simpl. rewrite find_app. simpl. reflexivity. Qed.

Lemma find_last_filter {A} (p c : A -> bool) (l : list A) :
  find_last p (List.filter c l) = find_last (fun x => c x && p x) l.
Proof.
  induction l as [|x l IH]; [reflexivity|]. simpl.
  destruct (c x) eqn:E; rewrite !find_last_cons, ?IH, ?E; cbn [andb]; [reflexivity|].
  destruct (find_last _ l); reflexivity.
Qed.

Lemma find_last_ext {A} (p q : A -> bool) (l : list A) :
  (forall x, In x l -> p x = q x) -> find_last p l = find_last q l.
Proof.
  induction l as [|x l IH]; intros H; [reflexivity|].
  rewrite !find_last_cons, IH by (intros y Hy; apply H; right; exact Hy).
  rewrite (H x) by (left; reflexivity). reflexivity.
Qed.

Lemma find_last_Some {A} (p : A -> bool) (l : list A) x :
  find_last p l = Some x -> In x l /\ p x = true.
Proof.
  unfold find_last. intros H. apply find_some in H. destruct H as [H1 H2].
  split; [apply in_rev; exact H1 | exact H2].
Qed.

Lemma find_last_None {A} (p : A -> bool) (l : list A) :
  find_last p l = None <-> forall x, In x l -> p x = false.
Proof.
  unfold find_last. split.
  - intros H x Hx. apply (find_none _ _ H). apply in_rev in Hx. exact Hx.
  - intros H. destruct (find p (rev l)) eqn:E; [|reflexivity].
    apply find_some in E. destruct E as [E1 E2]. apply in_rev in E1.
    rewrite (H _ E1) in E2. discriminate.
Qed.

(** A series of [set]: the value under a key is the last one stored. *)
Lemma jsmap_set_fold_get {A V} (key : A -> string) (val : A -> V) (xs : list A)
  (m : jsmap V) (k : string) :
  jsmap_get (fold_left (fun m x => jsmap_set m (key x) (val x)) xs m) k
  = match find_last (fun x => String.eqb (key x) k) xs with
    | Some x => Some (val x)
    | None => jsmap_get m k
    end.
Proof.
  revert m. induction xs as [|x xs IH]; intros m; [reflexivity|].
  simpl. rewrite IH, find_last_cons, jsmap_get_set.
  destruct (find_last _ xs); [reflexivity|].
  destruct (String.eqb (key x) k); reflexivity.
Qed.

Lemma jsmap_keys_set {V} (m : jsmap V) k v :
  jsmap_keys (jsmap_set m k v)
  = if jsmap_has m k then jsmap_keys m else jsmap_keys m ++ [k].
Proof.
  unfold jsmap_has, jsmap_keys. induction m as [|[k' v'] m IH]; simpl; [reflexivity|].
  destruct (String.eqb k' k) eqn:E; simpl; [reflexivity|].
  rewrite IH. destruct (jsmap_get m k); reflexivity.
Qed.

Lemma filter_filter_and {A} (p q : A -> bool) (l : list A) :
  List.filter p (List.filter q l) = List.filter (fun x => q x && p x) l.
Proof.
  induction l as [|x l IH]; [reflexivity|]. simpl.
  destruct (q x); simpl; [destruct (p x)|]; rewrite ?IH; reflexivity.
Qed.

(** A series of [set] keeps the keys in the order of their first
    insertion. *)
Lemma jsmap_set_fold_keys {A V} (key : A -> string) (val : A -> V) (xs : list A)
  (m : jsmap V) :
  jsmap_keys (fold_left (fun m x => jsmap_set m (key x) (val x)) xs m)
  = jsmap_keys m
    ++ List.filter (fun y => negb (jsmap_has m y)) (first_occurrences (map key xs)).
Proof.
  revert m. induction xs as [|x xs IH]; intros m.
  - simpl. rewrite app_nil_r. reflexivity.
  - cbn [fold_left map first_occurrences]. rewrite IH, jsmap_keys_set.
    cbn [List.filter]. destruct (jsmap_has m (key x)) eqn:E; cbn [negb].
    + f_equal. rewrite filter_filter_and. apply filter_ext_in. intros y _.
      rewrite jsmap_has_set. apply negb_orb.
    + rewrite <- app_assoc. cbn [app]. f_equal. f_equal.
      rewrite filter_filter_and. apply filter_ext_in. intros y _.
      rewrite jsmap_has_set. apply negb_orb.
Qed.

Lemma add_node_fold_nodes files g :
  DependencyGraph.nodes (fold_left add_node files g)
  = fold_left (fun m f => jsmap_set m (FileInfo.path f) f) files (DependencyGraph.nodes g).
Proof. revert g. induction files as [|f files IH]; intros g; simpl; [|rewrite IH]; reflexivity. Qed.

Lemma add_node_fold_edges files g :
  DependencyGraph.edges (fold_left add_node files g)
  = fold_left (fun m f => jsmap_set m (FileInfo.path f) (@nil (string * Dependency.t)))
      files (DependencyGraph.edges g).
Proof. revert g. induction files as [|f files IH]; intros g; simpl; [|rewrite IH]; reflexivity. Qed.

Lemma jsmap_keys_update_inner {V} (m : jsmap (jsmap V)) k k2 v :
  jsmap_keys (jsmap_update_inner m k k2 v) = jsmap_keys m.
Proof.
  unfold jsmap_keys. induction m as [|[k' i'] m IH]; simpl; [reflexivity|].
  destruct (String.eqb k' k); simpl; [|rewrite IH]; reflexivity.
Qed.

(** The inner loop of the builder: the nodes and the keys of [edges]
    stay, the edge map of the file takes the dependencies in. *)
Lemma add_edge_fold_get file ds g :
  let g' := fold_left (add_edge file) ds g in
  DependencyGraph.nodes g' = DependencyGraph.nodes g
  /\ jsmap_keys (DependencyGraph.edges g') = jsmap_keys (DependencyGraph.edges g)
  /\ forall src,
      jsmap_get (DependencyGraph.edges g') src
      = if String.eqb (FileInfo.path file) src
        then option_map (set_targets (DependencyGraph.nodes g) ds)
               (jsmap_get (DependencyGraph.edges g) src)
        else jsmap_get (DependencyGraph.edges g) src.
Proof.
  revert g. induction ds as [|d ds IH]; intros g; cbn [fold_left].
  - split; [reflexivity|]. split; [reflexivity|]. intros src.
    destruct (String.eqb _ src); [|reflexivity].
    destruct (jsmap_get _ src); reflexivity.
  - destruct (IH (add_edge file g d)) as (Hn & Hk & Hg).
    assert (Hn1 : DependencyGraph.nodes (add_edge file g d) = DependencyGraph.nodes g).
    { unfold add_edge. destruct (jsmap_has _ _); reflexivity. }
    split; [congruence|]. split.
    + rewrite Hk. unfold add_edge. destruct (jsmap_has _ _); [|reflexivity].
      apply jsmap_keys_update_inner.
    + intros src. rewrite Hg, Hn1. unfold set_targets at 2. cbn [List.filter].
      unfold add_edge.
      destruct (jsmap_has (DependencyGraph.nodes g) (Dependency.target d)) eqn:E.
      * cbn [DependencyGraph.edges fold_left]. rewrite jsmap_get_update_inner.
        destruct (String.eqb (FileInfo.path file) src); [|reflexivity].
        destruct (jsmap_get (DependencyGraph.edges g) src); reflexivity.
      * reflexivity.
Qed.

Lemma graph_with_nodes lookup files g :
  DependencyGraph.nodes (graph_with lookup files g) = DependencyGraph.nodes g
  /\ jsmap_keys (DependencyGraph.edges (graph_with lookup files g))
     = jsmap_keys (DependencyGraph.edges g).
Proof.
  unfold graph_with. revert g. induction files as [|f files IH]; intros g; cbn [fold_left].
  - auto.
  - destruct (IH (fold_left (add_edge f) (lookup (FileInfo.path f)) g)) as [H1 H2].
    destruct (add_edge_fold_get f (lookup (FileInfo.path f)) g) as (H3 & H4 & _).
    split; congruence.
Qed.

(** The cache only grows while the files are processed. *)
Lemma process_files_cache files total n callback g env st :
  let st' := snd (process_files files total n callback g env st) in
  forall p l, dependencyCache st !! p = Some l -> dependencyCache st' !! p = Some l.
Proof.
  revert n g st. induction files as [|file files IH]; intros n g st; simpl; [auto|].
  intros p l Hp. unfold bind at 1.
  pose proof (analyzeDependencies_cache file env st) as Hc.
  destruct (analyzeDependencies file env st) as [deps st1]. destruct Hc as [_ Hmono].
  unfold bind at 1.
  destruct callback; cbn [emit ret]; apply IH; cbn [dependencyCache]; auto.
Qed.

(** The graph built is the one the final cache describes. *)
Lemma process_files_graph files total n callback g env st :
  let '(g', st') := process_files files total n callback g env st in
  g' = graph_with (cached st') files g.
Proof.
  revert n g st. induction files as [|file files IH]; intros n g st; simpl; [reflexivity|].
  unfold bind at 1.
  pose proof (analyzeDependencies_cache file env st) as Hc.
  destruct (analyzeDependencies file env st) as [deps st1]. destruct Hc as [Hc _].
  unfold bind at 1.
  set (st2 := snd ((if callback then emit (EvProgress (S n) total) else ret tt) env st1)).
  assert (Hst2 : dependencyCache st2 = dependencyCache st1)
    by (subst st2; destruct callback; reflexivity).
  replace ((if callback then emit (EvProgress (S n) total) else ret tt) env st1)
    with (tt, st2) by (subst st2; destruct callback; reflexivity).
  pose proof (process_files_cache files total (S n) callback
                (fold_left (add_edge file) deps g) env st2) as Hmono.
  specialize (IH (S n) (fold_left (add_edge file) deps g) st2).
  destruct (process_files files total (S n) callback _ env st2) as [g' st'].
  cbn [snd] in Hmono. subst g'.
  assert (Hdeps : cached st' (FileInfo.path file) = deps).
  { unfold cached. rewrite (Hmono (FileInfo.path file) deps) by (rewrite Hst2; exact Hc).
    reflexivity. }
  unfold graph_with. cbn [fold_left]. rewrite Hdeps. reflexivity.
Qed.

(** When every file is in the cache the loop is a replay of it: no
    read, no probe, no log. *)
Lemma process_files_replay files total n callback g env st :
  (forall file, In file files -> is_Some (dependencyCache st !! FileInfo.path file)) ->
  process_files files total n callback g env st
  = (graph_with (cached st) files g,
     mkState (dependencyCache st)
       (events st ++ (if callback
                      then map (fun i => EvProgress i total) (seq (S n) (length files))
                      else []))).
Proof.
  revert n g st. induction files as [|file files IH]; intros n g st Hall.
  - simpl. unfold ret. destruct callback; rewrite app_nil_r; destruct st; reflexivity.
  - cbn [process_files]. unfold bind at 1.
    destruct (Hall file) as [deps Hdeps]; [left; reflexivity|].
    rewrite (analyzeDependencies_hit file env st deps Hdeps).
    unfold bind at 1.
    assert (Hc : cached st (FileInfo.path file) = deps)
      by (unfold cached; rewrite Hdeps; reflexivity).
    unfold graph_with. cbn [fold_left]. rewrite Hc. fold (graph_with (cached st) files).
    destruct callback; cbn [emit ret].
    + rewrite IH by (intros f Hf; cbn [dependencyCache]; apply Hall; right; exact Hf).
      cbn [dependencyCache events length seq map]. rewrite <- app_assoc. reflexivity.
    + rewrite IH by (intros f Hf; apply Hall; right; exact Hf). reflexivity.
Qed.

Lemma filter_all {A} (p : A -> bool) (l : list A) :
  (forall x, In x l -> p x = true) -> List.filter p l = l.
Proof.
  induction l as [|x l IH]; intros H; [reflexivity|]. simpl.
  rewrite (H x) by (left; reflexivity). f_equal. apply IH. intros y Hy. apply H. right. exact Hy.
Qed.

Lemma set_targets_get N ds m tgt :
  jsmap_get (set_targets N ds m) tgt
  = if jsmap_has N tgt
    then match find_last (fun d => String.eqb (Dependency.target d) tgt) ds with
         | Some d => Some d
         | None => jsmap_get m tgt
         end
    else jsmap_get m tgt.
Proof.
  unfold set_targets.
  rewrite (jsmap_set_fold_get Dependency.target (fun d => d)), find_last_filter.
  destruct (jsmap_has N tgt) eqn:E.
  - rewrite (find_last_ext _ (fun d => String.eqb (Dependency.target d) tgt)); [reflexivity|].
    intros d _. destruct (String.eqb (Dependency.target d) tgt) eqn:E'.
    + apply String.eqb_eq in E'. rewrite E', E. reflexivity.
    + apply andb_false_r.
  - replace (find_last _ ds) with (@None Dependency.t); [reflexivity|].
    symmetry. apply find_last_None. intros d _.
    destruct (String.eqb (Dependency.target d) tgt) eqn:E'.
    + apply String.eqb_eq in E'. rewrite E', E. reflexivity.
    + apply andb_false_r.
Qed.

Lemma edge_map_of_within N deps inner :
  edge_map_of N deps inner -> edge_map_within N deps inner.
Proof.
  intros H tgt d Hd. rewrite H in Hd. destruct (jsmap_has N tgt); [auto | discriminate].
Qed.

Lemma set_targets_edge_map N deps inner :
  edge_map_within N deps inner -> edge_map_of N deps (set_targets N deps inner).
Proof.
  intros H tgt. rewrite set_targets_get.
  destruct (jsmap_has N tgt) eqn:E.
  - destruct (find_last _ deps) eqn:F; [reflexivity|].
    destruct (jsmap_get inner tgt) eqn:G; [|reflexivity].
    destruct (H _ _ G) as [_ H']. congruence.
  - destruct (jsmap_get inner tgt) eqn:G; [|reflexivity].
    destruct (H _ _ G) as [H' _]. congruence.
Qed.

(** The edge maps while the second loop runs with the dependencies
    given by [lookup]: all of them hold only dependencies of their file,
    and those of the files handled are complete. *)
Lemma graph_with_edge_maps (lookup : string -> list Dependency.t) files :
  forall g,
    (forall src inner, jsmap_get (DependencyGraph.edges g) src = Some inner ->
        edge_map_within (DependencyGraph.nodes g) (lookup src) inner) ->
    let g' := graph_with lookup files g in
    (forall src inner, jsmap_get (DependencyGraph.edges g') src = Some inner ->
        edge_map_within (DependencyGraph.nodes g) (lookup src) inner)
    /\ (forall src,
          (forall inner, jsmap_get (DependencyGraph.edges g) src = Some inner ->
             edge_map_of (DependencyGraph.nodes g) (lookup src) inner) ->
          forall inner, jsmap_get (DependencyGraph.edges g') src = Some inner ->
             edge_map_of (DependencyGraph.nodes g) (lookup src) inner)
    /\ (forall file, In file files ->
          forall inner, jsmap_get (DependencyGraph.edges g') (FileInfo.path file) = Some inner ->
             edge_map_of (DependencyGraph.nodes g) (lookup (FileInfo.path file)) inner).
Proof.
  induction files as [|f files IH]; intros g Hw.
  - cbn. split; [exact Hw|]. split; [auto|]. intros file [].
  - unfold graph_with. cbn [fold_left].
    set (g1 := fold_left (add_edge f) (lookup (FileInfo.path f)) g).
    fold (graph_with lookup files g1).
    destruct (add_edge_fold_get f (lookup (FileInfo.path f)) g) as (Hn & _ & Hg).
    fold g1 in Hn, Hg.
    assert (Hstep : forall src inner,
               jsmap_get (DependencyGraph.edges g1) src = Some inner ->
               (FileInfo.path f = src
                /\ edge_map_of (DependencyGraph.nodes g) (lookup src) inner)
               \/ (FileInfo.path f <> src
                   /\ jsmap_get (DependencyGraph.edges g) src = Some inner)).
    { intros src inner H. rewrite Hg in H.
      destruct (String.eqb (FileInfo.path f) src) eqn:E.
      - apply String.eqb_eq in E. left. split; [exact E|].
        destruct (jsmap_get (DependencyGraph.edges g) src) as [inner0|] eqn:G;
          [|discriminate].
        injection H as <-. rewrite E. apply set_targets_edge_map. apply (Hw _ _ G).
      - apply String.eqb_neq in E. right. auto. }
    assert (Hw1 : forall src inner,
               jsmap_get (DependencyGraph.edges g1) src = Some inner ->
               edge_map_within (DependencyGraph.nodes g1) (lookup src) inner).
    { intros src inner H. rewrite Hn. destruct (Hstep _ _ H) as [[_ H']|[_ H']].
      - apply edge_map_of_within. exact H'.
      - apply (Hw _ _ H'). }
    destruct (IH g1 Hw1) as (I1 & I2 & I3). rewrite Hn in I1, I2, I3.
    split; [exact I1|]. split.
    + intros src Hgood. apply I2. intros inner H.
      destruct (Hstep _ _ H) as [[_ H']|[_ H']]; [exact H' | apply Hgood; exact H'].
    + intros file [<-|Hfile]; [|apply I3; exact Hfile].
      apply I2. intros inner H.
      destruct (Hstep _ _ H) as [[_ H']|[H' _]]; [exact H' | congruence].
Qed.

Lemma first_loop_edges_empty files :
  forall src inner,
    jsmap_get (DependencyGraph.edges (fold_left add_node files (DependencyGraph.mk [] [])))
      src = Some inner ->
    inner = [].
Proof.
  intros src inner. rewrite add_node_fold_edges.
  rewrite (jsmap_set_fold_get FileInfo.path (fun _ => @nil (string * Dependency.t))).
  cbn [DependencyGraph.edges jsmap_get].
  destruct (find_last _ files); [congruence | discriminate].
Qed.

(** X1. The keys of [nodes] and the keys of [edges] of the graph returned by
    [buildDependencyGraph] are the paths of the catalog, each once, in
    the order of their first occurrence; the node stored under a path is
    the last descriptor of the catalog with that path. *)
Theorem buildDependencyGraph_nodes :
  forall (ps : ProjectStructure.t) (callback : bool) (env : Env) (st : State),
    let g := fst (buildDependencyGraph ps callback env st) in
    let files := ProjectStructure.allFiles ps in
    jsmap_keys (DependencyGraph.nodes g) = first_occurrences (map FileInfo.path files)
    /\ jsmap_keys (DependencyGraph.edges g) = first_occurrences (map FileInfo.path files)
    /\ forall p,
        jsmap_get (DependencyGraph.nodes g) p
        = find_last (fun file => String.eqb (FileInfo.path file) p) files.
Proof.
  intros ps callback env st. unfold buildDependencyGraph. cbv zeta.
  set (files := ProjectStructure.allFiles ps).
  set (g0 := fold_left add_node files (DependencyGraph.mk [] [])).
  pose proof (process_files_graph files (length files) 0 callback g0 env st) as Hg.
  destruct (process_files files (length files) 0 callback g0 env st) as [g st'].
  cbn [fst]. subst g.
  destruct (graph_with_nodes (cached st') files g0) as [Hn Hk]. rewrite Hn, Hk.
  subst g0. rewrite add_node_fold_nodes, add_node_fold_edges.
  cbn [DependencyGraph.nodes DependencyGraph.edges].
  rewrite !jsmap_set_fold_keys. cbn [jsmap_keys map app].
  rewrite !filter_all by reflexivity.
  split; [reflexivity|]. split; [reflexivity|].
  intros p. rewrite (jsmap_set_fold_get FileInfo.path (fun f => f)).
  cbn [jsmap_get]. destruct (find_last _ files); reflexivity.
Qed.

(** The edge maps of the graph returned by [buildDependencyGraph], read
    off the final cache. *)
Lemma buildDependencyGraph_edge_maps ps callback env st :
  let '(g, st') := buildDependencyGraph ps callback env st in
  forall file,
    In file (ProjectStructure.allFiles ps) ->
    exists inner deps,
      jsmap_get (DependencyGraph.edges g) (FileInfo.path file) = Some inner
      /\ dependencyCache st' !! FileInfo.path file = Some deps
      /\ edge_map_of (DependencyGraph.nodes g) deps inner.
Proof.
  pose proof (buildDependencyGraph_inv ps callback env st) as Hinv.
  unfold buildDependencyGraph in *. cbv zeta in *.
  set (files := ProjectStructure.allFiles ps) in *.
  set (g0 := fold_left add_node files (DependencyGraph.mk [] [])) in *.
  pose proof (process_files_graph files (length files) 0 callback g0 env st) as Hg.
  destruct (process_files files (length files) 0 callback g0 env st) as [g st'].
  destruct Hinv as (_ & _ & Hall). intros file Hfile.
  destruct (Hall file Hfile) as (_ & Hhas & [deps Hdeps]).
  unfold jsmap_has in Hhas.
  destruct (jsmap_get (DependencyGraph.edges g) (FileInfo.path file)) as [inner|] eqn:Hget;
    [|discriminate].
  exists inner, deps. split; [reflexivity|]. split; [exact Hdeps|].
  assert (Hw : forall src inner0,
             jsmap_get (DependencyGraph.edges g0) src = Some inner0 ->
             edge_map_within (DependencyGraph.nodes g0) (cached st' src) inner0).
  { intros src inner0 H. apply first_loop_edges_empty in H. subst inner0.
    intros tgt d Hd. discriminate. }
  destruct (graph_with_edge_maps (cached st') files g0 Hw) as (_ & _ & H3).
  rewrite <- Hg in H3. specialize (H3 file Hfile inner Hget).
  destruct (graph_with_nodes (cached st') files g0) as [Hn _]. rewrite <- Hg in Hn.
  rewrite Hn. replace deps with (cached st' (FileInfo.path file)); [exact H3|].
  unfold cached. rewrite Hdeps. reflexivity.
Qed.

(** X2. For a file of the catalog, the entry of [edges] under its path maps
    every node to the last dependency of the file with that target, and
    holds nothing else: a dependency whose target is a node is never
    lost, and of two dependencies with the same target the later one is
    kept. *)
Theorem buildDependencyGraph_edge_lookup :
  forall (ps : ProjectStructure.t) (callback : bool) (env : Env) (st : State)
         (file : FileInfo.t),
    In file (ProjectStructure.allFiles ps) ->
    let '(g, st') := buildDependencyGraph ps callback env st in
    exists (inner : jsmap Dependency.t) (deps : list Dependency.t),
      jsmap_get (DependencyGraph.edges g) (FileInfo.path file) = Some inner
      /\ analyzeDependencies file env st' = (deps, st')
      /\ forall tgt,
          jsmap_get inner tgt
          = if jsmap_has (DependencyGraph.nodes g) tgt
            then find_last (fun d => String.eqb (Dependency.target d) tgt) deps
            else None.
Proof.
  intros ps callback env st file Hfile.
  pose proof (buildDependencyGraph_edge_maps ps callback env st) as H.
  destruct (buildDependencyGraph ps callback env st) as [g st'].
  destruct (H file Hfile) as (inner & deps & Hget & Hdeps & Hmap).
  exists inner, deps. split; [exact Hget|]. split; [|exact Hmap].
  apply analyzeDependencies_hit. exact Hdeps.
Qed.

Lemma buildDependencyGraph_edge_lookup_witness :
  let '(g, st') := buildDependencyGraph two_files false small_disk fresh in
  In file_a (ProjectStructure.allFiles two_files)
  /\ exists inner deps,
      jsmap_get (DependencyGraph.edges g) (FileInfo.path file_a) = Some inner
      /\ analyzeDependencies file_a small_disk st' = (deps, st')
      /\ forall tgt,
          jsmap_get inner tgt
          = if jsmap_has (DependencyGraph.nodes g) tgt
            then find_last (fun d => String.eqb (Dependency.target d) tgt) deps
            else None.
Proof.
  pose proof (buildDependencyGraph_edge_lookup two_files false small_disk fresh file_a
                (or_introl eq_refl)) as H.
  destruct (buildDependencyGraph two_files false small_disk fresh) as [g st'].
  split; [left; reflexivity | exact H].
Defined.

(** X3. A second call of [buildDependencyGraph] on the same catalog returns
    the same graph whatever the disk holds by then: every file is served
    from the cache, nothing is read, probed or logged, and the only
    events are the calls of the progress callback. *)
Theorem buildDependencyGraph_again :
  forall (ps : ProjectStructure.t) (callback callback' : bool) (env env' : Env)
         (st : State),
    let '(g, st1) := buildDependencyGraph ps callback env st in
    buildDependencyGraph ps callback' env' st1
    = (g, mkState (dependencyCache st1)
            (events st1
             ++ progress_events callback' (length (ProjectStructure.allFiles ps)))).
Proof.
  intros ps callback callback' env env' st.
  pose proof (buildDependencyGraph_inv ps callback env st) as Hinv.
  unfold buildDependencyGraph in *. cbv zeta in *.
  set (files := ProjectStructure.allFiles ps) in *.
  set (g0 := fold_left add_node files (DependencyGraph.mk [] [])) in *.
  pose proof (process_files_graph files (length files) 0 callback g0 env st) as Hg.
  destruct (process_files files (length files) 0 callback g0 env st) as [g st1].
  destruct Hinv as (_ & _ & Hall).
  rewrite process_files_replay by (intros f Hf; apply (Hall f Hf)).
  rewrite <- Hg. reflexivity.
Qed.

(** ** The shape of the dependencies *)

Lemma Forall_snoc {A} (P : A -> Prop) (l : list A) (x : A) :
  Forall P l -> P x -> Forall P (l ++ [x]).
Proof. intros Hl Hx. apply Forall_app. split; [exact Hl | constructor; [exact Hx | constructor]]. Qed.

Lemma prefix_append (a b : string) : String.prefix a (a +:+ b) = true.
Proof.
  induction a as [|c a IH]; [destruct b; reflexivity|].
  change (String c a +:+ b) with (String c (a +:+ b)). cbn [String.prefix].
  destruct (ascii_dec c c); [exact IH | congruence].
Qed.

Lemma json_sections_Forall (P : Dependency.t -> Prop) filePath packageJson sections :
  (forall pkg, P (Dependency.mk filePath ("node_modules/" +:+ pkg)
                    DependencyType.Import_ None true)) ->
  forall deps, Forall P deps ->
               Forall P (fst (json_sections filePath packageJson sections deps)).
Proof.
  intros HP. induction sections as [|section sections IH]; intros deps Hdeps; simpl.
  - exact Hdeps.
  - destruct (Json.get_prop packageJson section) as [[v|]|]; [|auto|exact Hdeps].
    destruct (Json.truthy v); [|auto].
    destruct (Json.Object_entries v) as [entries|]; [|exact Hdeps].
    apply IH. apply Forall_app. split; [exact Hdeps|].
    apply List.Forall_forall. intros d Hd. apply in_map_iff in Hd.
    destruct Hd as ([pkg version] & <- & _). apply HP.
Qed.

Lemma extract_by_type_found_in file content deps env st :
  Forall (found_in (FileInfo.type file) (FileInfo.path file)) deps ->
  Forall (found_in (FileInfo.type file) (FileInfo.path file))
    (fst (extract_by_type file content deps env st)).
Proof.
  intros Hdeps. unfold extract_by_type.
  set (P := found_in (FileInfo.type file) (FileInfo.path file)) in *.
  assert (Hpush : forall ty ref m ext ds env0 st0,
             Forall P ds ->
             (forall target lines,
                 P (Dependency.mk (FileInfo.path file) target ty (Some lines) ext)) ->
             Forall P (fst (push_resolved (FileInfo.path file) content ty ref m ext
                              ds env0 st0))).
  { intros ty ref m ext ds env0 st0 Hds HP. rewrite push_resolved_value.
    apply Forall_snoc; [exact Hds | apply HP]. }
  assert (Hjs : FileInfo.type file = FileType.JavaScript
                \/ FileInfo.type file = FileType.TypeScript ->
                Forall P (fst (extractJavaScriptDependencies (FileInfo.path file) content
                                 deps env st))).
  { intros Hty.
    assert (Hb1 : forall m ds env0 st0,
               Forall P ds ->
               Forall P (fst (js_import_body (FileInfo.path file) content m ds env0 st0))).
    { intros m ds env0 st0 Hds. unfold js_import_body.
      unfold shouldProcessExternalDependency. cbn [negb]. rewrite andb_true_r.
      destruct (isExternalDependency (Regex.group m 1)) eqn:Hext; [exact Hds|].
      apply Hpush; [exact Hds|]. intros target lines. subst P.
      split; [reflexivity|]. destruct Hty as [-> | ->]; cbn; eauto. }
    assert (Hb2 : forall m ds env0 st0,
               Forall P ds ->
               Forall P (fst (js_reference_body (FileInfo.path file) content m ds
                                env0 st0))).
    { intros m ds env0 st0 Hds. unfold js_reference_body.
      apply Hpush; [exact Hds|]. intros target lines. subst P.
      split; [reflexivity|]. destruct Hty as [-> | ->]; cbn; eauto. }
    unfold extractJavaScriptDependencies. cbv zeta. unfold bind at 1.
    match goal with
    | |- context [for_each ?xs ?b deps env st] =>
        pose proof (for_each_Forall P xs b Hb1 deps env st Hdeps) as H1
    end.
    destruct (for_each _ _ deps env st) as [deps1 st1]. cbn [fst] in H1.
    apply for_each_Forall; assumption. }
  destruct (FileInfo.type file) eqn:Hty.
  - apply Hjs. auto.
  - apply Hjs. auto.
  - assert (Hbody : forall m ds env0 st0,
               Forall P ds ->
               Forall P (fst (html_body (FileInfo.path file) content m ds env0 st0))).
    { intros m ds env0 st0 Hds. unfold html_body. destruct (_ || _); [exact Hds|].
      apply Hpush; [exact Hds|]. intros target lines. subst P.
      split; [reflexivity|]. cbn; eauto. }
    unfold extractHTMLDependencies. cbv zeta. unfold bind at 1.
    pose proof (for_each_Forall P (Regex.matchAll Patterns.scriptPattern content) _
                  Hbody deps env st Hdeps) as H1.
    destruct (for_each _ _ deps env st) as [deps1 st1]. cbn [fst] in H1.
    unfold bind at 1.
    pose proof (for_each_Forall P (Regex.matchAll Patterns.linkPattern content) _
                  Hbody deps1 env st1 H1) as H2.
    destruct (for_each _ _ deps1 env st1) as [deps2 st2]. cbn [fst] in H2.
    apply for_each_Forall; assumption.
  - assert (Hb1 : forall m ds env0 st0,
               Forall P ds ->
               Forall P (fst (css_import_body (FileInfo.path file) content m ds
                                env0 st0))).
    { intros m ds env0 st0 Hds. unfold css_import_body. destruct (_ || _); [exact Hds|].
      apply Hpush; [exact Hds|]. intros target lines. subst P.
      split; [reflexivity|]. cbn; eauto. }
    assert (Hb2 : forall m ds env0 st0,
               Forall P ds ->
               Forall P (fst (css_url_body (FileInfo.path file) content m ds env0 st0))).
    { intros m ds env0 st0 Hds. unfold css_url_body. destruct (_ || _); [exact Hds|].
      apply Hpush; [exact Hds|]. intros target lines. subst P.
      split; [reflexivity|]. cbn; eauto. }
    unfold extractCSSDependencies. cbv zeta. unfold bind at 1.
    match goal with
    | |- context [for_each ?xs ?b deps env st] =>
        pose proof (for_each_Forall P xs b Hb1 deps env st Hdeps) as H1
    end.
    destruct (for_each _ _ deps env st) as [deps1 st1]. cbn [fst] in H1.
    apply for_each_Forall; assumption.
  - unfold extractJSONDependencies.
    destruct (negb _); [exact Hdeps|].
    assert (Hs : forall packageJson,
               Forall P (fst (json_sections (FileInfo.path file) packageJson
                                dependencySections deps))).
    { intros packageJson. apply json_sections_Forall; [|exact Hdeps].
      intros pkg. subst P. split; [reflexivity|].
      cbn [Dependency.type Dependency.isExternal Dependency.lineNumbers Dependency.target].
      split; [reflexivity|]. split; [reflexivity|]. split; [reflexivity|].
      apply prefix_append. }
    destruct (Json.JSON_parse content) as [packageJson|packageJson|].
    + specialize (Hs packageJson).
      destruct (json_sections _ packageJson _ deps) as [ds thrown].
      destruct thrown; exact Hs.
    + specialize (Hs packageJson).
      destruct (json_sections _ packageJson _ deps) as [ds thrown].
      destruct thrown; exact Hs.
    + exact Hdeps.
  - assert (Hb1 : forall m ds env0 st0,
               Forall P ds ->
               Forall P (fst (md_image_body (FileInfo.path file) content m ds env0 st0))).
    { intros m ds env0 st0 Hds. unfold md_image_body.
      destruct (JS.startsWith _ _); [exact Hds|].
      apply Hpush; [exact Hds|]. intros target lines. subst P.
      split; [reflexivity|]. cbn; eauto. }
    assert (Hb2 : forall m ds env0 st0,
               Forall P ds ->
               Forall P (fst (md_link_body (FileInfo.path file) content m ds env0 st0))).
    { intros m ds env0 st0 Hds. unfold md_link_body. destruct (_ || _); [exact Hds|].
      apply Hpush; [exact Hds|]. intros target lines. subst P.
      split; [reflexivity|]. cbn; eauto. }
    unfold extractMarkdownDependencies. cbv zeta. unfold bind at 1.
    match goal with
    | |- context [for_each ?xs ?b deps env st] =>
        pose proof (for_each_Forall P xs b Hb1 deps env st Hdeps) as H1
    end.
    destruct (for_each _ _ deps env st) as [deps1 st1]. cbn [fst] in H1.
    apply for_each_Forall; assumption.
  - exact Hdeps.
  - exact Hdeps.
Qed.

Lemma analyzeDependencies_miss_found_in file env st :
  dependencyCache st !! FileInfo.path file = None ->
  Forall (found_in (FileInfo.type file) (FileInfo.path file))
    (fst (analyzeDependencies file env st)).
Proof.
  intros Hmiss. destruct (skipped file) eqn:Hskip.
  - unfold analyzeDependencies, bind at 1, cache_get. rewrite Hmiss.
    unfold skipped in Hskip. rewrite Hskip. constructor.
  - rewrite (analyzeDependencies_loaded file env st Hmiss Hskip).
    destruct (content_of file env) as [content|]; [|constructor].
    pose proof (extract_by_type_found_in file content [] env
                  (mkState (dependencyCache st) (events st ++ load_events file))
                  (List.Forall_nil _)) as H.
    destruct (extract_by_type file content [] env _) as [deps st2]. exact H.
Qed.

(** A call of [analyzeDependencies] keeps the cache keyed by source. *)
Lemma analyzeDependencies_sources_ok file env st :
  cache_sources_ok st ->
  cache_sources_ok (snd (analyzeDependencies file env st))
  /\ forall d, In d (fst (analyzeDependencies file env st)) ->
               Dependency.source d = FileInfo.path file.
Proof.
  intros Hok.
  destruct (dependencyCache st !! FileInfo.path file) as [deps|] eqn:Hc.
  - rewrite (analyzeDependencies_hit _ _ _ _ Hc). split; [exact Hok|].
    intros d Hd. apply (Hok _ _ _ Hc Hd).
  - pose proof (analyzeDependencies_miss_found_in file env st Hc) as Hf.
    destruct (analyzeDependencies_miss file env st Hc) as (deps & evs & E).
    rewrite E in *. cbn [fst snd] in *.
    assert (Hsrc : forall d, In d deps -> Dependency.source d = FileInfo.path file).
    { intros d Hd. rewrite List.Forall_forall in Hf. apply (Hf d Hd). }
    split; [|exact Hsrc].
    intros p l d Hp Hd. cbn [dependencyCache] in Hp.
    destruct (decide (FileInfo.path file = p)) as [<-|Hne].
    + rewrite lookup_insert_eq in Hp. injection Hp as <-. apply Hsrc. exact Hd.
    + rewrite lookup_insert_ne in Hp by exact Hne. apply (Hok _ _ _ Hp Hd).
Qed.

Lemma process_files_sources_ok files total n callback g env st :
  cache_sources_ok st ->
  cache_sources_ok (snd (process_files files total n callback g env st)).
Proof.
  revert n g st. induction files as [|file files IH]; intros n g st Hok; simpl; [exact Hok|].
  unfold bind at 1.
  destruct (analyzeDependencies_sources_ok file env st Hok) as [Hok1 _].
  destruct (analyzeDependencies file env st) as [deps st1]. cbn [snd] in Hok1.
  unfold bind at 1. destruct callback; cbn [emit ret]; apply IH; exact Hok1.
Qed.

Lemma cache_sources_ok_fresh : cache_sources_ok fresh.
Proof. intros p deps d H. cbn in H. rewrite lookup_empty in H. discriminate. Qed.

(** X4. What [analyzeDependencies] extracts from a file that is not in the
    cache depends on the type of the file alone: every dependency has
    the path of the file as its source; a script yields imports and
    references, none of them external; a page yields links, a style
    sheet style imports, a manifest external imports into node_modules
    without line numbers, a markdown text internal references; a file of
    any other type yields nothing. *)
Theorem analyzeDependencies_kinds :
  forall (file : FileInfo.t) (env : Env) (st : State),
    dependencyCache st !! FileInfo.path file = None ->
    let deps := fst (analyzeDependencies file env st) in
    Forall (found_in (FileInfo.type file) (FileInfo.path file)) deps
    /\ (FileInfo.type file = FileType.Unknown \/ FileInfo.type file = FileType.Image ->
        deps = []).
Proof.
  intros file env st Hmiss deps.
  pose proof (analyzeDependencies_miss_found_in file env st Hmiss) as H.
  fold deps in H. split; [exact H|].
  intros Hty. destruct deps as [|d deps']; [reflexivity|].
  inversion H as [|? ? [_ Hd] _]. destruct Hty as [E|E]; rewrite E in Hd; destruct Hd.
Qed.

Lemma analyzeDependencies_kinds_witness :
  dependencyCache fresh !! FileInfo.path file_a = None
  /\ fst (analyzeDependencies file_a small_disk fresh)
     = [Dependency.mk "/p/a.ts" "/p/b.ts" DependencyType.Import_ (Some [0%nat]) false]
  /\ Forall (found_in (FileInfo.type file_a) (FileInfo.path file_a))
       (fst (analyzeDependencies file_a small_disk fresh)).
Proof.
  split; [reflexivity|]. split; [vm_compute; reflexivity|].
  apply (analyzeDependencies_kinds file_a small_disk fresh). reflexivity.
Defined.

(** X5. When every list of the cache is stored under the source of its
    dependencies, as it is for a manager that has just been created,
    this is still so after [buildDependencyGraph], and every dependency
    of the graph has as its source and its target the two keys it is
    stored under. *)
Theorem buildDependencyGraph_edge_sources :
  forall (ps : ProjectStructure.t) (callback : bool) (env : Env) (st : State),
    cache_sources_ok st ->
    let '(g, st') := buildDependencyGraph ps callback env st in
    cache_sources_ok st'
    /\ forall src inner tgt dep,
        In (src, inner) (DependencyGraph.edges g) ->
        In (tgt, dep) inner ->
        Dependency.source dep = src /\ Dependency.target dep = tgt.
Proof.
  intros ps callback env st Hok.
  pose proof (buildDependencyGraph_inv ps callback env st) as Hinv.
  assert (Hok' : cache_sources_ok (snd (buildDependencyGraph ps callback env st))).
  { unfold buildDependencyGraph. apply process_files_sources_ok. exact Hok. }
  destruct (buildDependencyGraph ps callback env st) as [g st']. cbn [snd] in Hok'.
  split; [exact Hok'|].
  destruct Hinv as (Hedges & _ & _).
  intros src inner tgt dep Hsrc Hdep.
  destruct (Hedges _ _ Hsrc) as [_ Hinner].
  destruct (Hinner _ _ Hdep) as (_ & Htgt & deps & Hc & Hd).
  split; [apply (Hok' _ _ _ Hc Hd) | exact Htgt].
Qed.

Lemma buildDependencyGraph_edge_sources_witness :
  cache_sources_ok fresh
  /\ let '(g, st') := buildDependencyGraph two_files false small_disk fresh in
     cache_sources_ok st'
     /\ forall src inner tgt dep,
         In (src, inner) (DependencyGraph.edges g) ->
         In (tgt, dep) inner ->
         Dependency.source dep = src /\ Dependency.target dep = tgt.
Proof.
  split; [exact cache_sources_ok_fresh|].
  exact (buildDependencyGraph_edge_sources two_files false small_disk fresh
           cache_sources_ok_fresh).
Defined.

(** ** The cycles reported *)

Lemma indexOf_Some xs x i :
  JS.indexOf xs x = Some i ->
  exists pre post, xs = pre ++ x :: post /\ length pre = i /\ ~ In x pre.
Proof.
  revert i. induction xs as [|y ys IH]; intros i; simpl; [discriminate|].
  destruct (String.eqb y x) eqn:E.
  - apply String.eqb_eq in E. subst y. intros [= <-]. exists [], ys. auto.
  - apply String.eqb_neq in E.
    destruct (JS.indexOf ys x) as [k|]; [|discriminate].
    intros [= <-]. destruct (IH k eq_refl) as (pre & post & -> & Hlen & Hnin).
    exists (y :: pre), post. split; [reflexivity|]. split; [simpl; lia|].
    intros [H|H]; [congruence | auto].
Qed.

Lemma walk_app_r graph l1 l2 : walk graph (l1 ++ l2) -> walk graph l2.
Proof.
  induction l1 as [|a l1 IH]; [auto|]. cbn [app walk]. intros [_ H]. auto.
Qed.

Lemma walk_snoc graph l a b :
  walk graph (l ++ [a]) -> has_edge graph a b -> walk graph ((l ++ [a]) ++ [b]).
Proof.
  intros Hw He. induction l as [|c l IH].
  - cbn. auto.
  - cbn [app walk] in *. destruct Hw as [H1 H2]. split; [|auto].
    destruct l; cbn [app] in *; exact H1.
Qed.

Lemma same_up_to_rotation_refl c : c <> [] -> same_up_to_rotation c c = true.
Proof.
  intros Hc. unfold same_up_to_rotation. rewrite Nat.eqb_refl. cbn [negb].
  apply existsb_exists. exists 0%nat. split.
  - apply in_seq. destruct c; [congruence|]. simpl. lia.
  - apply forallb_forall. intros j Hj. apply in_seq in Hj.
    cbn [Nat.add]. rewrite Nat.mod_small by lia.
    destruct (lookup_lt_is_Some_2 c j ltac:(lia)) as [a Ha]. rewrite Ha.
    apply String.eqb_refl.
Qed.

(** The rotation test on two cycles written as closed walks, their
    first node repeated at the end: it holds of no two different
    ones. *)
Lemma same_up_to_rotation_eq graph rec cycle :
  simple_cycle graph rec -> simple_cycle graph cycle ->
  same_up_to_rotation rec cycle = true ->
  rec = cycle.
Proof.
  intros (x & b & -> & _ & _) (r & body & -> & Hnd & _).
  unfold same_up_to_rotation.
  destruct (length (x :: b ++ [x]) =? length (r :: body ++ [r]))%nat eqn:Hlen;
    [|discriminate].
  apply Nat.eqb_eq in Hlen. cbn [negb]. intros H.
  apply existsb_exists in H. destruct H as (i & Hi & H). apply in_seq in Hi.
  rewrite forallb_forall in H.
  set (n := length (r :: body ++ [r])) in *.
  assert (Hn : n = S (S (length body))).
  { subst n. cbn [length]. rewrite length_app. simpl. lia. }
  assert (Hn' : length (x :: b ++ [x]) = S (S (length b))).
  { cbn [length]. rewrite length_app. simpl. lia. }
  assert (Hlast : (x :: b ++ [x]) !! S (length b) = Some x).
  { change (x :: b ++ [x]) with ((x :: b) ++ [x]).
    rewrite lookup_app_r by (simpl; lia).
    replace (S (length b) - length (x :: b))%nat with 0%nat by (simpl; lia). reflexivity. }
  assert (Hcyc_last : (r :: body ++ [r]) !! S (length body) = Some r).
  { change (r :: body ++ [r]) with ((r :: body) ++ [r]).
    rewrite lookup_app_r by (simpl; lia).
    replace (S (length body) - length (r :: body))%nat with 0%nat by (simpl; lia).
    reflexivity. }
  apply NoDup_ListNoDup in Hnd.
  assert (Hbody : forall k, (k <= length body)%nat ->
                            (r :: body ++ [r]) !! k = (r :: body) !! k).
  { intros k Hk. change (r :: body ++ [r]) with ((r :: body) ++ [r]).
    apply lookup_app_l. simpl. lia. }
  assert (Hzero : forall k, (r :: body) !! k = Some r -> k = 0%nat).
  { intros k Hr. apply (NoDup_lookup _ _ _ _ Hnd Hr). reflexivity. }
  pose proof (H 0%nat ltac:(apply in_seq; lia)) as H0.
  pose proof (H (S (length b)) ltac:(apply in_seq; lia)) as H1.
  assert (Hfirst : (x :: b ++ [x]) !! 0%nat = Some x) by reflexivity.
  rewrite Hfirst in H0. rewrite Hlast in H1.
  rewrite Nat.add_0_r, Nat.mod_small in H0 by lia.
  destruct (decide (i = 0%nat)) as [->|Hi0].
  { (* the identical list *)
    apply list_eq. intros j.
    destruct (decide (j < n)%nat) as [Hj|Hj].
    - specialize (H j ltac:(apply in_seq; lia)).
      rewrite Nat.add_0_l, Nat.mod_small in H by lia.
      destruct ((x :: b ++ [x]) !! j) as [a1|]; [|discriminate].
      destruct ((r :: body ++ [r]) !! j) as [a2|]; [|discriminate].
      apply String.eqb_eq in H. congruence.
    - rewrite !lookup_ge_None_2 by lia. reflexivity. }
  replace (i + S (length b))%nat with ((i - 1) + 1 * n)%nat in H1 by lia.
  rewrite Nat.Div0.mod_add, Nat.mod_small in H1 by lia.
  destruct ((r :: body ++ [r]) !! i) as [a0|] eqn:E0; [|discriminate].
  destruct ((r :: body ++ [r]) !! (i - 1)%nat) as [a1|] eqn:E1; [|discriminate].
  apply String.eqb_eq in H0, H1. subst a0 a1.
  rewrite Hbody in E1 by lia.
  destruct (decide (i = S (length body))) as [->|Hi1].
  - (* the rotation by [n - 1] *)
    rewrite Hcyc_last in E0. assert (x = r) by congruence. subst x.
    assert (Hk : (S (length body) - 1 = 0)%nat) by (apply Hzero; exact E1).
    destruct body; [|simpl in Hk; lia]. destruct b; [|simpl in *; lia].
    reflexivity.
  - exfalso. rewrite Hbody in E0 by lia.
    pose proof (NoDup_lookup _ _ _ _ Hnd E0 E1). lia.
Qed.

Lemma same_up_to_rotation_head graph rec cycle :
  simple_cycle graph rec -> simple_cycle graph cycle ->
  same_up_to_rotation rec cycle = true ->
  hd_error rec = hd_error cycle.
Proof. intros H1 H2 H. rewrite (same_up_to_rotation_eq graph rec cycle H1 H2 H). reflexivity. Qed.

Lemma hd_snoc {A} (d d' : A) (l : list A) : hd d' (l ++ [d]) = hd d l.
Proof. destruct l; reflexivity. Qed.

Lemma hd_snoc_In {A} (d : A) (l : list A) : In (hd d l) (l ++ [d]).
Proof. destruct l; simpl; auto. Qed.

Lemma indexOf_hd (l : list string) (d : string) :
  l <> [] -> JS.indexOf l (hd d l) = Some 0%nat.
Proof. destruct l as [|x l]; [congruence|]. intros _. simpl. rewrite String.eqb_refl. reflexivity. Qed.

Lemma has_edge_entry graph current deps t (d : Dependency.t) :
  jsmap_get (DependencyGraph.edges graph) current = Some deps ->
  In (t, d) deps -> has_edge graph current t.
Proof.
  intros Hget Hin. exists deps. split; [exact Hget|].
  apply jsmap_has_In. unfold jsmap_keys. apply in_map_iff. exists (t, d). auto.
Qed.

Lemma has_edge_inv graph current deps t :
  jsmap_get (DependencyGraph.edges graph) current = Some deps ->
  has_edge graph current t -> exists d, In (t, d) deps.
Proof.
  intros Hget (inner & Hget' & Hhas). rewrite Hget in Hget'. injection Hget' as <-.
  apply jsmap_has_In in Hhas. unfold jsmap_keys in Hhas. apply in_map_iff in Hhas.
  destruct Hhas as ([t' d] & Ht & Hin). simpl in Ht. subst t'. exists d. exact Hin.
Qed.

Lemma gset_subseteq_elem (X Y : gset string) (x : string) : X ⊆ Y -> x ∈ X -> x ∈ Y.
Proof. intros H Hx. apply (proj1 (elem_of_subseteq X Y) H x Hx). Qed.

Lemma gset_subseteq_add (X Y : gset string) (x : string) : X ⊆ Y -> X ⊆ Y ∪ {[x]}.
Proof.
  intros H. apply elem_of_subseteq. intros y Hy. apply elem_of_union. left.
  apply (gset_subseteq_elem X Y y H Hy).
Qed.

Lemma gset_added (X : gset string) (x y : string) : y ∈ X ∪ {[x]} -> y ∈ X \/ y = x.
Proof.
  intros H. apply elem_of_union in H as [H|H]; [left; exact H|].
  right. apply elem_of_singleton in H. exact H.
Qed.

(** What every call of [dfsForCycles] establishes. *)
Lemma dfsForCycles_post (graph : DependencyGraph.t) :
  forall fuel current visited path cycles r,
    dfsForCycles fuel current graph visited path cycles = Some r ->
    List.NoDup path ->
    walk graph (path ++ [current]) ->
    Forall (simple_cycle graph) cycles ->
    hd current path ∉ visited ->
    dfs_post graph visited path current cycles r.
Proof.
  induction fuel as [|fuel IH]; intros current visited path cycles r Hrun Hnd Hwalk Hcycles Hroot;
    [discriminate|].
  cbn [dfsForCycles] in Hrun. unfold dfs_body in Hrun.
  destruct (bool_decide (current ∈ visited)) eqn:Hvis.
  - apply bool_decide_eq_true in Hvis. injection Hrun as <-.
    unfold dfs_post; cbn [fst snd].
    split; [exact Hcycles|]. split; [reflexivity|]. split; [apply incl_refl|].
    split; [auto|]. split; [left; exact Hvis|].
    split; [intros x y Hx Hnx; contradiction|].
    split; [intros x Hx Hnx; contradiction|]. intros Hn; contradiction.
  - apply bool_decide_eq_false in Hvis.
    destruct (JS.indexOf path current) as [idx|] eqn:Hidx.
    + destruct (indexOf_Some _ _ _ Hidx) as (pre & post & Hpath & Hlen & Hnin).
      cbv zeta in Hrun.
      set (cycle := JS.slice_from idx path ++ [current]) in *.
      assert (Hcycle : cycle = current :: post ++ [current]).
      { subst cycle. unfold JS.slice_from. rewrite Hpath, <- Hlen.
        rewrite skipn_app, skipn_all, Nat.sub_diag. reflexivity. }
      assert (Hsimple : simple_cycle graph cycle).
      { exists current, post. split; [exact Hcycle|]. split.
        - rewrite Hpath in Hnd. apply List.NoDup_app_remove_l in Hnd. exact Hnd.
        - rewrite Hcycle. rewrite Hpath, <- app_assoc in Hwalk.
          apply walk_app_r in Hwalk. exact Hwalk. }
      assert (Hres : fst r = visited
                     /\ Forall (simple_cycle graph) (snd r)
                     /\ incl cycles (snd r)
                     /\ exists c, In c (snd r) /\ hd_error c = Some current).
      { destruct (existsb _ cycles) eqn:He; cbn [negb] in Hrun; injection Hrun as <-;
          cbn [fst snd].
        - split; [reflexivity|]. split; [exact Hcycles|]. split; [apply incl_refl|].
          apply existsb_exists in He. destruct He as (rec & Hin & Hrot).
          exists rec. split; [exact Hin|].
          rewrite (same_up_to_rotation_head graph rec cycle); [| |exact Hsimple|exact Hrot].
          + rewrite Hcycle. reflexivity.
          + rewrite List.Forall_forall in Hcycles. apply Hcycles. exact Hin.
        - split; [reflexivity|]. split.
          { apply Forall_app. split; [exact Hcycles|]. constructor; [exact Hsimple|constructor]. }
          split; [apply incl_appl, incl_refl|].
          exists cycle. split; [apply in_or_app; right; left; reflexivity|].
          rewrite Hcycle. reflexivity. }
      destruct Hres as (Hv & Hs & Hi & Hc). unfold dfs_post. rewrite Hv.
      split; [exact Hs|]. split; [reflexivity|]. split; [exact Hi|].
      split; [auto|]. split; [right; rewrite Hpath; apply in_or_app; right; left; reflexivity|].
      split; [intros x y Hx Hnx; contradiction|].
      split; [intros x Hx Hnx; contradiction|]. intros _ _. exact Hc.
    + pose proof Hidx as Hidx'. apply indexOf_None in Hidx. cbv zeta in Hrun.
      set (path' := path ++ [current]) in *.
      assert (Hnd' : List.NoDup path').
      { subst path'. apply List.NoDup_app; [exact Hnd | |].
        - constructor; [intros [] | constructor].
        - intros x Hx [<-|[]]. auto. }
      assert (Hhd : forall t, hd t path' = hd current path)
        by (intros t; apply hd_snoc).
      assert (Hhd_in : In (hd current path) path') by apply hd_snoc_In.
      assert (Hloop : forall ts st0 st1,
                 visit_targets
                   (fun target st => dfsForCycles fuel target graph (fst st) path' (snd st))
                   ts st0 = Some st1 ->
                 (forall t d, In (t, d) ts -> has_edge graph current t) ->
                 Forall (simple_cycle graph) (snd st0) ->
                 hd current path ∉ fst st0 ->
                 Forall (simple_cycle graph) (snd st1)
                 /\ fst st0 ⊆ fst st1
                 /\ incl (snd st0) (snd st1)
                 /\ (forall x, In x path' -> x ∈ fst st1 -> x ∈ fst st0)
                 /\ (forall t d, In (t, d) ts -> t ∈ fst st1 \/ In t path')
                 /\ (forall x y, x ∈ fst st1 -> x ∉ fst st0 -> has_edge graph x y ->
                                 y ∈ fst st1 \/ In y path')
                 /\ (forall x, x ∈ fst st1 -> x ∉ fst st0 ->
                               has_edge graph x (hd current path) ->
                               exists c, In c (snd st1)
                                         /\ hd_error c = Some (hd current path))
                 /\ (forall d, In (hd current path, d) ts ->
                               exists c, In c (snd st1)
                                         /\ hd_error c = Some (hd current path))).
      { induction ts as [|[t d] ts IHts]; intros st0 st1 Hv Hedges Hc0 Hr0;
          cbn [visit_targets] in Hv.
        - injection Hv as <-.
          split; [exact Hc0|]. split; [reflexivity|]. split; [apply incl_refl|].
          split; [auto|]. split; [intros t d []|].
          split; [intros x y Hx Hnx; contradiction|].
          split; [intros x Hx Hnx; contradiction|]. intros d [].
        - destruct (dfsForCycles fuel t graph (fst st0) path' (snd st0)) as [stm|] eqn:Hcall;
            [|discriminate].
          assert (Hw : walk graph (path' ++ [t])).
          { apply walk_snoc; [exact Hwalk|]. apply (Hedges t d). left. reflexivity. }
          assert (Hr0' : hd t path' ∉ fst st0) by (rewrite Hhd; exact Hr0).
          pose proof (IH t (fst st0) path' (snd st0) stm Hcall Hnd' Hw Hc0 Hr0') as P1.
          unfold dfs_post in P1. rewrite Hhd in P1.
          destruct P1 as (A1 & A2 & A3 & A4 & A5 & A6 & A7 & A8).
          assert (Hrm : hd current path ∉ fst stm).
          { intros Hin. apply Hr0. apply A4; [exact Hhd_in | exact Hin]. }
          destruct (IHts stm st1 Hv (fun t' d' H => Hedges t' d' (or_intror H)) A1 Hrm)
            as (B1 & B2 & B3 & B4 & B5 & B6 & B7 & B8).
          split; [exact B1|]. split; [transitivity (fst stm); assumption|].
          split; [intros c Hc; apply B3, A3, Hc|].
          split; [intros x Hx Hx1; apply A4; [exact Hx|]; apply B4; assumption|].
          split.
          { intros t' d' [[= <- <-]|Hin]; [|apply (B5 _ _ Hin)].
            destruct A5 as [A5|A5];
              [left; apply (gset_subseteq_elem _ _ _ B2 A5) | right; exact A5]. }
          split.
          { intros x y Hx Hnx He.
            destruct (decide (x ∈ fst stm)) as [Hm|Hm].
            - destruct (A6 x y Hm Hnx He) as [H|H];
                [left; apply (gset_subseteq_elem _ _ _ B2 H) | right; exact H].
            - apply (B6 x y Hx Hm He). }
          split.
          { intros x Hx Hnx He.
            destruct (decide (x ∈ fst stm)) as [Hm|Hm].
            - destruct (A7 x Hm Hnx He) as (c & Hc1 & Hc2). exists c. split; [apply B3, Hc1 | exact Hc2].
            - apply (B7 x Hx Hm He). }
          intros d' [[= Ht _]|Hin]; [|apply (B8 _ Hin)].
          subst t.
          destruct A8 as (c & Hc1 & Hc2); [exact Hr0 | |].
          { rewrite <- (Hhd current). apply indexOf_hd.
            subst path'. destruct path; discriminate. }
          exists c. split; [apply B3, Hc1 | exact Hc2]. }
      destruct (jsmap_get (DependencyGraph.edges graph) current) as [deps|] eqn:Hget.
      * destruct (visit_targets _ deps (visited, cycles)) as [[v' c']|] eqn:Hv; [|discriminate].
        injection Hrun as <-.
        destruct (Hloop deps (visited, cycles) (v', c') Hv
                    (fun t d H => has_edge_entry graph current deps t d Hget H)
                    Hcycles Hroot)
          as (B1 & B2 & B3 & B4 & B5 & B6 & B7 & B8).
        cbn [fst snd] in *. unfold dfs_post. cbn [fst snd].
        assert (Hsub : forall y, y ∈ v' \/ In y path' -> y ∈ v' ∪ {[current]} \/ In y path).
        { intros y [H|H]; [left; apply elem_of_union; left; exact H|]. subst path'.
          apply in_app_or in H as [H|[<-|[]]]; [right; exact H|].
          left. apply elem_of_union. right. apply elem_of_singleton. reflexivity. }
        split; [exact B1|]. split; [apply gset_subseteq_add; exact B2|]. split; [exact B3|].
        split.
        { intros x Hx Hx'. apply B4; [subst path'; apply in_or_app; left; exact Hx|].
          apply elem_of_union in Hx' as [Hx'|Hx']; [exact Hx'|].
          apply elem_of_singleton in Hx'. subst x. contradiction. }
        split; [left; apply elem_of_union; right; apply elem_of_singleton; reflexivity|].
        split.
        { intros x y Hx Hnx He. apply Hsub.
          destruct (decide (x ∈ v')) as [Hm|Hm]; [apply (B6 x y Hm Hnx He)|].
          assert (x = current) by (destruct (gset_added _ _ _ Hx); [contradiction|assumption]).
          subst x.
          destruct (has_edge_inv graph current deps y Hget He) as [d Hd].
          apply (B5 y d Hd). }
        split.
        { intros x Hx Hnx He.
          destruct (decide (x ∈ v')) as [Hm|Hm]; [apply (B7 x Hm Hnx He)|].
          assert (x = current) by (destruct (gset_added _ _ _ Hx); [contradiction|assumption]).
          subst x.
          destruct (has_edge_inv graph current deps _ Hget He) as [d Hd].
          apply (B8 d Hd). }
        intros _ Hzero. rewrite Hzero in Hidx'. discriminate.
      * injection Hrun as <-. unfold dfs_post. cbn [fst snd].
        split; [exact Hcycles|]. split; [apply gset_subseteq_add; reflexivity|].
        split; [apply incl_refl|].
        split.
        { intros x Hx Hx'. apply elem_of_union in Hx' as [Hx'|Hx']; [exact Hx'|].
          apply elem_of_singleton in Hx'. subst x. contradiction. }
        split; [left; apply elem_of_union; right; apply elem_of_singleton; reflexivity|].
        assert (Hcur : forall x, x ∈ visited ∪ {[current]} -> x ∉ visited -> x = current).
        { intros x Hx Hnx. destruct (gset_added _ _ _ Hx); [contradiction|assumption]. }
        assert (Hno : forall y, ~ has_edge graph current y).
        { intros y (inner & Hi & _). congruence. }
        split; [intros x y Hx Hnx He; rewrite (Hcur x Hx Hnx) in He; destruct (Hno _ He)|].
        split; [intros x Hx Hnx He; rewrite (Hcur x Hx Hnx) in He; destruct (Hno _ He)|].
        intros _ Hzero. rewrite Hzero in Hidx'. discriminate.
Qed.

(** A cycle is pushed only when it is not recorded yet. *)
Lemma dfsForCycles_NoDup (graph : DependencyGraph.t) :
  forall fuel current visited path cycles r,
    dfsForCycles fuel current graph visited path cycles = Some r ->
    List.NoDup cycles -> List.NoDup (snd r).
Proof.
  induction fuel as [|fuel IH]; intros current visited path cycles r Hrun Hnd;
    [discriminate|].
  cbn [dfsForCycles] in Hrun. unfold dfs_body in Hrun.
  destruct (bool_decide (current ∈ visited)); [injection Hrun as <-; exact Hnd|].
  destruct (JS.indexOf path current) as [idx|].
  - cbv zeta in Hrun.
    destruct (existsb _ cycles) eqn:He; cbn [negb] in Hrun; injection Hrun as <-;
      cbn [snd]; [exact Hnd|].
    apply List.NoDup_app; [exact Hnd | constructor; [intros [] | constructor] |].
    intros c Hc [<-|[]].
    assert (Hc' : existsb
                    (fun recordedCycle =>
                       same_up_to_rotation recordedCycle
                         (JS.slice_from idx path ++ [current])) cycles = true).
    { apply existsb_exists. exists (JS.slice_from idx path ++ [current]).
      split; [exact Hc|]. apply same_up_to_rotation_refl.
      destruct (JS.slice_from idx path); discriminate. }
    congruence.
  - cbv zeta in Hrun.
    assert (Hloop : forall ts st0 st1,
               visit_targets
                 (fun target st =>
                    dfsForCycles fuel target graph (fst st) (path ++ [current]) (snd st))
                 ts st0 = Some st1 ->
               List.NoDup (snd st0) -> List.NoDup (snd st1)).
    { induction ts as [|[t d] ts IHts]; intros st0 st1 Hv H0; cbn [visit_targets] in Hv.
      - injection Hv as <-. exact H0.
      - destruct (dfsForCycles fuel t graph _ _ _) as [stm|] eqn:Hcall; [|discriminate].
        apply (IHts stm st1 Hv). apply (IH _ _ _ _ _ Hcall H0). }
    destruct (jsmap_get (DependencyGraph.edges graph) current) as [deps|].
    + destruct (visit_targets _ deps (visited, cycles)) as [[v' c']|] eqn:Hv; [|discriminate].
      injection Hrun as <-. apply (Hloop _ _ _ Hv Hnd).
    + injection Hrun as <-. exact Hnd.
Qed.

Lemma reaches_marked graph (V : gset string) :
  (forall x y, x ∈ V -> has_edge graph x y -> y ∈ V) ->
  forall a x, reaches graph a x -> a ∈ V -> x ∈ V.
Proof. intros Hclosed a x Hr. induction Hr as [a|a b c He _ IH]; [auto|]. intros Ha. apply IH. apply (Hclosed a b Ha He). Qed.

(** The loop of [findCircularDependencies] over the start nodes. *)
Lemma search_from_post graph starts :
  forall cycles result,
    search_from starts graph cycles = Some result ->
    Forall (simple_cycle graph) cycles ->
    List.NoDup cycles ->
    Forall (simple_cycle graph) result
    /\ List.NoDup result
    /\ incl cycles result
    /\ forall a, In a starts -> on_cycle graph a ->
                 exists c, In c result /\ hd_error c = Some a.
Proof.
  induction starts as [|s starts IH]; intros cycles result Hrun Hsimple Hnd;
    cbn [search_from] in Hrun.
  - injection Hrun as <-. split; [exact Hsimple|]. split; [exact Hnd|].
    split; [apply incl_refl|]. intros a [].
  - destruct (dfsForCycles (dfs_fuel graph) s graph ∅ [] cycles) as [[v c]|] eqn:Hcall;
      [|discriminate].
    pose proof (dfsForCycles_NoDup graph _ _ _ _ _ _ Hcall Hnd) as Hnd1.
    pose proof (dfsForCycles_post graph _ _ _ _ _ _ Hcall (List.NoDup_nil _)
                  (conj I I) Hsimple (not_elem_of_empty _)) as P.
    unfold dfs_post in P. cbn [fst snd hd] in *.
    destruct P as (A1 & _ & A3 & _ & A5 & A6 & A7 & _).
    destruct (IH c result Hrun A1 Hnd1) as (B1 & B2 & B3 & B4).
    split; [exact B1|]. split; [exact B2|].
    split; [intros x Hx; apply B3, A3, Hx|].
    intros a [<-|Ha] Hcyc; [|apply (B4 a Ha Hcyc)].
    destruct Hcyc as (x & Hreach & Hback).
    assert (Hs : s ∈ v) by (destruct A5 as [H|[]]; exact H).
    assert (Hx : x ∈ v).
    { apply (reaches_marked graph v) with (a := s); [|exact Hreach|exact Hs].
      intros x0 y Hx0 He. destruct (A6 x0 y Hx0 (not_elem_of_empty _) He) as [H|[]].
      exact H. }
    destruct (A7 x Hx (not_elem_of_empty _) Hback) as (c0 & Hc0 & Hhd).
    exists c0. split; [apply B3, Hc0 | exact Hhd].
Qed.

(** X6. [findCircularDependencies] reports cycles of the graph only: each
    list returned is a walk along edges of the graph that ends at the
    node it starts from and passes through no other node twice; and no
    list is reported twice. *)
Theorem findCircularDependencies_sound :
  forall (graph : DependencyGraph.t),
    exists cycles,
      findCircularDependencies graph = Some cycles
      /\ Forall (simple_cycle graph) cycles
      /\ List.NoDup cycles.
Proof.
  intros graph. destruct (findCircularDependencies_total graph) as [cycles Hrun].
  exists cycles. split; [exact Hrun|].
  unfold findCircularDependencies in Hrun.
  destruct (search_from_post graph _ [] cycles Hrun (List.Forall_nil _) (List.NoDup_nil _))
    as (H1 & H2 & _). auto.
Qed.



(** X8. The test by which [dfsForCycles] decides that a cycle is recorded
    already compares the closed walks with their repeated end node: of
    two cycles of the graph it holds exactly when they are the same
    list, so that a rotation of a recorded cycle is never recognised. *)
Theorem same_up_to_rotation_identical_only :
  forall (graph : DependencyGraph.t) (recordedCycle cycle : list string),
    simple_cycle graph recordedCycle ->
    simple_cycle graph cycle ->
    (same_up_to_rotation recordedCycle cycle = true <-> recordedCycle = cycle).
Proof.
  intros graph rec cycle H1 H2. split.
  - apply (same_up_to_rotation_eq graph); assumption.
  - intros ->. apply same_up_to_rotation_refl.
    destruct H2 as (x & body & -> & _). discriminate.
Qed.

Lemma same_up_to_rotation_identical_only_witness :
  simple_cycle triangle ["A"; "B"; "C"; "A"]
  /\ simple_cycle triangle ["B"; "C"; "A"; "B"]
  /\ same_up_to_rotation ["A"; "B"; "C"; "A"] ["B"; "C"; "A"; "B"] = false
  /\ (same_up_to_rotation ["A"; "B"; "C"; "A"] ["B"; "C"; "A"; "B"] = true
      <-> ["A"; "B"; "C"; "A"] = ["B"; "C"; "A"; "B"]).
Proof.
  assert (H1 : simple_cycle triangle ["A"; "B"; "C"; "A"]).
  { exists "A", ["B"; "C"]. split; [reflexivity|]. split.
    - repeat constructor; simpl; intuition discriminate.
    - cbn [walk]. repeat split; eexists; split; reflexivity. }
  assert (H2 : simple_cycle triangle ["B"; "C"; "A"; "B"]).
  { exists "B", ["C"; "A"]. split; [reflexivity|]. split.
    - repeat constructor; simpl; intuition discriminate.
    - cbn [walk]. repeat split; eexists; split; reflexivity. }
  split; [exact H1|]. split; [exact H2|]. split; [reflexivity|].
  exact (same_up_to_rotation_identical_only triangle _ _ H1 H2).
Defined.

(** ** Line numbers *)

Lemma line_numbers_from_In i lines pattern k :
  In k (line_numbers_from i lines pattern)
  <-> exists j line, lines !! j = Some line /\ k = (i + j)%nat
                     /\ JS.includes line pattern = true.
Proof.
  revert i. induction lines as [|l lines IH]; intros i; cbn [line_numbers_from].
  - split; [intros [] | intros (j & line & H & _); discriminate].
  - assert (Hrest : In k (line_numbers_from (S i) lines pattern)
                    <-> exists j line, lines !! j = Some line /\ k = (i + S j)%nat
                                       /\ JS.includes line pattern = true).
    { rewrite IH. split; intros (j & line & H1 & H2 & H3); exists j, line;
        (split; [exact H1|]; split; [lia | exact H3]). }
    destruct (JS.includes l pattern) eqn:E.
    + cbn [In]. rewrite Hrest. split.
      * intros [<-|(j & line & H1 & H2 & H3)].
        -- exists 0%nat, l. split; [reflexivity|]. split; [lia | exact E].
        -- exists (S j), line. auto.
      * intros ([|j] & line & H1 & H2 & H3).
        -- left. lia.
        -- right. exists j, line. auto.
    + rewrite Hrest. split.
      * intros (j & line & H1 & H2 & H3). exists (S j), line. auto.
      * intros ([|j] & line & H1 & H2 & H3).
        -- cbn in H1. injection H1 as <-. congruence.
        -- exists j, line. auto.
Qed.

Lemma line_numbers_from_ascending i lines pattern :
  ascending (line_numbers_from i lines pattern)
  /\ forall k, In k (line_numbers_from i lines pattern) -> (i <= k)%nat.
Proof.
  revert i. induction lines as [|l lines IH]; intros i; cbn [line_numbers_from].
  - split; [exact I | intros k []].
  - destruct (IH (S i)) as [Hasc Hge].
    destruct (JS.includes l pattern).
    + split.
      * split; [|exact Hasc]. intros b Hb. specialize (Hge b Hb). lia.
      * intros k [<-|Hk]; [lia|]. specialize (Hge k Hk). lia.
    + split; [exact Hasc|]. intros k Hk. specialize (Hge k Hk). lia.
Qed.

Lemma split_lines_no_line_feed content line :
  In line (JS.split_lines content) ->
  all_chars (fun c => negb (Ascii.eqb c line_feed)) line = true.
Proof.
  revert line. induction content as [|c content IH]; intros line; cbn [JS.split_lines].
  - intros [<-|[]]. reflexivity.
  - destruct (Ascii.eqb c "010") eqn:E.
    + intros [<-|H]; [reflexivity | apply IH; exact H].
    + destruct (JS.split_lines content) as [|l ls] eqn:Els.
      * intros [<-|[]]. cbn. unfold line_feed. rewrite E. reflexivity.
      * intros [<-|H].
        -- cbn [all_chars]. unfold line_feed at 1. rewrite E. cbn [negb andb].
           apply IH. left. reflexivity.
        -- apply IH. right. exact H.
Qed.

Lemma all_chars_prefix (p : ascii -> bool) (q s : string) :
  all_chars p s = true -> String.prefix q s = true -> all_chars p q = true.
Proof.
  revert q. induction s as [|c s IH]; intros q Hs Hq.
  - destruct q; [reflexivity | discriminate].
  - destruct q as [|c' q]; [reflexivity|]. cbn [all_chars] in *.
    apply andb_true_iff in Hs as [Hc Hs]. cbn [String.prefix] in Hq.
    destruct (ascii_dec c' c) as [->|]; [|discriminate].
    rewrite Hc, (IH q Hs Hq). reflexivity.
Qed.

Lemma all_chars_includes (p : ascii -> bool) (s q : string) :
  all_chars p s = true -> JS.includes s q = true -> all_chars p q = true.
Proof.
  induction s as [|c s IH]; intros Hs Hq; cbn [JS.includes] in Hq.
  - rewrite orb_false_r in Hq. apply (all_chars_prefix p q "" Hs Hq).
  - apply orb_true_iff in Hq as [Hq|Hq]; [apply (all_chars_prefix p q _ Hs Hq)|].
    cbn [all_chars] in Hs. apply andb_true_iff in Hs as [_ Hs]. apply (IH Hs Hq).
Qed.

Lemma includes_char_absent (c : ascii) (s : string) :
  all_chars (fun x => negb (Ascii.eqb x c)) s = true ->
  JS.includes s (String c "") = false.
Proof.
  induction s as [|x s IH]; intros H; [reflexivity|].
  cbn [all_chars] in H. apply andb_true_iff in H as [Hx Hs].
  cbn [JS.includes String.prefix]. rewrite (IH Hs), orb_false_r.
  apply negb_true_iff, Ascii.eqb_neq in Hx.
  destruct (ascii_dec c x) as [->|]; [congruence | reflexivity].
Qed.

(** X14. [findLineNumbers] returns the indices, counted from zero and in
    increasing order, of exactly the lines of the content in which the
    pattern occurs; as a line holds no line feed, a pattern that spans
    several lines, such as an import statement written on more than one
    line, is found on no line at all. *)
Theorem findLineNumbers_spec :
  forall (content pattern : string),
    let lines := JS.split_lines content in
    let found := findLineNumbers content pattern in
    (forall i, In i found
               <-> exists line, lines !! i = Some line /\ JS.includes line pattern = true)
    /\ ascending found
    /\ (JS.includes pattern (String line_feed "") = true -> found = []).
Proof.
  intros content pattern lines found. subst found. unfold findLineNumbers. fold lines.
  split; [|split].
  - intros i. rewrite line_numbers_from_In. split.
    + intros (j & line & H1 & -> & H3). exists line. auto.
    + intros (line & H1 & H3). exists i, line. auto.
  - apply line_numbers_from_ascending.
  - intros Hnl. destruct (line_numbers_from 0 lines pattern) as [|k rest] eqn:E; [reflexivity|].
    exfalso. assert (Hk : In k (line_numbers_from 0 lines pattern)) by (rewrite E; left; reflexivity).
    apply line_numbers_from_In in Hk as (j & line & Hj & _ & Hinc).
    assert (Hline : In line lines).
    { apply list_elem_of_In. apply list_elem_of_lookup. exists j. exact Hj. }
    pose proof (split_lines_no_line_feed content line Hline) as Hfree.
    pose proof (all_chars_includes _ line pattern Hfree Hinc) as Hpat.
    rewrite (includes_char_absent line_feed pattern Hpat) in Hnl. discriminate.
Qed.

(** ** The text of a match *)

Section StarSuffix.

Variable step : string -> Regex.captures -> Regex.cont -> Regex.result.

(** Every match the body returns comes from its continuation, called on
    an end of the input. *)
Hypothesis step_suffix :
  forall s caps (k : Regex.cont) x,
    step s caps k = Some x ->
    exists s' caps', k s' caps' = Some x /\ exists pre, s = pre +:+ s'.

Lemma star_loop_suffix (k : Regex.cont) :
  forall fuel s caps x,
    Regex.star_loop step k fuel s caps = Some x ->
    exists s' caps', k s' caps' = Some x /\ exists pre, s = pre +:+ s'.
Proof.
  assert (Hhere : forall s caps x, k s caps = Some x ->
                    exists s' caps', k s' caps' = Some x /\ exists pre, s = pre +:+ s').
  { intros s caps x H. exists s, caps. split; [exact H|]. exists "". reflexivity. }
  induction fuel as [|fuel IH]; intros s caps x; cbn [Regex.star_loop]; [apply Hhere|].
  destruct (step s caps _) as [y|] eqn:Hstep; [|apply Hhere].
  intros [= ->]. apply step_suffix in Hstep as (s1 & caps1 & H1 & pre1 & ->).
  destruct (_ <? _)%nat; [|discriminate].
  apply IH in H1 as (s' & caps' & H' & pre2 & ->).
  exists s', caps'. split; [exact H'|]. exists (pre1 +:+ pre2). symmetry. apply append_assoc.
Qed.

End StarSuffix.

(** What the matcher hands to its continuation is an end of its
    input. *)
Lemma run_suffix r :
  forall s caps (k : Regex.cont) x,
    Regex.run r s caps k = Some x ->
    exists s' caps', k s' caps' = Some x /\ exists pre, s = pre +:+ s'.
Proof.
  induction r as [|c|p|r1 IH1 r2 IH2|r1 IH1 r2 IH2|r IH|n r IH];
    intros s caps k x; cbn [Regex.run].
  - intros H. exists s, caps. split; [exact H|]. exists "". reflexivity.
  - destruct s as [|c' s]; [discriminate|]. destruct (Ascii.eqb c c'); [|discriminate].
    intros H. exists s, caps. split; [exact H|]. exists (String c' ""). reflexivity.
  - destruct s as [|c' s]; [discriminate|]. destruct (p c'); [|discriminate].
    intros H. exists s, caps. split; [exact H|]. exists (String c' ""). reflexivity.
  - intros H. apply IH1 in H as (s1 & caps1 & H & pre1 & ->).
    apply IH2 in H as (s2 & caps2 & H & pre2 & ->).
    exists s2, caps2. split; [exact H|]. exists (pre1 +:+ pre2). symmetry. apply append_assoc.
  - destruct (Regex.run r1 s caps k) as [y|] eqn:H1.
    + intros [= ->]. eapply IH1. exact H1.
    + apply IH2.
  - apply star_loop_suffix. exact IH.
  - intros H. apply IH in H as (s1 & caps1 & H & pre1 & ->). eauto.
Qed.

Lemma exec_at_prefix r s m :
  Regex.exec_at r s = Some m -> exists post, s = Regex.m0 m +:+ post.
Proof.
  unfold Regex.exec_at.
  destruct (Regex.run r s [] _) as [[s' caps]|] eqn:Hrun; [|discriminate].
  intros [= <-]. apply run_suffix in Hrun as (s1 & caps1 & [= -> ->] & pre & ->).
  exists s'. cbn [Regex.m0]. rewrite consumed_append. reflexivity.
Qed.

(** The text of every match of [matchAll] occurs in the content. *)
Lemma matchAll_from_occurs r :
  forall s skip m,
    In m (Regex.matchAll_from r skip s) ->
    exists pre post, s = pre +:+ Regex.m0 m +:+ post.
Proof.
  induction s as [|c s IH]; intros skip m; cbn [Regex.matchAll_from].
  - destruct skip; [|intros []].
    destruct (Regex.exec_at r "") as [m0|] eqn:E; [|intros []].
    intros [<-|[]]. apply exec_at_prefix in E as (post & E). exists "", post. exact E.
  - assert (Hrest : forall k, In m (Regex.matchAll_from r k s) ->
                      exists pre post, String c s = pre +:+ Regex.m0 m +:+ post).
    { intros k H. apply IH in H as (pre & post & ->). exists (String c pre), post.
      reflexivity. }
    destruct skip; [|apply Hrest].
    destruct (Regex.exec_at r (String c s)) as [m0|] eqn:E; [|apply Hrest].
    intros [<-|H]; [|apply (Hrest _ H)].
    apply exec_at_prefix in E as (post & E). exists "", post. exact E.
Qed.

Lemma includes_prefix (s p : string) : String.prefix p s = true -> JS.includes s p = true.
Proof. intros H. destruct s; cbn [JS.includes]; rewrite H; reflexivity. Qed.

Lemma includes_line_feed_cons (c : ascii) (a : string) :
  JS.includes (String c a) (String line_feed "") = false ->
  Ascii.eqb c line_feed = false /\ JS.includes a (String line_feed "") = false.
Proof.
  cbn [JS.includes String.prefix]. intros H. apply orb_false_iff in H as [H1 H2].
  split; [|exact H2].
  destruct (ascii_dec line_feed c) as [<-|Hne].
  - destruct a; discriminate.
  - apply Ascii.eqb_neq. congruence.
Qed.

(** A text without line feed is at the start of the first line of what
    it starts. *)
Lemma first_line_prefix (a post : string) :
  JS.includes a (String line_feed "") = false ->
  exists l ls, JS.split_lines (a +:+ post) = l :: ls /\ String.prefix a l = true.
Proof.
  induction a as [|c a IH]; intros Hfree.
  - rewrite append_nil. destruct (JS.split_lines post) as [|l ls] eqn:E.
    + destruct post as [|c post]; [discriminate|]. cbn [JS.split_lines] in E.
      destruct (Ascii.eqb c "010"); [discriminate|].
      destruct (JS.split_lines post); discriminate.
    + exists l, ls. split; [reflexivity|]. destruct l; reflexivity.
  - apply includes_line_feed_cons in Hfree as [Hc Ha].
    destruct (IH Ha) as (l & ls & E & Hp).
    rewrite append_cons. cbn [JS.split_lines]. unfold line_feed in Hc. rewrite Hc, E.
    exists (String c l), ls. split; [reflexivity|].
    cbn [String.prefix]. destruct (ascii_dec c c); [exact Hp | congruence].
Qed.

(** A text without line feed that occurs in a content occurs in one of
    its lines. *)
Lemma occurs_in_a_line (pre a post : string) :
  JS.includes a (String line_feed "") = false ->
  exists line, In line (JS.split_lines (pre +:+ a +:+ post))
               /\ JS.includes line a = true.
Proof.
  intros Hfree. induction pre as [|c pre IH].
  - rewrite append_nil. destruct (first_line_prefix a post Hfree) as (l & ls & E & Hp).
    exists l. rewrite E. split; [left; reflexivity | apply includes_prefix; exact Hp].
  - destruct IH as (line & Hin & Hinc). rewrite append_cons. cbn [JS.split_lines].
    destruct (Ascii.eqb c "010").
    + exists line. split; [right; exact Hin | exact Hinc].
    + destruct (JS.split_lines (pre +:+ a +:+ post)) as [|l ls]; [destruct Hin|].
      destruct Hin as [<-|Hin].
      * exists (String c l). split; [left; reflexivity|].
        cbn [JS.includes]. rewrite Hinc. apply orb_true_r.
      * exists line. split; [right; exact Hin | exact Hinc].
Qed.

(** X23. The line numbers a dependency carries are those of the text
    of its match, [match[0]]: for every match of a pattern in the
    content they are missing (the list is empty) exactly when the
    matched text runs over more than one line. *)
Theorem matched_text_line_numbers :
  forall (r : Regex.regex) (content : string) (m : Regex.Match),
    In m (Regex.matchAll r content) ->
    (findLineNumbers content (Regex.m0 m) = []
     <-> JS.includes (Regex.m0 m) (String line_feed "") = true).
Proof.
  intros r content m Hm. split.
  - intros Hnone.
    destruct (JS.includes (Regex.m0 m) (String line_feed "")) eqn:Hfree; [reflexivity|].
    exfalso. apply matchAll_from_occurs in Hm as (pre & post & ->).
    destruct (occurs_in_a_line pre (Regex.m0 m) post Hfree) as (line & Hin & Hinc).
    apply list_elem_of_In, list_elem_of_lookup in Hin as [j Hj].
    assert (Hj' : In (0 + j)%nat
                    (findLineNumbers (pre +:+ Regex.m0 m +:+ post) (Regex.m0 m))).
    { unfold findLineNumbers. apply line_numbers_from_In. exists j, line. auto. }
    rewrite Hnone in Hj'. destruct Hj'.
  - intros Hnl.
    destruct (findLineNumbers content (Regex.m0 m)) as [|k rest] eqn:E; [reflexivity|].
    exfalso.
    assert (Hk : In k (line_numbers_from 0 (JS.split_lines content) (Regex.m0 m)))
      by (unfold findLineNumbers in E; rewrite E; left; reflexivity).
    apply line_numbers_from_In in Hk as (j & line & Hj & _ & Hinc).
    assert (Hline : In line (JS.split_lines content)).
    { apply list_elem_of_In. apply list_elem_of_lookup. exists j. exact Hj. }
    pose proof (split_lines_no_line_feed content line Hline) as Hfree.
    pose proof (all_chars_includes _ line (Regex.m0 m) Hfree Hinc) as Hpat.
    rewrite (includes_char_absent line_feed (Regex.m0 m) Hpat) in Hnl. discriminate.
Qed.

Lemma matched_text_line_numbers_witness :
  let content := "const a = 1" +:+ String line_feed "import x from './b'" in
  exists m,
    Regex.matchAll Patterns.importPattern content = [m]
    /\ Regex.m0 m = "import x from './b'"
    /\ findLineNumbers content (Regex.m0 m) = [1%nat]
    /\ (findLineNumbers content (Regex.m0 m) = []
        <-> JS.includes (Regex.m0 m) (String line_feed "") = true).
Proof.
  intros content.
  destruct (Regex.matchAll Patterns.importPattern content) as [|m ms] eqn:E;
    [vm_compute in E; discriminate|].
  exists m.
  assert (Hm : In m (Regex.matchAll Patterns.importPattern content))
    by (rewrite E; left; reflexivity).
  assert (Hval : m :: ms = [Regex.mkMatch "import x from './b'" [(1%nat, "./b")]]).
  { rewrite <- E. vm_compute. reflexivity. }
  injection Hval as -> ->.
  split; [reflexivity|]. split; [reflexivity|]. split; [vm_compute; reflexivity|].
  exact (matched_text_line_numbers Patterns.importPattern content _ Hm).
Defined.

(** ** Resolved targets *)

Lemma isAbsolute_cons (p : string) :
  Path.isAbsolute p = true <-> exists q, p = String Path.slash q.
Proof.
  unfold Path.isAbsolute, JS.startsWith. split.
  - destruct p as [|c q]; [discriminate|]. cbn [String.prefix].
    destruct (ascii_dec "/" c) as [<-|]; [|discriminate]. intros _. exists q. reflexivity.
  - intros (q & ->). cbn [String.prefix]. unfold Path.slash.
    destruct (ascii_dec "/" "/"); [|congruence]. destruct q; reflexivity.
Qed.

Lemma isAbsolute_append (p q : string) :
  Path.isAbsolute p = true -> Path.isAbsolute (p +:+ q) = true.
Proof.
  intros H. apply isAbsolute_cons in H as (r & ->). apply isAbsolute_cons.
  exists (r +:+ q). reflexivity.
Qed.

Lemma normalize_absolute (p : string) :
  Path.isAbsolute p = true -> Path.isAbsolute (Path.normalize p) = true.
Proof.
  intros H. unfold Path.normalize.
  destruct (String.eqb p "") eqn:E; [apply String.eqb_eq in E; subst p; discriminate|].
  rewrite H. cbv zeta. cbn [negb].
  destruct (String.eqb (Path.normalizeString p false) ""); [reflexivity|].
  apply isAbsolute_cons. eexists. reflexivity.
Qed.

Lemma join_absolute (a b : string) :
  Path.isAbsolute a = true -> Path.isAbsolute (Path.join a b) = true.
Proof.
  intros H. unfold Path.join.
  destruct (String.eqb a "") eqn:E; [apply String.eqb_eq in E; subst a; discriminate|].
  destruct (String.eqb b ""); apply normalize_absolute; [exact H|].
  apply isAbsolute_append. exact H.
Qed.

Lemma resolve_absolute (cwd a b : string) :
  Path.isAbsolute cwd = true -> Path.isAbsolute (Path.resolve cwd a b) = true.
Proof.
  intros H. unfold Path.resolve. cbn [fold_left].
  assert (Hcwd : String.eqb cwd "" = false).
  { destruct cwd; [discriminate | reflexivity]. }
  assert (Hfin : forall (acc : string * bool),
             Path.isAbsolute
               (let '(resolvedPath, resolvedAbsolute) :=
                  (let '(resolvedPath, resolvedAbsolute) := acc in
                   if resolvedAbsolute then acc
                   else if String.eqb cwd "" then acc
                        else (cwd +:+ "/" +:+ resolvedPath, Path.isAbsolute cwd)) in
                let q := Path.normalizeString resolvedPath (negb resolvedAbsolute) in
                if resolvedAbsolute then "/" +:+ q
                else if String.eqb q "" then "." else q) = true).
  { intros [rp [|]]; [|rewrite Hcwd, H]; apply isAbsolute_cons; eexists; reflexivity. }
  apply Hfin.
Qed.

Lemma find_Some_In {A} (p : A -> bool) (l : list A) x : find p l = Some x -> In x l.
Proof. intros H. apply find_some in H. tauto. Qed.

(** X15. [resolveImportPath] gives back a reference that starts with http
    as it is, without probing the disk; every other reference is turned
    into an absolute path, provided the working directory is absolute
    (as it is for a process) and so is the workspace root when there is
    one. *)
Theorem resolveImportPath_absolute :
  forall (sourcePath importPath : string) (env : Env) (st : State),
    Path.isAbsolute (cwd env) = true ->
    (forall root, truthy_root (workspaceRoot env) = Some root ->
                  Path.isAbsolute root = true) ->
    let '(target, st') := resolveImportPath sourcePath importPath env st in
    if JS.startsWith importPath "http" then target = importPath /\ st' = st
    else Path.isAbsolute target = true.
Proof.
  intros sourcePath importPath env st Hcwd Hroot.
  destruct (JS.startsWith importPath "/") eqn:Hslash.
  - assert (Hhttp : JS.startsWith importPath "http" = false).
    { unfold JS.startsWith in *. destruct importPath as [|c s]; [discriminate|].
      cbn [String.prefix] in *. destruct (ascii_dec "/" c) as [<-|]; [|discriminate].
      reflexivity. }
    unfold resolveImportPath, bind, ask. rewrite Hslash, Hhttp. cbn [orb].
    destruct (truthy_root (workspaceRoot env)) as [root|] eqn:Ht; unfold ret.
    + apply join_absolute. apply Hroot. reflexivity.
    + exact Hslash.
  - destruct (JS.startsWith importPath "http") eqn:Hhttp.
    + unfold resolveImportPath, bind, ask. rewrite Hslash, Hhttp. cbn [orb].
      split; reflexivity.
    + rewrite (resolveImportPath_relative_run env st sourcePath importPath Hslash Hhttp).
      unfold resolve_relative_spec.
      set (resolved := Path.resolve (cwd env) (Path.dirname sourcePath) importPath).
      assert (Hres : Path.isAbsolute resolved = true) by (apply resolve_absolute; exact Hcwd).
      destruct (String.eqb (Path.extname resolved) ""); [|exact Hres].
      destruct (find _ extensions) as [ext|]; [apply isAbsolute_append; exact Hres|].
      destruct (find _ extensions) as [ext|]; [apply join_absolute; exact Hres | exact Hres].
Qed.

Lemma resolveImportPath_absolute_witness :
  Path.isAbsolute (cwd small_disk) = true
  /\ (forall root, truthy_root (workspaceRoot small_disk) = Some root ->
                   Path.isAbsolute root = true)
  /\ resolveImportPath "/p/src/a.ts" "../lib/util" small_disk fresh
     = ("/p/lib/util",
        mkState ∅ (map EvExistsSync
                     (map (fun ext => "/p/lib/util" +:+ ext) extensions
                      ++ map (fun ext => "/p/lib/util/index" +:+ ext) extensions)))
  /\ let '(target, st') :=
       resolveImportPath "/p/src/a.ts" "../lib/util" small_disk fresh in
     if JS.startsWith "../lib/util" "http" then target = "../lib/util" /\ st' = fresh
     else Path.isAbsolute target = true.
Proof.
  assert (H1 : Path.isAbsolute (cwd small_disk) = true) by reflexivity.
  assert (H2 : forall root, truthy_root (workspaceRoot small_disk) = Some root ->
                            Path.isAbsolute root = true).
  { intros root H. cbn in H. injection H as <-. reflexivity. }
  split; [exact H1|]. split; [exact H2|]. split; [vm_compute; reflexivity|].
  exact (resolveImportPath_absolute "/p/src/a.ts" "../lib/util" small_disk fresh H1 H2).
Defined.

(** ** The extension of a path *)

Lemma ext_scan_cons k c l :
  ext_scan k (c :: l) = Path.ext_step (ext_scan (S k) l) (k, c).
Proof. reflexivity. Qed.

Lemma extname_scan p :
  Path.extname p
  = let st := ext_scan 0 (list_ascii_of_string p) in
    match Path.startDot st, Path.endPos st with
    | Some sd, Some e =>
        if Z.eqb (Path.preDotState st) 0 then ""
        else if Z.eqb (Path.preDotState st) 1 && Nat.eqb sd (e - 1)
                && Nat.eqb sd (Path.startPart st + 1)
        then ""
        else String.substring sd (e - sd) p
    | _, _ => ""
    end.
Proof.
  assert (Hfold : fold_left Path.ext_step (Path.indexed_rev p)
                    (Path.mkExt None 0 None true 0 false)
                  = ext_scan 0 (list_ascii_of_string p)).
  { unfold ext_scan, Path.indexed_rev.
    assert (Hlen : String.length p = length (list_ascii_of_string p)).
    { induction p as [|c p IH]; simpl; [reflexivity | rewrite IH; reflexivity]. }
    rewrite Hlen.
    rewrite <- (rev_involutive (combine _ (list_ascii_of_string p))) at 2.
    rewrite fold_left_rev_right. reflexivity. }
  unfold Path.extname. cbv zeta. rewrite Hfold. reflexivity.
Qed.

Lemma ext_inv_init k : ext_inv k [] (Path.mkExt None 0 None true 0 false).
Proof.
  split; [|split; [|split]]; cbn.
  - intros sd e H. discriminate.
  - intros _ _ e H. discriminate.
  - auto.
  - auto.
Qed.

Lemma ext_inv_shift k c l st :
  ext_inv (S k) l st ->
  forall sd e, Path.startDot st = Some sd -> Path.endPos st = Some e ->
    (k <= sd)%nat
    /\ exists w, forallb plain_char w = true
                 /\ firstn (e - sd) (skipn (sd - k) (c :: l)) = Path.dot :: w.
Proof.
  intros (H1 & _ & _) sd e Hsd He. destruct (H1 sd e Hsd He) as (Hk & w & Hw & Hsub).
  split; [lia|]. exists w. split; [exact Hw|].
  replace (sd - k)%nat with (S (sd - S k)) by lia. exact Hsub.
Qed.

Ltac ext_norm :=
  unfold ext_inv;
  cbn [Path.startDot Path.endPos Path.startPart Path.matchedSlash Path.preDotState
       Path.stopped];
  repeat match goal with
         | H : Path.startDot ?s = _ |- context [Path.startDot ?s] => rewrite H
         | H : Path.endPos ?s = _ |- context [Path.endPos ?s] => rewrite H
         | H : Path.stopped ?s = _ |- context [Path.stopped ?s] => rewrite H
         | H : Path.matchedSlash ?s = _ |- context [Path.matchedSlash ?s] => rewrite H
         end.

Lemma ext_scan_inv l : forall k, ext_inv k l (ext_scan k l).
Proof.
  induction l as [|c l IH]; intros k; [apply ext_inv_init|].
  rewrite ext_scan_cons. specialize (IH (S k)).
  set (st := ext_scan (S k) l) in *.
  pose proof (ext_inv_shift k c l st IH) as Hshift.
  destruct IH as (I1 & I2 & I3 & I4).
  unfold Path.ext_step.
  destruct (Path.stopped st) eqn:Hstop.
  { ext_norm. split; [exact Hshift|]. split; [congruence|]. split; [exact I3 | exact I4]. }
  destruct (Ascii.eqb c Path.slash) eqn:Hslash.
  { destruct (Path.matchedSlash st) eqn:Hm.
    - pose proof (I3 eq_refl) as He. pose proof (I4 He) as Hsd. ext_norm.
      split; [intros sd e H; congruence|]. split; [intros _ _ e H; congruence|]. auto.
    - ext_norm. split; [exact Hshift|]. split; [congruence|]. split; [congruence|exact I4]. }
  destruct (Path.endPos st) as [e0|] eqn:Hend.
  - (* the end of the name is known *)
    assert (Hm : Path.matchedSlash st = false).
    { destruct (Path.matchedSlash st) eqn:Hm; [|reflexivity].
      pose proof (I3 eq_refl). congruence. }
    destruct (Ascii.eqb c Path.dot) eqn:Hdot.
    + destruct (Path.startDot st) as [sd0|] eqn:Hsd0.
      * destruct (Z.eqb (Path.preDotState st) 1); ext_norm.
        -- split; [exact Hshift|]. split; [intros _ H; congruence|].
           split; intros H; congruence.
        -- split; [exact Hshift|]. split; [intros _ H; congruence|].
           split; intros H; congruence.
      * destruct (I2 eq_refl eq_refl e0 eq_refl) as [Hk Hw]. ext_norm.
        split; [|split; [|split]].
        -- intros sd e [= <-] [= <-]. split; [lia|].
           exists (firstn (e0 - S k) l). split; [exact Hw|].
           rewrite Nat.sub_diag. cbn [skipn].
           replace (e0 - k)%nat with (S (e0 - S k)) by lia. cbn [firstn].
           apply Ascii.eqb_eq in Hdot. rewrite Hdot. reflexivity.
        -- intros _ H. discriminate.
        -- congruence.
        -- congruence.
    + destruct (Path.startDot st) as [sd0|] eqn:Hsd0.
      * ext_norm. split; [exact Hshift|]. split; [intros _ H; congruence|].
        split; intros H; congruence.
      * destruct (I2 eq_refl eq_refl e0 eq_refl) as [Hk Hw]. ext_norm.
        split; [intros sd e H; congruence|]. split; [|split; congruence].
        intros _ _ e He. injection He as <-. split; [lia|].
        replace (e0 - k)%nat with (S (e0 - S k)) by lia. cbn [firstn forallb].
        rewrite Hw, andb_true_r. unfold plain_char. rewrite Hdot, Hslash. reflexivity.
  - (* the first character of the name, seen from the end *)
    pose proof (I4 eq_refl) as Hsd0.
    cbn [Path.startDot Path.endPos Path.startPart Path.matchedSlash Path.preDotState].
    rewrite Hsd0.
    destruct (Ascii.eqb c Path.dot) eqn:Hdot; ext_norm.
    + split; [|split; [|split]].
      * intros sd e [= <-] [= <-]. split; [lia|]. exists [].
        split; [reflexivity|]. rewrite Nat.sub_diag.
        replace (S k - k)%nat with 1%nat by lia. cbn.
        apply Ascii.eqb_eq in Hdot. rewrite Hdot. reflexivity.
      * intros _ H. discriminate.
      * congruence.
      * congruence.
    + split; [|split; [|split]].
      * intros sd e H. discriminate.
      * intros _ _ e [= <-]. split; [lia|].
        replace (S k - k)%nat with 1%nat by lia. cbn.
        unfold plain_char. rewrite Hdot, Hslash. reflexivity.
      * congruence.
      * congruence.
Qed.

Lemma substring_list (a n : nat) (s : string) :
  list_ascii_of_string (String.substring a n s)
  = firstn n (skipn a (list_ascii_of_string s)).
Proof.
  revert a n. induction s as [|c s IH]; intros a n.
  - destruct a, n; reflexivity.
  - destruct a as [|a].
    + destruct n as [|n]; [reflexivity|]. cbn. rewrite IH. reflexivity.
    + cbn. apply IH.
Qed.

Lemma all_chars_list (p : ascii -> bool) (s : string) :
  all_chars p s = forallb p (list_ascii_of_string s).
Proof. induction s as [|c s IH]; simpl; [reflexivity | rewrite IH; reflexivity]. Qed.

(** What [path.extname] returns is empty or a dot followed by
    characters that are neither dots nor slashes. *)
Lemma extname_shape (p : string) :
  Path.extname p = ""
  \/ exists w, Path.extname p = String Path.dot w /\ all_chars plain_char w = true.
Proof.
  rewrite extname_scan. cbv zeta.
  destruct (ext_scan_inv (list_ascii_of_string p) 0) as (I1 & _).
  destruct (Path.startDot _) as [sd|]; [|left; reflexivity].
  destruct (Path.endPos _) as [e|]; [|left; reflexivity].
  destruct (Z.eqb _ 0); [left; reflexivity|].
  destruct (_ && _); [left; reflexivity|].
  right. destruct (I1 sd e eq_refl eq_refl) as (_ & w & Hw & Hsub).
  rewrite Nat.sub_0_r, <- substring_list in Hsub.
  exists (string_of_list_ascii w). split.
  - rewrite <- (string_of_list_ascii_of_string (String.substring sd (e - sd) p)), Hsub.
    reflexivity.
  - rewrite all_chars_list, list_ascii_of_string_of_list_ascii. exact Hw.
Qed.

Lemma ext_scan_plain (l : list ascii) :
  forall k, forallb plain_char l = true ->
            Path.stopped (ext_scan k l) = false
            /\ Path.startDot (ext_scan k l) = None
            /\ Path.preDotState (ext_scan k l) = 0%Z.
Proof.
  induction l as [|c l IH]; intros k Hl; [cbn; auto|].
  cbn [forallb] in Hl. apply andb_true_iff in Hl as [Hc Hl].
  unfold plain_char in Hc. apply andb_true_iff in Hc as [Hdot Hslash].
  apply negb_true_iff in Hdot, Hslash.
  rewrite ext_scan_cons. destruct (IH (S k) Hl) as (H1 & H2 & H3).
  unfold Path.ext_step. rewrite H1, Hslash, Hdot.
  destruct (Path.endPos (ext_scan (S k) l));
    cbn [Path.startDot Path.endPos Path.startPart Path.matchedSlash Path.preDotState
         Path.stopped]; rewrite ?H2;
    cbn [Path.startDot Path.endPos Path.startPart Path.matchedSlash Path.preDotState
         Path.stopped]; auto.
Qed.

(** An extension has no extension. *)
Lemma extname_of_extension (w : string) :
  all_chars plain_char w = true -> Path.extname (String Path.dot w) = "".
Proof.
  intros Hw. rewrite all_chars_list in Hw. rewrite extname_scan. cbv zeta.
  cbn [list_ascii_of_string]. rewrite ext_scan_cons.
  destruct (ext_scan_plain (list_ascii_of_string w) 1 Hw) as (H1 & H2 & H3).
  unfold Path.ext_step. rewrite H1.
  change (Ascii.eqb Path.dot Path.slash) with false.
  change (Ascii.eqb Path.dot Path.dot) with true. cbv iota.
  destruct (Path.endPos (ext_scan 1 (list_ascii_of_string w))) eqn:He;
    cbn [Path.startDot Path.endPos Path.startPart Path.matchedSlash Path.preDotState
         Path.stopped]; rewrite ?H2;
    cbn [Path.startDot Path.endPos Path.startPart Path.matchedSlash Path.preDotState
         Path.stopped]; rewrite ?H3, ?He; reflexivity.
Qed.

Lemma lower_char_plain (c : ascii) :
  plain_char c = true -> plain_char (Text.lower_char c) = true.
Proof.
  destruct c as [[] [] [] [] [] [] [] []]; vm_compute; auto.
Qed.

Lemma toLowerCase_plain (w : string) :
  all_chars plain_char w = true -> all_chars plain_char (Text.toLowerCase w) = true.
Proof.
  induction w as [|c w IH]; [auto|]. cbn [all_chars Text.toLowerCase].
  intros H. apply andb_true_iff in H as [Hc Hw].
  rewrite (lower_char_plain c Hc), (IH Hw). reflexivity.
Qed.

Lemma extname_of_lowered_extension (p : string) :
  Path.extname (Text.toLowerCase (Path.extname p)) = "".
Proof.
  destruct (extname_shape p) as [->|(w & -> & Hw)]; [reflexivity|].
  cbn [Text.toLowerCase]. change (Text.lower_char Path.dot) with Path.dot.
  apply extname_of_extension. apply toLowerCase_plain. exact Hw.
Qed.

Lemma determineFileTypeFromPath_extension (p : string) :
  Scanner.determineFileTypeFromPath (Text.toLowerCase (Path.extname p)) = FileType.Unknown.
Proof.
  unfold Scanner.determineFileTypeFromPath. cbv zeta.
  rewrite extname_of_lowered_extension. reflexivity.
Qed.

(** ** The queries on one file *)

Lemma summary_dependencies_run stat filePath env st absolutePath fileStats :
  absolute_path env filePath = Some absolutePath ->
  stat absolutePath = Some fileStats ->
  summary_dependencies stat filePath env st
  = let '(deps, st') :=
      analyzeDependencies
        (describe env absolutePath (Text.toLowerCase (Path.extname absolutePath)) fileStats)
        env st in
    (Some deps, st').
Proof.
  intros Habs Hstat. unfold summary_dependencies, bind at 1, ask.
  rewrite Habs, Hstat. cbv zeta. unfold bind.
  destruct (analyzeDependencies _ env st). reflexivity.
Qed.

(** X9. [generateDependencySummary] hands the extension of the file, not
    its path, to [determineFileTypeFromPath], and an extension has no
    extension: the descriptor it analyses has the type unknown.  On a
    file that is not in the cache the summary is therefore made of no
    dependency, whatever the file holds, and the empty list stays in the
    cache: every later analysis of this path returns no dependency. *)
Theorem generateDependencySummary_finds_nothing :
  forall (stat : StatFn) (filePath : string) (env : Env) (st : State)
         (absolutePath : string),
    absolute_path env filePath = Some absolutePath ->
    is_Some (stat absolutePath) ->
    dependencyCache st !! absolutePath = None ->
    let '(r, st') := summary_dependencies stat filePath env st in
    r = Some []
    /\ dependencyCache st' !! absolutePath = Some []
    /\ forall file env',
        FileInfo.path file = absolutePath ->
        fst (analyzeDependencies file env' st') = [].
Proof.
  intros stat filePath env st absolutePath Habs [fileStats Hstat] Hmiss.
  rewrite (summary_dependencies_run stat filePath env st absolutePath fileStats Habs Hstat).
  set (fileInfo := describe env absolutePath (Text.toLowerCase (Path.extname absolutePath))
                     fileStats).
  assert (Hpath : FileInfo.path fileInfo = absolutePath) by reflexivity.
  assert (Hty : FileInfo.type fileInfo = FileType.Unknown)
    by apply determineFileTypeFromPath_extension.
  pose proof (analyzeDependencies_miss_found_in fileInfo env st) as Hfound.
  rewrite Hpath, Hty in Hfound. specialize (Hfound Hmiss).
  pose proof (analyzeDependencies_cache fileInfo env st) as Hcache.
  destruct (analyzeDependencies fileInfo env st) as [deps st']. cbn [fst] in Hfound.
  destruct Hcache as [Hc _]. rewrite Hpath in Hc.
  assert (deps = []).
  { destruct deps as [|d deps]; [reflexivity|]. inversion Hfound as [|? ? [_ []] _]. }
  subst deps. split; [reflexivity|]. split; [exact Hc|].
  intros file env' Hfile. rewrite <- Hfile in Hc.
  rewrite (analyzeDependencies_hit file env' st' [] Hc). reflexivity.
Qed.

Lemma generateDependencySummary_finds_nothing_witness :
  absolute_path small_disk "a.ts" = Some "/p/a.ts"
  /\ is_Some (stat_of small_files "/p/a.ts")
  /\ dependencyCache fresh !! "/p/a.ts" = None
  /\ fst (analyzeDependencies file_a small_disk fresh)
     = [Dependency.mk "/p/a.ts" "/p/b.ts" DependencyType.Import_ (Some [0%nat]) false]
  /\ let '(r, st') := summary_dependencies (stat_of small_files) "a.ts" small_disk fresh in
     r = Some []
     /\ dependencyCache st' !! "/p/a.ts" = Some []
     /\ forall file env',
         FileInfo.path file = "/p/a.ts" ->
         fst (analyzeDependencies file env' st') = [].
Proof.
  assert (H1 : absolute_path small_disk "a.ts" = Some "/p/a.ts") by (vm_compute; reflexivity).
  assert (H2 : is_Some (stat_of small_files "/p/a.ts")) by (eexists; reflexivity).
  assert (H3 : dependencyCache fresh !! "/p/a.ts" = None) by reflexivity.
  split; [exact H1|]. split; [exact H2|]. split; [exact H3|].
  split; [vm_compute; reflexivity|].
  exact (generateDependencySummary_finds_nothing (stat_of small_files) "a.ts" small_disk fresh
           "/p/a.ts" H1 H2 H3).
Defined.

Lemma getFileDependencies_depth_rejects stat depth target recursive env st :
  (forall p, absolute_path env target = Some p -> stat p = None) ->
  fst (getFileDependencies_depth stat depth target recursive env st) = None.
Proof.
  intros H. destruct depth; cbn [getFileDependencies_depth]; unfold bind at 1, ask;
    (destruct (absolute_path env target) as [p|]; [rewrite (H p eq_refl)|]; reflexivity).
Qed.

Lemma recursive_loop_rejects recurse env d :
  (forall st, fst (recurse (Dependency.target d) env st) = None) ->
  Dependency.isExternal d = false ->
  forall deps allDependencies processedPaths st,
    In d deps ->
    Dependency.target d ∉ processedPaths ->
    fst (recursive_loop recurse deps allDependencies processedPaths env st) = None.
Proof.
  intros Hrej Hext. induction deps as [|dep rest IH];
    intros allDependencies processedPaths st Hin Hnot; [destruct Hin|].
  cbn [recursive_loop].
  destruct (bool_decide (Dependency.target dep ∈ processedPaths)) eqn:Hp.
  - cbn [orb]. apply bool_decide_eq_true in Hp.
    apply IH; [|exact Hnot]. destruct Hin as [->|Hin]; [contradiction | exact Hin].
  - apply bool_decide_eq_false in Hp.
    destruct (Dependency.isExternal dep) eqn:He; cbn [orb].
    + apply IH; [|exact Hnot]. destruct Hin as [->|Hin]; [congruence | exact Hin].
    + unfold bind.
      destruct (recurse (Dependency.target dep) env st) as [[recursiveDeps|] st1] eqn:Hr;
        [|reflexivity].
      assert (Hne : Dependency.target dep <> Dependency.target d).
      { intros E. pose proof (Hrej st) as H. rewrite <- E, Hr in H. discriminate. }
      apply IH.
      * destruct Hin as [->|Hin]; [congruence | exact Hin].
      * intros H. apply elem_of_union in H as [H|H]; [contradiction|].
        apply elem_of_singleton in H. congruence.
Qed.

Lemma getFileDependencies_depth_run stat depth filePath recursive env st absolutePath
  fileStats :
  absolute_path env filePath = Some absolutePath ->
  stat absolutePath = Some fileStats ->
  getFileDependencies_depth stat depth filePath recursive env st
  = let '(directDependencies, st1) :=
      analyzeDependencies (describe env absolutePath filePath fileStats) env st in
    match depth with
    | O => (Some directDependencies, st1)
    | S depth' =>
        if negb recursive then (Some directDependencies, st1)
        else recursive_loop
               (fun target => getFileDependencies_depth stat depth' target true)
               directDependencies directDependencies {[absolutePath]} env st1
    end.
Proof.
  intros Habs Hstat.
  destruct depth; cbn [getFileDependencies_depth]; unfold bind at 1, ask;
    rewrite Habs, Hstat; cbv zeta; unfold bind at 1;
    destruct (analyzeDependencies _ env st) as [direct st1]; [reflexivity|].
  destruct (negb recursive); reflexivity.
Qed.

(** X10. A recursive call of [getFileDependencies] stats every internal
    target before it analyses it, without catching the failure: when one
    of the direct dependencies of the file is internal and its target
    cannot be found on the disk, as happens for an import that resolves
    to no file, the whole call is rejected, and the dependencies that
    were found are lost. *)
Theorem getFileDependencies_rejects_missing_target :
  forall (stat : StatFn) (filePath : string) (maxDepth : Z) (env : Env) (st : State)
         (absolutePath : string) (fileStats : Stats) (d : Dependency.t),
    absolute_path env filePath = Some absolutePath ->
    stat absolutePath = Some fileStats ->
    (0 < maxDepth)%Z ->
    In d (fst (analyzeDependencies (describe env absolutePath filePath fileStats) env st)) ->
    Dependency.isExternal d = false ->
    Dependency.target d <> absolutePath ->
    (forall p, absolute_path env (Dependency.target d) = Some p -> stat p = None) ->
    fst (getFileDependencies stat filePath true maxDepth env st) = None.
Proof.
  intros stat filePath maxDepth env st absolutePath fileStats d Habs Hstat Hdepth Hd Hext
    Hne Hmissing.
  unfold getFileDependencies.
  rewrite (getFileDependencies_depth_run stat _ filePath true env st absolutePath fileStats
             Habs Hstat).
  destruct (analyzeDependencies _ env st) as [direct st1]. cbn [fst] in Hd.
  destruct (Z.to_nat maxDepth) as [|depth'] eqn:Hn; [lia|]. cbn [negb].
  apply (recursive_loop_rejects _ env d); [|exact Hext|exact Hd|].
  - intros st0. apply getFileDependencies_depth_rejects. exact Hmissing.
  - intros H. apply elem_of_singleton in H. contradiction.
Qed.

Lemma getFileDependencies_rejects_missing_target_witness :
  let d := Dependency.mk "/p/a.ts" "/p/missing" DependencyType.Import_ (Some [0%nat]) false in
  let fileStats := mkStats 25 0 in
  absolute_path dangling_disk "/p/a.ts" = Some "/p/a.ts"
  /\ stat_of dangling_files "/p/a.ts" = Some fileStats
  /\ fst (getFileDependencies (stat_of dangling_files) "/p/a.ts" false 3 dangling_disk fresh)
     = Some [d]
  /\ fst (getFileDependencies (stat_of dangling_files) "/p/a.ts" true 3 dangling_disk fresh)
     = None.
Proof.
  intros d fileStats.
  assert (H1 : absolute_path dangling_disk "/p/a.ts" = Some "/p/a.ts") by reflexivity.
  assert (H2 : stat_of dangling_files "/p/a.ts" = Some fileStats) by reflexivity.
  assert (H3 : fst (analyzeDependencies (describe dangling_disk "/p/a.ts" "/p/a.ts" fileStats)
                      dangling_disk fresh) = [d]) by (vm_compute; reflexivity).
  split; [exact H1|]. split; [exact H2|]. split; [vm_compute; reflexivity|].
  apply (getFileDependencies_rejects_missing_target (stat_of dangling_files) "/p/a.ts" 3
           dangling_disk fresh "/p/a.ts" fileStats d H1 H2).
  - reflexivity.
  - rewrite H3. left. reflexivity.
  - reflexivity.
  - discriminate.
  - intros p Hp. vm_compute in Hp. injection Hp as <-. reflexivity.
Defined.

Lemma add_unique_test (allDependencies : list Dependency.t) (rd : Dependency.t) :
  existsb (fun d => String.eqb (Dependency.source d) (Dependency.source rd)
                    && String.eqb (Dependency.target d) (Dependency.target rd))
    allDependencies = true
  <-> In (edge_key rd) (map edge_key allDependencies).
Proof.
  rewrite existsb_exists, in_map_iff. unfold edge_key. split.
  - intros (d & Hd & H). apply andb_true_iff in H as [H1 H2].
    apply String.eqb_eq in H1, H2. exists d. rewrite H1, H2. auto.
  - intros (d & [= H1 H2] & Hd). exists d. split; [exact Hd|].
    rewrite H1, H2, !String.eqb_refl. reflexivity.
Qed.

(** The inner loop of [getFileDependencies] appends, and what it
    appends repeats no pair of source and target. *)
Lemma add_unique_fold (recursiveDeps allDependencies : list Dependency.t) :
  exists extra,
    fold_left add_unique recursiveDeps allDependencies = allDependencies ++ extra
    /\ List.NoDup (map edge_key extra)
    /\ forall e, In e extra -> ~ In (edge_key e) (map edge_key allDependencies).
Proof.
  revert allDependencies. induction recursiveDeps as [|rd rest IH]; intros allDependencies.
  - exists []. cbn. rewrite app_nil_r. split; [reflexivity|]. split; [constructor|].
    intros e [].
  - cbn [fold_left]. unfold add_unique at 2.
    destruct (existsb _ allDependencies) eqn:E.
    + apply IH.
    + destruct (IH (allDependencies ++ [rd])) as (extra & Hfold & Hnd & Hnew).
      exists (rd :: extra). rewrite Hfold, <- app_assoc. split; [reflexivity|].
      assert (Hrd : ~ In (edge_key rd) (map edge_key allDependencies)).
      { intros H. apply add_unique_test in H. congruence. }
      split.
      * cbn [map]. constructor; [|exact Hnd].
        intros H. apply in_map_iff in H as (e & He & Hin).
        apply (Hnew e Hin). rewrite map_app. apply in_or_app. right. left.
        symmetry. exact He.
      * intros e [<-|Hin]; [exact Hrd|].
        intros H. apply (Hnew e Hin). rewrite map_app. apply in_or_app. left. exact H.
Qed.

Lemma recursive_loop_extends recurse env :
  forall deps allDependencies processedPaths st result st',
    recursive_loop recurse deps allDependencies processedPaths env st = (Some result, st') ->
    exists extra,
      result = allDependencies ++ extra
      /\ List.NoDup (map edge_key extra)
      /\ forall e, In e extra -> ~ In (edge_key e) (map edge_key allDependencies).
Proof.
  induction deps as [|dep rest IH]; intros allDependencies processedPaths st result st' Hrun;
    cbn [recursive_loop] in Hrun.
  - injection Hrun as <- _. exists []. rewrite app_nil_r. split; [reflexivity|].
    split; [constructor|]. intros e [].
  - destruct (_ || _); [apply (IH _ _ _ _ _ Hrun)|].
    unfold bind in Hrun.
    destruct (recurse (Dependency.target dep) env st) as [[recursiveDeps|] st1];
      [|discriminate].
    destruct (add_unique_fold recursiveDeps allDependencies) as (e1 & Hfold & Hnd1 & Hnew1).
    rewrite Hfold in Hrun.
    destruct (IH _ _ _ _ _ Hrun) as (e2 & -> & Hnd2 & Hnew2).
    exists (e1 ++ e2). rewrite app_assoc. split; [reflexivity|]. split.
    + rewrite map_app. apply List.NoDup_app; [exact Hnd1 | exact Hnd2 |].
      intros k Hk1 Hk2. apply in_map_iff in Hk2 as (e & <- & He).
      apply (Hnew2 e He). rewrite map_app. apply in_or_app. right. exact Hk1.
    + intros e He. apply in_app_or in He as [He|He]; [apply (Hnew1 e He)|].
      intros H. apply (Hnew2 e He). rewrite map_app. apply in_or_app. left. exact H.
Qed.

(** X11. When [getFileDependencies] returns, the direct dependencies of the
    file come first, as [analyzeDependencies] gives them (repeated pairs
    included); what the recursion adds after them repeats no pair of
    source and target, neither of a direct dependency nor of another
    added one; and nothing is added when the call is not recursive or
    [maxDepth] is not positive. *)
Theorem getFileDependencies_direct_first :
  forall (stat : StatFn) (filePath : string) (recursive : bool) (maxDepth : Z)
         (env : Env) (st st' : State) (result : list Dependency.t),
    getFileDependencies stat filePath recursive maxDepth env st = (Some result, st') ->
    exists absolutePath fileStats extra,
      absolute_path env filePath = Some absolutePath
      /\ stat absolutePath = Some fileStats
      /\ let direct :=
           fst (analyzeDependencies (describe env absolutePath filePath fileStats) env st) in
         result = direct ++ extra
         /\ List.NoDup (map edge_key extra)
         /\ (forall e, In e extra -> ~ In (edge_key e) (map edge_key direct))
         /\ (recursive = false \/ (maxDepth <= 0)%Z -> extra = []).
Proof.
  intros stat filePath recursive maxDepth env st st' result Hrun.
  unfold getFileDependencies in Hrun.
  destruct (absolute_path env filePath) as [absolutePath|] eqn:Habs.
  2:{ destruct (Z.to_nat maxDepth); cbn [getFileDependencies_depth] in Hrun;
        unfold bind at 1, ask in Hrun; rewrite Habs in Hrun; discriminate. }
  destruct (stat absolutePath) as [fileStats|] eqn:Hstat.
  2:{ destruct (Z.to_nat maxDepth); cbn [getFileDependencies_depth] in Hrun;
        unfold bind at 1, ask in Hrun; rewrite Habs, Hstat in Hrun; discriminate. }
  exists absolutePath, fileStats.
  rewrite (getFileDependencies_depth_run stat _ filePath recursive env st absolutePath
             fileStats Habs Hstat) in Hrun.
  destruct (analyzeDependencies _ env st) as [direct st1]. cbn [fst].
  cut (exists extra,
          result = direct ++ extra
          /\ List.NoDup (map edge_key extra)
          /\ (forall e, In e extra -> ~ In (edge_key e) (map edge_key direct))
          /\ (recursive = false \/ (maxDepth <= 0)%Z -> extra = [])).
  { intros (extra & H). exists extra. split; [reflexivity|]. split; [exact Hstat|]. exact H. }
  assert (Hnone : result = direct ->
                  exists extra,
                    result = direct ++ extra
                    /\ List.NoDup (map edge_key extra)
                    /\ (forall e, In e extra -> ~ In (edge_key e) (map edge_key direct))
                    /\ (recursive = false \/ (maxDepth <= 0)%Z -> extra = [])).
  { intros ->. exists []. rewrite app_nil_r.
    split; [reflexivity|]. split; [constructor|]. split; [intros e []|]. auto. }
  destruct (Z.to_nat maxDepth) as [|depth'] eqn:Hn.
  - apply Hnone. congruence.
  - destruct recursive; cbn [negb] in Hrun; [|apply Hnone; congruence].
    destruct (recursive_loop_extends _ env _ _ _ _ _ _ Hrun) as (extra & -> & Hnd & Hnew).
    exists extra. split; [reflexivity|].
    split; [exact Hnd|]. split; [exact Hnew|].
    intros [H|H]; [discriminate | lia].
Qed.

Lemma getFileDependencies_direct_first_witness :
  let ab := Dependency.mk "/p/a.ts" "/p/b.ts" DependencyType.Import_ (Some [0%nat]) false in
  let bc := Dependency.mk "/p/b.ts" "/p/c.ts" DependencyType.Import_ (Some [0%nat]) false in
  let ca := Dependency.mk "/p/c.ts" "/p/a.ts" DependencyType.Import_ (Some [0%nat]) false in
  let run := getFileDependencies (stat_of circle_files) "a.ts" true 3 circle_disk fresh in
  fst run = Some [ab; bc; ca]
  /\ exists absolutePath fileStats extra,
      absolute_path circle_disk "a.ts" = Some absolutePath
      /\ stat_of circle_files absolutePath = Some fileStats
      /\ let direct :=
           fst (analyzeDependencies (describe circle_disk absolutePath "a.ts" fileStats)
                  circle_disk fresh) in
         [ab; bc; ca] = direct ++ extra
         /\ List.NoDup (map edge_key extra)
         /\ (forall e, In e extra -> ~ In (edge_key e) (map edge_key direct))
         /\ (true = false \/ (3 <= 0)%Z -> extra = []).
Proof.
  intros ab bc ca run.
  assert (H : fst run = Some [ab; bc; ca]) by (vm_compute; reflexivity).
  split; [exact H|].
  apply (getFileDependencies_direct_first (stat_of circle_files) "a.ts" true 3 circle_disk
           fresh (snd run) [ab; bc; ca]).
  rewrite <- H. apply surjective_pairing.
Defined.

(** ** The files that depend on a file *)

Lemma find_last_existsb {A} (p : A -> bool) (l : list A) :
  match find_last p l with Some _ => true | None => false end = existsb p l.
Proof.
  induction l as [|x l IH]; [reflexivity|]. rewrite find_last_cons. cbn [existsb].
  destruct (find_last p l); rewrite <- IH; [symmetry; apply orb_true_r|].
  rewrite orb_false_r. destruct (p x); reflexivity.
Qed.

Lemma filter_map_swap {A B} (f : A -> B) (p : B -> bool) (l : list A) :
  List.filter p (map f l) = map f (List.filter (fun x => p (f x)) l).
Proof.
  induction l as [|x l IH]; [reflexivity|]. cbn [map List.filter].
  destruct (p (f x)); cbn [map]; rewrite IH; reflexivity.
Qed.

(** The loop of [getFileReverseDependencies]: a file is pushed when the
    list the cache holds for it in the end has a dependency with the
    target. *)
Lemma dependents_loop_spec absolutePath files env :
  forall dependents st,
    let '(r, st') := dependents_loop absolutePath files dependents env st in
    r = dependents
        ++ map FileInfo.path
             (List.filter
                (fun file =>
                   existsb (fun dep => String.eqb (Dependency.target dep) absolutePath)
                     (cached st' (FileInfo.path file))) files)
    /\ (forall p l, dependencyCache st !! p = Some l -> dependencyCache st' !! p = Some l)
    /\ (forall file, In file files -> is_Some (dependencyCache st' !! FileInfo.path file)).
Proof.
  induction files as [|file files IH]; intros dependents st.
  - cbn. rewrite app_nil_r. split; [reflexivity|]. split; [auto|]. intros file [].
  - cbn [dependents_loop]. unfold bind.
    pose proof (analyzeDependencies_cache file env st) as Hc.
    destruct (analyzeDependencies file env st) as [deps st1]. destruct Hc as [Hc Hmono].
    match goal with
    | |- context [dependents_loop absolutePath files ?acc env st1] =>
        specialize (IH acc st1);
        destruct (dependents_loop absolutePath files acc env st1) as [r st']
    end.
    destruct IH as (Hr & Hmono' & Hall).
    assert (Hdeps : cached st' (FileInfo.path file) = deps).
    { unfold cached. rewrite (Hmono' _ _ Hc). reflexivity. }
    split; [|split].
    + rewrite Hr. cbn [List.filter]. rewrite Hdeps.
      destruct (existsb _ deps); [rewrite <- app_assoc|]; reflexivity.
    + intros p l Hp. apply Hmono', Hmono, Hp.
    + intros f [<-|Hf]; [exists deps; apply Hmono', Hc | apply Hall, Hf].
Qed.

(** X12. [getFileReverseDependencies] returns the paths of the files of the
    catalog, in the order of the catalog and as often as they occur in
    it, whose dependencies (as the cache holds them after the call, and
    as [analyzeDependencies] returns them from then on) have one with
    the absolute path asked for as target; a relative path is rejected
    before any file is analysed when no workspace is open. *)
Theorem getFileReverseDependencies_spec :
  forall (filePath : string) (ps : ProjectStructure.t) (env : Env) (st : State),
    let '(r, st') := getFileReverseDependencies filePath ps env st in
    match absolute_path env filePath with
    | None => r = None /\ st' = st
    | Some absolutePath =>
        r = Some (map FileInfo.path
                    (List.filter
                       (fun file =>
                          existsb
                            (fun dep => String.eqb (Dependency.target dep) absolutePath)
                            (cached st' (FileInfo.path file)))
                       (ProjectStructure.allFiles ps)))
        /\ forall file,
            In file (ProjectStructure.allFiles ps) ->
            analyzeDependencies file env st' = (cached st' (FileInfo.path file), st')
    end.
Proof.
  intros filePath ps env st. unfold getFileReverseDependencies, bind at 1, ask.
  destruct (absolute_path env filePath) as [absolutePath|]; [|split; reflexivity].
  unfold bind.
  pose proof (dependents_loop_spec absolutePath (ProjectStructure.allFiles ps) env [] st)
    as H.
  destruct (dependents_loop absolutePath _ [] env st) as [r st'].
  destruct H as (-> & _ & Hall). cbn [ret app]. split; [reflexivity|].
  intros file Hfile. destruct (Hall file Hfile) as [deps Hdeps].
  assert (Hc : cached st' (FileInfo.path file) = deps)
    by (unfold cached; rewrite Hdeps; reflexivity).
  rewrite Hc. apply analyzeDependencies_hit. exact Hdeps.
Qed.

Lemma dependents_loop_replay absolutePath files env :
  forall dependents st,
    (forall file, In file files -> is_Some (dependencyCache st !! FileInfo.path file)) ->
    dependents_loop absolutePath files dependents env st
    = (dependents
       ++ map FileInfo.path
            (List.filter
               (fun file =>
                  existsb (fun dep => String.eqb (Dependency.target dep) absolutePath)
                    (cached st (FileInfo.path file))) files),
       st).
Proof.
  induction files as [|file files IH]; intros dependents st Hall.
  - cbn. rewrite app_nil_r. reflexivity.
  - cbn [dependents_loop]. unfold bind.
    destruct (Hall file) as [deps Hdeps]; [left; reflexivity|].
    rewrite (analyzeDependencies_hit file env st deps Hdeps).
    rewrite IH by (intros f Hf; apply Hall; right; exact Hf).
    assert (Hc : cached st (FileInfo.path file) = deps)
      by (unfold cached; rewrite Hdeps; reflexivity).
    cbn [List.filter]. rewrite Hc.
    destruct (existsb _ deps); [rewrite <- app_assoc|]; reflexivity.
Qed.

(** X13. Once the graph is built, the dependents of a node are the sources
    of the edges that enter it: asked for a file that is a node of the
    graph, [getFileReverseDependencies] returns the paths of the catalog
    whose edge map has the node as a key, and touches neither the disk
    nor the cache. *)
Theorem getFileReverseDependencies_graph :
  forall (ps : ProjectStructure.t) (callback : bool) (env env' : Env) (st : State)
         (filePath absolutePath : string),
    absolute_path env' filePath = Some absolutePath ->
    let '(g, st1) := buildDependencyGraph ps callback env st in
    jsmap_has (DependencyGraph.nodes g) absolutePath = true ->
    getFileReverseDependencies filePath ps env' st1
    = (Some (List.filter
               (fun p => match jsmap_get (DependencyGraph.edges g) p with
                         | Some inner => jsmap_has inner absolutePath
                         | None => false
                         end)
               (map FileInfo.path (ProjectStructure.allFiles ps))),
       st1).
Proof.
  intros ps callback env env' st filePath absolutePath Habs.
  pose proof (buildDependencyGraph_edge_maps ps callback env st) as Hmaps.
  destruct (buildDependencyGraph ps callback env st) as [g st1]. intros Hnode.
  unfold getFileReverseDependencies, bind at 1, ask. rewrite Habs. unfold bind.
  rewrite dependents_loop_replay.
  2:{ intros file Hfile. destruct (Hmaps file Hfile) as (_ & deps & _ & Hdeps & _).
      exists deps. exact Hdeps. }
  rewrite filter_map_swap. unfold ret. cbn [app]. f_equal. f_equal. f_equal.
  apply filter_ext_in. intros file Hfile.
  destruct (Hmaps file Hfile) as (inner & deps & Hget & Hdeps & Hmap).
  assert (Hc : cached st1 (FileInfo.path file) = deps)
    by (unfold cached; rewrite Hdeps; reflexivity).
  rewrite Hget, Hc.
  unfold jsmap_has at 1. rewrite (Hmap absolutePath), Hnode.
  symmetry. apply find_last_existsb.
Qed.

Lemma getFileReverseDependencies_graph_witness :
  absolute_path small_disk "b.ts" = Some "/p/b.ts"
  /\ let '(g, st1) := buildDependencyGraph two_files false small_disk fresh in
     jsmap_has (DependencyGraph.nodes g) "/p/b.ts" = true
     /\ getFileReverseDependencies "b.ts" two_files small_disk st1 = (Some ["/p/a.ts"], st1).
Proof.
  assert (Habs : absolute_path small_disk "b.ts" = Some "/p/b.ts") by (vm_compute; reflexivity).
  split; [exact Habs|].
  pose proof (getFileReverseDependencies_graph two_files false small_disk small_disk fresh
                "b.ts" "/p/b.ts" Habs) as H.
  destruct (buildDependencyGraph two_files false small_disk fresh) as [g st1] eqn:E.
  assert (Hg : g = fst (buildDependencyGraph two_files false small_disk fresh))
    by (rewrite E; reflexivity).
  assert (Hnode : jsmap_has (DependencyGraph.nodes g) "/p/b.ts" = true)
    by (rewrite Hg; vm_compute; reflexivity).
  split; [exact Hnode|]. rewrite (H Hnode). f_equal. f_equal.
  rewrite Hg. vm_compute. reflexivity.
Defined.

(** ** The trace of an analysis *)

Section EmitsOnly.

Variable P : Event -> Prop.
Hypothesis P_probe : forall p, P (EvExistsSync p).

Lemma emits_only_ret {A} (a : A) : emits_only P (ret a).
Proof. intros env st. exists []. cbn. rewrite app_nil_r. split; [reflexivity | constructor]. Qed.

Lemma emits_only_bind {A B} (c : M A) (k : A -> M B) :
  emits_only P c -> (forall a, emits_only P (k a)) -> emits_only P (bind c k).
Proof.
  intros Hc Hk env st. unfold bind.
  destruct (Hc env st) as (evs1 & H1 & F1). destruct (c env st) as [a st1]. cbn [snd] in H1.
  destruct (Hk a env st1) as (evs2 & H2 & F2).
  exists (evs1 ++ evs2). rewrite H2, H1, app_assoc. split; [reflexivity|].
  apply Forall_app. auto.
Qed.

Lemma emits_only_emit (e : Event) : P e -> emits_only P (emit e).
Proof. intros He env st. exists [e]. split; [reflexivity|]. constructor; [exact He | constructor]. Qed.

Lemma emits_only_existsSync (p : string) : emits_only P (existsSync p).
Proof.
  unfold existsSync. apply emits_only_bind; [intros env st; exists []; cbn; rewrite app_nil_r;
                                             split; [reflexivity | constructor]|].
  intros env. apply emits_only_bind; [apply emits_only_emit, P_probe|].
  intros _. apply emits_only_ret.
Qed.

Lemma emits_only_first_existing (candidates : list string) :
  emits_only P (first_existing candidates).
Proof.
  induction candidates as [|p ps IH]; cbn [first_existing].
  - apply emits_only_ret.
  - apply emits_only_bind; [apply emits_only_existsSync|].
    intros []; [apply emits_only_ret | exact IH].
Qed.

Lemma emits_only_resolveImportPath (sourcePath importPath : string) :
  emits_only P (resolveImportPath sourcePath importPath).
Proof.
  unfold resolveImportPath. intros env st. unfold bind at 1, ask at 1.
  destruct (JS.startsWith importPath "/" || JS.startsWith importPath "http").
  - destruct (JS.startsWith importPath "/"), (truthy_root (workspaceRoot env));
      apply emits_only_ret.
  - destruct (String.eqb _ ""); [|apply emits_only_ret].
    apply emits_only_bind; [apply emits_only_first_existing|].
    intros [p|]; [apply emits_only_ret|].
    apply emits_only_bind; [apply emits_only_first_existing|].
    intros [p|]; apply emits_only_ret.
Qed.

Lemma emits_only_push_resolved fp content ty ref m ext deps :
  emits_only P (push_resolved fp content ty ref m ext deps).
Proof.
  unfold push_resolved. apply emits_only_bind; [apply emits_only_resolveImportPath|].
  intros t. apply emits_only_ret.
Qed.

Lemma emits_only_for_each {A} (xs : list A) body :
  (forall x deps, emits_only P (body x deps)) ->
  forall deps, emits_only P (for_each xs body deps).
Proof.
  intros Hbody. induction xs as [|x xs IH]; intros deps; cbn [for_each].
  - apply emits_only_ret.
  - apply emits_only_bind; [apply Hbody | exact IH].
Qed.

Ltac emits_body :=
  intros; cbv beta delta [js_import_body js_reference_body html_body css_import_body
                            css_url_body md_image_body md_link_body] zeta;
  match goal with
  | |- emits_only _ (if ?b then _ else _) =>
      destruct b; [apply emits_only_ret | apply emits_only_push_resolved]
  | |- _ => apply emits_only_push_resolved
  end.

(** The extractors that match patterns only probe the disk. *)
Lemma emits_only_patterns file content deps :
  FileInfo.type file <> FileType.JSON ->
  emits_only P (extract_by_type file content deps).
Proof.
  intros Hty. unfold extract_by_type. destruct (FileInfo.type file); try congruence.
  - unfold extractJavaScriptDependencies.
    apply emits_only_bind; [|intros deps1]; apply emits_only_for_each; emits_body.
  - unfold extractJavaScriptDependencies.
    apply emits_only_bind; [|intros deps1]; apply emits_only_for_each; emits_body.
  - unfold extractHTMLDependencies.
    apply emits_only_bind; [|intros deps1; apply emits_only_bind; [|intros deps2]];
      apply emits_only_for_each; emits_body.
  - unfold extractCSSDependencies.
    apply emits_only_bind; [|intros deps1]; apply emits_only_for_each; emits_body.
  - unfold extractMarkdownDependencies.
    apply emits_only_bind; [|intros deps1]; apply emits_only_for_each; emits_body.
  - apply emits_only_ret.
  - apply emits_only_ret.
Qed.

End EmitsOnly.

Lemma reads_app evs1 evs2 : reads (evs1 ++ evs2) = reads evs1 ++ reads evs2.
Proof.
  induction evs1 as [|e evs1 IH]; [reflexivity|]. destruct e; cbn; rewrite IH; reflexivity.
Qed.

Lemma progress_calls_app evs1 evs2 :
  progress_calls (evs1 ++ evs2) = progress_calls evs1 ++ progress_calls evs2.
Proof.
  induction evs1 as [|e evs1 IH]; [reflexivity|]. destruct e; cbn; rewrite IH; reflexivity.
Qed.

Lemma logged_app evs1 evs2 : logged (evs1 ++ evs2) = logged evs1 ++ logged evs2.
Proof.
  induction evs1 as [|e evs1 IH]; [reflexivity|]. destruct e; cbn; rewrite IH; reflexivity.
Qed.

Lemma probe_quiet evs :
  Forall probe evs -> reads evs = [] /\ progress_calls evs = [] /\ logged evs = [].
Proof.
  induction 1 as [|e evs He _ IH]; [auto|]. destruct e; cbn in *; tauto.
Qed.

(** The extraction probes the disk, and logs at most one error (a
    manifest that cannot be read as such). *)
Lemma extract_by_type_trace file content deps env st :
  exists evs,
    events (snd (extract_by_type file content deps env st)) = events st ++ evs
    /\ reads evs = [] /\ progress_calls evs = [] /\ (length (logged evs) <= 1)%nat.
Proof.
  destruct (FileType.eqb (FileInfo.type file) FileType.JSON) eqn:Hty.
  - assert (E : FileInfo.type file = FileType.JSON)
      by (destruct (FileInfo.type file); (reflexivity || discriminate)).
    unfold extract_by_type. rewrite E. unfold extractJSONDependencies.
    destruct (negb _).
    { exists []. cbn. rewrite app_nil_r. auto. }
    destruct (match Json.JSON_parse content with Json.SyntaxError => _ | _ => _ end)
      as [deps' thrown].
    destruct thrown.
    + eexists [_]. split; [reflexivity|]. cbn. auto.
    + exists []. cbn. rewrite app_nil_r. auto.
  - assert (E : FileInfo.type file <> FileType.JSON) by (intros E; rewrite E in Hty; discriminate).
    destruct (emits_only_patterns probe (fun _ => I) file content deps E env st)
      as (evs & Hevs & Hall).
    exists evs. split; [exact Hevs|].
    destruct (probe_quiet evs Hall) as (H1 & H2 & H3). rewrite H3. cbn. auto.
Qed.

Lemma analyzeDependencies_trace_aux file env st :
  exists evs,
    events (snd (analyzeDependencies file env st)) = events st ++ evs
    /\ reads evs
       = match dependencyCache st !! FileInfo.path file, loaded_content file with
         | None, None => if skipped file then [] else [FileInfo.path file]
         | _, _ => []
         end
    /\ progress_calls evs = []
    /\ (length (logged evs) <= 1)%nat.
Proof.
  destruct (dependencyCache st !! FileInfo.path file) as [deps|] eqn:Hc.
  { rewrite (analyzeDependencies_hit file env st deps Hc). exists [].
    cbn. rewrite app_nil_r. auto. }
  destruct (skipped file) eqn:Hskip.
  { unfold analyzeDependencies, bind at 1, cache_get. rewrite Hc.
    unfold skipped in Hskip. rewrite Hskip. exists []. cbn. rewrite app_nil_r.
    destruct (loaded_content file); auto. }
  rewrite (analyzeDependencies_loaded file env st Hc Hskip).
  assert (Hload : reads (load_events file)
                  = match loaded_content file with
                    | Some _ => []
                    | None => [FileInfo.path file]
                    end
                  /\ progress_calls (load_events file) = []
                  /\ logged (load_events file) = []).
  { unfold load_events. destruct (loaded_content file); cbn; auto. }
  destruct Hload as (L1 & L2 & L3).
  destruct (content_of file env) as [content|].
  - destruct (extract_by_type_trace file content [] env
                (mkState (dependencyCache st) (events st ++ load_events file)))
      as (evs & Hevs & R & Pg & Lg).
    destruct (extract_by_type file content [] env _) as [deps st2].
    cbn [snd events] in *. exists (load_events file ++ evs).
    rewrite Hevs, <- app_assoc, reads_app, progress_calls_app, logged_app, R, Pg, L1, L2, L3.
    cbn [app]. rewrite app_nil_r. split; [reflexivity|]. split; [|auto].
    destruct (loaded_content file); reflexivity.
  - cbn [snd events]. eexists (load_events file ++ [_]).
    split; [reflexivity|].
    rewrite reads_app, progress_calls_app, logged_app, L1, L2, L3. cbn.
    rewrite app_nil_r. split; [|auto]. destruct (loaded_content file); reflexivity.
Qed.

(** X16. A call of [analyzeDependencies] only adds to the trace; it
    reads one file at most, the file it analyses, and only when the
    cache has no entry for it, the descriptor carries no content and the
    file is not skipped as too large or binary; it never calls the
    progress callback and logs one error at most; and it adds nothing at
    all when the cache has an entry for the path. *)
Theorem analyzeDependencies_trace :
  forall (file : FileInfo.t) (env : Env) (st : State),
    exists evs,
      events (snd (analyzeDependencies file env st)) = events st ++ evs
      /\ reads evs
         = match dependencyCache st !! FileInfo.path file, loaded_content file with
           | None, None => if skipped file then [] else [FileInfo.path file]
           | _, _ => []
           end
      /\ progress_calls evs = []
      /\ (length (logged evs) <= 1)%nat
      /\ (is_Some (dependencyCache st !! FileInfo.path file) -> evs = []).
Proof.
  intros file env st.
  destruct (analyzeDependencies_trace_aux file env st) as (evs & H1 & H2 & H3 & H4).
  exists evs. split; [exact H1|]. split; [exact H2|]. split; [exact H3|].
  split; [exact H4|].
  intros [deps Hdeps]. rewrite (analyzeDependencies_hit file env st deps Hdeps) in H1.
  cbn [snd] in H1. rewrite <- (app_nil_r (events st)) in H1 at 1.
  apply app_inv_head in H1. symmetry. exact H1.
Qed.

(** The trace of the second loop of [buildDependencyGraph]. *)
Lemma process_files_trace files total callback env :
  forall n g st,
    let st' := snd (process_files files total n callback g env st) in
    exists evs,
      events st' = events st ++ evs
      /\ List.NoDup (reads evs)
      /\ (forall p, In p (reads evs) ->
                    In p (map FileInfo.path files) /\ dependencyCache st !! p = None)
      /\ progress_calls evs
         = if callback then map (fun i => (i, total)) (seq (S n) (length files)) else [].
Proof.
  induction files as [|file files IH]; intros n g st.
  - exists []. cbn. rewrite app_nil_r. split; [reflexivity|]. split; [constructor|].
    split; [intros p [] | destruct callback; reflexivity].
  - cbn [process_files]. unfold bind at 1.
    destruct (analyzeDependencies_trace_aux file env st) as (evs1 & H1 & R1 & P1 & _).
    pose proof (analyzeDependencies_cache file env st) as Hc.
    destruct (analyzeDependencies file env st) as [deps st1]. cbn [snd] in H1.
    destruct Hc as [Hc Hmono]. unfold bind at 1.
    set (st2 := snd ((if callback then emit (EvProgress (S n) total) else ret tt) env st1)).
    assert (Hst2 : dependencyCache st2 = dependencyCache st1)
      by (subst st2; destruct callback; reflexivity).
    assert (Hev2 : events st2
                   = events st1 ++ (if callback then [EvProgress (S n) total] else []))
      by (subst st2; destruct callback; cbn; rewrite ?app_nil_r; reflexivity).
    replace ((if callback then emit (EvProgress (S n) total) else ret tt) env st1)
      with (tt, st2) by (subst st2; destruct callback; reflexivity).
    destruct (IH (S n) (fold_left (add_edge file) deps g) st2) as (evs2 & H2 & N2 & I2 & P2).
    cbv zeta in *.
    exists (evs1 ++ (if callback then [EvProgress (S n) total] else []) ++ evs2).
    split; [rewrite H2, Hev2, H1, <- !app_assoc; reflexivity|].
    assert (Hmid : reads (if callback then [EvProgress (S n) total] else []) = [])
      by (destruct callback; reflexivity).
    rewrite !reads_app, !progress_calls_app, Hmid, P1, P2. cbn [app].
    assert (Hfresh : forall p, In p (reads evs2) -> p <> FileInfo.path file).
    { intros p Hp ->. destruct (I2 _ Hp) as [_ Hnone]. rewrite Hst2, Hc in Hnone.
      discriminate. }
    assert (Hr1 : reads evs1 = [] \/ (reads evs1 = [FileInfo.path file]
                                      /\ dependencyCache st !! FileInfo.path file = None)).
    { rewrite R1. destruct (dependencyCache st !! FileInfo.path file); [auto|].
      destruct (loaded_content file); [auto|]. destruct (skipped file); auto. }
    split; [|split].
    + destruct Hr1 as [->|[-> _]]; [exact N2|]. cbn [app].
      constructor; [|exact N2]. intros Hin. apply (Hfresh _ Hin). reflexivity.
    + intros p Hp. apply in_app_or in Hp as [Hp|Hp].
      * destruct Hr1 as [E|[E Hnone]]; rewrite E in Hp; [destruct Hp|].
        destruct Hp as [<-|[]]. split; [left; reflexivity | exact Hnone].
      * destruct (I2 _ Hp) as [Hin Hnone]. split; [right; exact Hin|].
        rewrite Hst2 in Hnone.
        destruct (dependencyCache st !! p) as [l|] eqn:E; [|reflexivity].
        rewrite (Hmono _ _ E) in Hnone. discriminate.
    + destruct callback; reflexivity.
Qed.

(** X17. [buildDependencyGraph] only adds to the trace, and reads no file
    twice: the paths it reads are pairwise distinct paths of the
    catalog for which the cache had no entry when the call started. *)
Theorem buildDependencyGraph_reads_once :
  forall (ps : ProjectStructure.t) (callback : bool) (env : Env) (st : State),
    let st' := snd (buildDependencyGraph ps callback env st) in
    exists evs,
      events st' = events st ++ evs
      /\ List.NoDup (reads evs)
      /\ forall p, In p (reads evs) ->
                   In p (map FileInfo.path (ProjectStructure.allFiles ps))
                   /\ dependencyCache st !! p = None.
Proof.
  intros ps callback env st. unfold buildDependencyGraph. cbv zeta.
  destruct (process_files_trace (ProjectStructure.allFiles ps)
              (length (ProjectStructure.allFiles ps)) callback env 0
              (fold_left add_node (ProjectStructure.allFiles ps) (DependencyGraph.mk [] []))
              st) as (evs & H1 & H2 & H3 & _).
  exists evs. auto.
Qed.

(** X18. When a progress callback is given, [buildDependencyGraph] calls it
    once per file of the catalog, after the file is analysed, with the
    number of files handled so far out of their total, from 1 up to the
    total; without a callback nothing is reported. *)
Theorem buildDependencyGraph_progress :
  forall (ps : ProjectStructure.t) (callback : bool) (env : Env) (st : State),
    let st' := snd (buildDependencyGraph ps callback env st) in
    let n := length (ProjectStructure.allFiles ps) in
    exists evs,
      events st' = events st ++ evs
      /\ progress_calls evs = if callback then map (fun i => (i, n)) (seq 1 n) else [].
Proof.
  intros ps callback env st. unfold buildDependencyGraph. cbv zeta.
  destruct (process_files_trace (ProjectStructure.allFiles ps)
              (length (ProjectStructure.allFiles ps)) callback env 0
              (fold_left add_node (ProjectStructure.allFiles ps) (DependencyGraph.mk [] []))
              st) as (evs & H1 & _ & _ & H4).
  exists evs. auto.
Qed.

(** ** The scanner *)

Lemma DirectoryInfo_ind_nested (P : DirectoryInfo.t -> Prop) :
  (forall path relativePath name files directories,
      Forall P directories ->
      P (DirectoryInfo.mk path relativePath name files directories)) ->
  forall d, P d.
Proof.
  intros H. fix IH 1. intros [path relativePath name files directories].
  apply H. induction directories as [|d ds IHds]; constructor; [apply IH | exact IHds].
Qed.

(** X19. [collectAllFiles] only appends to the flat list: the files of the
    directory first, then those of each sub-directory in turn, every
    file of the tree once. *)
Theorem collectAllFiles_spec :
  forall (dirInfo : DirectoryInfo.t) (allFiles : list FileInfo.t),
    Scanner.collectAllFiles dirInfo allFiles = allFiles ++ tree_files dirInfo.
Proof.
  intros dirInfo. induction dirInfo as [path relativePath name files directories IH]
    using DirectoryInfo_ind_nested.
  intros allFiles. cbn [Scanner.collectAllFiles tree_files].
  rewrite app_assoc. generalize (allFiles ++ files) as acc.
  induction directories as [|d ds IHds]; intros acc; cbn [fold_left flat_map].
  - rewrite app_nil_r. reflexivity.
  - inversion IH as [|? ? Hd Hds]; subst. rewrite Hd, (IHds Hds), <- app_assoc. reflexivity.
Qed.

(** X20. [shouldExcludeFile] holds of the two lock files by their exact name
    and of every name that ends with .log (the pattern with the star
    removed), the name .log itself included; of no other name. *)
Theorem shouldExcludeFile_spec :
  forall (fileName : string),
    Scanner.shouldExcludeFile fileName = true
    <-> fileName = "package-lock.json" \/ fileName = "yarn.lock"
        \/ JS.endsWith fileName ".log" = true.
Proof.
  intros fileName. unfold Scanner.shouldExcludeFile, Scanner.excludedFiles.
  cbn [Scanner.matches_excluded].
  change (JS.includes "package-lock.json" "*") with false.
  change (JS.includes "yarn.lock" "*") with false.
  change (JS.includes "*.log" "*") with true.
  change (Text.replace_first "*.log" "*" "") with ".log". cbv iota.
  destruct (String.eqb "package-lock.json" fileName) eqn:E1.
  { apply String.eqb_eq in E1. split; auto. }
  destruct (String.eqb "yarn.lock" fileName) eqn:E2.
  { apply String.eqb_eq in E2. split; auto. }
  apply String.eqb_neq in E1, E2.
  destruct (JS.endsWith fileName ".log"); split; auto.
  - intros [H|[H|H]]; congruence.
Qed.

Lemma matches_exclude_pattern_spec patterns relativePath :
  Scanner.matches_exclude_pattern patterns relativePath
  = existsb (fun pattern => excluded_by pattern relativePath) patterns.
Proof.
  induction patterns as [|pattern patterns IH]; [reflexivity|].
  cbn [Scanner.matches_exclude_pattern existsb]. unfold excluded_by at 1.
  destruct (JS.endsWith pattern "*").
  - destruct (JS.startsWith relativePath _); [reflexivity | exact IH].
  - destruct (String.eqb pattern relativePath); [reflexivity | exact IH].
Qed.

(** X21. The filter of [filterFiles] keeps a file when all four criteria
    let it pass, each one only when it is given: its extension is
    listed (an empty list lists every extension), its size does not
    exceed the maximum, it was not modified before the date, and no
    exclude pattern applies to its relative path; the bounds themselves
    pass, and the pattern made of a star alone excludes every file. *)
Theorem filterFiles_criteria :
  forall (criteria : FilterCriteria.t) (file : FileInfo.t),
    (Scanner.filter_accepts criteria file = true
     <-> (forall extensions, FilterCriteria.extensions criteria = Some extensions ->
             extensions = [] \/ In (FileInfo.extension file) extensions)
         /\ (forall maxSize, FilterCriteria.maxSize criteria = Some maxSize ->
                (FileInfo.size file <= maxSize)%Z)
         /\ (forall since, FilterCriteria.modifiedSince criteria = Some since ->
                (since <= FileInfo.lastModified file)%Z)
         /\ (forall patterns pattern,
                FilterCriteria.excludePatterns criteria = Some patterns ->
                In pattern patterns -> excluded_by pattern (FileInfo.relativePath file) = false))
    /\ excluded_by "*" (FileInfo.relativePath file) = true.
Proof.
  intros [extensions patterns maxSize since] file. split.
  2:{ unfold excluded_by. change (JS.endsWith "*" "*") with true. cbv iota.
      change (Text.drop_last "*") with "". unfold JS.startsWith.
      destruct (FileInfo.relativePath file); reflexivity. }
  unfold Scanner.filter_accepts.
  cbn [FilterCriteria.extensions FilterCriteria.excludePatterns FilterCriteria.maxSize
       FilterCriteria.modifiedSince].
  assert (Hext : (match extensions with
                  | Some ((_ :: _) as l) => negb (JS.array_includes l (FileInfo.extension file))
                  | _ => false
                  end) = false
                 <-> forall l, extensions = Some l -> l = [] \/ In (FileInfo.extension file) l).
  { destruct extensions as [[|e l]|].
    - split; [intros _ l' [= <-]; auto | reflexivity].
    - rewrite negb_false_iff. unfold JS.array_includes. rewrite existsb_exists. split.
      + intros (x & Hx & Heq) l' [= <-]. apply String.eqb_eq in Heq.
        right. rewrite Heq. exact Hx.
      + intros H. destruct (H _ eq_refl) as [|Hin]; [discriminate|].
        exists (FileInfo.extension file). split; [exact Hin | apply String.eqb_refl].
    - split; [intros _ l' H; discriminate | reflexivity]. }
  assert (Hsize : (match maxSize with
                   | Some m => (FileInfo.size file >? m)%Z
                   | None => false
                   end) = false
                  <-> forall m, maxSize = Some m -> (FileInfo.size file <= m)%Z).
  { destruct maxSize as [m|].
    - rewrite Z.gtb_ltb, Z.ltb_ge. split; [intros H m' [= <-]; exact H | auto].
    - split; [intros _ m H; discriminate | reflexivity]. }
  assert (Hdate : (match since with
                   | Some d => (FileInfo.lastModified file <? d)%Z
                   | None => false
                   end) = false
                  <-> forall d, since = Some d -> (d <= FileInfo.lastModified file)%Z).
  { destruct since as [d|].
    - rewrite Z.ltb_ge. split; [intros H d' [= <-]; exact H | auto].
    - split; [intros _ d H; discriminate | reflexivity]. }
  assert (Hpat : (match patterns with
                  | Some ps => Scanner.matches_exclude_pattern ps (FileInfo.relativePath file)
                  | None => false
                  end) = false
                 <-> forall ps pattern, patterns = Some ps -> In pattern ps ->
                       excluded_by pattern (FileInfo.relativePath file) = false).
  { destruct patterns as [ps|].
    - rewrite matches_exclude_pattern_spec. split.
      + intros H ps' pattern [= <-] Hin.
        destruct (excluded_by pattern _) eqn:E; [|reflexivity].
        assert (existsb (fun pattern => excluded_by pattern (FileInfo.relativePath file)) ps
                = true) by (apply existsb_exists; eauto).
        congruence.
      + intros H. destruct (existsb _ ps) eqn:E; [|reflexivity].
        apply existsb_exists in E as (pattern & Hin & Hex).
        rewrite (H ps pattern eq_refl Hin) in Hex. discriminate.
    - split; [intros _ ps pattern H; discriminate | reflexivity]. }
  rewrite <- Hext, <- Hsize, <- Hdate, <- Hpat.
  destruct (match extensions with Some ((_ :: _) as l) => _ | _ => false end);
    [split; [discriminate | intros (H & _); discriminate]|].
  destruct (match maxSize with Some m => _ | None => false end);
    [split; [discriminate | intros (_ & H & _); discriminate]|].
  destruct (match since with Some d => _ | None => false end);
    [split; [discriminate | intros (_ & _ & H & _); discriminate]|].
  destruct (match patterns with Some ps => _ | None => false end);
    [split; [discriminate | intros (_ & _ & _ & H); discriminate]|].
  split; auto.
Qed.

(** ** Manifests that are not what they should be *)

(** X22. A manifest that holds the JSON value null makes
    [extractJSONDependencies] log an error and push nothing, just as a
    manifest that cannot be parsed; one that holds a number, a string, a
    boolean or an array is passed over in silence; and a section that is
    an array (or a string) instead of an object yields one dependency
    per element (or character), named node_modules/0, node_modules/1 and
    so on after the indices. *)
Theorem extractJSONDependencies_odd_manifests :
  forall (filePath content : string) (packageJson : Json.JSON)
         (deps : list Dependency.t) (env : Env) (st : State),
    JS.endsWith filePath "package.json" = true ->
    Json.parse content = Some packageJson ->
    let run := extractJSONDependencies filePath content deps env st in
    match packageJson with
    | Json.JNull =>
        run = (deps,
               mkState (dependencyCache st)
                 (events st ++ [EvConsoleError ("Error parsing JSON in " +:+ filePath +:+ ":")]))
    | Json.JObject [(section, Json.JArray xs)] =>
        In section dependencySections ->
        run = (deps ++ map (package_dependency filePath) (index_names (length xs)), st)
    | Json.JObject [(section, Json.JString s)] =>
        In section dependencySections ->
        run = (deps ++ map (package_dependency filePath) (index_names (String.length s)), st)
    | Json.JObject _ => True
    | _ => run = (deps, st)
    end.
Proof.
  intros filePath content packageJson deps env st Hend Hparse run. subst run.
  unfold extractJSONDependencies. rewrite Hend, (JSON_parse_value _ _ Hparse). cbn [negb].
  assert (Hsection : forall section v names,
             In section dependencySections ->
             (forall s, listed_packages (Json.JObject [(section, v)]) s
                        = if String.eqb section s then names else []) ->
             (let '(deps0, thrown) :=
                json_sections filePath (Json.JObject [(section, v)]) dependencySections deps in
              if thrown
              then (console_error ("Error parsing JSON in " +:+ filePath +:+ ":") ;;;
                    ret deps0)
              else ret deps0) env st
             = (deps ++ map (package_dependency filePath) names, st)).
  { intros section v names Hin Hlisted.
    rewrite json_sections_spec by discriminate. unfold ret. f_equal. f_equal.
    unfold dependencySections in *. cbn [flat_map]. rewrite !Hlisted.
    destruct Hin as [<-|[<-|[<-|[<-|[]]]]]; cbn; rewrite ?app_nil_r; reflexivity. }
  destruct packageJson as [| b | raw | s | xs | props]; try reflexivity.
  destruct props as [|[section v] rest]; [exact I|].
  destruct v as [| b | raw | s | xs | props]; destruct rest as [|more rest]; try exact I.
  - intros Hin. apply Hsection; [exact Hin|]. intros s0.
    unfold listed_packages, Json.get_prop. cbn [find fst snd option_map].
    destruct (String.eqb section s0); [|reflexivity].
    cbn [option_map snd Json.truthy Json.Object_entries].
    destruct (String.eqb s "") eqn:E.
    + apply String.eqb_eq in E. subst s. reflexivity.
    + cbn [negb]. rewrite indexed_keys, length_map. unfold index_names. f_equal. f_equal.
      clear. induction s as [|c s IH]; [reflexivity | cbn; rewrite IH; reflexivity].
  - intros Hin. apply Hsection; [exact Hin|]. intros s0.
    unfold listed_packages, Json.get_prop. cbn [find fst snd option_map].
    destruct (String.eqb section s0); [|reflexivity].
    cbn [option_map snd Json.truthy Json.Object_entries].
    rewrite indexed_keys. reflexivity.
Qed.

Lemma extractJSONDependencies_odd_manifests_witness :
  let content := dq "{'dependencies': ['lodash', 'react']}" in
  let packageJson :=
    Json.JObject [("dependencies", Json.JArray [Json.JString "lodash"; Json.JString "react"])] in
  JS.endsWith "/p/package.json" "package.json" = true
  /\ Json.parse content = Some packageJson
  /\ extractJSONDependencies "/p/package.json" content [] small_disk fresh
     = ([package_dependency "/p/package.json" "0"; package_dependency "/p/package.json" "1"],
        fresh).
Proof.
  intros content packageJson.
  assert (H1 : JS.endsWith "/p/package.json" "package.json" = true) by reflexivity.
  assert (H2 : Json.parse content = Some packageJson) by (vm_compute; reflexivity).
  split; [exact H1|]. split; [exact H2|].
  exact (extractJSONDependencies_odd_manifests "/p/package.json" content packageJson []
           small_disk fresh H1 H2 (or_introl eq_refl)).
Defined.

(** ** The extractors against the table of their loops *)

Lemma for_each_flat_map {A} (f : Env -> A -> list Dependency.t) (xs : list A) body :
  (forall x deps env st, fst (body x deps env st) = deps ++ f env x) ->
  forall deps env st,
    fst (for_each xs body deps env st) = deps ++ flat_map (f env) xs.
Proof.
  intros Hbody. induction xs as [|x xs IH]; intros deps env st; simpl.
  - rewrite app_nil_r. reflexivity.
  - unfold bind. specialize (Hbody x deps env st).
    destruct (body x deps env st) as [deps' st']. simpl in Hbody. subst deps'.
    rewrite IH, <- app_assoc. reflexivity.
Qed.

Lemma flat_map_kept {A B} (keep : A -> bool) (d : A -> B) (xs : list A) :
  flat_map (fun x => if keep x then [d x] else []) xs = map d (List.filter keep xs).
Proof.
  induction xs as [|x xs IH]; simpl; [reflexivity|].
  destruct (keep x); simpl; rewrite IH; reflexivity.
Qed.


Lemma loop_run (l : Loop) body fp content :
  (forall m deps env st, fst (body m deps env st) = deps ++ pushed fp content l env m) ->
  forall deps env st,
    fst (for_each (Regex.matchAll (loop_pattern l) content) body deps env st)
    = deps ++ loop_dependencies fp content env l.
Proof.
  intros Hbody deps env st.
  rewrite (for_each_flat_map (pushed fp content l) _ body Hbody).
  unfold pushed, loop_dependencies. rewrite flat_map_kept. reflexivity.
Qed.

Lemma push_resolved_pushed fp content l m deps env st :
  loop_skips l (Regex.group m (loop_group l)) = false ->
  fst (push_resolved fp content (loop_type l) (Regex.group m (loop_group l)) m
         (loop_external l (Regex.group m (loop_group l))) deps env st)
  = deps ++ pushed fp content l env m.
Proof.
  intros Hkeep. rewrite push_resolved_value. unfold pushed, dependency_of.
  rewrite Hkeep. cbn [negb].
  rewrite (resolveImportPath_state_independent fp _ env st fresh). reflexivity.
Qed.

Lemma skipped_pushed fp content l m deps env :
  loop_skips l (Regex.group m (loop_group l)) = true ->
  deps = deps ++ pushed fp content l env m.
Proof.
  intros Hskip. unfold pushed. rewrite Hskip. cbn [negb]. rewrite app_nil_r. reflexivity.
Qed.

Lemma js_import_body_pushed r fp content m deps env st :
  fst (js_import_body fp content m deps env st)
  = deps ++ pushed fp content
              (mkLoop r 1 DependencyType.Import_ isExternalDependency (fun _ => false)) env m.
Proof.
  unfold js_import_body, shouldProcessExternalDependency. cbv zeta.
  destruct (isExternalDependency (Regex.group m 1)) eqn:He; cbn [negb andb].
  - unfold ret. cbn [fst]. apply skipped_pushed. exact He.
  - apply (push_resolved_pushed fp content
             (mkLoop r 1 DependencyType.Import_ isExternalDependency (fun _ => false))).
    exact He.
Qed.

Lemma js_reference_body_pushed fp content m deps env st :
  fst (js_reference_body fp content m deps env st)
  = deps ++ pushed fp content
              (mkLoop Patterns.referencePattern 1 DependencyType.Reference
                 (fun _ => false) (fun _ => false)) env m.
Proof.
  unfold js_reference_body. cbv zeta.
  apply (push_resolved_pushed fp content
           (mkLoop Patterns.referencePattern 1 DependencyType.Reference
              (fun _ => false) (fun _ => false))).
  reflexivity.
Qed.

Lemma html_body_pushed r fp content m deps env st :
  fst (html_body fp content m deps env st)
  = deps ++ pushed fp content
              (mkLoop r 1 DependencyType.HtmlLink
                 (fun src => JS.startsWith src "data:" || JS.startsWith src "http")
                 isExternalDependency) env m.
Proof.
  unfold html_body, shouldProcessExternalDependency. cbv zeta.
  cbn [negb]. rewrite andb_true_r.
  destruct (JS.startsWith (Regex.group m 1) "data:" || JS.startsWith (Regex.group m 1) "http")
    eqn:He.
  - unfold ret. cbn [fst]. apply skipped_pushed. exact He.
  - apply (push_resolved_pushed fp content
             (mkLoop r 1 DependencyType.HtmlLink
                (fun src => JS.startsWith src "data:" || JS.startsWith src "http")
                isExternalDependency)).
    exact He.
Qed.

Lemma css_import_body_pushed fp content m deps env st :
  fst (css_import_body fp content m deps env st)
  = deps ++ pushed fp content
              (mkLoop Patterns.cssImportPattern 1 DependencyType.StyleImport
                 (fun p => JS.startsWith p "http" || JS.startsWith p "data:")
                 isExternalDependency) env m.
Proof.
  unfold css_import_body, shouldProcessExternalDependency. cbv zeta.
  cbn [negb]. rewrite andb_true_r.
  destruct (JS.startsWith (Regex.group m 1) "http" || JS.startsWith (Regex.group m 1) "data:")
    eqn:He.
  - unfold ret. cbn [fst]. apply skipped_pushed. exact He.
  - apply (push_resolved_pushed fp content
             (mkLoop Patterns.cssImportPattern 1 DependencyType.StyleImport
                (fun p => JS.startsWith p "http" || JS.startsWith p "data:")
                isExternalDependency)).
    exact He.
Qed.

Lemma css_url_body_pushed fp content m deps env st :
  fst (css_url_body fp content m deps env st)
  = deps ++ pushed fp content
              (mkLoop Patterns.cssUrlPattern 1 DependencyType.StyleImport
                 (fun p => JS.startsWith p "http" || JS.startsWith p "data:"
                           || JS.startsWith p "#")
                 isExternalDependency) env m.
Proof.
  unfold css_url_body. cbv zeta.
  destruct (JS.startsWith (Regex.group m 1) "http" || JS.startsWith (Regex.group m 1) "data:"
            || JS.startsWith (Regex.group m 1) "#") eqn:He.
  - unfold ret. cbn [fst]. apply skipped_pushed. exact He.
  - apply (push_resolved_pushed fp content
             (mkLoop Patterns.cssUrlPattern 1 DependencyType.StyleImport
                (fun p => JS.startsWith p "http" || JS.startsWith p "data:"
                          || JS.startsWith p "#")
                isExternalDependency)).
    exact He.
Qed.

Lemma md_image_body_pushed fp content m deps env st :
  fst (md_image_body fp content m deps env st)
  = deps ++ pushed fp content
              (mkLoop Patterns.mdImagePattern 2 DependencyType.Reference
                 (fun p => JS.startsWith p "http") (fun _ => false)) env m.
Proof.
  unfold md_image_body. cbv zeta.
  destruct (JS.startsWith (Regex.group m 2) "http") eqn:He.
  - unfold ret. cbn [fst]. apply skipped_pushed. exact He.
  - apply (push_resolved_pushed fp content
             (mkLoop Patterns.mdImagePattern 2 DependencyType.Reference
                (fun p => JS.startsWith p "http") (fun _ => false))).
    exact He.
Qed.

Lemma md_link_body_pushed fp content m deps env st :
  fst (md_link_body fp content m deps env st)
  = deps ++ pushed fp content
              (mkLoop Patterns.mdLinkPattern 2 DependencyType.Reference
                 (fun p => JS.startsWith p "http" || JS.startsWith p "#"
                           || JS.includes p "@")
                 (fun _ => false)) env m.
Proof.
  unfold md_link_body. cbv zeta.
  destruct (JS.startsWith (Regex.group m 2) "http" || JS.startsWith (Regex.group m 2) "#"
            || JS.includes (Regex.group m 2) "@") eqn:He.
  - unfold ret. cbn [fst]. apply skipped_pushed. exact He.
  - apply (push_resolved_pushed fp content
             (mkLoop Patterns.mdLinkPattern 2 DependencyType.Reference
                (fun p => JS.startsWith p "http" || JS.startsWith p "#"
                          || JS.includes p "@")
                (fun _ => false))).
    exact He.
Qed.

(** Two loops one after the other. *)
Lemma then_loop {A} (xs : list A) body (k : list Dependency.t -> M (list Dependency.t))
  (pushed1 pushed2 : Env -> list Dependency.t) :
  (forall deps env st, fst (for_each xs body deps env st) = deps ++ pushed1 env) ->
  (forall deps env st, fst (k deps env st) = deps ++ pushed2 env) ->
  forall deps env st,
    fst (bind (for_each xs body deps) k env st) = deps ++ pushed1 env ++ pushed2 env.
Proof.
  intros H1 H2 deps env st. unfold bind. specialize (H1 deps env st).
  destruct (for_each xs body deps env st) as [deps1 st1]. cbn [fst] in H1. subst deps1.
  rewrite H2, <- app_assoc. reflexivity.
Qed.

Lemma extractJavaScriptDependencies_extracted fp content deps env st :
  fst (extractJavaScriptDependencies fp content deps env st)
  = deps ++ extracted FileType.JavaScript fp content env.
Proof.
  unfold extractJavaScriptDependencies. cbv zeta.
  rewrite (then_loop _ _ _
             (fun env => flat_map
                (pushed fp content
                   (mkLoop Patterns.importPattern 1 DependencyType.Import_
                      isExternalDependency (fun _ => false)) env)
                (Regex.matchAll Patterns.importPattern content
                 ++ Regex.matchAll Patterns.requirePattern content
                 ++ Regex.matchAll Patterns.dynamicImportPattern content))
             (fun env => loop_dependencies fp content env
                (mkLoop Patterns.referencePattern 1 DependencyType.Reference
                   (fun _ => false) (fun _ => false)))).
  - f_equal. unfold extracted, loops. cbn [flat_map]. rewrite app_nil_r.
    rewrite !flat_map_app, <- !app_assoc. unfold loop_dependencies, pushed.
    rewrite !flat_map_kept. reflexivity.
  - intros deps0 env0 st0. apply for_each_flat_map.
    intros m d e s. apply js_import_body_pushed.
  - intros deps0 env0 st0.
    apply (loop_run (mkLoop Patterns.referencePattern 1 DependencyType.Reference
                       (fun _ => false) (fun _ => false))).
    intros m d e s. apply js_reference_body_pushed.
Qed.

Lemma extractHTMLDependencies_extracted fp content deps env st :
  fst (extractHTMLDependencies fp content deps env st)
  = deps ++ extracted FileType.HTML fp content env.
Proof.
  unfold extractHTMLDependencies. cbv zeta.
  pose (skips := fun src => JS.startsWith src "data:" || JS.startsWith src "http").
  pose (l := fun r => mkLoop r 1 DependencyType.HtmlLink skips isExternalDependency).
  rewrite (then_loop _ _ _
             (fun env => loop_dependencies fp content env (l Patterns.scriptPattern))
             (fun env => loop_dependencies fp content env (l Patterns.linkPattern)
                         ++ loop_dependencies fp content env (l Patterns.imgPattern))).
  - f_equal. unfold extracted, loops. cbn [flat_map]. rewrite app_nil_r. reflexivity.
  - intros deps0 env0 st0. apply (loop_run (l Patterns.scriptPattern)).
    intros m d e s. apply html_body_pushed.
  - intros deps0 env0 st0.
    apply (then_loop _ _ _
             (fun env => loop_dependencies fp content env (l Patterns.linkPattern))
             (fun env => loop_dependencies fp content env (l Patterns.imgPattern))).
    + intros deps1 env1 st1. apply (loop_run (l Patterns.linkPattern)).
      intros m d e s. apply html_body_pushed.
    + intros deps1 env1 st1. apply (loop_run (l Patterns.imgPattern)).
      intros m d e s. apply html_body_pushed.
Qed.

Lemma extractCSSDependencies_extracted fp content deps env st :
  fst (extractCSSDependencies fp content deps env st)
  = deps ++ extracted FileType.CSS fp content env.
Proof.
  unfold extractCSSDependencies. cbv zeta.
  rewrite (then_loop _ _ _
             (fun env => loop_dependencies fp content env
                (mkLoop Patterns.cssImportPattern 1 DependencyType.StyleImport
                   (fun p => JS.startsWith p "http" || JS.startsWith p "data:")
                   isExternalDependency))
             (fun env => loop_dependencies fp content env
                (mkLoop Patterns.cssUrlPattern 1 DependencyType.StyleImport
                   (fun p => JS.startsWith p "http" || JS.startsWith p "data:"
                             || JS.startsWith p "#")
                   isExternalDependency))).
  - f_equal. unfold extracted, loops. cbn [flat_map]. rewrite app_nil_r. reflexivity.
  - intros deps0 env0 st0.
    apply (loop_run (mkLoop Patterns.cssImportPattern 1 DependencyType.StyleImport
                       (fun p => JS.startsWith p "http" || JS.startsWith p "data:")
                       isExternalDependency)).
    intros m d e s. apply css_import_body_pushed.
  - intros deps0 env0 st0.
    apply (loop_run (mkLoop Patterns.cssUrlPattern 1 DependencyType.StyleImport
                       (fun p => JS.startsWith p "http" || JS.startsWith p "data:"
                                 || JS.startsWith p "#")
                       isExternalDependency)).
    intros m d e s. apply css_url_body_pushed.
Qed.

Lemma extractMarkdownDependencies_extracted fp content deps env st :
  fst (extractMarkdownDependencies fp content deps env st)
  = deps ++ extracted FileType.Markdown fp content env.
Proof.
  unfold extractMarkdownDependencies. cbv zeta.
  rewrite (then_loop _ _ _
             (fun env => loop_dependencies fp content env
                (mkLoop Patterns.mdImagePattern 2 DependencyType.Reference
                   (fun p => JS.startsWith p "http") (fun _ => false)))
             (fun env => loop_dependencies fp content env
                (mkLoop Patterns.mdLinkPattern 2 DependencyType.Reference
                   (fun p => JS.startsWith p "http" || JS.startsWith p "#"
                             || JS.includes p "@")
                   (fun _ => false)))).
  - f_equal. unfold extracted, loops. cbn [flat_map]. rewrite app_nil_r. reflexivity.
  - intros deps0 env0 st0.
    apply (loop_run (mkLoop Patterns.mdImagePattern 2 DependencyType.Reference
                       (fun p => JS.startsWith p "http") (fun _ => false))).
    intros m d e s. apply md_image_body_pushed.
  - intros deps0 env0 st0.
    apply (loop_run (mkLoop Patterns.mdLinkPattern 2 DependencyType.Reference
                       (fun p => JS.startsWith p "http" || JS.startsWith p "#"
                                 || JS.includes p "@")
                       (fun _ => false))).
    intros m d e s. apply md_link_body_pushed.
Qed.

Lemma extract_by_type_extracted file content deps env st :
  FileInfo.type file <> FileType.JSON ->
  fst (extract_by_type file content deps env st)
  = deps ++ extracted (FileInfo.type file) (FileInfo.path file) content env.
Proof.
  intros Hty. unfold extract_by_type.
  destruct (FileInfo.type file); try congruence.
  - apply extractJavaScriptDependencies_extracted.
  - apply extractJavaScriptDependencies_extracted.
  - apply extractHTMLDependencies_extracted.
  - apply extractCSSDependencies_extracted.
  - apply extractMarkdownDependencies_extracted.
  - unfold ret, extracted. cbn. rewrite app_nil_r. reflexivity.
  - unfold ret, extracted. cbn. rewrite app_nil_r. reflexivity.
Qed.

(** X24. A file that is not a manifest, is not skipped and whose
    content is at hand, analysed for the first time: the result is the
    table of the loops of its type read over the content. Each loop
    gives, in the order of the matches of its pattern, one dependency
    for each match whose reference it does not pass over: from the
    file, to the resolution of the reference, with the line numbers of
    the matched text. The loops follow one another as in the source, so
    the dependencies are grouped by pattern and not by their place in
    the text. *)
Theorem analyzeDependencies_extracted file env st content :
  dependencyCache st !! FileInfo.path file = None ->
  skipped file = false ->
  FileInfo.type file <> FileType.JSON ->
  content_of file env = Some content ->
  fst (analyzeDependencies file env st)
  = extracted (FileInfo.type file) (FileInfo.path file) content env.
Proof.
  intros Hmiss Hskip Hty Hcontent.
  rewrite (analyzeDependencies_loaded file env st Hmiss Hskip), Hcontent.
  pose proof (extract_by_type_extracted file content [] env
                (mkState (dependencyCache st) (events st ++ load_events file)) Hty) as H.
  destruct (extract_by_type file content [] env _) as [deps st2].
  cbn [fst] in H |- *. exact H.
Qed.

Lemma analyzeDependencies_extracted_witness :
  let file := plain_file "/p/a.ts" FileType.TypeScript 19 None in
  let content := "import x from './b'" in
  (dependencyCache fresh !! FileInfo.path file = None
   /\ skipped file = false
   /\ FileInfo.type file <> FileType.JSON
   /\ content_of file small_disk = Some content)
  /\ fst (analyzeDependencies file small_disk fresh)
     = extracted (FileInfo.type file) (FileInfo.path file) content small_disk
  /\ extracted FileType.TypeScript "/p/a.ts" content small_disk
     = [Dependency.mk "/p/a.ts" "/p/b.ts" DependencyType.Import_ (Some [0%nat]) false].
Proof.
  cbv zeta. split; [|split].
  - repeat split; try reflexivity. discriminate.
  - apply analyzeDependencies_extracted;
      [reflexivity | reflexivity | discriminate | reflexivity].
  - vm_compute. reflexivity.
Defined.
